(* ===== verification/_CoqProject ===== *)
-Q . S2P
Prelude.v
Types.v
DeepCopy.v
DeepCopyProps.v
Enforcer.v
EnforcerProps.v
EnforcerTypes.v
Objects.v
Scaling.v
GoFloat.v
Json.v
JsonProps.v
GoTime.v
Cluster.v
Http.v
PromQL.v
Metrics.v
MetricsProps.v
Registry.v
RegistryJson.v
McpClient.v
McpClientProps.v
Registrar.v
RefWorld.v
RegistryProps.v
RegistryRest.v
Mux.v
RegistrarProps.v
Clients.v
Webhook.v
Canary.v
CanaryProps.v
CanaryLiveness.v
QuotaController.v
Ledger.v
LedgerHandlers.v
AgentReconciler.v
AgentReconcilerProps.v
Tracing.v
Setup.v
Logging.v
CommandLine.v
Serving.v
StatusMemory.v
Schema.v
Roles.v
Frames.v
Rbac.v
Discovery.v
Requeue.v
