(* ===== verification/Prelude.v ===== *)
(** * Agentrax: a verification of the operator's core

    Agentrax is a Kubernetes operator for AI agents.  Users write
    AgentDeployment and TenantQuota objects; the operator admits them against
    the tenant's quota, deploys them, rolls new images out as canaries judged by
    Prometheus metrics, scales them within the quota, and keeps a registry of
    the agents that speak MCP.  This library models the Go code under [src/] and
    proves what it promises.

    ** The program and the files that model it

    - API types ([src/api/v1alpha1/]): [Types.v], records with the source's
      fields, phases and conditions; [SetCondition] and friends of
      [internal/controller/conditions.go].  [ParseErrorRate] of [error_rate.go]
      is in [GoFloat.v], over binary64 numbers and [strconv.ParseFloat].  The
      validation markers of the types are predicates in [Schema.v].
    - Generated deep copies ([zz_generated.deepcopy.go]): [DeepCopy.v], the types
      with pointers and slices into a heap of Go cells and the copy of each;
      theorems in [DeepCopyProps.v].  [StatusMemory.v] runs the two places that
      compare a status with such a copy on that heap.
    - The standard library the code uses: [GoFloat.v] (binary64, [strconv]),
      [Json.v] ([encoding/json]: parser, printer, UTF-8, struct decoding) with
      its theory in [JsonProps.v], [GoTime.v] (the calendar, RFC 3339,
      [time.Duration] texts and [time.ParseDuration]) and [Http.v] (query
      escaping, URLs, requests and limited reads over the class [HTTPClient]).
    - Quota enforcer ([internal/quota/enforcer.go]): [Enforcer.v]; theorems in
      [EnforcerProps.v] and [EnforcerTypes.v].  The in-flight reservations are a finite map; every
      method that holds the mutex is one function on the state.
    - Autoscaler ([internal/scaling/autoscaler.go]): [Scaling.v].
    - Kubernetes objects the operator builds: [Objects.v].
    - The outside world: [Cluster.v] has the API server behind
      controller-runtime's client ([KubeClient]: an object store, and calls that
      may fail at any time), its documented behaviour as laws ([KubeLaws]), and
      the typed calls the code uses ([Get], [List], [Update], [StatusUpdate],
      [CreateOrUpdate], ...) with their specifications.
    - Canary metrics ([internal/rollout/promql.go]): [PromQL.v], the query texts,
      [promDuration], [Evaluate]; the metrics client is the class [Prometheus].
    - Prometheus client ([internal/metrics/prometheus.go]): [Metrics.v], the
      instance of that class over HTTP; theorems in [MetricsProps.v].
    - Admission webhook ([internal/webhook/agentdeployment_webhook.go]):
      [Webhook.v].
    - MCP registry ([internal/registry/registry.go]): [Registry.v], with the REST
      handlers and the ConfigMap persistence; theorems in [RegistryProps.v].  The
      JSON of its state and entries is [RegistryJson.v], the REST bodies as text
      [RegistryRest.v], and the [http.ServeMux] in front of them [Mux.v].
    - MCP handshake client ([mcp_client.go]): [McpClient.v]; theorems in
      [McpClientProps.v].
    - MCP registrar ([mcp_registrar.go]): [Registrar.v]; theorems in
      [RegistrarProps.v].  [AgentRegistrar] is the interface the controllers see;
      the registrar is its instance, and [Registrar_laws] discharges what their
      proofs assume of it.  [Clients.v] runs registrar and evaluator over the two
      HTTP clients.
    - Canary controller ([internal/rollout/canary.go]): [Canary.v]; theorems in
      [CanaryProps.v], termination of rollouts in [CanaryLiveness.v], when the
      work queue is asked for the next visit in [Requeue.v].
    - TenantQuota reconciler and watch mappings
      ([tenantquota_controller.go], [enqueue_handlers.go]): [QuotaController.v].
      [Ledger.v] puts webhook, enforcer, reconciler and API server together: the
      account of one tenant as a step relation; [LedgerHandlers.v] has the handlers
      as its steps.
    - AgentDeployment reconciler ([agentdeployment_controller.go],
      [crd_check.go]): [AgentReconciler.v]; theorems in [AgentReconcilerProps.v].
      [Tracing.v] has the reconcile once more with its OpenTelemetry spans and
      duration histogram; [Discovery.v] follows the registry entry of an agent
      through a rollout.
    - The process ([cmd/main.go], [observability/tracing.go]): [Setup.v]; its
      command line as the [flag] package parses it: [CommandLine.v]; log levels
      and loggers ([observability/logging.go]): [Logging.v]; the registry server
      and the goroutine that shuts it down: [Serving.v].
    - Access control (the RBAC markers of [cmd/main.go] and
      [internal/controller], the scheme): [Roles.v], and in [Rbac.v] a client that
      records every access of the handlers.  [Frames.v] is the theory behind it:
      a preorder on worlds that every call of the clients respects is respected
      by every handler; [Rbac.v] instantiates it with the granted accesses,
      [Discovery.v] with an unchanged registry, [Requeue.v] with the clock.
    - [RefWorld.v] is an executable world that satisfies every law above: an API
      server over a finite map with optimistic concurrency, a clock, scripted
      metrics and handshakes.  The witnesses run the handlers in it.

    This file has what they share: Go integers with their wrap-around, strings,
    errors that wrap errors, the state-and-error monad [Proc], and sums over
    lists and maps.

    ** How code becomes definitions

    A method that talks to the cluster is a procedure [Proc W A]: it runs in a
    world and returns an error or a value with the new world; an error does not
    undo earlier writes.  [m <?> ctx] is [fmt.Errorf("ctx: %w", err)], [try]
    makes the error a value.  [int32], [int64] and [time.Duration] are integers
    with their wrap-around written out; times are nanoseconds, stored in the
    cluster with second resolution.  A pointer that may be nil is an option, a
    map is a [gmap], and an object that the code mutates through a pointer is
    passed on as a new value; that this loses nothing where the code compares an
    object with an earlier copy of itself is what [StatusMemory.v] shows.  The
    shared enforcer, registry and registrar are cells of the world.  Concurrency
    is interleaving of whole critical sections: [EnforcerProps.v], [Ledger.v],
    [RegistryProps.v] and [Serving.v] have step relations over them.

    ** What is proved

    - Quota: no interleaving of admissions, releases and sweeps overcommits a
      quota, and the agents that end up in the cluster, created or grown by
      updates, stay within every ceiling ([cluster_never_overcommitted];
      [handlers_keep_ledger] ties its steps to the handlers).  There a reconcile is
      its listing, its releases and its status write, with other steps in
      between, and the steps have side conditions: no edit of the quota spec, no
      reservation that lapses before its agent is listed, updates only of agents
      counted as stored, no release for an update that was not listed, and no
      admission between listing and status write when the usage rises.  The rules,
      the dry run and shrinking updates; the decisions and reservations of the
      enforcer are those of the rules over unbounded integers
      ([enforcer_well_typed]); the usage, verdict and gauge the reconciler
      publishes; the HPA ceilings of a tenant fit its budget.
    - Admission: a create or update is admitted exactly when it is well formed
      and fits, and then reserved; defaulting is idempotent.
    - Rollout: a step keeps the state-machine invariant; a pause advances only on
      a healthy evaluation or after the bounded extension, and is always over
      after fifteen minutes; traffic is split as declared; rollback and promotion
      leave the cluster as documented; evaluation is sound for its thresholds;
      and every rollout ends, within a number of visits computed from its steps
      ([rollout_terminates]), each of which asks for the next
      ([agent_is_revisited]).
    - Clients: a query sends exactly its PromQL text and returns the one number of
      the answer, anything else is an error, and the evaluator over HTTP decides
      on the measured numbers; a canary without series is asked for more samples
      and one without rate or latency is an error
      ([unmeasured_canary_not_judged]); a handshake returns the tools an agent
      advertises, and a body that is no JSON or does not decode is an error.
    - Registry: in any number of replicas that share the state ConfigMap list and
      lookup agree, entries live exactly their TTL, every REST request does
      exactly what its route says ([Handler_refines_registry]), registrations
      survive a restart, the stored JSON is read back exactly, an agent that posts
      itself is discovered through the routes of the server, a heartbeat removes an
      agent exactly when three probes in a row failed, and heartbeats come before
      expiry.
    - Reconciler: children converge to the spec, a rollout starts cleanly,
      deletion deregisters first, status and registration tell the truth, the
      selectors of the variants are disjoint; objects that satisfy the schema
      stay so and no reconcile panics ([reconcile_keeps_schema]).
    - Memory: every generated copy is equal to its original and shares no cell
      with it, so the status updates are written exactly when something changed.
    - Process: the command line is read as its grammar says and every
      configuration can be written ([command_line_correct]); it starts only when
      every part registered, and the parts hold the same enforcer, registrar and
      registry objects ([startup_consistent], on a memory with addresses) and
      agree on the namespace; every access it makes of the API
      server is granted by the role of its markers ([operator_authorized]); the
      registry server ends when the manager stops and accepts no connection then.
    - Telemetry: the instrumented reconcile does what the reconcile does, and on
      every way out it has started and ended a span for exactly the phases it
      entered, failed phases carry the error that is returned, and the duration
      is observed once ([telemetry_complete]).
    - Where the code departs from its intent the theorems say so: the failed image
      of a rollback is redeployed and the rollout restarted
      ([failed_image_redeployed]; [operator_end_to_end] is a run of it); the canary Service is
      not scraped; sub-millisecond pauses always fail; NaN passes thresholds;
      reservations leak across tenants and are overwritten by updates; an
      admission between the two phases of a quota reconcile, or an update that is
      admitted but not stored, overcommits ([overlapping_reconcile_overcommits]),
      and so does the negative reservation of a shrinking update
      ([shrinking_update_overcommits]);
      an agent in a rollout sends no heartbeats and drops out of discovery
      ([rollout_loses_registration]);
      a pause of zero can panic ([zero_pause_panics]); the registry server does
      not wait for its requests ([start_returns_before_drained]); the step of a
      range query is no Prometheus duration; a deleted quota takes the usage
      series of its namespace with it.

    ** Hypotheses, bounds, omissions

    What the code relies on from outside is the laws of the classes: apimachinery
    conditions ([ConditionsLaws]; on memory [MemoryConditionsLaws]), the deep
    copies of library types ([LibCopiesLaws]), the API server ([KubeLaws]), that
    its client and the others do not panic ([NoPanics]), and that reading
    metrics or probing an agent does not write to the cluster.  Theorems about the
    HTTP clients are stated against a server that answers as the Prometheus and
    MCP protocols say ([PrometheusServer], [MCPAgent], whose answers may also be
    errors, other JSON, garbage or a broken connection); that [or vector(0)] turns
    an empty answer into 0 is a hypothesis of the theorem that needs it.  Theorems about the
    registry take its JSON as a class with a round-trip law; [codec_laws] proves
    the law for the JSON of [RegistryJson.v], and the witnesses run with it.
    Theorems about runs say "if the call returns without error" because the API
    server may refuse any call; the witnesses and [operator_end_to_end] show runs
    that do return.

    Fuel: the JSON parser takes twice the length of the text plus two, as every
    value, member and element consumes a character and nests at most two calls
    deep ([parse_value_total]: it is always enough); the loop of
    [time.ParseDuration] takes the length of the text ([duration_parts_fuel]); the
    retry on conflict is bounded by the library (five attempts).

    Two theorems take a frame as hypothesis: that the clients leave the registry
    alone ([CallFrame same_registry]) and that time does not go back during a call
    ([CallFrame later]); both hold in [RefWorld.v].

    Not modelled: the text of log lines and of usage messages; the HTTP transport,
    response headers and the texts of the answers that [http.ServeMux] gives
    itself (redirect, 404, 405); the registration calls into controller-runtime
    and its work queue, of which the program only sees the requests of
    [Requeue.v]; the test utilities of [src/test], which run shell commands.  The
    JSON of the API types is written and read by the API server and by
    controller-runtime, not by this program; objects are exchanged as values.  A
    [null] entry in the stored registry state, which the registry never writes,
    is refused by the model where the program would keep a nil pointer.  The
    ledger follows one tenant; the updates it leaves out, those of an agent that
    is not published yet, those that shrink one and those that move it to another
    tenant, are the subject of [noop_update_drops_create_reservation] and
    [shrinking_update_overcommits]. *)
From stdpp Require Export base gmap strings list pretty numbers.
From Stdlib Require Export ZArith Lia.

#[global] Open Scope Z_scope.

(** * Machine integers

    Go's [int32], [int64] (also [int] and [time.Duration] on the supported
    platforms) are integers [Z] together with the wrap-around written out. *)

Definition wrapZ (w z : Z) : Z := (z + 2 ^ (w - 1)) mod 2 ^ w - 2 ^ (w - 1).

Definition MaxInt32 : Z := 2147483647.
Definition MinInt32 : Z := -2147483648.
Definition MaxInt64 : Z := 9223372036854775807.
Definition MinInt64 : Z := -9223372036854775808.

(** Conversion to, and hence arithmetic in, [int32] and [int64]. *)
Definition int32 (z : Z) : Z := wrapZ 32 z.
Definition int64 (z : Z) : Z := wrapZ 64 z.

Definition is_int32 (z : Z) : Prop := MinInt32 ≤ z ≤ MaxInt32.
Definition is_int64 (z : Z) : Prop := MinInt64 ≤ z ≤ MaxInt64.

Definition is_int32b (z : Z) : bool := (MinInt32 <=? z) && (z <=? MaxInt32).

(** [t.Sub(u)] for instants in nanoseconds: saturates at the ends of [int64]. *)
Definition time_Sub (t u : Z) : Z := Z.max MinInt64 (Z.min MaxInt64 (t - u)).

(** Go's [/] and [%] truncate towards zero. *)
Definition go_div (a b : Z) : Z := Z.quot a b.
Definition go_rem (a b : Z) : Z := Z.rem a b.

(** Units of [time.Duration]. *)
Definition Nanosecond : Z := 1.
Definition Millisecond : Z := 1000000.
Definition Second : Z := 1000000000.
Definition Minute : Z := 60 * Second.
Definition Hour : Z := 60 * Minute.

Lemma int32_id z : is_int32 z → int32 z = z.
Proof.
  unfold is_int32, int32, wrapZ, MinInt32, MaxInt32; intros.
  change (2 ^ (32 - 1)) with 2147483648; change (2 ^ 32) with 4294967296.
  rewrite Z.mod_small; lia.
Qed.

Lemma int64_id z : is_int64 z → int64 z = z.
Proof.
  unfold is_int64, int64, wrapZ, MinInt64, MaxInt64; intros.
  change (2 ^ (64 - 1)) with 9223372036854775808.
  change (2 ^ 64) with 18446744073709551616.
  rewrite Z.mod_small; lia.
Qed.

Lemma int32_range z : is_int32 (int32 z).
Proof.
  unfold is_int32, int32, wrapZ, MinInt32, MaxInt32.
  change (2 ^ (32 - 1)) with 2147483648; change (2 ^ 32) with 4294967296.
  pose proof (Z.mod_pos_bound (z + 2147483648) 4294967296). lia.
Qed.

Lemma int64_range z : is_int64 (int64 z).
Proof.
  unfold is_int64, int64, wrapZ, MinInt64, MaxInt64.
  change (2 ^ (64 - 1)) with 9223372036854775808.
  change (2 ^ 64) with 18446744073709551616.
  pose proof (Z.mod_pos_bound (z + 9223372036854775808) 18446744073709551616).
  lia.
Qed.

(** Wrapping an intermediate result is absorbed by the final wrap: the
    equation behind every order-independence argument on Go counters. *)
Lemma int32_add_l a b : int32 (int32 a + b) = int32 (a + b).
Proof.
  unfold int32, wrapZ. f_equal.
  replace ((a + 2 ^ (32 - 1)) mod 2 ^ 32 - 2 ^ (32 - 1) + b + 2 ^ (32 - 1))
    with ((a + 2 ^ (32 - 1)) mod 2 ^ 32 + b) by lia.
  rewrite Zplus_mod_idemp_l. f_equal; lia.
Qed.

Lemma int32_add_r a b : int32 (a + int32 b) = int32 (a + b).
Proof. rewrite Z.add_comm, int32_add_l. f_equal; lia. Qed.

Lemma is_int32b_spec z : is_int32b z = true ↔ is_int32 z.
Proof. unfold is_int32b, is_int32. rewrite andb_true_iff, !Z.leb_le. done. Qed.

(** * Proof automation *)

Create HintDb agentrax.
#[export] Hint Resolve int32_range int64_range : agentrax.
#[export] Hint Rewrite int32_add_l int32_add_r : agentrax.

(** [ints] proves the bounds of Go integers after unfolding their definitions. *)
Ltac ints :=
  unfold is_int32, is_int64, MaxInt32, MinInt32, MaxInt64, MinInt64 in *; lia.

(** Turn the boolean guards of the code into propositions. *)
Ltac zbool :=
  repeat match goal with
  | H : (_ && _)%bool = true |- _ => apply andb_true_iff in H as [? ?]
  | H : (_ || _)%bool = false |- _ => apply orb_false_iff in H as [? ?]
  | H : negb _ = true |- _ => apply negb_true_iff in H
  | H : negb _ = false |- _ => apply negb_false_iff in H
  | H : (_ <? _) = true |- _ => apply Z.ltb_lt in H
  | H : (_ <? _) = false |- _ => apply Z.ltb_ge in H
  | H : (_ <=? _) = true |- _ => apply Z.leb_le in H
  | H : (_ <=? _) = false |- _ => apply Z.leb_gt in H
  | H : (_ >? _) = _ |- _ => rewrite Z.gtb_ltb in H
  | H : (_ >=? _) = _ |- _ => rewrite Z.geb_leb in H
  | H : (_ =? _) = true |- _ => apply Z.eqb_eq in H
  | H : (_ =? _) = false |- _ => apply Z.eqb_neq in H
  | H : bool_decide _ = true |- _ => apply bool_decide_eq_true in H
  | H : bool_decide _ = false |- _ => apply bool_decide_eq_false in H
  end.

(** Case analysis on the next guard of a modelled function, in the goal or in
    the hypothesis that runs it. *)
Ltac branch := case_match; zbool; simplify_eq/=; try done.
Ltac branches := repeat (case_match; zbool; simplify_eq/=; try done).

(** * Strings *)

(** Go string equality, used where the source writes [==] or [!=]. *)
Definition str_eqb (a b : string) : bool := bool_decide (a = b).
Notation "a '=s?' b" := (str_eqb a b) (at level 70, no associativity).

Lemma str_eqb_true a b : (a =s? b) = true ↔ a = b.
Proof. unfold str_eqb. apply bool_decide_eq_true. Qed.
Lemma str_eqb_false a b : (a =s? b) = false ↔ a ≠ b.
Proof. unfold str_eqb. apply bool_decide_eq_false. Qed.
Lemma str_eqb_refl a : (a =s? a) = true.
Proof. by apply str_eqb_true. Qed.
#[export] Hint Rewrite str_eqb_refl : agentrax.

(** [fmt.Sprintf("%d", z)]. *)
Definition fmt_d (z : Z) : string := pretty z.

(** Byte strings: suffix and substring tests of package [strings]. *)
Fixpoint has_prefix (p s : string) : bool :=
  match p, s with
  | EmptyString, _ => true
  | String a p', String b s' => bool_decide (a = b) && has_prefix p' s'
  | String _ _, EmptyString => false
  end.

(** [strings.Contains(s, sub)]. *)
Fixpoint strings_Contains (s sub : string) : bool :=
  has_prefix sub s ||
  match s with
  | EmptyString => false
  | String _ s' => strings_Contains s' sub
  end.

(** [s[len(s)-1]] and [s[:len(s)-1]] of a non-empty string. *)
Fixpoint split_last (s : string) : option (string * Ascii.ascii) :=
  match s with
  | EmptyString => None
  | String a s' =>
      match split_last s' with
      | None => Some (EmptyString, a)
      | Some (i, l) => Some (String a i, l)
      end
  end.

Lemma app_nil_string s : s +:+ "" = s.
Proof. induction s as [|c s IH]; [done|]. by change (String c (s +:+ "") = String c s); rewrite IH. Qed.
Lemma app_assoc_string s t u : (s +:+ t) +:+ u = s +:+ t +:+ u.
Proof.
  induction s as [|c s IH]; [done|].
  by change (String c ((s +:+ t) +:+ u) = String c (s +:+ t +:+ u)); rewrite IH.
Qed.
Lemma app_cons_string c s t : String c s +:+ t = String c (s +:+ t).
Proof. done. Qed.

Lemma length_app_string a b : String.length (a +:+ b) = (String.length a + String.length b)%nat.
Proof. induction a as [|c a IH]; [done|]. rewrite app_cons_string. simpl. by rewrite IH. Qed.

(** Induction on the length of a text, for lexers that take several characters. *)
Lemma string_length_ind (P : string → Prop) :
  (∀ s, (∀ t, (String.length t < String.length s)%nat → P t) → P s) → ∀ s, P s.
Proof.
  intros H s. remember (String.length s) as n eqn:E. revert s E.
  induction n as [n IH] using lt_wf_ind. intros s ->. apply H. intros t Ht. by eapply IH.
Qed.

Lemma has_prefix_app p s : has_prefix p (p +:+ s) = true.
Proof.
  induction p as [|a p IH]; simpl; [by destruct s|].
  rewrite IH, bool_decide_true; done.
Qed.

Lemma strings_Contains_app a sub b : strings_Contains (a +:+ sub +:+ b) sub = true.
Proof.
  induction a as [|x a IH]; simpl.
  - destruct (sub +:+ b) as [|y t] eqn:E; simpl; rewrite <- E, has_prefix_app; done.
  - change (String.append a (sub +:+ b)) with (a +:+ sub +:+ b).
    rewrite IH. apply orb_true_r.
Qed.

(** * Errors

    Errors are values.  A Kubernetes API error carries the reason the client
    library classifies it by; [fmt.Errorf] with [%w] keeps the wrapped errors,
    which is what [errors.Is] and [apierrors.IsNotFound] walk. *)

Inductive apiReason :=
  | ReasonNotFound | ReasonAlreadyExists | ReasonConflict
  | ReasonInvalid | ReasonForbidden | ReasonUnknown.

#[export] Instance apiReason_eq_dec : EqDecision apiReason.
Proof. solve_decision. Defined.

Inductive error :=
  | ApiError (reason : apiReason) (msg : string)
  | PlainError (msg : string)
  | ErrHeartbeatDeregistered
  | Wrapped (msg : string) (causes : list error).

(** The [Error()] text of an error. *)
Definition Error (e : error) : string :=
  match e with
  | ApiError _ m => m
  | PlainError m => m
  | ErrHeartbeatDeregistered => "deregistered after consecutive heartbeat failures"
  | Wrapped m _ => m
  end.

(** [fmt.Errorf("ctx: %w", err)]. *)
Definition Errorf (ctx : string) (e : error) : error :=
  Wrapped (ctx +:+ ": " +:+ Error e) [e].

(** [apierrors.IsNotFound(err)]: looks through wrapped errors. *)
Fixpoint IsNotFound (e : error) : bool :=
  match e with
  | ApiError r _ => bool_decide (r = ReasonNotFound)
  | Wrapped _ es => existsb IsNotFound es
  | _ => false
  end.

(** [apierrors.IsConflict(err)]. *)
Fixpoint IsConflict (e : error) : bool :=
  match e with
  | ApiError r _ => bool_decide (r = ReasonConflict)
  | Wrapped _ es => existsb IsConflict es
  | _ => false
  end.

(** [errors.Is(err, registry.ErrHeartbeatDeregistered)]. *)
Fixpoint is_heartbeat_deregistered (e : error) : bool :=
  match e with
  | ErrHeartbeatDeregistered => true
  | Wrapped _ es => existsb is_heartbeat_deregistered es
  | _ => false
  end.

(** * Effectful code

    A procedure runs in a world [W] (the cluster, the clock, the metrics
    backend, the registry) and returns an error or a value with the new world.
    An error does not undo what was done before it. *)

Definition Proc (W A : Type) : Type := W → (error + A) * W.

#[export] Instance Proc_ret W : MRet (Proc W) := λ A a w, (inr a, w).
#[export] Instance Proc_bind W : MBind (Proc W) := λ A B f m w,
  match m w with
  | (inl e, w') => (inl e, w')
  | (inr a, w') => f a w'
  end.

Definition fail {W A} (e : error) : Proc W A := λ w, (inl e, w).

(** [if err != nil { return fmt.Errorf("ctx: %w", err) }]. *)
Definition wrap_err {W A} (ctx : string) (m : Proc W A) : Proc W A := λ w,
  match m w with
  | (inl e, w') => (inl (Errorf ctx e), w')
  | r => r
  end.

(** [v, err := m()]: the error becomes a value the code inspects. *)
Definition try {W A} (m : Proc W A) : Proc W (error + A) := λ w,
  match m w with (r, w') => (inr r, w') end.

Notation "m <?> ctx" := (wrap_err ctx m) (at level 59, left associativity).

Section proc_lemmas.
Context {W A B : Type}.
Implicit Types (m : Proc W A) (f : A → Proc W B) (w : W).

Lemma bind_inr m f w b w' :
  (m ≫= f) w = (inr b, w') →
  ∃ a w1, m w = (inr a, w1) ∧ f a w1 = (inr b, w').
Proof.
  unfold mbind, Proc_bind. destruct (m w) as [[e|a] w1]; [done|eauto].
Qed.

Lemma bind_inl m f w e w' :
  (m ≫= f) w = (inl e, w') →
  m w = (inl e, w') ∨ ∃ a w1, m w = (inr a, w1) ∧ f a w1 = (inl e, w').
Proof.
  unfold mbind, Proc_bind. destruct (m w) as [[e'|a] w1]; [|eauto].
  intros [= -> ->]; auto.
Qed.

Lemma bind_step m f w a w1 : m w = (inr a, w1) → (m ≫= f) w = f a w1.
Proof. unfold mbind, Proc_bind. by intros ->. Qed.

Lemma bind_fail m f w e w1 : m w = (inl e, w1) → (m ≫= f) w = (inl e, w1).
Proof. unfold mbind, Proc_bind. by intros ->. Qed.

Lemma wrap_err_inr ctx m w a w' :
  (m <?> ctx) w = (inr a, w') ↔ m w = (inr a, w').
Proof. unfold wrap_err. destruct (m w) as [[e|x] w1]; naive_solver. Qed.

Lemma wrap_err_inl ctx m w e w' :
  (m <?> ctx) w = (inl e, w') → ∃ e0, m w = (inl e0, w') ∧ e = Errorf ctx e0.
Proof. unfold wrap_err. destruct (m w) as [[e0|x] w1]; naive_solver. Qed.

Lemma wrap_err_fail ctx m w e w' : m w = (inl e, w') → (m <?> ctx) w = (inl (Errorf ctx e), w').
Proof. unfold wrap_err. by intros ->. Qed.

Lemma try_inv m w r w' :
  try m w = (r, w') → ∃ x, r = inr x ∧ m w = (x, w').
Proof. unfold try. destruct (m w) as [x w1]. intros [= <- <-]; eauto. Qed.

(** A relation on worlds that every call respects is respected by the whole. *)
Lemma bind_rel (R : W → W → Prop) m f w r w' :
  (∀ w1 w2 w3, R w1 w2 → R w2 w3 → R w1 w3) →
  (∀ x w1, m w = (x, w1) → R w w1) →
  (∀ a w1 y w2, m w = (inr a, w1) → f a w1 = (y, w2) → R w1 w2) →
  (m ≫= f) w = (r, w') → R w w'.
Proof.
  intros Ht Hm Hf. unfold mbind, Proc_bind. destruct (m w) as [[e|a] w1] eqn:E.
  - intros [= _ <-]. by eapply Hm.
  - intros Hr. eapply Ht; [by eapply Hm|by eapply Hf].
Qed.

Lemma wrap_err_rel (R : W → W → Prop) ctx m w r w' :
  (∀ x w1, m w = (x, w1) → R w w1) → (m <?> ctx) w = (r, w') → R w w'.
Proof.
  intros Hm. unfold wrap_err. destruct (m w) as [[e|a] w1] eqn:E; intros [= _ <-]; by eapply Hm.
Qed.

Lemma try_rel (R : W → W → Prop) m w r w' :
  (∀ x w1, m w = (x, w1) → R w w1) → try m w = (r, w') → R w w'.
Proof. intros Hm. unfold try. destruct (m w) as [x w1] eqn:E. intros [= _ <-]. by eapply Hm. Qed.
End proc_lemmas.

(** Run a hypothesis [prog w = (r, w')] forward, one call at a time. *)
Ltac run_step :=
  match goal with
  | H : (_ ≫= _) _ = (inr _, _) |- _ =>
      let a := fresh "a" in let w := fresh "w" in let E := fresh "E" in
      apply bind_inr in H as (a & w & E & H); cbv beta in H
  | H : (_ <?> _) _ = (inr _, _) |- _ => apply wrap_err_inr in H
  | H : try _ _ = _ |- _ =>
      let x := fresh "x" in let E := fresh "E" in
      apply try_inv in H as (x & E & H); first [discriminate E | injection E as ?; subst]
  | H : mret _ _ = (_, _) |- _ => unfold mret, Proc_ret in H; simplify_eq/=
  | H : fail _ _ = (_, _) |- _ => unfold fail in H; simplify_eq/=
  end.
Ltac run := repeat run_step.

(** * Lists *)

Lemma NoDup_fmap_filter {A B} (f : A → B) (P : A → Prop) `{∀ x, Decision (P x)} (l : list A) :
  NoDup (f <$> l) → NoDup (f <$> filter P l).
Proof.
  induction l as [|x l IH]; [done|]. rewrite fmap_cons, list.NoDup_cons, filter_cons.
  intros [Hno Hl]. case_decide; [|by apply IH].
  rewrite fmap_cons, list.NoDup_cons. split; [|by apply IH].
  intros (y & Hy & Hyl)%list_elem_of_fmap. apply Hno. rewrite Hy.
  apply list_elem_of_fmap_2. by apply list_elem_of_filter in Hyl as [_ ?].
Qed.

(** * Sums over lists and finite maps *)

Definition Zsum (l : list Z) : Z := foldr Z.add 0 l.

#[export] Instance Zsum_perm : Proper ((≡ₚ) ==> (=)) Zsum.
Proof. induction 1; simpl in *; lia. Qed.

Lemma Zsum_cons x l : Zsum (x :: l) = x + Zsum l.
Proof. done. Qed.

Lemma Zsum_fmap_cons {A} (f : A → Z) x l : Zsum (f <$> x :: l) = f x + Zsum (f <$> l).
Proof. done. Qed.

Lemma Zsum_app l k : Zsum (l ++ k) = Zsum l + Zsum k.
Proof. induction l; simpl; lia. Qed.

Lemma Zsum_nonneg l : Forall (λ z, 0 ≤ z) l → 0 ≤ Zsum l.
Proof. induction 1; simpl; lia. Qed.

Section Zsum_fmap.
Context {A : Type} (f : A → Z).
Implicit Types (l : list A).

Lemma Zsum_fmap_nonneg l : Forall (λ x, 0 ≤ f x) l → 0 ≤ Zsum (f <$> l).
Proof. intros Hl. apply Zsum_nonneg. by apply Forall_fmap. Qed.

Lemma Zsum_fmap_le (g : A → Z) l :
  Forall (λ x, f x ≤ g x) l → Zsum (f <$> l) ≤ Zsum (g <$> l).
Proof. induction 1; rewrite ?Zsum_fmap_cons; [done|lia]. Qed.

Lemma Zsum_member_le l :
  Forall (λ x, 0 ≤ f x) l → Forall (λ x, f x ≤ Zsum (f <$> l)) l.
Proof.
  induction 1 as [|x l Hx Hl IH]; constructor; rewrite Zsum_fmap_cons.
  - pose proof (Zsum_fmap_nonneg l Hl). lia.
  - eapply Forall_impl; [|exact IH]. simpl; lia.
Qed.

(** Taking a positive excess [d] out of every share leaves at most what
    taking it out of the total leaves. *)
Lemma Zsum_excess d l :
  0 ≤ d → Forall (λ x, 0 ≤ f x) l →
  Zsum ((λ x, Z.max 0 (f x - d)) <$> l) ≤ Z.max 0 (Zsum (f <$> l) - d).
Proof.
  intros Hd. induction 1 as [|x l Hx Hl IH]; [simpl; lia|].
  rewrite !Zsum_fmap_cons. pose proof (Zsum_fmap_nonneg l Hl). lia.
Qed.
End Zsum_fmap.

(** The sum of [g] over the entries of a finite map. *)
Definition map_Zsum `{Countable K} {V} (g : K → V → Z) (m : gmap K V) : Z :=
  Zsum (uncurry g <$> map_to_list m).

Section map_Zsum.
Context `{Countable K} {V : Type}.
Implicit Types (g h : K → V → Z) (m : gmap K V).

Lemma map_Zsum_empty g : map_Zsum g ∅ = 0.
Proof. unfold map_Zsum. by rewrite map_to_list_empty. Qed.

Lemma map_Zsum_insert g m k v :
  m !! k = None → map_Zsum g (<[k := v]> m) = g k v + map_Zsum g m.
Proof. intros ?. unfold map_Zsum. by rewrite map_to_list_insert. Qed.

Lemma map_Zsum_insert_delete g m k v :
  map_Zsum g (<[k := v]> m) = g k v + map_Zsum g (delete k m).
Proof. by rewrite <- insert_delete_eq, map_Zsum_insert by apply lookup_delete_eq. Qed.

Lemma map_Zsum_delete g m k v :
  m !! k = Some v → map_Zsum g m = g k v + map_Zsum g (delete k m).
Proof.
  intros E. rewrite <- (insert_id m k v) at 1 by done.
  apply map_Zsum_insert_delete.
Qed.

Lemma map_Zsum_le g h m :
  (∀ k v, m !! k = Some v → g k v ≤ h k v) → map_Zsum g m ≤ map_Zsum h m.
Proof.
  induction m as [|k v m Hk IH] using map_ind; intros Hle.
  - by rewrite !map_Zsum_empty.
  - rewrite !map_Zsum_insert by done.
    pose proof (Hle k v (lookup_insert_eq m k v)).
    assert (map_Zsum g m ≤ map_Zsum h m); [|lia].
    apply IH. intros k' v' ?. apply Hle. rewrite lookup_insert_ne; [done|congruence].
Qed.

Lemma map_Zsum_ext g h m :
  (∀ k v, m !! k = Some v → g k v = h k v) → map_Zsum g m = map_Zsum h m.
Proof.
  intros E. apply Z.le_antisymm; apply map_Zsum_le; intros k v ?;
    rewrite (E k v) by done; lia.
Qed.

Lemma map_Zsum_zero m : map_Zsum (λ _ _, 0) m = 0.
Proof.
  induction m as [|k v m Hk IH] using map_ind; [by rewrite map_Zsum_empty|].
  rewrite map_Zsum_insert by done. lia.
Qed.

Lemma map_Zsum_nonneg g m :
  (∀ k v, m !! k = Some v → 0 ≤ g k v) → 0 ≤ map_Zsum g m.
Proof. intros Hnn. rewrite <- (map_Zsum_zero m). by apply map_Zsum_le. Qed.

(** Entries a filter removes contribute what [g] gives them. *)
Lemma map_Zsum_filter g m (P : K * V → Prop) `{∀ x, Decision (P x)} :
  (∀ k v, m !! k = Some v → ¬ P (k, v) → g k v = 0) →
  map_Zsum g (filter P m) = map_Zsum g m.
Proof.
  induction m as [|k v m Hk IH] using map_ind; intros Hz.
  - by rewrite map_filter_empty.
  - assert (IH' : map_Zsum g (filter P m) = map_Zsum g m).
    { apply IH. intros k' v' ?. apply Hz. rewrite lookup_insert_ne; [done|congruence]. }
    rewrite (map_Zsum_insert g m) by done.
    destruct (decide (P (k, v))) as [HP|HP].
    + rewrite map_filter_insert_True by done.
      rewrite map_Zsum_insert by (apply map_lookup_filter_None_2; auto). lia.
    + rewrite map_filter_insert_False, delete_id by done.
      rewrite (Hz k v); [lia|apply lookup_insert_eq|done].
Qed.

Lemma map_Zsum_union g m1 m2 : m1 ##ₘ m2 → map_Zsum g (m1 ∪ m2) = map_Zsum g m1 + map_Zsum g m2.
Proof.
  induction m1 as [|k v m Hk IH] using map_ind; intros Hd.
  - by rewrite (left_id_L ∅ (∪)), map_Zsum_empty.
  - apply map_disjoint_insert_l in Hd as [Hk2 Hd].
    rewrite <- insert_union_l, !map_Zsum_insert, IH; [lia|done|done|].
    by apply lookup_union_None.
Qed.

Lemma map_Zsum_split g m (P : K * V → Prop) `{∀ x, Decision (P x)} :
  map_Zsum g m = map_Zsum g (filter P m) + map_Zsum g (filter (λ x, ¬ P x) m).
Proof.
  rewrite <- map_Zsum_union by apply map_disjoint_filter_complement.
  by rewrite map_filter_union_complement.
Qed.

(** Every entry of the one map is covered by the entry of its key in the other. *)
Lemma map_Zsum_covered {V'} g (h : K → V' → Z) m (m' : gmap K V') :
  (∀ k v, m !! k = Some v → ∃ v', m' !! k = Some v' ∧ g k v ≤ h k v') →
  (∀ k v', m' !! k = Some v' → 0 ≤ h k v') →
  map_Zsum g m ≤ map_Zsum h m'.
Proof.
  revert m'. induction m as [|k v m Hk IH] using map_ind; intros m' Hc Hn.
  - rewrite map_Zsum_empty. unfold map_Zsum. apply Zsum_nonneg, Forall_fmap, list.Forall_forall.
    intros [k v'] Hin%elem_of_map_to_list. by apply (Hn k).
  - rewrite map_Zsum_insert by done. destruct (Hc k v) as (v' & Hv' & Hle); [apply lookup_insert_eq|].
    assert (Hm : map_Zsum h m' = h k v' + map_Zsum h (delete k m')).
    { unfold map_Zsum. rewrite <- (map_to_list_delete m' k v' Hv'). done. }
    rewrite Hm. enough (map_Zsum g m ≤ map_Zsum h (delete k m')) by lia. apply IH.
    + intros k2 v2 Hk2. destruct (Hc k2 v2) as (v2' & ? & ?); [by rewrite lookup_insert_ne by congruence|].
      exists v2'. by rewrite lookup_delete_ne by congruence.
    + intros k2 v2' [_ ?]%lookup_delete_Some. by apply (Hn k2).
Qed.
End map_Zsum.
