(* ===== verification/Types.v ===== *)
(** The API data model: [src/api/v1alpha1] and the parts of the Kubernetes
    types it embeds.

    Every record keeps the fields the operator reads or writes, under the Go
    names with a short prefix.  Types of other packages that the operator only
    passes through ([resource.Quantity], [corev1.EnvVar], ...) are members of
    the class [CoreTypes]; the condition helpers of [apimachinery] are the
    class [ConditionsAPI] with their documented behaviour as
    [ConditionsLaws]. *)
From S2P Require Import Prelude.

(** Types and functions of [k8s.io/api] and [k8s.io/apimachinery] that the
    operator uses without looking inside. *)
Class CoreTypes := {
  Quantity : Type;
  EnvVar : Type;
  ResourceClaim : Type;
  (** [(q Quantity).Value() int64] *)
  Quantity_Value : Quantity → Z;
  (** [resource.NewMilliQuantity(v, DecimalSI)] *)
  NewMilliQuantity : Z → Quantity;
  (** [resource.MustParse(s)] on the literals the source uses *)
  MustParse : string → Quantity;
}.

(** [Value] returns an [int64]. *)
Class CoreTypesLaws `{CoreTypes} : Prop := {
  Quantity_Value_int64 : ∀ q, is_int64 (Quantity_Value q);
}.

(** ** Object metadata and conditions *)

Record NamespacedName := NN { nn_Namespace : string; nn_Name : string }.

#[export] Instance NamespacedName_eq_dec : EqDecision NamespacedName.
Proof. solve_decision. Defined.
#[export] Instance NamespacedName_countable : Countable NamespacedName.
Proof.
  refine (inj_countable' (λ n, (nn_Namespace n, nn_Name n)) (λ p, NN p.1 p.2) _).
  by intros [].
Defined.

(** The fields of [metav1.ObjectMeta] the operator uses.  [om_Controller] is
    the name of the owning AgentDeployment in the controller owner reference. *)
Record ObjectMeta := {
  om_Name : string;
  om_Namespace : string;
  om_Labels : gmap string string;
  om_Finalizers : list string;
  om_DeletionTimestamp : option Z;
  om_Generation : Z;
  om_ResourceVersion : string;
  om_Controller : option string;
}.

Definition om_key (m : ObjectMeta) : NamespacedName := NN (om_Namespace m) (om_Name m).

(** Metadata of an object literal [ObjectMeta{Name, Namespace, Labels}]. *)
Definition new_meta (name namespace : string) (labels : gmap string string) : ObjectMeta :=
  {| om_Name := name; om_Namespace := namespace; om_Labels := labels;
     om_Finalizers := []; om_DeletionTimestamp := None; om_Generation := 0;
     om_ResourceVersion := EmptyString; om_Controller := None |}.

Definition om_set_labels (l : gmap string string) (m : ObjectMeta) : ObjectMeta :=
  {| om_Name := om_Name m; om_Namespace := om_Namespace m; om_Labels := l;
     om_Finalizers := om_Finalizers m; om_DeletionTimestamp := om_DeletionTimestamp m;
     om_Generation := om_Generation m; om_ResourceVersion := om_ResourceVersion m;
     om_Controller := om_Controller m |}.

Definition om_set_finalizers (l : list string) (m : ObjectMeta) : ObjectMeta :=
  {| om_Name := om_Name m; om_Namespace := om_Namespace m; om_Labels := om_Labels m;
     om_Finalizers := l; om_DeletionTimestamp := om_DeletionTimestamp m;
     om_Generation := om_Generation m; om_ResourceVersion := om_ResourceVersion m;
     om_Controller := om_Controller m |}.

Definition om_set_controller (c : option string) (m : ObjectMeta) : ObjectMeta :=
  {| om_Name := om_Name m; om_Namespace := om_Namespace m; om_Labels := om_Labels m;
     om_Finalizers := om_Finalizers m; om_DeletionTimestamp := om_DeletionTimestamp m;
     om_Generation := om_Generation m; om_ResourceVersion := om_ResourceVersion m;
     om_Controller := c |}.

(** The server-managed fields: resource version and generation. *)
Definition om_set_server (rv : string) (gen : Z) (m : ObjectMeta) : ObjectMeta :=
  {| om_Name := om_Name m; om_Namespace := om_Namespace m; om_Labels := om_Labels m;
     om_Finalizers := om_Finalizers m; om_DeletionTimestamp := om_DeletionTimestamp m;
     om_Generation := gen; om_ResourceVersion := rv;
     om_Controller := om_Controller m |}.

Inductive ConditionStatus := ConditionTrue | ConditionFalse | ConditionUnknown.

(** [metav1.Condition] without [LastTransitionTime], which
    [SetStatusCondition] maintains and the operator never reads. *)
Record Condition := {
  c_Type : string;
  c_Status : ConditionStatus;
  c_Reason : string;
  c_Message : string;
  c_ObservedGeneration : Z;
}.

#[export] Instance ConditionStatus_eq_dec : EqDecision ConditionStatus.
Proof. solve_decision. Defined.
#[export] Instance Condition_eq_dec : EqDecision Condition.
Proof. solve_decision. Defined.

(** [apimeta.SetStatusCondition], [RemoveStatusCondition] and
    [FindStatusCondition]. *)
Class ConditionsAPI := {
  SetStatusCondition : list Condition → Condition → list Condition;
  RemoveStatusCondition : list Condition → string → list Condition;
  FindStatusCondition : list Condition → string → option Condition;
}.

(** Their documented behaviour: setting replaces or appends the condition of
    that type, removing drops it, and the other types are left alone. *)
Class ConditionsLaws `{ConditionsAPI} : Prop := {
  find_set_eq l c : FindStatusCondition (SetStatusCondition l c) (c_Type c) = Some c;
  find_set_ne l c t : t ≠ c_Type c →
    FindStatusCondition (SetStatusCondition l c) t = FindStatusCondition l t;
  find_remove_eq l t : FindStatusCondition (RemoveStatusCondition l t) t = None;
  find_remove_ne l t t' : t ≠ t' →
    FindStatusCondition (RemoveStatusCondition l t) t' = FindStatusCondition l t';
}.

#[export] Hint Rewrite @find_set_eq @find_remove_eq : agentrax.

(** ** AgentDeployment *)

Record ScalingPolicy := {
  sp_Min : Z;
  sp_Max : Z;
  sp_Metric : string;
  sp_Target : Z;
}.

(** [SetWeight *int32] and [Pause *metav1.Duration] (nanoseconds). *)
Record CanaryStep := {
  cs_SetWeight : option Z;
  cs_Pause : option Z;
}.

Record RollbackPolicy := {
  rb_MaxErrorRate : string;
  rb_MaxP99LatencyMs : Z;
  rb_MinRequestSample : Z;
}.

Record RolloutPolicy := {
  ro_Strategy : string;
  ro_Steps : list CanaryStep;
  ro_Rollback : RollbackPolicy;
  ro_Abort : bool;
}.

Record MCPConfig := {
  mcp_Expose : bool;
  mcp_Tools : list string;
}.

Record AgentDeploymentStatus := {
  st_Phase : string;
  st_CurrentReplicas : Z;
  st_StableVersion : string;
  st_CanaryVersion : string;
  st_CanaryWeight : Z;
  st_CanaryStepIndex : Z;
  st_PauseStartedAt : option Z;
  st_PromUnreachableSince : option Z;
  st_Registered : bool;
  st_Conditions : list Condition;
}.

#[export] Instance AgentDeploymentStatus_eq_dec : EqDecision AgentDeploymentStatus.
Proof. solve_decision. Defined.

Definition PhasePending : string := "Pending".
Definition PhaseRunning : string := "Running".
Definition PhaseRolloutInProgress : string := "RolloutInProgress".
Definition PhaseRolloutFailed : string := "RolloutFailed".
Definition PhaseDegraded : string := "Degraded".

Definition ConditionReady : string := "Ready".
Definition ConditionReconciled : string := "Reconciled".
Definition ConditionImagePullFailed : string := "ImagePullFailed".
Definition ConditionQuotaLimited : string := "QuotaLimited".
Definition ConditionMCPHandshakeFailed : string := "MCPHandshakeFailed".
Definition ConditionSampleInsufficient : string := "SampleInsufficient".
Definition ConditionRolloutFailed : string := "RolloutFailed".
Definition ConditionOverQuota : string := "OverQuota".

Definition AgentDeploymentFinalizer : string := "agentrax.io/mcp-deregister".

(** Field updates of a status, [ad.Status.F = v] in the source. *)
Section status_setters.
Implicit Types (s : AgentDeploymentStatus).

Definition set_Phase (v : string) s : AgentDeploymentStatus :=
  {| st_Phase := v; st_CurrentReplicas := st_CurrentReplicas s;
     st_StableVersion := st_StableVersion s; st_CanaryVersion := st_CanaryVersion s;
     st_CanaryWeight := st_CanaryWeight s; st_CanaryStepIndex := st_CanaryStepIndex s;
     st_PauseStartedAt := st_PauseStartedAt s;
     st_PromUnreachableSince := st_PromUnreachableSince s;
     st_Registered := st_Registered s; st_Conditions := st_Conditions s |}.
Definition set_CurrentReplicas (v : Z) s : AgentDeploymentStatus :=
  {| st_Phase := st_Phase s; st_CurrentReplicas := v;
     st_StableVersion := st_StableVersion s; st_CanaryVersion := st_CanaryVersion s;
     st_CanaryWeight := st_CanaryWeight s; st_CanaryStepIndex := st_CanaryStepIndex s;
     st_PauseStartedAt := st_PauseStartedAt s;
     st_PromUnreachableSince := st_PromUnreachableSince s;
     st_Registered := st_Registered s; st_Conditions := st_Conditions s |}.
Definition set_StableVersion (v : string) s : AgentDeploymentStatus :=
  {| st_Phase := st_Phase s; st_CurrentReplicas := st_CurrentReplicas s;
     st_StableVersion := v; st_CanaryVersion := st_CanaryVersion s;
     st_CanaryWeight := st_CanaryWeight s; st_CanaryStepIndex := st_CanaryStepIndex s;
     st_PauseStartedAt := st_PauseStartedAt s;
     st_PromUnreachableSince := st_PromUnreachableSince s;
     st_Registered := st_Registered s; st_Conditions := st_Conditions s |}.
Definition set_CanaryVersion (v : string) s : AgentDeploymentStatus :=
  {| st_Phase := st_Phase s; st_CurrentReplicas := st_CurrentReplicas s;
     st_StableVersion := st_StableVersion s; st_CanaryVersion := v;
     st_CanaryWeight := st_CanaryWeight s; st_CanaryStepIndex := st_CanaryStepIndex s;
     st_PauseStartedAt := st_PauseStartedAt s;
     st_PromUnreachableSince := st_PromUnreachableSince s;
     st_Registered := st_Registered s; st_Conditions := st_Conditions s |}.
Definition set_CanaryWeight (v : Z) s : AgentDeploymentStatus :=
  {| st_Phase := st_Phase s; st_CurrentReplicas := st_CurrentReplicas s;
     st_StableVersion := st_StableVersion s; st_CanaryVersion := st_CanaryVersion s;
     st_CanaryWeight := v; st_CanaryStepIndex := st_CanaryStepIndex s;
     st_PauseStartedAt := st_PauseStartedAt s;
     st_PromUnreachableSince := st_PromUnreachableSince s;
     st_Registered := st_Registered s; st_Conditions := st_Conditions s |}.
Definition set_CanaryStepIndex (v : Z) s : AgentDeploymentStatus :=
  {| st_Phase := st_Phase s; st_CurrentReplicas := st_CurrentReplicas s;
     st_StableVersion := st_StableVersion s; st_CanaryVersion := st_CanaryVersion s;
     st_CanaryWeight := st_CanaryWeight s; st_CanaryStepIndex := v;
     st_PauseStartedAt := st_PauseStartedAt s;
     st_PromUnreachableSince := st_PromUnreachableSince s;
     st_Registered := st_Registered s; st_Conditions := st_Conditions s |}.
Definition set_PauseStartedAt (v : option Z) s : AgentDeploymentStatus :=
  {| st_Phase := st_Phase s; st_CurrentReplicas := st_CurrentReplicas s;
     st_StableVersion := st_StableVersion s; st_CanaryVersion := st_CanaryVersion s;
     st_CanaryWeight := st_CanaryWeight s; st_CanaryStepIndex := st_CanaryStepIndex s;
     st_PauseStartedAt := v; st_PromUnreachableSince := st_PromUnreachableSince s;
     st_Registered := st_Registered s; st_Conditions := st_Conditions s |}.
Definition set_PromUnreachableSince (v : option Z) s : AgentDeploymentStatus :=
  {| st_Phase := st_Phase s; st_CurrentReplicas := st_CurrentReplicas s;
     st_StableVersion := st_StableVersion s; st_CanaryVersion := st_CanaryVersion s;
     st_CanaryWeight := st_CanaryWeight s; st_CanaryStepIndex := st_CanaryStepIndex s;
     st_PauseStartedAt := st_PauseStartedAt s; st_PromUnreachableSince := v;
     st_Registered := st_Registered s; st_Conditions := st_Conditions s |}.
Definition set_Registered (v : bool) s : AgentDeploymentStatus :=
  {| st_Phase := st_Phase s; st_CurrentReplicas := st_CurrentReplicas s;
     st_StableVersion := st_StableVersion s; st_CanaryVersion := st_CanaryVersion s;
     st_CanaryWeight := st_CanaryWeight s; st_CanaryStepIndex := st_CanaryStepIndex s;
     st_PauseStartedAt := st_PauseStartedAt s;
     st_PromUnreachableSince := st_PromUnreachableSince s;
     st_Registered := v; st_Conditions := st_Conditions s |}.
Definition set_Conditions (v : list Condition) s : AgentDeploymentStatus :=
  {| st_Phase := st_Phase s; st_CurrentReplicas := st_CurrentReplicas s;
     st_StableVersion := st_StableVersion s; st_CanaryVersion := st_CanaryVersion s;
     st_CanaryWeight := st_CanaryWeight s; st_CanaryStepIndex := st_CanaryStepIndex s;
     st_PauseStartedAt := st_PauseStartedAt s;
     st_PromUnreachableSince := st_PromUnreachableSince s;
     st_Registered := st_Registered s; st_Conditions := v |}.
End status_setters.

Section spec_types.
Context `{CoreTypes}.

(** [corev1.ResourceRequirements]; a nil and an empty [ResourceList] are the
    same map. *)
Record ResourceRequirements := {
  rr_Requests : gmap string Quantity;
  rr_Limits : gmap string Quantity;
  rr_Claims : list ResourceClaim;
}.

Record AgentDeploymentSpec := {
  spec_Image : string;
  spec_Port : Z;
  spec_TenantRef : string;
  spec_Replicas : ScalingPolicy;
  spec_Rollout : RolloutPolicy;
  spec_MCP : MCPConfig;
  spec_Resources : ResourceRequirements;
  spec_Env : list EnvVar;
  spec_Args : list string;
}.

Record AgentDeployment := {
  ad_Meta : ObjectMeta;
  ad_Spec : AgentDeploymentSpec;
  ad_Status : AgentDeploymentStatus;
}.

Definition ad_Name (ad : AgentDeployment) : string := om_Name (ad_Meta ad).
Definition ad_Namespace (ad : AgentDeployment) : string := om_Namespace (ad_Meta ad).
Definition ad_key (ad : AgentDeployment) : NamespacedName := om_key (ad_Meta ad).

Definition with_status (s : AgentDeploymentStatus) (ad : AgentDeployment) : AgentDeployment :=
  {| ad_Meta := ad_Meta ad; ad_Spec := ad_Spec ad; ad_Status := s |}.
Definition with_meta (m : ObjectMeta) (ad : AgentDeployment) : AgentDeployment :=
  {| ad_Meta := m; ad_Spec := ad_Spec ad; ad_Status := ad_Status ad |}.
Definition with_spec (s : AgentDeploymentSpec) (ad : AgentDeployment) : AgentDeployment :=
  {| ad_Meta := ad_Meta ad; ad_Spec := s; ad_Status := ad_Status ad |}.

(** [if port == 0 { port = 8080 }], which every builder starts with. *)
Definition port_or_default (p : Z) : Z := if p =? 0 then 8080 else p.
End spec_types.

(** ** TenantQuota *)

Record TenantQuotaSpec := {
  tq_MaxAgents : Z;
  tq_MaxGPUs : Z;
  tq_MaxTotalReplicas : Z;
  tq_MaxReplicasPerAgent : Z;
}.

Record TenantQuotaStatus := {
  tq_UsedAgents : Z;
  tq_UsedGPUs : Z;
  tq_UsedTotalReplicas : Z;
  tq_Conditions : list Condition;
}.

#[export] Instance TenantQuotaStatus_eq_dec : EqDecision TenantQuotaStatus.
Proof. solve_decision. Defined.

Record TenantQuota := {
  tq_Meta : ObjectMeta;
  tq_Spec : TenantQuotaSpec;
  tq_Status : TenantQuotaStatus;
}.

(** The ceilings are [int32] fields. *)
Definition quota_wf (q : TenantQuotaSpec) : Prop :=
  is_int32 (tq_MaxAgents q) ∧ is_int32 (tq_MaxGPUs q) ∧
  is_int32 (tq_MaxTotalReplicas q) ∧ is_int32 (tq_MaxReplicasPerAgent q).

(** ** The condition helpers of [internal/controller/conditions.go] *)
Section conditions.
Context `{CoreTypes, ConditionsAPI}.

Definition SetCondition (ad : AgentDeployment) (condType : string)
    (status : ConditionStatus) (reason msg : string) : AgentDeployment :=
  with_status (set_Conditions
    (SetStatusCondition (st_Conditions (ad_Status ad))
      {| c_Type := condType; c_Status := status; c_Reason := reason; c_Message := msg;
         c_ObservedGeneration := om_Generation (ad_Meta ad) |})
    (ad_Status ad)) ad.

Definition GetCondition (ad : AgentDeployment) (condType : string) : option Condition :=
  FindStatusCondition (st_Conditions (ad_Status ad)) condType.

Definition RemoveCondition (ad : AgentDeployment) (condType : string) : AgentDeployment :=
  with_status (set_Conditions
    (RemoveStatusCondition (st_Conditions (ad_Status ad)) condType)
    (ad_Status ad)) ad.
End conditions.

(** ** A concrete instance

    Quantities counted in thousandths, as [resource.Quantity] prints them, and
    a list-backed condition slice.  It shows the classes above are inhabited
    and lets the model run on concrete inputs. *)
Module Ref.
Definition core : CoreTypes := {|
  Quantity := Z;
  EnvVar := string;
  ResourceClaim := string;
  Quantity_Value := λ q, int64 ((q + 999) / 1000);
  NewMilliQuantity := λ v, v;
  MustParse := λ s,
    if s =s? "100m" then 100 else if s =s? "500m" then 500 else
    if s =s? "128Mi" then 134217728000 else if s =s? "512Mi" then 536870912000 else 0;
|}.

Lemma core_laws : @CoreTypesLaws core.
Proof. constructor. intros q. apply int64_range. Qed.

Fixpoint set_cond (l : list Condition) (c : Condition) : list Condition :=
  match l with
  | [] => [c]
  | x :: l' => if c_Type x =s? c_Type c then c :: l' else x :: set_cond l' c
  end.

Definition conditions : ConditionsAPI := {|
  SetStatusCondition := set_cond;
  RemoveStatusCondition := λ l t, filter (λ c, c_Type c ≠ t) l;
  FindStatusCondition := λ l t, find (λ c, c_Type c =s? t) l;
|}.

Lemma conditions_laws : @ConditionsLaws conditions.
Proof.
  constructor; simpl.
  - intros l c. induction l as [|x l IH]; simpl; [by rewrite str_eqb_refl|].
    destruct (c_Type x =s? c_Type c) eqn:E; simpl; [by rewrite str_eqb_refl|].
    by rewrite E.
  - intros l c t Ht. apply not_eq_sym, str_eqb_false in Ht.
    induction l as [|x l IH]; simpl; [by rewrite Ht|].
    destruct (c_Type x =s? c_Type c) eqn:E; simpl; [|by rewrite IH].
    apply str_eqb_true in E. by rewrite E, Ht.
  - intros l t. induction l as [|x l IH]; [done|].
    rewrite filter_cons. case_decide as Hx; simpl; [|done].
    by apply str_eqb_false in Hx as ->.
  - intros l t t' Ht. induction l as [|x l IH]; [done|].
    rewrite filter_cons. case_decide as Hx; simpl; [by rewrite IH|].
    rewrite Hx. by apply str_eqb_false in Ht as ->.
Qed.

(** An AgentDeployment spec requesting [gpu] thousandths of a GPU per replica. *)
Definition spec (image tenant : string) (min max gpu : Z) (ro : RolloutPolicy)
    (mcp : MCPConfig) : @AgentDeploymentSpec core :=
  @Build_AgentDeploymentSpec core image 8080 tenant
    {| sp_Min := min; sp_Max := max; sp_Metric := "queueDepth"; sp_Target := 25 |} ro mcp
    (@Build_ResourceRequirements core ∅ {[ "nvidia.com/gpu" := gpu ]} []) [] [].

Definition rollback : RollbackPolicy :=
  {| rb_MaxErrorRate := "2%"; rb_MaxP99LatencyMs := 500; rb_MinRequestSample := 50 |}.
Definition recreate : RolloutPolicy :=
  {| ro_Strategy := "Recreate"; ro_Steps := []; ro_Rollback := rollback; ro_Abort := false |}.
Definition no_mcp : MCPConfig := {| mcp_Expose := false; mcp_Tools := [] |}.
Definition agent (max gpu : Z) : @AgentDeploymentSpec core :=
  spec "img:v1" "team" 1 max gpu recreate no_mcp.
Definition quota : TenantQuotaSpec :=
  {| tq_MaxAgents := 2; tq_MaxGPUs := 4; tq_MaxTotalReplicas := 6; tq_MaxReplicasPerAgent := 5 |}.
End Ref.
