(* ===== verification/DeepCopy.v ===== *)
(** The generated copies, [src/api/v1alpha1/zz_generated.deepcopy.go], on a
    heap with aliasing.

    Everywhere else in the library an object is a value.  Here it is what the
    program has in memory: a struct whose pointer and slice fields are
    addresses into a [heap], so that two structs may share a cell.  A copy is a
    program that reads and allocates; [repr] reads the value a struct stands
    for (a record of [Types.v]) together with its footprint, the cells it is
    read from.  The types of [apimachinery] and [corev1] that are embedded
    ([ObjectMeta], [Condition], [EnvVar], ...) bring their own representation
    and copy, the classes [LibReps] and [LibCopies]. *)
From S2P Require Import Prelude Types.

(** ** Memory *)

Definition loc : Type := positive.

(** A pointer to an [A], and a slice of [A]s: the array, the offset of its
    first element and its length.  The capacity is the rest of the array. *)
Inductive ptr (A : Type) := NilPtr | Ptr (l : loc).
Inductive slice (A : Type) := NilSlice | Slice (arr : loc) (off len : nat).
Arguments NilPtr {A}.
Arguments Ptr {A} _.
Arguments NilSlice {A}.
Arguments Slice {A} _ _ _.

(** Variables of the two scalar types that are pointed to. *)
Inductive int32_var := Int32 (v : Z).
Inductive Duration_var := Duration (ns : Z).

(** The library types, as they are in memory, and the cells their own
    pointers, slices and maps use. *)
Class LibReps := {
  rObjectMeta : Type;
  rListMeta : Type;
  rResourceRequirements : Type;
  rEnvVar : Type;
  rCondition : Type;
  (** a [*metav1.Time] that is not nil *)
  rTimePtr : Type;
  LibCell : Type;
  (** what a [metav1.ListMeta] stands for *)
  ListMeta : Type;
}.

Record TypeMeta := { tm_Kind : string; tm_APIVersion : string }.

(** ** The structs of [api/v1alpha1] as they are in memory *)
Section memory.
Context `{CoreTypes, LibReps}.

Record rCanaryStep := {
  r_SetWeight : ptr int32_var;
  r_Pause : ptr Duration_var;
}.

Record rRolloutPolicy := {
  r_Strategy : string;
  r_Steps : slice rCanaryStep;
  r_Rollback : RollbackPolicy;
  r_Abort : bool;
}.

Record rMCPConfig := {
  r_Expose : bool;
  r_Tools : slice string;
}.

Record rAgentDeploymentSpec := {
  r_Image : string;
  r_Port : Z;
  r_TenantRef : string;
  r_Replicas : ScalingPolicy;
  r_Rollout : rRolloutPolicy;
  r_MCP : rMCPConfig;
  r_Resources : rResourceRequirements;
  r_Env : slice rEnvVar;
  r_Args : slice string;
}.

Record rAgentDeploymentStatus := {
  r_Phase : string;
  r_CurrentReplicas : Z;
  r_StableVersion : string;
  r_CanaryVersion : string;
  r_CanaryWeight : Z;
  r_CanaryStepIndex : Z;
  r_PauseStartedAt : option rTimePtr;
  r_PromUnreachableSince : option rTimePtr;
  r_Registered : bool;
  r_Conditions : slice rCondition;
}.

Record rAgentDeployment := {
  r_adType : TypeMeta;
  r_adMeta : rObjectMeta;
  r_adSpec : rAgentDeploymentSpec;
  r_adStatus : rAgentDeploymentStatus;
}.

Record rAgentDeploymentList := {
  r_adlType : TypeMeta;
  r_adlMeta : rListMeta;
  r_adlItems : slice rAgentDeployment;
}.

Record rTenantQuotaStatus := {
  r_UsedAgents : Z;
  r_UsedGPUs : Z;
  r_UsedTotalReplicas : Z;
  r_tqConditions : slice rCondition;
}.

Record rTenantQuota := {
  r_tqType : TypeMeta;
  r_tqMeta : rObjectMeta;
  r_tqSpec : TenantQuotaSpec;
  r_tqStatus : rTenantQuotaStatus;
}.

Record rTenantQuotaList := {
  r_tqlType : TypeMeta;
  r_tqlMeta : rListMeta;
  r_tqlItems : slice rTenantQuota;
}.

(** One allocation: a variable made by [new], an array made by [make], or a
    cell of the library types. *)
Inductive cell :=
  | CInt32 (v : int32_var)
  | CDuration (v : Duration_var)
  | CStrings (l : list string)
  | CSteps (l : list rCanaryStep)
  | CEnv (l : list rEnvVar)
  | CConditions (l : list rCondition)
  | CAgentDeployments (l : list rAgentDeployment)
  | CTenantQuotas (l : list rTenantQuota)
  | CAgentDeployment (v : rAgentDeployment)
  | CAgentDeploymentList (v : rAgentDeploymentList)
  | CAgentDeploymentSpec (v : rAgentDeploymentSpec)
  | CAgentDeploymentStatus (v : rAgentDeploymentStatus)
  | CCanaryStep (v : rCanaryStep)
  | CMCPConfig (v : rMCPConfig)
  | CRollbackPolicy (v : RollbackPolicy)
  | CRolloutPolicy (v : rRolloutPolicy)
  | CScalingPolicy (v : ScalingPolicy)
  | CTenantQuota (v : rTenantQuota)
  | CTenantQuotaList (v : rTenantQuotaList)
  | CTenantQuotaSpec (v : TenantQuotaSpec)
  | CTenantQuotaStatus (v : rTenantQuotaStatus)
  | CLib (c : LibCell).


#[local] Notation heap := (gmap loc cell).

(** A program on the heap.  [None] is an access outside the memory the program
    owns: the theorems below show that no copy gets there. *)
Definition HM (A : Type) : Type := heap → option (A * heap).

#[global] Instance HM_ret : MRet HM := λ A a h, Some (a, h).
#[global] Instance HM_bind : MBind HM := λ A B f m h,
  match m h with Some (a, h') => f a h' | None => None end.

(** How an [A] is stored in a cell. *)
Class Stored (A : Type) := {
  to_cell : A → cell;
  of_cell : cell → option A;
  of_to_cell a : of_cell (to_cell a) = Some a;
}.

Definition load `{Stored A} (h : heap) (l : loc) : option A := h !! l ≫= of_cell.

(** [new(T)] followed by the assignment of its contents: nothing else can
    reach the new cell in between. *)
Definition alloc `{Stored A} (a : A) : HM loc := λ h,
  let l := fresh (dom h) in Some (l, <[l := to_cell a]> h).

(** The elements of a slice. *)
Definition elements `{Stored (list A)} (h : heap) (arr : loc) (off len : nat) : option (list A) :=
  l ← load h arr; if decide (off + len ≤ length l)%nat then Some (take len (drop off l)) else None.

(** A step that only reads: [*p], or the elements a loop ranges over. *)
Definition reads {A} (f : heap → option A) : HM A := λ h,
  match f h with Some a => Some (a, h) | None => None end.
End memory.

Notation heap := (gmap loc cell).

(** Each type has its own kind of cell. *)
#[export] Instance Stored_int32 `{CoreTypes, LibReps} : Stored int32_var.
Proof. refine (Build_Stored _ CInt32 (λ c, match c with CInt32 v => Some v | _ => None end) (λ _, eq_refl)). Defined.
#[export] Instance Stored_Duration `{CoreTypes, LibReps} : Stored Duration_var.
Proof. refine (Build_Stored _ CDuration (λ c, match c with CDuration v => Some v | _ => None end) (λ _, eq_refl)). Defined.
#[export] Instance Stored_strings `{CoreTypes, LibReps} : Stored (list string).
Proof. refine (Build_Stored _ CStrings (λ c, match c with CStrings v => Some v | _ => None end) (λ _, eq_refl)). Defined.
#[export] Instance Stored_steps `{CoreTypes, LibReps} : Stored (list rCanaryStep).
Proof. refine (Build_Stored _ CSteps (λ c, match c with CSteps v => Some v | _ => None end) (λ _, eq_refl)). Defined.
#[export] Instance Stored_env `{CoreTypes, LibReps} : Stored (list rEnvVar).
Proof. refine (Build_Stored _ CEnv (λ c, match c with CEnv v => Some v | _ => None end) (λ _, eq_refl)). Defined.
#[export] Instance Stored_conditions `{CoreTypes, LibReps} : Stored (list rCondition).
Proof. refine (Build_Stored _ CConditions (λ c, match c with CConditions v => Some v | _ => None end) (λ _, eq_refl)). Defined.
#[export] Instance Stored_agents `{CoreTypes, LibReps} : Stored (list rAgentDeployment).
Proof. refine (Build_Stored _ CAgentDeployments (λ c, match c with CAgentDeployments v => Some v | _ => None end) (λ _, eq_refl)). Defined.
#[export] Instance Stored_quotas `{CoreTypes, LibReps} : Stored (list rTenantQuota).
Proof. refine (Build_Stored _ CTenantQuotas (λ c, match c with CTenantQuotas v => Some v | _ => None end) (λ _, eq_refl)). Defined.
#[export] Instance Stored_AgentDeployment `{CoreTypes, LibReps} : Stored rAgentDeployment.
Proof. refine (Build_Stored _ CAgentDeployment (λ c, match c with CAgentDeployment v => Some v | _ => None end) (λ _, eq_refl)). Defined.
#[export] Instance Stored_AgentDeploymentList `{CoreTypes, LibReps} : Stored rAgentDeploymentList.
Proof. refine (Build_Stored _ CAgentDeploymentList (λ c, match c with CAgentDeploymentList v => Some v | _ => None end) (λ _, eq_refl)). Defined.
#[export] Instance Stored_AgentDeploymentSpec `{CoreTypes, LibReps} : Stored rAgentDeploymentSpec.
Proof. refine (Build_Stored _ CAgentDeploymentSpec (λ c, match c with CAgentDeploymentSpec v => Some v | _ => None end) (λ _, eq_refl)). Defined.
#[export] Instance Stored_AgentDeploymentStatus `{CoreTypes, LibReps} : Stored rAgentDeploymentStatus.
Proof. refine (Build_Stored _ CAgentDeploymentStatus (λ c, match c with CAgentDeploymentStatus v => Some v | _ => None end) (λ _, eq_refl)). Defined.
#[export] Instance Stored_CanaryStep `{CoreTypes, LibReps} : Stored rCanaryStep.
Proof. refine (Build_Stored _ CCanaryStep (λ c, match c with CCanaryStep v => Some v | _ => None end) (λ _, eq_refl)). Defined.
#[export] Instance Stored_MCPConfig `{CoreTypes, LibReps} : Stored rMCPConfig.
Proof. refine (Build_Stored _ CMCPConfig (λ c, match c with CMCPConfig v => Some v | _ => None end) (λ _, eq_refl)). Defined.
#[export] Instance Stored_RollbackPolicy `{CoreTypes, LibReps} : Stored RollbackPolicy.
Proof. refine (Build_Stored _ CRollbackPolicy (λ c, match c with CRollbackPolicy v => Some v | _ => None end) (λ _, eq_refl)). Defined.
#[export] Instance Stored_RolloutPolicy `{CoreTypes, LibReps} : Stored rRolloutPolicy.
Proof. refine (Build_Stored _ CRolloutPolicy (λ c, match c with CRolloutPolicy v => Some v | _ => None end) (λ _, eq_refl)). Defined.
#[export] Instance Stored_ScalingPolicy `{CoreTypes, LibReps} : Stored ScalingPolicy.
Proof. refine (Build_Stored _ CScalingPolicy (λ c, match c with CScalingPolicy v => Some v | _ => None end) (λ _, eq_refl)). Defined.
#[export] Instance Stored_TenantQuota `{CoreTypes, LibReps} : Stored rTenantQuota.
Proof. refine (Build_Stored _ CTenantQuota (λ c, match c with CTenantQuota v => Some v | _ => None end) (λ _, eq_refl)). Defined.
#[export] Instance Stored_TenantQuotaList `{CoreTypes, LibReps} : Stored rTenantQuotaList.
Proof. refine (Build_Stored _ CTenantQuotaList (λ c, match c with CTenantQuotaList v => Some v | _ => None end) (λ _, eq_refl)). Defined.
#[export] Instance Stored_TenantQuotaSpec `{CoreTypes, LibReps} : Stored TenantQuotaSpec.
Proof. refine (Build_Stored _ CTenantQuotaSpec (λ c, match c with CTenantQuotaSpec v => Some v | _ => None end) (λ _, eq_refl)). Defined.
#[export] Instance Stored_TenantQuotaStatus `{CoreTypes, LibReps} : Stored rTenantQuotaStatus.
Proof. refine (Build_Stored _ CTenantQuotaStatus (λ c, match c with CTenantQuotaStatus v => Some v | _ => None end) (λ _, eq_refl)). Defined.

(** ** Copying *)

(** A type [R] of memory that stands for values [V]. *)
Class DeepCopyable `{CoreTypes, LibReps} (R V : Type) := {
  (** the value a struct stands for and the cells it is read from *)
  repr : heap → R → option (V * gset loc);
  (** what the method leaves in [*out], given the contents of [*in] *)
  DeepCopyInto : R → HM R;
}.

(** What a deep copy is: reading depends on the footprint only, and a copy
    stands for the same value, in cells that did not exist before. *)
Class DeepCopyLaws `{CoreTypes, LibReps} R V `{!DeepCopyable R V} : Prop := {
  repr_local h h' r v s : repr h r = Some (v, s) →
    (∀ l, l ∈ s → h' !! l = h !! l) → repr h' r = Some (v, s);
  repr_dom h r v s : repr h r = Some (v, s) → s ⊆ dom h;
  copy_ok h r v s : repr h r = Some (v, s) →
    ∃ r' h' s', DeepCopyInto r h = Some (r', h') ∧ h ⊆ h' ∧
      repr h' r' = Some (v, s') ∧ s' ## dom h;
}.
Arguments DeepCopyLaws {_ _} R V {_}.

(** The library types copy deeply. *)
Class LibCopies `{CoreTypes, LibReps} := {
  lib_ObjectMeta :: DeepCopyable rObjectMeta ObjectMeta;
  lib_ListMeta :: DeepCopyable rListMeta ListMeta;
  lib_ResourceRequirements :: DeepCopyable rResourceRequirements ResourceRequirements;
  lib_EnvVar :: DeepCopyable rEnvVar EnvVar;
  lib_Condition :: DeepCopyable rCondition Condition;
  lib_TimePtr :: DeepCopyable rTimePtr Z;
}.
Class LibCopiesLaws `{LibCopies} : Prop := {
  laws_ObjectMeta :: DeepCopyLaws rObjectMeta ObjectMeta;
  laws_ListMeta :: DeepCopyLaws rListMeta ListMeta;
  laws_ResourceRequirements :: DeepCopyLaws rResourceRequirements ResourceRequirements;
  laws_EnvVar :: DeepCopyLaws rEnvVar EnvVar;
  laws_Condition :: DeepCopyLaws rCondition Condition;
  laws_TimePtr :: DeepCopyLaws rTimePtr Z;
}.

(** ** The generated methods *)
Section copies.
Context `{LibCopies}.

(** A value without pointers: [*out = *in]. *)
Definition plain_copy {A} (v : A) : HM A := mret v.
Definition plain_repr {A B} (f : A → B) (h : heap) (v : A) : option (B * gset loc) := Some (f v, ∅).

#[export] Instance int32_DeepCopyable : DeepCopyable int32_var Z :=
  {| repr := plain_repr (λ '(Int32 v), v); DeepCopyInto := plain_copy |}.
#[export] Instance Duration_DeepCopyable : DeepCopyable Duration_var Z :=
  {| repr := plain_repr (λ '(Duration ns), ns); DeepCopyInto := plain_copy |}.
#[export] Instance string_DeepCopyable : DeepCopyable string string :=
  {| repr := plain_repr id; DeepCopyInto := plain_copy |}.

(** [if in.F != nil { *out = new(T); **out = **in }]. *)
Definition ptr_repr `{!DeepCopyable R V, !Stored R} (h : heap) (p : ptr R) : option (option V * gset loc) :=
  match p with
  | NilPtr => Some (None, ∅)
  | Ptr l => r ← load h l; '(v, s) ← repr h r; Some (Some v, {[ l ]} ∪ s)
  end.
Definition ptr_copy `{!DeepCopyable R V, !Stored R} (p : ptr R) : HM (ptr R) :=
  match p with
  | NilPtr => mret NilPtr
  | Ptr l => r ← reads (λ h, load h l); r' ← DeepCopyInto r; l' ← alloc r'; mret (Ptr l')
  end.
#[export] Instance ptr_DeepCopyable `{!DeepCopyable R V, !Stored R} : DeepCopyable (ptr R) (option V) :=
  {| repr := ptr_repr; DeepCopyInto := ptr_copy |}.

(** [if in.F != nil { *out = in.F.DeepCopy() }]. *)
Definition opt_repr `{!DeepCopyable R V} (h : heap) (o : option R) : option (option V * gset loc) :=
  match o with
  | None => Some (None, ∅)
  | Some r => '(v, s) ← repr h r; Some (Some v, s)
  end.
Definition opt_copy `{!DeepCopyable R V} (o : option R) : HM (option R) :=
  match o with
  | None => mret None
  | Some r => r' ← DeepCopyInto r; mret (Some r')
  end.
#[export] Instance opt_DeepCopyable `{!DeepCopyable R V} : DeepCopyable (option R) (option V) :=
  {| repr := opt_repr; DeepCopyInto := opt_copy |}.

Section elements.
Context `{!DeepCopyable R V}.

(** The values of the elements, and the cells of all of them. *)
Fixpoint list_repr (h : heap) (l : list R) : option (list V * gset loc) :=
  match l with
  | [] => Some ([], ∅)
  | r :: l => '(v, s) ← repr h r; '(vs, ss) ← list_repr h l; Some (v :: vs, s ∪ ss)
  end.

(** [for i := range in { in[i].DeepCopyInto(&out[i]) }]; for strings this is
    [copy(out, in)]. *)
Fixpoint copy_elements (l : list R) : HM (list R) :=
  match l with
  | [] => mret []
  | r :: l => r' ← DeepCopyInto r; l' ← copy_elements l; mret (r' :: l')
  end.
End elements.

(** [if in.F != nil { *out = make([]T, len(in)); ... }]: the new array is
    filled before anything else can reach it, so it is allocated with its
    elements.  A nil slice stays nil. *)
Definition slice_repr `{!DeepCopyable R V, !Stored (list R)} (h : heap) (x : slice R)
    : option (list V * gset loc) :=
  match x with
  | NilSlice => Some ([], ∅)
  | Slice arr off len => l ← elements h arr off len; '(vs, s) ← list_repr h l; Some (vs, {[ arr ]} ∪ s)
  end.
Definition slice_copy `{!DeepCopyable R V, !Stored (list R)} (x : slice R) : HM (slice R) :=
  match x with
  | NilSlice => mret NilSlice
  | Slice arr off len =>
      l ← reads (λ h, elements h arr off len);
      l' ← copy_elements l; arr' ← alloc l'; mret (Slice arr' 0 (length l'))
  end.
#[export] Instance slice_DeepCopyable `{!DeepCopyable R V, !Stored (list R)} :
  DeepCopyable (slice R) (list V) := {| repr := slice_repr; DeepCopyInto := slice_copy |}.

(** *** AgentDeployment *)

Definition ScalingPolicy_DeepCopyInto : ScalingPolicy → HM ScalingPolicy := plain_copy.
#[export] Instance ScalingPolicy_DeepCopyable : DeepCopyable ScalingPolicy ScalingPolicy :=
  {| repr := plain_repr id; DeepCopyInto := ScalingPolicy_DeepCopyInto |}.

Definition RollbackPolicy_DeepCopyInto : RollbackPolicy → HM RollbackPolicy := plain_copy.
#[export] Instance RollbackPolicy_DeepCopyable : DeepCopyable RollbackPolicy RollbackPolicy :=
  {| repr := plain_repr id; DeepCopyInto := RollbackPolicy_DeepCopyInto |}.

Definition CanaryStep_repr (h : heap) (r : rCanaryStep) : option (CanaryStep * gset loc) :=
  '(w, s1) ← repr h (r_SetWeight r);
  '(p, s2) ← repr h (r_Pause r);
  Some ({| cs_SetWeight := w; cs_Pause := p |}, s1 ∪ s2).
Definition CanaryStep_DeepCopyInto (inp : rCanaryStep) : HM rCanaryStep :=
  w ← DeepCopyInto (r_SetWeight inp);
  p ← DeepCopyInto (r_Pause inp);
  mret {| r_SetWeight := w; r_Pause := p |}.
#[export] Instance CanaryStep_DeepCopyable : DeepCopyable rCanaryStep CanaryStep :=
  {| repr := CanaryStep_repr; DeepCopyInto := CanaryStep_DeepCopyInto |}.

Definition RolloutPolicy_repr (h : heap) (r : rRolloutPolicy) : option (RolloutPolicy * gset loc) :=
  '(steps, s) ← repr h (r_Steps r);
  Some ({| ro_Strategy := r_Strategy r; ro_Steps := steps; ro_Rollback := r_Rollback r;
           ro_Abort := r_Abort r |}, s).
Definition RolloutPolicy_DeepCopyInto (inp : rRolloutPolicy) : HM rRolloutPolicy :=
  steps ← DeepCopyInto (r_Steps inp);
  mret {| r_Strategy := r_Strategy inp; r_Steps := steps; r_Rollback := r_Rollback inp;
          r_Abort := r_Abort inp |}.
#[export] Instance RolloutPolicy_DeepCopyable : DeepCopyable rRolloutPolicy RolloutPolicy :=
  {| repr := RolloutPolicy_repr; DeepCopyInto := RolloutPolicy_DeepCopyInto |}.

Definition MCPConfig_repr (h : heap) (r : rMCPConfig) : option (MCPConfig * gset loc) :=
  '(tools, s) ← repr h (r_Tools r);
  Some ({| mcp_Expose := r_Expose r; mcp_Tools := tools |}, s).
Definition MCPConfig_DeepCopyInto (inp : rMCPConfig) : HM rMCPConfig :=
  tools ← DeepCopyInto (r_Tools inp);
  mret {| r_Expose := r_Expose inp; r_Tools := tools |}.
#[export] Instance MCPConfig_DeepCopyable : DeepCopyable rMCPConfig MCPConfig :=
  {| repr := MCPConfig_repr; DeepCopyInto := MCPConfig_DeepCopyInto |}.

Definition AgentDeploymentSpec_repr (h : heap) (r : rAgentDeploymentSpec)
    : option (AgentDeploymentSpec * gset loc) :=
  '(ro, s1) ← repr h (r_Rollout r);
  '(mcp, s2) ← repr h (r_MCP r);
  '(res, s3) ← repr h (r_Resources r);
  '(env, s4) ← repr h (r_Env r);
  '(args, s5) ← repr h (r_Args r);
  Some ({| spec_Image := r_Image r; spec_Port := r_Port r; spec_TenantRef := r_TenantRef r;
           spec_Replicas := r_Replicas r; spec_Rollout := ro; spec_MCP := mcp;
           spec_Resources := res; spec_Env := env; spec_Args := args |},
        s1 ∪ s2 ∪ s3 ∪ s4 ∪ s5).
Definition AgentDeploymentSpec_DeepCopyInto (inp : rAgentDeploymentSpec) : HM rAgentDeploymentSpec :=
  ro ← DeepCopyInto (r_Rollout inp);
  mcp ← DeepCopyInto (r_MCP inp);
  res ← DeepCopyInto (r_Resources inp);
  env ← DeepCopyInto (r_Env inp);
  args ← DeepCopyInto (r_Args inp);
  mret {| r_Image := r_Image inp; r_Port := r_Port inp; r_TenantRef := r_TenantRef inp;
          r_Replicas := r_Replicas inp; r_Rollout := ro; r_MCP := mcp; r_Resources := res;
          r_Env := env; r_Args := args |}.
#[export] Instance AgentDeploymentSpec_DeepCopyable :
  DeepCopyable rAgentDeploymentSpec AgentDeploymentSpec :=
  {| repr := AgentDeploymentSpec_repr; DeepCopyInto := AgentDeploymentSpec_DeepCopyInto |}.

Definition AgentDeploymentStatus_repr (h : heap) (r : rAgentDeploymentStatus)
    : option (AgentDeploymentStatus * gset loc) :=
  '(ps, s1) ← repr h (r_PauseStartedAt r);
  '(pu, s2) ← repr h (r_PromUnreachableSince r);
  '(cs, s3) ← repr h (r_Conditions r);
  Some ({| st_Phase := r_Phase r; st_CurrentReplicas := r_CurrentReplicas r;
           st_StableVersion := r_StableVersion r; st_CanaryVersion := r_CanaryVersion r;
           st_CanaryWeight := r_CanaryWeight r; st_CanaryStepIndex := r_CanaryStepIndex r;
           st_PauseStartedAt := ps; st_PromUnreachableSince := pu;
           st_Registered := r_Registered r; st_Conditions := cs |}, s1 ∪ s2 ∪ s3).
Definition AgentDeploymentStatus_DeepCopyInto (inp : rAgentDeploymentStatus)
    : HM rAgentDeploymentStatus :=
  ps ← DeepCopyInto (r_PauseStartedAt inp);
  pu ← DeepCopyInto (r_PromUnreachableSince inp);
  cs ← DeepCopyInto (r_Conditions inp);
  mret {| r_Phase := r_Phase inp; r_CurrentReplicas := r_CurrentReplicas inp;
          r_StableVersion := r_StableVersion inp; r_CanaryVersion := r_CanaryVersion inp;
          r_CanaryWeight := r_CanaryWeight inp; r_CanaryStepIndex := r_CanaryStepIndex inp;
          r_PauseStartedAt := ps; r_PromUnreachableSince := pu;
          r_Registered := r_Registered inp; r_Conditions := cs |}.
#[export] Instance AgentDeploymentStatus_DeepCopyable :
  DeepCopyable rAgentDeploymentStatus AgentDeploymentStatus :=
  {| repr := AgentDeploymentStatus_repr; DeepCopyInto := AgentDeploymentStatus_DeepCopyInto |}.

Definition AgentDeployment_repr (h : heap) (r : rAgentDeployment)
    : option (TypeMeta * AgentDeployment * gset loc) :=
  '(m, s1) ← repr h (r_adMeta r);
  '(spec, s2) ← repr h (r_adSpec r);
  '(st, s3) ← repr h (r_adStatus r);
  Some (r_adType r, {| ad_Meta := m; ad_Spec := spec; ad_Status := st |}, s1 ∪ s2 ∪ s3).
Definition AgentDeployment_DeepCopyInto (inp : rAgentDeployment) : HM rAgentDeployment :=
  m ← DeepCopyInto (r_adMeta inp);
  spec ← DeepCopyInto (r_adSpec inp);
  st ← DeepCopyInto (r_adStatus inp);
  mret {| r_adType := r_adType inp; r_adMeta := m; r_adSpec := spec; r_adStatus := st |}.
#[export] Instance AgentDeployment_DeepCopyable :
  DeepCopyable rAgentDeployment (TypeMeta * AgentDeployment) :=
  {| repr := AgentDeployment_repr; DeepCopyInto := AgentDeployment_DeepCopyInto |}.

Definition AgentDeploymentList_repr (h : heap) (r : rAgentDeploymentList)
    : option (TypeMeta * ListMeta * list (TypeMeta * AgentDeployment) * gset loc) :=
  '(m, s1) ← repr h (r_adlMeta r);
  '(items, s2) ← repr h (r_adlItems r);
  Some (r_adlType r, m, items, s1 ∪ s2).
Definition AgentDeploymentList_DeepCopyInto (inp : rAgentDeploymentList) : HM rAgentDeploymentList :=
  m ← DeepCopyInto (r_adlMeta inp);
  items ← DeepCopyInto (r_adlItems inp);
  mret {| r_adlType := r_adlType inp; r_adlMeta := m; r_adlItems := items |}.
#[export] Instance AgentDeploymentList_DeepCopyable :
  DeepCopyable rAgentDeploymentList (TypeMeta * ListMeta * list (TypeMeta * AgentDeployment)) :=
  {| repr := AgentDeploymentList_repr; DeepCopyInto := AgentDeploymentList_DeepCopyInto |}.

(** *** TenantQuota *)

Definition TenantQuotaSpec_DeepCopyInto : TenantQuotaSpec → HM TenantQuotaSpec := plain_copy.
#[export] Instance TenantQuotaSpec_DeepCopyable : DeepCopyable TenantQuotaSpec TenantQuotaSpec :=
  {| repr := plain_repr id; DeepCopyInto := TenantQuotaSpec_DeepCopyInto |}.

Definition TenantQuotaStatus_repr (h : heap) (r : rTenantQuotaStatus)
    : option (TenantQuotaStatus * gset loc) :=
  '(cs, s) ← repr h (r_tqConditions r);
  Some ({| tq_UsedAgents := r_UsedAgents r; tq_UsedGPUs := r_UsedGPUs r;
           tq_UsedTotalReplicas := r_UsedTotalReplicas r; tq_Conditions := cs |}, s).
Definition TenantQuotaStatus_DeepCopyInto (inp : rTenantQuotaStatus) : HM rTenantQuotaStatus :=
  cs ← DeepCopyInto (r_tqConditions inp);
  mret {| r_UsedAgents := r_UsedAgents inp; r_UsedGPUs := r_UsedGPUs inp;
          r_UsedTotalReplicas := r_UsedTotalReplicas inp; r_tqConditions := cs |}.
#[export] Instance TenantQuotaStatus_DeepCopyable :
  DeepCopyable rTenantQuotaStatus TenantQuotaStatus :=
  {| repr := TenantQuotaStatus_repr; DeepCopyInto := TenantQuotaStatus_DeepCopyInto |}.

Definition TenantQuota_repr (h : heap) (r : rTenantQuota)
    : option (TypeMeta * TenantQuota * gset loc) :=
  '(m, s1) ← repr h (r_tqMeta r);
  '(st, s2) ← repr h (r_tqStatus r);
  Some (r_tqType r, {| tq_Meta := m; tq_Spec := r_tqSpec r; tq_Status := st |}, s1 ∪ s2).
Definition TenantQuota_DeepCopyInto (inp : rTenantQuota) : HM rTenantQuota :=
  m ← DeepCopyInto (r_tqMeta inp);
  st ← DeepCopyInto (r_tqStatus inp);
  mret {| r_tqType := r_tqType inp; r_tqMeta := m; r_tqSpec := r_tqSpec inp; r_tqStatus := st |}.
#[export] Instance TenantQuota_DeepCopyable :
  DeepCopyable rTenantQuota (TypeMeta * TenantQuota) :=
  {| repr := TenantQuota_repr; DeepCopyInto := TenantQuota_DeepCopyInto |}.

Definition TenantQuotaList_repr (h : heap) (r : rTenantQuotaList)
    : option (TypeMeta * ListMeta * list (TypeMeta * TenantQuota) * gset loc) :=
  '(m, s1) ← repr h (r_tqlMeta r);
  '(items, s2) ← repr h (r_tqlItems r);
  Some (r_tqlType r, m, items, s1 ∪ s2).
Definition TenantQuotaList_DeepCopyInto (inp : rTenantQuotaList) : HM rTenantQuotaList :=
  m ← DeepCopyInto (r_tqlMeta inp);
  items ← DeepCopyInto (r_tqlItems inp);
  mret {| r_tqlType := r_tqlType inp; r_tqlMeta := m; r_tqlItems := items |}.
#[export] Instance TenantQuotaList_DeepCopyable :
  DeepCopyable rTenantQuotaList (TypeMeta * ListMeta * list (TypeMeta * TenantQuota)) :=
  {| repr := TenantQuotaList_repr; DeepCopyInto := TenantQuotaList_DeepCopyInto |}.

(** *** [DeepCopy] and [DeepCopyObject] *)

(** [out := new(T); in.DeepCopyInto(out); return out] for a receiver that is
    not nil; the receiver is given by the contents it points to. *)
Definition new_copy `{!DeepCopyable R V, !Stored R} (inp : option R) : HM (ptr R) :=
  match inp with
  | None => mret NilPtr
  | Some r => r' ← DeepCopyInto r; l ← alloc r'; mret (Ptr l)
  end.

Definition AgentDeployment_DeepCopy : option rAgentDeployment → HM (ptr rAgentDeployment) := new_copy.
Definition AgentDeploymentList_DeepCopy : option rAgentDeploymentList → HM (ptr rAgentDeploymentList) :=
  new_copy.
Definition AgentDeploymentSpec_DeepCopy : option rAgentDeploymentSpec → HM (ptr rAgentDeploymentSpec) :=
  new_copy.
Definition AgentDeploymentStatus_DeepCopy :
  option rAgentDeploymentStatus → HM (ptr rAgentDeploymentStatus) := new_copy.
Definition CanaryStep_DeepCopy : option rCanaryStep → HM (ptr rCanaryStep) := new_copy.
Definition MCPConfig_DeepCopy : option rMCPConfig → HM (ptr rMCPConfig) := new_copy.
Definition RollbackPolicy_DeepCopy : option RollbackPolicy → HM (ptr RollbackPolicy) := new_copy.
Definition RolloutPolicy_DeepCopy : option rRolloutPolicy → HM (ptr rRolloutPolicy) := new_copy.
Definition ScalingPolicy_DeepCopy : option ScalingPolicy → HM (ptr ScalingPolicy) := new_copy.
Definition TenantQuota_DeepCopy : option rTenantQuota → HM (ptr rTenantQuota) := new_copy.
Definition TenantQuotaList_DeepCopy : option rTenantQuotaList → HM (ptr rTenantQuotaList) := new_copy.
Definition TenantQuotaSpec_DeepCopy : option TenantQuotaSpec → HM (ptr TenantQuotaSpec) := new_copy.
Definition TenantQuotaStatus_DeepCopy : option rTenantQuotaStatus → HM (ptr rTenantQuotaStatus) :=
  new_copy.

(** A [runtime.Object] that is not nil: the dynamic type and the pointer. *)
Inductive Object :=
  | ObjAgentDeployment (p : ptr rAgentDeployment)
  | ObjAgentDeploymentList (p : ptr rAgentDeploymentList)
  | ObjTenantQuota (p : ptr rTenantQuota)
  | ObjTenantQuotaList (p : ptr rTenantQuotaList).

(** [if c := in.DeepCopy(); c != nil { return c }; return nil]. *)
Definition as_object {R} (mk : ptr R → Object) (c : ptr R) : option Object :=
  match c with NilPtr => None | Ptr _ => Some (mk c) end.

Definition AgentDeployment_DeepCopyObject (inp : option rAgentDeployment) : HM (option Object) :=
  c ← AgentDeployment_DeepCopy inp; mret (as_object ObjAgentDeployment c).
Definition AgentDeploymentList_DeepCopyObject (inp : option rAgentDeploymentList)
    : HM (option Object) :=
  c ← AgentDeploymentList_DeepCopy inp; mret (as_object ObjAgentDeploymentList c).
Definition TenantQuota_DeepCopyObject (inp : option rTenantQuota) : HM (option Object) :=
  c ← TenantQuota_DeepCopy inp; mret (as_object ObjTenantQuota c).
Definition TenantQuotaList_DeepCopyObject (inp : option rTenantQuotaList) : HM (option Object) :=
  c ← TenantQuotaList_DeepCopy inp; mret (as_object ObjTenantQuotaList c).
End copies.
