(* ===== verification/DeepCopyProps.v ===== *)
(** The generated copies are deep.

    Every struct of [api/v1alpha1] satisfies [DeepCopyLaws] when the library
    types it embeds do; the theorems then say what a caller relies on: the copy
    stands for the same value and lives in cells of its own, so that no write
    through one of the two is seen through the other. *)
From S2P Require Import Prelude Types DeepCopy.

(** ** Memory *)
Section memory_lemmas.
Context `{CoreTypes, LibReps}.
Implicit Types (h : heap) (s : gset loc).

Lemma load_local `{!Stored A} h h' l (a : A) :
  h' !! l = h !! l → load h l = Some a → load h' l = Some a.
Proof. intros Hl. unfold load. by rewrite Hl. Qed.

Lemma load_dom `{!Stored A} h l (a : A) : load h l = Some a → l ∈ dom h.
Proof. intros (c & Hc & _)%bind_Some. apply elem_of_dom. by exists c. Qed.

Lemma elements_local `{!Stored (list A)} h h' arr off len (l : list A) :
  h' !! arr = h !! arr → elements h arr off len = Some l → elements h' arr off len = Some l.
Proof.
  intros Ha (x & Hx & Hl)%bind_Some. unfold elements. by rewrite (load_local h h' arr x Ha Hx).
Qed.

Lemma elements_dom `{!Stored (list A)} h arr off len (l : list A) :
  elements h arr off len = Some l → arr ∈ dom h.
Proof. intros (x & Hx & _)%bind_Some. by eapply load_dom. Qed.

Lemma alloc_ok `{!Stored A} (a : A) h : ∃ l h',
  alloc a h = Some (l, h') ∧ h ⊆ h' ∧ l ∉ dom h ∧ load h' l = Some a.
Proof.
  unfold alloc. assert (Hf : fresh (dom h) ∉ dom h) by apply is_fresh.
  eexists _, _. split; [done|]. split; [by apply insert_subseteq, not_elem_of_dom|].
  split; [done|]. unfold load. rewrite lookup_insert_eq. simpl. apply of_to_cell.
Qed.

Lemma alloc_elements `{!Stored (list A)} h arr (l : list A) :
  load h arr = Some l → elements h arr 0 (length l) = Some l.
Proof.
  intros Hl. unfold elements. rewrite Hl. simpl. rewrite decide_True by lia. by rewrite firstn_all.
Qed.

Lemma heap_bind {A B} (m : HM A) (f : A → HM B) h a h' :
  m h = Some (a, h') → (m ≫= f) h = f a h'.
Proof. intros Hm. unfold mbind, HM_bind. by rewrite Hm. Qed.

Lemma reads_ok {A} (f : heap → option A) h a : f h = Some a → reads f h = Some (a, h).
Proof. intros Hf. unfold reads. by rewrite Hf. Qed.

(** A heap that only grew agrees on what was there. *)
Lemma grown_agrees h h' s : h ⊆ h' → s ⊆ dom h → ∀ l, l ∈ s → h' !! l = h !! l.
Proof.
  intros Hh Hs l [c Hc]%Hs%elem_of_dom. rewrite Hc. by eapply lookup_weaken.
Qed.
End memory_lemmas.

Section laws.
Context `{CoreTypes, LibReps} `{!DeepCopyable R V, !DeepCopyLaws R V}.
Implicit Types (h : heap).

Lemma repr_grown h h' r v s : h ⊆ h' → repr h r = Some (v, s) → repr h' r = Some (v, s).
Proof.
  intros Hh Hr. apply (repr_local h); [done|]. apply grown_agrees; [done|]. by eapply repr_dom.
Qed.

(** One field of a struct is copied, then the rest. *)
Lemma copy_then {B} (Q : B → heap → gset loc → Prop) (k : R → HM B) h0 h r v s :
  h0 ⊆ h → repr h0 r = Some (v, s) →
  (∀ r' h' s', h ⊆ h' → h0 ⊆ h' → repr h' r' = Some (v, s') → s' ## dom h0 →
    ∃ b h2 s2, k r' h' = Some (b, h2) ∧ h' ⊆ h2 ∧ Q b h2 s2) →
  ∃ b h2 s2, (DeepCopyInto r ≫= k) h = Some (b, h2) ∧ h ⊆ h2 ∧ Q b h2 s2.
Proof.
  intros Hh Hr Hk. destruct (copy_ok h r v s) as (r' & h' & s' & Hc & Hsub & Hr' & Hd);
    [by apply (repr_grown h0)|].
  destruct (Hk r' h' s') as (b & h2 & s2 & Hb & Hsub2 & HQ); [done|by trans h|done| |].
  { apply subseteq_dom in Hh. set_solver. }
  exists b, h2, s2. rewrite (heap_bind _ _ _ _ _ Hc). split_and!; [done|by trans h'|done].
Qed.
End laws.

(** Allocating the copy of a pointer or a slice, then returning. *)
Lemma alloc_then `{CoreTypes, LibReps, !Stored A} {B} (Q : B → heap → gset loc → Prop)
    (k : loc → HM B) (a : A) (h : heap) :
  (∀ l h', h ⊆ h' → l ∉ dom h → load h' l = Some a →
    ∃ b h2 s2, k l h' = Some (b, h2) ∧ h' ⊆ h2 ∧ Q b h2 s2) →
  ∃ b h2 s2, (alloc a ≫= k) h = Some (b, h2) ∧ h ⊆ h2 ∧ Q b h2 s2.
Proof.
  intros Hk. destruct (alloc_ok a h) as (l & h' & Ha & Hsub & Hl & Hload).
  destruct (Hk l h') as (b & h2 & s2 & Hb & Hsub2 & HQ); [done..|].
  exists b, h2, s2. rewrite (heap_bind _ _ _ _ _ Ha). split_and!; [done|by trans h'|done].
Qed.

(** Take a representation apart field by field. *)
Ltac fields :=
  repeat match goal with
  | Hr : mbind _ _ = Some _ |- _ => apply bind_Some in Hr as ([? ?] & ? & Hr)
  | Hr : Some _ = Some _ |- _ => injection Hr as <- <-
  end.

(** [h ⊆ h'] along the heaps a program went through. *)
Ltac grown := first [eassumption | reflexivity | etrans; [eassumption|]; grown].

(** The three laws of a struct whose [repr] and [DeepCopyInto] go field by
    field through types that satisfy them; [expose] unfolds its [repr]. *)
Ltac next_field := cbn [mbind option_bind].
Ltac struct_local :=
  match goal with Hl : ∀ l, l ∈ _ → _ |- _ =>
    repeat (erewrite repr_local; [|eassumption|intros ? ?; apply Hl; set_solver]; next_field); done
  end.
Ltac struct_dom :=
  repeat match goal with Hr : repr _ _ = Some _ |- _ => apply repr_dom in Hr end; set_solver.
Ltac struct_copy expose :=
  repeat (eapply copy_then; [|eassumption|]; [grown|intros]);
  eexists _, _, _; split; [reflexivity|]; split; [reflexivity|]; split;
  [expose (); repeat (erewrite repr_grown; [| |eassumption]; [|grown]; next_field); reflexivity
  |set_solver].
Tactic Notation "struct_laws" reference(inst) reference(rp) reference(cp) :=
  let expose _ := unfold inst in *; cbn [repr DeepCopyInto] in *; unfold rp, cp in * in
  split;
  [intros h h' r v s Hr Hl; expose (); fields; struct_local
  |intros h r v s Hr; expose (); fields; struct_dom
  |intros h r v s Hr; expose (); fields; struct_copy expose].

Lemma plain_laws `{CoreTypes, LibReps} {A B} (f : A → B) :
  @DeepCopyLaws _ _ A B {| repr := plain_repr f; DeepCopyInto := plain_copy |}.
Proof.
  split; simpl.
  - done.
  - intros h r v s [= _ <-]. set_solver.
  - intros h r v s [= <- <-]. exists r, h, ∅. split_and!; [done|done|done|set_solver].
Qed.

Section copy_laws.
Context `{LibCopiesLaws}.
Implicit Types (h : heap).

#[export] Instance int32_laws : DeepCopyLaws int32_var Z := plain_laws _.
#[export] Instance Duration_laws : DeepCopyLaws Duration_var Z := plain_laws _.
#[export] Instance string_laws : DeepCopyLaws string string := plain_laws _.
#[export] Instance ScalingPolicy_laws : DeepCopyLaws ScalingPolicy ScalingPolicy := plain_laws _.
#[export] Instance RollbackPolicy_laws : DeepCopyLaws RollbackPolicy RollbackPolicy := plain_laws _.
#[export] Instance TenantQuotaSpec_laws : DeepCopyLaws TenantQuotaSpec TenantQuotaSpec := plain_laws _.

#[export] Instance ptr_laws `{!DeepCopyable R V, !Stored R, !DeepCopyLaws R V} :
  DeepCopyLaws (ptr R) (option V).
Proof.
  split.
  - intros h h' [|l] v s Hr Hl; simpl in *; [done|].
    apply bind_Some in Hr as (r & Hload & Hr). fields.
    rewrite (load_local h h' l r); [|apply Hl; set_solver|done]. simpl. struct_local.
  - intros h [|l] v s Hr; simpl in *; [simplify_eq; set_solver|].
    apply bind_Some in Hr as (r & Hload%load_dom & Hr). fields. struct_dom.
  - intros h [|l] v s Hr; simpl in *.
    { injection Hr as <- <-. exists NilPtr, h, ∅. split_and!; [done..|set_solver]. }
    apply bind_Some in Hr as (r & Hload & Hr). fields.
    rewrite (heap_bind _ _ _ _ _ (reads_ok _ _ _ Hload)).
    eapply copy_then; [|eassumption|]; [grown|intros r' h' s' Hsub _ Hr' Hd].
    eapply alloc_then. intros l' h2 Hsub2 Hl' Hload'.
    eexists _, _, _. split; [reflexivity|]. split; [done|]. split.
    + simpl. rewrite Hload'. simpl. erewrite repr_grown by eauto. reflexivity.
    + apply subseteq_dom in Hsub. set_solver.
Qed.

#[export] Instance opt_laws `{!DeepCopyable R V, !DeepCopyLaws R V} : DeepCopyLaws (option R) (option V).
Proof.
  split.
  - intros h h' [r|] v s Hr Hl; simpl in *; [|done]. fields. struct_local.
  - intros h [r|] v s Hr; simpl in *; [|simplify_eq; set_solver]. fields. struct_dom.
  - intros h [r|] v s Hr; simpl in *.
    + fields. struct_copy ltac:(fun _ => simpl).
    + injection Hr as <- <-. exists None, h, ∅. split_and!; [done..|set_solver].
Qed.

Section elements.
Context `{!DeepCopyable R V, !DeepCopyLaws R V}.

Lemma list_repr_local h h' (l : list R) vs s : list_repr h l = Some (vs, s) →
  (∀ a, a ∈ s → h' !! a = h !! a) → list_repr h' l = Some (vs, s).
Proof.
  revert vs s. induction l as [|r l IH]; simpl; intros vs s Hr Hl; [done|]. fields.
  erewrite repr_local; [|eassumption|intros ? ?; apply Hl; set_solver]. simpl.
  erewrite IH; [|eassumption|intros ? ?; apply Hl; set_solver]. done.
Qed.

Lemma list_repr_dom h (l : list R) vs s : list_repr h l = Some (vs, s) → s ⊆ dom h.
Proof.
  revert vs s. induction l as [|r l IH]; simpl; intros vs s Hr; [simplify_eq; set_solver|].
  fields. struct_dom.
Qed.

Lemma copy_elements_ok h0 h (l : list R) vs s : h0 ⊆ h → list_repr h0 l = Some (vs, s) →
  ∃ l' h' s', copy_elements l h = Some (l', h') ∧ h ⊆ h' ∧ list_repr h' l' = Some (vs, s') ∧
    s' ## dom h0.
Proof.
  revert vs s h. induction l as [|r l IH]; simpl; intros vs s h Hh Hr.
  { injection Hr as <- <-. exists [], h, ∅. split_and!; [done..|set_solver]. }
  fields. eapply copy_then; [exact Hh|eassumption|]. intros r' h' s' Hsub Hh' Hr' Hd.
  match goal with Hl : list_repr _ _ = _ |- _ =>
    destruct (IH _ _ h' Hh' Hl) as (l' & h2 & s2 & Hc & Hsub2 & Hl' & Hd2) end.
  rewrite (heap_bind _ _ _ _ _ Hc). eexists _, _, _. split; [reflexivity|]. split; [done|]. split.
  - simpl. erewrite repr_grown by eauto. simpl. by rewrite Hl'.
  - set_solver.
Qed.
End elements.

#[export] Instance slice_laws `{!DeepCopyable R V, !Stored (list R), !DeepCopyLaws R V} :
  DeepCopyLaws (slice R) (list V).
Proof.
  split.
  - intros h h' [|arr off len] v s Hr Hl; simpl in *; [done|].
    apply bind_Some in Hr as (l & He & Hr). fields.
    rewrite (elements_local h h' arr off len l); [|apply Hl; set_solver|done]. simpl.
    erewrite list_repr_local; [|eassumption|intros ? ?; apply Hl; set_solver]. done.
  - intros h [|arr off len] v s Hr; simpl in *; [simplify_eq; set_solver|].
    apply bind_Some in Hr as (l & He%elements_dom & Hr). fields.
    match goal with Hl : list_repr _ _ = _ |- _ => apply list_repr_dom in Hl end. set_solver.
  - intros h [|arr off len] v s Hr; simpl in *.
    { injection Hr as <- <-. exists NilSlice, h, ∅. split_and!; [done..|set_solver]. }
    apply bind_Some in Hr as (l & He & Hr). fields.
    rewrite (heap_bind _ _ _ _ _ (reads_ok _ _ _ He)).
    match goal with Hl : list_repr _ _ = _ |- _ =>
      destruct (copy_elements_ok h h l _ _ (reflexivity h) Hl) as (l' & h1 & s1 & Hc & Hsub & Hl' & Hd)
    end.
    rewrite (heap_bind _ _ _ _ _ Hc).
    destruct (alloc_ok l' h1) as (arr' & h2 & Ha & Hsub2 & Hn & Hload).
    rewrite (heap_bind _ _ _ _ _ Ha). eexists _, _, _. split; [reflexivity|].
    split; [by trans h1|]. split.
    + simpl. rewrite (alloc_elements _ _ _ Hload). simpl.
      erewrite list_repr_local; [reflexivity|exact Hl'|]. apply grown_agrees; [done|].
      by eapply list_repr_dom.
    + apply subseteq_dom in Hsub. set_solver.
Qed.

#[export] Instance CanaryStep_laws : DeepCopyLaws rCanaryStep CanaryStep.
Proof. struct_laws CanaryStep_DeepCopyable CanaryStep_repr CanaryStep_DeepCopyInto. Qed.
#[export] Instance RolloutPolicy_laws : DeepCopyLaws rRolloutPolicy RolloutPolicy.
Proof. struct_laws RolloutPolicy_DeepCopyable RolloutPolicy_repr RolloutPolicy_DeepCopyInto. Qed.
#[export] Instance MCPConfig_laws : DeepCopyLaws rMCPConfig MCPConfig.
Proof. struct_laws MCPConfig_DeepCopyable MCPConfig_repr MCPConfig_DeepCopyInto. Qed.
#[export] Instance AgentDeploymentSpec_laws : DeepCopyLaws rAgentDeploymentSpec AgentDeploymentSpec.
Proof. struct_laws AgentDeploymentSpec_DeepCopyable AgentDeploymentSpec_repr AgentDeploymentSpec_DeepCopyInto. Qed.
#[export] Instance AgentDeploymentStatus_laws :
  DeepCopyLaws rAgentDeploymentStatus AgentDeploymentStatus.
Proof. struct_laws AgentDeploymentStatus_DeepCopyable AgentDeploymentStatus_repr AgentDeploymentStatus_DeepCopyInto. Qed.
#[export] Instance AgentDeployment_laws : DeepCopyLaws rAgentDeployment (TypeMeta * AgentDeployment).
Proof. struct_laws AgentDeployment_DeepCopyable AgentDeployment_repr AgentDeployment_DeepCopyInto. Qed.
#[export] Instance AgentDeploymentList_laws :
  DeepCopyLaws rAgentDeploymentList (TypeMeta * ListMeta * list (TypeMeta * AgentDeployment)).
Proof. struct_laws AgentDeploymentList_DeepCopyable AgentDeploymentList_repr AgentDeploymentList_DeepCopyInto. Qed.
#[export] Instance TenantQuotaStatus_laws : DeepCopyLaws rTenantQuotaStatus TenantQuotaStatus.
Proof. struct_laws TenantQuotaStatus_DeepCopyable TenantQuotaStatus_repr TenantQuotaStatus_DeepCopyInto. Qed.
#[export] Instance TenantQuota_laws : DeepCopyLaws rTenantQuota (TypeMeta * TenantQuota).
Proof. struct_laws TenantQuota_DeepCopyable TenantQuota_repr TenantQuota_DeepCopyInto. Qed.
#[export] Instance TenantQuotaList_laws :
  DeepCopyLaws rTenantQuotaList (TypeMeta * ListMeta * list (TypeMeta * TenantQuota)).
Proof. struct_laws TenantQuotaList_DeepCopyable TenantQuotaList_repr TenantQuotaList_DeepCopyInto. Qed.
End copy_laws.

(** ** Copies are independent *)
Section independence.
Context `{LibCopiesLaws} `{!DeepCopyable R V, !Stored R}.
Implicit Types (h : heap).

(** [p] is a copy of the struct [r], which stands for [v] in [h]: it stands
    for the same value in cells that are new, and after any writes to the
    cells of one of the two the other still stands for it. *)
Definition independent_copy h (r : R) (v : V) (p : ptr R) h' : Prop :=
  ∃ s s', repr h r = Some (v, s) ∧ repr h' r = Some (v, s) ∧ repr h' p = Some (Some v, s') ∧
    s' ## dom h ∧
    (∀ h2, (∀ l, l ∉ s' → h2 !! l = h' !! l) → repr h2 r = Some (v, s)) ∧
    (∀ h2, (∀ l, l ∉ s → h2 !! l = h' !! l) → repr h2 p = Some (Some v, s')).

Lemma new_copy_independent `{!DeepCopyLaws R V} h r v s : repr h r = Some (v, s) →
  ∃ l h', new_copy (Some r) h = Some (Ptr l, h') ∧ h ⊆ h' ∧ independent_copy h r v (Ptr l) h'.
Proof.
  intros Hr. destruct (copy_ok h r v s Hr) as (r' & h1 & s1 & Hc & Hsub & Hr1 & Hd).
  destruct (alloc_ok r' h1) as (l & h2 & Ha & Hsub2 & Hl & Hload).
  exists l, h2. unfold new_copy. rewrite (heap_bind _ _ _ _ _ Hc), (heap_bind _ _ _ _ _ Ha).
  assert (Hgrow : h ⊆ h2) by by trans h1.
  assert (Hp : repr h2 (Ptr l) = Some (Some v, {[ l ]} ∪ s1)).
  { simpl. rewrite Hload. simpl. by rewrite (repr_grown h1 h2 r' v s1 Hsub2 Hr1). }
  pose proof (repr_dom h r v s Hr) as Hs. pose proof (subseteq_dom _ _ Hsub) as Hdom.
  assert (Hdis : {[ l ]} ∪ s1 ## dom h) by set_solver.
  pose proof (repr_grown h h2 r v s Hgrow Hr) as Hr2.
  split; [done|]. split; [done|]. exists s, ({[ l ]} ∪ s1). split_and!; [done..| |].
  - intros h3 Hag. apply (repr_local h2); [done|]. intros x Hx. apply Hag. set_solver.
  - intros h3 Hag. apply (repr_local h2); [done|]. intros x Hx. apply Hag. set_solver.
Qed.
End independence.

Section objects.
Context `{LibCopiesLaws}.
Implicit Types (h : heap).

(** What [DeepCopyObject] promises of a type: a nil receiver gives the nil
    interface and not an interface that holds a nil pointer; a receiver that
    is not nil gives an independent copy. *)
Definition copies_object `{!DeepCopyable R V, !Stored R} (mk : ptr R → Object)
    (copy : option R → HM (option Object)) : Prop :=
  (∀ h, copy None h = Some (None, h)) ∧
  ∀ h r v s, repr h r = Some (v, s) →
    ∃ l h', copy (Some r) h = Some (Some (mk (Ptr l)), h') ∧ h ⊆ h' ∧
      independent_copy h r v (Ptr l) h'.

(** The same of [DeepCopy], whose nil result is a nil pointer. *)
Definition copies_pointer `{!DeepCopyable R V, !Stored R} (copy : option R → HM (ptr R)) : Prop :=
  (∀ h, copy None h = Some (NilPtr, h)) ∧
  ∀ h r v s, repr h r = Some (v, s) →
    ∃ l h', copy (Some r) h = Some (Ptr l, h') ∧ h ⊆ h' ∧ independent_copy h r v (Ptr l) h'.

Lemma new_copy_copies `{!DeepCopyable R V, !Stored R, !DeepCopyLaws R V} :
  copies_pointer (R := R) new_copy.
Proof. split; [done|]. intros h r v s. apply new_copy_independent. Qed.

Lemma as_object_copies `{!DeepCopyable R V, !Stored R, !DeepCopyLaws R V} (mk : ptr R → Object) :
  copies_object mk (λ inp, c ← new_copy inp; mret (as_object mk c)).
Proof.
  split; [done|]. intros h r v s Hr.
  destruct (new_copy_independent h r v s Hr) as (l & h' & Hc & Hsub & Hi).
  exists l, h'. by rewrite (heap_bind _ _ _ _ _ Hc).
Qed.

(** C13: the generated copies are deep.  [DeepCopyObject] of an agent, of a
    quota and of a list of either, and [DeepCopy] of each of their parts, read
    only memory that is there, return a copy that stands for the same value,
    and share no cell with the original, whatever the original's fields share
    among themselves: a write through the copy is never seen through the
    original, and the other way round.  A nil receiver gives nil, and for
    [DeepCopyObject] the nil interface. *)
Theorem deep_copies_are_independent :
  (copies_object ObjAgentDeployment AgentDeployment_DeepCopyObject ∧
   copies_object ObjAgentDeploymentList AgentDeploymentList_DeepCopyObject ∧
   copies_object ObjTenantQuota TenantQuota_DeepCopyObject ∧
   copies_object ObjTenantQuotaList TenantQuotaList_DeepCopyObject) ∧
  (copies_pointer AgentDeploymentSpec_DeepCopy ∧ copies_pointer AgentDeploymentStatus_DeepCopy ∧
   copies_pointer CanaryStep_DeepCopy ∧ copies_pointer RolloutPolicy_DeepCopy ∧
   copies_pointer RollbackPolicy_DeepCopy ∧ copies_pointer ScalingPolicy_DeepCopy ∧
   copies_pointer MCPConfig_DeepCopy ∧ copies_pointer TenantQuotaSpec_DeepCopy ∧
   copies_pointer TenantQuotaStatus_DeepCopy).
Proof. repeat split_and; first [apply as_object_copies | apply new_copy_copies]; apply _. Qed.
End objects.

(** ** A concrete memory

    The library types held by value, and times in cells of their own. *)
Module RefMemory.
#[local] Existing Instance Ref.core.

Definition reps : LibReps := {|
  rObjectMeta := ObjectMeta; rListMeta := string; rResourceRequirements := ResourceRequirements;
  rEnvVar := EnvVar; rCondition := Condition; rTimePtr := loc; LibCell := Z; ListMeta := string |}.
#[local] Existing Instance reps.

Definition time_repr (h : heap) (l : loc) : option (Z * gset loc) :=
  match h !! l with Some (CLib t) => Some (t, {[ l ]}) | _ => None end.
Definition time_copy (l : loc) : HM loc := λ h,
  match h !! l with
  | Some (CLib t) => let l' := fresh (dom h) in Some (l', <[l' := CLib t]> h)
  | _ => None
  end.

Definition copies : LibCopies := {|
  lib_ObjectMeta := {| repr := plain_repr id; DeepCopyInto := plain_copy |};
  lib_ListMeta := {| repr := plain_repr id; DeepCopyInto := plain_copy |};
  lib_ResourceRequirements := {| repr := plain_repr id; DeepCopyInto := plain_copy |};
  lib_EnvVar := {| repr := plain_repr id; DeepCopyInto := plain_copy |};
  lib_Condition := {| repr := plain_repr id; DeepCopyInto := plain_copy |};
  lib_TimePtr := {| repr := time_repr; DeepCopyInto := time_copy |} |}.
#[local] Existing Instance copies.

Lemma time_laws : DeepCopyLaws rTimePtr Z.
Proof.
  split.
  - intros h h' r v s Hr Hl. simpl in *. unfold time_repr in *.
    destruct (h !! r) as [[]|] eqn:E; simplify_eq. rewrite Hl, E; set_solver.
  - intros h r v s Hr. simpl in *. unfold time_repr in *.
    destruct (h !! r) as [[]|] eqn:E; simplify_eq. apply elem_of_dom_2 in E. set_solver.
  - intros h r v s Hr. simpl in *. unfold time_repr, time_copy in *.
    destruct (h !! r) as [[]|] eqn:E; simplify_eq.
    assert (Hf : fresh (dom h) ∉ dom h) by apply is_fresh.
    eexists _, _, _. split; [reflexivity|]. split; [by apply insert_subseteq, not_elem_of_dom|].
    rewrite lookup_insert_eq. split; [done|set_solver].
Qed.

Lemma laws : LibCopiesLaws.
Proof. split; [apply plain_laws..|apply time_laws]. Qed.

(** An agent in the middle of a rollout.  Its two steps share the variable that
    holds the weight, and both timestamps are the same cell. *)
Definition weight_step : rCanaryStep := {| r_SetWeight := Ptr 1%positive; r_Pause := NilPtr |}.
Definition pause_step : rCanaryStep := {| r_SetWeight := Ptr 1%positive; r_Pause := Ptr 2%positive |}.
Definition memory : heap :=
  {[ 1%positive := CInt32 (Int32 20); 2%positive := CDuration (Duration 60);
     3%positive := CSteps [weight_step; pause_step]; 4%positive := CLib 1000;
     5%positive := CStrings ["search"; "fetch"; "unused"];
     6%positive := CConditions [] ]}.
Definition rollout_status : rAgentDeploymentStatus :=
  {| r_Phase := PhaseRolloutInProgress; r_CurrentReplicas := 2; r_StableVersion := "img:v1";
     r_CanaryVersion := "img:v2"; r_CanaryWeight := 20; r_CanaryStepIndex := 1;
     r_PauseStartedAt := Some 4%positive; r_PromUnreachableSince := Some 4%positive;
     r_Registered := false; r_Conditions := Slice 6%positive 0 0 |}.
Definition agent : rAgentDeployment :=
  {| r_adType := {| tm_Kind := "AgentDeployment"; tm_APIVersion := "agentrax.io/v1alpha1" |};
     r_adMeta := new_meta "a" "ns" ∅;
     r_adSpec :=
       {| r_Image := "img:v2"; r_Port := 8080; r_TenantRef := "team";
          r_Replicas := spec_Replicas (Ref.agent 4 0);
          r_Rollout := {| r_Strategy := "Canary"; r_Steps := Slice 3%positive 0 2; r_Rollback := Ref.rollback;
                          r_Abort := false |};
          r_MCP := {| r_Expose := true; r_Tools := Slice 5%positive 0 2 |};
          r_Resources := spec_Resources (Ref.agent 4 0); r_Env := NilSlice; r_Args := NilSlice |};
     r_adStatus := rollout_status |}.

Definition agent_value : option (TypeMeta * AgentDeployment) := fst <$> repr memory agent.
Definition steps_value : option (list CanaryStep) :=
  p ← agent_value; Some (ro_Steps (spec_Rollout (ad_Spec p.2))).

Lemma agent_readable : is_Some (repr memory agent).
Proof. apply (bool_decide_unpack _). vm_compute. exact I. Qed.

Lemma deep_copies_are_independent_witness :
  steps_value = Some [{| cs_SetWeight := Some 20; cs_Pause := None |};
                      {| cs_SetWeight := Some 20; cs_Pause := Some 60 |}] ∧
  ∃ v l h', AgentDeployment_DeepCopyObject (Some agent) memory =
      Some (Some (ObjAgentDeployment (Ptr l)), h') ∧ memory ⊆ h' ∧
    independent_copy memory agent v (Ptr l) h'.
Proof.
  split; [vm_compute; reflexivity|]. destruct agent_readable as [[v s] Hr]. exists v.
  exact (proj2 (proj1 (proj1 (@deep_copies_are_independent Ref.core reps copies laws))) memory agent v s Hr).
Defined.
End RefMemory.
