(* ===== verification/Enforcer.v ===== *)
(** The quota enforcer, [src/internal/quota/enforcer.go]: quota arithmetic in
    Go's [int32]/[int64], the in-flight reservation map and the operations that
    the admission webhook and the TenantQuota reconciler call on it.

    The mutex [mu] makes every exported operation atomic, so an operation is a
    function on the enforcer's state; an interleaving of goroutines is a
    sequence of such operations ([Op], [run_ops]). *)
From S2P Require Import Prelude Types.

Definition DefaultGPUResourceName : string := "nvidia.com/gpu".

Record reservationEntry := {
  re_agents : Z;
  re_gpus : Z;
  re_replicas : Z;
  re_expiry : Z;
}.

(** [done] is the state of the channel that stops the sweep goroutine. *)
Record Enforcer := {
  gpuResourceName : string;
  reservations : gmap string reservationEntry;
  done_closed : bool;
}.

Definition with_reservations (m : gmap string reservationEntry) (e : Enforcer) : Enforcer :=
  {| gpuResourceName := gpuResourceName e; reservations := m; done_closed := done_closed e |}.

Definition NewEnforcer (name : string) : Enforcer :=
  {| gpuResourceName := if name =s? "" then DefaultGPUResourceName else name;
     reservations := ∅; done_closed := false |}.

Definition Stop (e : Enforcer) : Enforcer :=
  {| gpuResourceName := gpuResourceName e; reservations := reservations e;
     done_closed := true |}.

(** [now.After(v.expiry)]. *)
Definition expired (now : Z) (v : reservationEntry) : bool := re_expiry v <? now.

Definition sweepExpired (now : Z) (e : Enforcer) : Enforcer :=
  with_reservations (filter (λ kv, expired now kv.2 = false) (reservations e)) e.

(** One turn of [sweepLoop] at a tick: a tick sweeps, a closed [done] ends the
    loop.  When both are ready the [select] takes either; [pick] tells whether
    it takes [done]. *)
Definition sweepLoop_tick (pick : bool) (now : Z) (e : Enforcer) : Enforcer :=
  if done_closed e && pick then e else sweepExpired now e.

Definition Release (admissionKey : string) (e : Enforcer) : Enforcer :=
  with_reservations (delete admissionKey (reservations e)) e.

(** The loop body of [sumInflightLocked], and the loop over the entries in the
    order the map iteration yields them. *)
Definition add_entry (excludeKey : string) (now : Z)
    (total : reservationEntry) (kv : string * reservationEntry) : reservationEntry :=
  if (kv.1 =s? excludeKey) || expired now kv.2 then total else
  {| re_agents := int32 (re_agents total + re_agents kv.2);
     re_gpus := int32 (re_gpus total + re_gpus kv.2);
     re_replicas := int32 (re_replicas total + re_replicas kv.2);
     re_expiry := re_expiry total |}.

Definition zero_entry : reservationEntry :=
  {| re_agents := 0; re_gpus := 0; re_replicas := 0; re_expiry := 0 |}.

Definition sum_entries (excludeKey : string) (now : Z)
    (l : list (string * reservationEntry)) : reservationEntry :=
  fold_left (add_entry excludeKey now) l zero_entry.

Definition sumInflightLocked (excludeKey : string) (now : Z) (e : Enforcer) : reservationEntry :=
  sum_entries excludeKey now (map_to_list (reservations e)).

Definition sumInflight (excludeKey : string) (now : Z) (e : Enforcer) : reservationEntry :=
  sumInflightLocked excludeKey now e.

(** The four rules.  [isUpdate] relaxes a rule for requests that do not make
    its dimension worse; the reason names the first violated limit. *)
Definition evalQuotaRules (quota : TenantQuotaSpec) (committedUsage : TenantQuotaStatus)
    (inFlight delta : reservationEntry) (requestedMaxReplicas : Z)
    (isUpdate : bool) (prevMaxReplicas : Z) : bool * string :=
  if re_gpus delta =? MaxInt32 then
    (false, "GPU resource calculation overflowed; request denied") else
  let projAgents := int64 (int64 (tq_UsedAgents committedUsage + re_agents inFlight)
                           + re_agents delta) in
  let projGPUs := int64 (int64 (tq_UsedGPUs committedUsage + re_gpus inFlight)
                         + re_gpus delta) in
  let projReplicas := int64 (int64 (tq_UsedTotalReplicas committedUsage + re_replicas inFlight)
                             + re_replicas delta) in
  if (tq_MaxAgents quota <? projAgents) && (negb isUpdate || (0 <? re_agents delta)) then
    (false, "would exceed maxAgents (" +:+ fmt_d (tq_MaxAgents quota) +:+ "): current="
            +:+ fmt_d (tq_UsedAgents committedUsage) +:+ " in-flight="
            +:+ fmt_d (re_agents inFlight) +:+ " delta=" +:+ fmt_d (re_agents delta)) else
  if (tq_MaxGPUs quota <? projGPUs) && (negb isUpdate || (0 <? re_gpus delta)) then
    (false, "would exceed maxGPUs (" +:+ fmt_d (tq_MaxGPUs quota) +:+ "): current="
            +:+ fmt_d (tq_UsedGPUs committedUsage) +:+ " in-flight="
            +:+ fmt_d (re_gpus inFlight) +:+ " delta=" +:+ fmt_d (re_gpus delta)) else
  if (tq_MaxTotalReplicas quota <? projReplicas)
     && (negb isUpdate || (0 <? re_replicas delta)) then
    (false, "would exceed maxTotalReplicas (" +:+ fmt_d (tq_MaxTotalReplicas quota)
            +:+ "): current=" +:+ fmt_d (tq_UsedTotalReplicas committedUsage) +:+ " in-flight="
            +:+ fmt_d (re_replicas inFlight) +:+ " delta=" +:+ fmt_d (re_replicas delta)) else
  let perAgentIncreases := negb isUpdate || (prevMaxReplicas <? requestedMaxReplicas) in
  if (tq_MaxReplicasPerAgent quota <? requestedMaxReplicas) && perAgentIncreases then
    (false, "spec.replicas.max (" +:+ fmt_d requestedMaxReplicas
            +:+ ") exceeds maxReplicasPerAgent (" +:+ fmt_d (tq_MaxReplicasPerAgent quota)
            +:+ ")") else
  (true, "").

Definition IsOverQuota (quota : TenantQuotaSpec) (usage : TenantQuotaStatus) : bool * string :=
  if tq_MaxAgents quota <? tq_UsedAgents usage then
    (true, "usedAgents (" +:+ fmt_d (tq_UsedAgents usage) +:+ ") exceeds maxAgents ("
           +:+ fmt_d (tq_MaxAgents quota) +:+ ")") else
  if tq_MaxGPUs quota <? tq_UsedGPUs usage then
    (true, "usedGPUs (" +:+ fmt_d (tq_UsedGPUs usage) +:+ ") exceeds maxGPUs ("
           +:+ fmt_d (tq_MaxGPUs quota) +:+ ")") else
  if tq_MaxTotalReplicas quota <? tq_UsedTotalReplicas usage then
    (true, "usedTotalReplicas (" +:+ fmt_d (tq_UsedTotalReplicas usage)
           +:+ ") exceeds maxTotalReplicas (" +:+ fmt_d (tq_MaxTotalReplicas quota) +:+ ")") else
  (false, "").

Section operations.
Context `{CoreTypes}.

Definition spec_max (ad : AgentDeploymentSpec) : Z := sp_Max (spec_Replicas ad).

Definition extractGPUs (e : Enforcer) (resources : ResourceRequirements) : Z :=
  match rr_Limits resources !! gpuResourceName e with
  | None => 0
  | Some qty => Quantity_Value qty
  end.

Definition gpusForAD (e : Enforcer) (ad : AgentDeploymentSpec) : Z :=
  let perReplica := extractGPUs e (spec_Resources ad) in
  if (perReplica <? 0) || (spec_max ad <? 0) then MaxInt32 else
  if (0 <? perReplica) && (go_div MaxInt64 perReplica <? spec_max ad) then MaxInt32 else
  let total := int64 (perReplica * spec_max ad) in
  if MaxInt32 <? total then MaxInt32 else int32 total.

(** The loop of [ComputeUsage] from a partial status. *)
Definition add_usage (e : Enforcer) (status : TenantQuotaStatus)
    (ad : AgentDeploymentSpec) : TenantQuotaStatus :=
  {| tq_UsedAgents := int32 (tq_UsedAgents status + 1);
     tq_UsedTotalReplicas := int32 (tq_UsedTotalReplicas status + spec_max ad);
     tq_UsedGPUs := int32 (tq_UsedGPUs status + gpusForAD e ad);
     tq_Conditions := tq_Conditions status |}.

Definition zero_usage : TenantQuotaStatus :=
  {| tq_UsedAgents := 0; tq_UsedGPUs := 0; tq_UsedTotalReplicas := 0; tq_Conditions := [] |}.

Definition ComputeUsage (e : Enforcer) (ads : list AgentDeploymentSpec) : TenantQuotaStatus :=
  fold_left (add_usage e) ads zero_usage.

Definition sameTenantUpdate (requested : AgentDeploymentSpec)
    (oldSpec : option AgentDeploymentSpec) : bool :=
  match oldSpec with
  | None => false
  | Some old => spec_TenantRef requested =s? spec_TenantRef old
  end.

Definition computeDelta (e : Enforcer) (requested : AgentDeploymentSpec)
    (oldSpec : option AgentDeploymentSpec) : reservationEntry :=
  let full := {| re_agents := 1; re_gpus := gpusForAD e requested;
                 re_replicas := spec_max requested; re_expiry := 0 |} in
  match oldSpec with
  | None => full
  | Some old =>
      if negb (spec_TenantRef requested =s? spec_TenantRef old) then full else
      {| re_agents := 0;
         re_gpus := int32 (gpusForAD e requested - gpusForAD e old);
         re_replicas := int32 (spec_max requested - spec_max old);
         re_expiry := 0 |}
  end.

Definition oldMax (oldSpec : option AgentDeploymentSpec) : Z :=
  match oldSpec with None => 0 | Some old => spec_max old end.

Definition CanAdmit (admissionKey : string) (quota : TenantQuotaSpec)
    (committedUsage : TenantQuotaStatus) (requested : AgentDeploymentSpec)
    (oldSpec : option AgentDeploymentSpec) (now : Z) (e : Enforcer) : bool * string :=
  let delta := computeDelta e requested oldSpec in
  let inFlight := sumInflight admissionKey now e in
  evalQuotaRules quota committedUsage inFlight delta (spec_max requested)
    (sameTenantUpdate requested oldSpec) (oldMax oldSpec).

(** The reservation written for a delta. *)
Definition reservation_of (delta : reservationEntry) (now ttl : Z) : reservationEntry :=
  {| re_agents := re_agents delta; re_gpus := re_gpus delta;
     re_replicas := re_replicas delta; re_expiry := now + ttl |}.

Definition AdmitAndReserve (admissionKey : string) (quota : TenantQuotaSpec)
    (committedUsage : TenantQuotaStatus) (requested : AgentDeploymentSpec)
    (oldSpec : option AgentDeploymentSpec) (ttl now : Z) (e : Enforcer)
    : (bool * string) * Enforcer :=
  let delta := computeDelta e requested oldSpec in
  let inFlight := sumInflightLocked admissionKey now e in
  let '(ok, reason) :=
    evalQuotaRules quota committedUsage inFlight delta (spec_max requested)
      (sameTenantUpdate requested oldSpec) (oldMax oldSpec) in
  if negb ok then ((false, reason), e) else
  ((true, ""),
   with_reservations (<[admissionKey := reservation_of delta now ttl]> (reservations e)) e).

Definition reserve (admissionKey : string) (spec : AgentDeploymentSpec)
    (oldSpec : option AgentDeploymentSpec) (ttl now : Z) (e : Enforcer) : Enforcer :=
  let delta := computeDelta e spec oldSpec in
  with_reservations (<[admissionKey := reservation_of delta now ttl]> (reservations e)) e.
End operations.
