(* ===== verification/EnforcerProps.v ===== *)
(** Theorems about the quota enforcer of [Enforcer.v]: saturating GPU
    arithmetic, order-independent in-flight sums, the admission verdict, and
    the safety of interleaved admissions. *)
From S2P Require Import Prelude Types Enforcer.

(** ** Exact in-flight sums *)

(** What an entry contributes to the in-flight total seen by [excludeKey]. *)
Definition weight (f : reservationEntry → Z) (excludeKey : string) (now : Z)
    (k : string) (v : reservationEntry) : Z :=
  if (k =s? excludeKey) || expired now v then 0 else f v.

(** The in-flight total of field [f] as an integer, without wrap-around. *)
Definition inflight (f : reservationEntry → Z) (excludeKey : string) (now : Z)
    (e : Enforcer) : Z :=
  map_Zsum (weight f excludeKey now) (reservations e).

(** The total over all unexpired reservations. *)
Definition inflight_all (f : reservationEntry → Z) (now : Z) (e : Enforcer) : Z :=
  map_Zsum (λ _ v, if expired now v then 0 else f v) (reservations e).

Section sums.
Implicit Types (e : Enforcer) (now : Z) (k : string).

(** Each field of the running total is the wrapped exact sum. *)
Lemma sum_entries_exact k now l :
  let t := sum_entries k now l in
  re_agents t = int32 (Zsum (uncurry (weight re_agents k now) <$> l)) ∧
  re_gpus t = int32 (Zsum (uncurry (weight re_gpus k now) <$> l)) ∧
  re_replicas t = int32 (Zsum (uncurry (weight re_replicas k now) <$> l)) ∧
  re_expiry t = 0.
Proof.
  unfold sum_entries; simpl. induction l as [|[k' v] l IH] using rev_ind; [done|].
  rewrite fold_left_app, !fmap_app, !Zsum_app; simpl.
  destruct IH as (Ha & Hg & Hr & He).
  revert Ha Hg Hr He; generalize (fold_left (add_entry k now) l zero_entry) as t.
  generalize (Zsum (uncurry (weight re_agents k now) <$> l)) as za.
  generalize (Zsum (uncurry (weight re_gpus k now) <$> l)) as zg.
  generalize (Zsum (uncurry (weight re_replicas k now) <$> l)) as zr.
  intros zr zg za t Ha Hg Hr He. unfold add_entry, weight; simpl.
  branch; simpl; rewrite ?Ha, ?Hg, ?Hr, ?int32_add_l, !Z.add_0_r; done.
Qed.

Lemma sumInflightLocked_exact k now e :
  let t := sumInflightLocked k now e in
  re_agents t = int32 (inflight re_agents k now e) ∧
  re_gpus t = int32 (inflight re_gpus k now e) ∧
  re_replicas t = int32 (inflight re_replicas k now e) ∧ re_expiry t = 0.
Proof. apply sum_entries_exact. Qed.

Lemma entry_eq (a b : reservationEntry) :
  re_agents a = re_agents b → re_gpus a = re_gpus b →
  re_replicas a = re_replicas b → re_expiry a = re_expiry b → a = b.
Proof. destruct a, b; simpl; by intros -> -> -> ->. Qed.

(** Go's map iteration order is unspecified; the in-flight total that
    [sumInflightLocked] computes with wrapping [int32] additions is the same
    for every order in which the entries of the map can be visited. *)
Theorem sumInflight_order_independent k now e l :
  l ≡ₚ map_to_list (reservations e) →
  sum_entries k now l = sumInflightLocked k now e.
Proof.
  intros Hl. unfold sumInflightLocked.
  pose proof (sum_entries_exact k now l) as (? & ? & ? & ?).
  pose proof (sum_entries_exact k now (map_to_list (reservations e))) as (? & ? & ? & ?).
  assert (E : ∀ f, Zsum (uncurry (weight f k now) <$> l) =
    Zsum (uncurry (weight f k now) <$> map_to_list (reservations e)))
    by (intros f; by rewrite Hl).
  apply entry_eq; rewrite ?E in *; congruence.
Qed.

(** Sweeping expired entries is invisible to every later admission. *)
Lemma inflight_sweep f k now now' e :
  now ≤ now' → inflight f k now' (sweepExpired now e) = inflight f k now' e.
Proof.
  intros Hle. unfold inflight, sweepExpired; simpl. apply map_Zsum_filter.
  intros k' v _ Hx. unfold weight, expired in *; simpl in *.
  branch. exfalso. apply Hx, Z.ltb_ge. lia.
Qed.

(** Excluding a key from the sum is summing without its entry. *)
Lemma inflight_exclude f k now e :
  inflight f k now e = inflight_all f now (Release k e).
Proof.
  unfold inflight, inflight_all, Release; simpl.
  transitivity (map_Zsum (weight f k now) (delete k (reservations e))).
  - destruct (reservations e !! k) as [v|] eqn:E.
    + rewrite (map_Zsum_delete _ (reservations e) k v) by done.
      unfold weight at 1. by rewrite str_eqb_refl.
    + by rewrite delete_id.
  - apply map_Zsum_ext. intros k' v' [Hkk' Hk']%lookup_delete_Some.
    unfold weight. by apply not_eq_sym, str_eqb_false in Hkk' as ->.
Qed.

(** After a reservation for [k] is written, the total over all keys is its
    share plus what the admission of [k] saw in flight. *)
Lemma inflight_all_reserve f k now e r :
  expired now r = false →
  inflight_all f now (with_reservations (<[k := r]> (reservations e)) e) =
    f r + inflight f k now e.
Proof.
  intros Hr. rewrite inflight_exclude. unfold inflight_all; simpl.
  rewrite map_Zsum_insert_delete. by rewrite Hr.
Qed.

Lemma inflight_all_sweep f now now' e :
  now ≤ now' → inflight_all f now' (sweepExpired now e) = inflight_all f now' e.
Proof.
  intros Hle. unfold inflight_all, sweepExpired; simpl. apply map_Zsum_filter.
  intros k' v _ Hx. unfold expired in *; simpl in *.
  branch. exfalso. apply Hx, Z.ltb_ge. lia.
Qed.

Lemma inflight_all_release_le f k now e :
  (∀ k0 v, reservations e !! k0 = Some v → 0 ≤ f v) →
  inflight_all f now (Release k e) ≤ inflight_all f now e.
Proof.
  intros Hnn. unfold inflight_all, Release; simpl.
  destruct (reservations e !! k) as [v|] eqn:E.
  - rewrite (map_Zsum_delete _ (reservations e) k v) by done.
    specialize (Hnn _ _ E). branch; lia.
  - by rewrite delete_id.
Qed.

Lemma inflight_all_later_le f now now' e :
  (∀ k0 v, reservations e !! k0 = Some v → 0 ≤ f v) → now ≤ now' →
  inflight_all f now' e ≤ inflight_all f now e.
Proof.
  intros Hnn Hle. apply map_Zsum_le. intros k0 v Hk.
  specialize (Hnn k0 v Hk). unfold expired.
  destruct (Z.ltb_spec (re_expiry v) now'), (Z.ltb_spec (re_expiry v) now); lia.
Qed.

Lemma inflight_all_nonneg f now e :
  (∀ k0 v, reservations e !! k0 = Some v → 0 ≤ f v) → 0 ≤ inflight_all f now e.
Proof.
  intros Hnn. apply map_Zsum_nonneg. intros k0 v Hk. specialize (Hnn k0 v Hk).
  branch; lia.
Qed.
End sums.

(** ** GPU arithmetic *)
Section gpus.
Context `{CoreTypesLaws}.

Lemma gpusForAD_spec e ad :
  is_int32 (spec_max ad) →
  gpusForAD e ad =
    if (extractGPUs e (spec_Resources ad) <? 0) || (spec_max ad <? 0) then MaxInt32
    else Z.min MaxInt32 (extractGPUs e (spec_Resources ad) * spec_max ad).
Proof.
  intros Hm. unfold gpusForAD.
  set (p := extractGPUs e (spec_Resources ad)). set (m := spec_max ad) in *.
  destruct ((p <? 0) || (m <? 0)) eqn:Hneg; [done|]. zbool.
  destruct ((0 <? p) && (go_div MaxInt64 p <? m)) eqn:Hov; zbool.
  - unfold go_div in *. rewrite Z.quot_div_nonneg in * by ints.
    pose proof (Z.mul_succ_div_gt MaxInt64 p ltac:(lia)).
    set (d := MaxInt64 / p) in *. assert (p * Z.succ d ≤ p * m) by nia.
    rewrite Z.min_l; ints.
  - assert (is_int64 (p * m)).
    { apply andb_false_iff in Hov as [?|?]; zbool; [assert (p = 0) as -> by lia; ints|].
      destruct (decide (p = 0)) as [->|]; [ints|].
      unfold go_div in *. rewrite Z.quot_div_nonneg in * by ints.
      pose proof (Z.mul_div_le MaxInt64 p ltac:(lia)). unfold is_int64, MinInt64 in *. nia. }
    rewrite int64_id by done. case_match; zbool; [lia|].
    rewrite int32_id by (unfold is_int32, MinInt32 in *; nia). lia.
Qed.

(** The overflow-checked [int64] product and its clamp compute the exact
    saturating product [min MaxInt32 (gpuPerReplica * replicas.max)] for
    every non-negative request, and fail closed at [MaxInt32] otherwise. *)
Theorem gpusForAD_saturates e ad :
  is_int32 (spec_max ad) →
  gpusForAD e ad =
    if (extractGPUs e (spec_Resources ad) <? 0) || (spec_max ad <? 0) then MaxInt32
    else Z.min MaxInt32 (extractGPUs e (spec_Resources ad) * spec_max ad).
Proof. apply gpusForAD_spec. Qed.

Lemma gpusForAD_range e ad : is_int32 (spec_max ad) → 0 ≤ gpusForAD e ad ≤ MaxInt32.
Proof.
  intros Hm. rewrite gpusForAD_spec by done.
  case_match; zbool; [ints|]. unfold MaxInt32 in *; nia.
Qed.
End gpus.

(** ** The verdict *)

Definition entry_wf (r : reservationEntry) : Prop :=
  is_int32 (re_agents r) ∧ is_int32 (re_gpus r) ∧ is_int32 (re_replicas r).
Definition usage_wf (c : TenantQuotaStatus) : Prop :=
  is_int32 (tq_UsedAgents c) ∧ is_int32 (tq_UsedGPUs c) ∧ is_int32 (tq_UsedTotalReplicas c).

(** The admission policy as a proposition: every dimension stays within its
    ceiling, or the request is an update that does not increase it. *)
Definition admissible (q : TenantQuotaSpec) (c : TenantQuotaStatus) (i d : reservationEntry)
    (req : Z) (upd : bool) (prev : Z) : Prop :=
  re_gpus d ≠ MaxInt32 ∧
  (tq_UsedAgents c + re_agents i + re_agents d ≤ tq_MaxAgents q
    ∨ upd = true ∧ re_agents d ≤ 0) ∧
  (tq_UsedGPUs c + re_gpus i + re_gpus d ≤ tq_MaxGPUs q
    ∨ upd = true ∧ re_gpus d ≤ 0) ∧
  (tq_UsedTotalReplicas c + re_replicas i + re_replicas d ≤ tq_MaxTotalReplicas q
    ∨ upd = true ∧ re_replicas d ≤ 0) ∧
  (req ≤ tq_MaxReplicasPerAgent q ∨ upd = true ∧ req ≤ prev).

Lemma int64_proj a b c :
  is_int32 a → is_int32 b → is_int32 c → int64 (int64 (a + b) + c) = a + b + c.
Proof. intros. rewrite (int64_id (a + b)) by ints. apply int64_id. ints. Qed.

(** A rule of the code does not fire exactly when its dimension is fine. *)
Lemma rule_passes (lim p a b : Z) (upd : bool) :
  (lim <? p) && (negb upd || (b <? a)) = false ↔ p ≤ lim ∨ upd = true ∧ a ≤ b.
Proof.
  destruct upd; simpl; destruct (Z.ltb_spec lim p), (Z.ltb_spec b a); simpl;
    split; intros; try done; intuition (lia || done).
Qed.

Lemma evalQuotaRules_spec q c i d req upd prev :
  usage_wf c → entry_wf i → entry_wf d →
  (evalQuotaRules q c i d req upd prev).1 = true ↔ admissible q c i d req upd prev.
Proof.
  intros (? & ? & ?) (? & ? & ?) (? & ? & ?).
  unfold evalQuotaRules, admissible. rewrite !int64_proj by done.
  rewrite <- !rule_passes.
  destruct (Z.eqb_spec (re_gpus d) MaxInt32); simpl; [naive_solver|].
  repeat (case_match; simpl; [naive_solver|]). naive_solver.
Qed.

(** [evalQuotaRules] accepts exactly the requests the policy allows; its
    [int64] projections never wrap on [int32] inputs. *)
Theorem evalQuotaRules_correct q c i d req upd prev :
  usage_wf c → entry_wf i → entry_wf d →
  (evalQuotaRules q c i d req upd prev).1 = true ↔ admissible q c i d req upd prev.
Proof. apply evalQuotaRules_spec. Qed.

Lemma evalQuotaRules_ok_reason q c i d req upd prev :
  (evalQuotaRules q c i d req upd prev).1 = true →
  evalQuotaRules q c i d req upd prev = (true, "").
Proof. unfold evalQuotaRules. repeat (case_match; [done|]). done. Qed.

Inductive dim := Agents | GPUs | Replicas.

(** ** Admission *)
Section admission.
Context `{CoreTypesLaws}.
Implicit Types (e : Enforcer) (q : TenantQuotaSpec) (c : TenantQuotaStatus)
  (ad : AgentDeploymentSpec).

Lemma sumInflightLocked_wf k now e : entry_wf (sumInflightLocked k now e).
Proof.
  pose proof (sumInflightLocked_exact k now e) as (E1 & E2 & E3 & _).
  unfold entry_wf. simpl in *. rewrite E1, E2, E3. auto with agentrax.
Qed.

Lemma computeDelta_wf e ad old :
  is_int32 (spec_max ad) → entry_wf (computeDelta e ad old).
Proof.
  intros Hm. unfold computeDelta, entry_wf.
  pose proof (gpusForAD_range e ad Hm).
  branches; simpl; split_and!; auto with agentrax; ints.
Qed.

Lemma AdmitAndReserve_spec k q c ad old ttl now e :
  AdmitAndReserve k q c ad old ttl now e =
    (CanAdmit k q c ad old now e,
     if (CanAdmit k q c ad old now e).1 then reserve k ad old ttl now e else e).
Proof.
  unfold AdmitAndReserve, CanAdmit, reserve, sumInflight.
  destruct (evalQuotaRules _ _ _ _ _ _ _) as [[] reason] eqn:E; simpl; [|done].
  assert (reason = "") as ->; [|done].
  pose proof (evalQuotaRules_ok_reason q c (sumInflightLocked k now e)
    (computeDelta e ad old) (spec_max ad) (sameTenantUpdate ad old) (oldMax old)) as Hr.
  rewrite E in Hr. specialize (Hr eq_refl). congruence.
Qed.

(** [AdmitAndReserve] gives the verdict and the reason [CanAdmit] gives
    for the same instant; a denial leaves the reservations untouched and an
    admission writes exactly this request's reservation. *)
Theorem AdmitAndReserve_agrees_CanAdmit k q c ad old ttl now e :
  AdmitAndReserve k q c ad old ttl now e =
    (CanAdmit k q c ad old now e,
     if (CanAdmit k q c ad old now e).1 then reserve k ad old ttl now e else e).
Proof. apply AdmitAndReserve_spec. Qed.

Lemma shrinking_update_admitted_aux k q c ad old ttl now e :
  usage_wf c → is_int32 (spec_max ad) → is_int32 (spec_max old) →
  spec_TenantRef ad = spec_TenantRef old →
  spec_max ad ≤ spec_max old → 0 ≤ spec_max ad →
  gpusForAD e ad ≤ gpusForAD e old →
  (AdmitAndReserve k q c ad (Some old) ttl now e).1 = (true, "").
Proof.
  intros Hc Hm Hmo Ht Hle Hnn Hg. unfold AdmitAndReserve.
  pose proof (gpusForAD_range e ad Hm). pose proof (gpusForAD_range e old Hmo).
  rewrite evalQuotaRules_ok_reason; [done|].
  apply evalQuotaRules_spec; auto using sumInflightLocked_wf, computeDelta_wf.
  unfold admissible, computeDelta, sameTenantUpdate.
  rewrite Ht, str_eqb_refl; simpl.
  rewrite !int32_id by (ints).
  split_and!; [ints|right; lia..].
Qed.

(** An update within the same tenant that asks for no more GPUs, no more
    replicas and no higher per-agent ceiling is always admitted, whatever
    the quota, the committed usage and the reservations in flight: lowering
    a quota below current usage cannot block spec corrections. *)
Theorem shrinking_update_admitted k q c ad old ttl now e :
  usage_wf c → is_int32 (spec_max ad) → is_int32 (spec_max old) →
  spec_TenantRef ad = spec_TenantRef old →
  spec_max ad ≤ spec_max old → 0 ≤ spec_max ad →
  gpusForAD e ad ≤ gpusForAD e old →
  (AdmitAndReserve k q c ad (Some old) ttl now e).1 = (true, "").
Proof. apply shrinking_update_admitted_aux. Qed.

(** *** Safety of interleaved admissions

    The operations goroutines interleave on one enforcer while the quota
    [q] and the published usage [c] stay as they are: admissions of creates,
    releases by the reconciler, sweeps, and time passing. *)
Inductive step q c : Z * Enforcer → Z * Enforcer → Prop :=
  | step_admit k ad ttl now now' e v e' :
      now ≤ now' → 0 ≤ ttl → is_int32 (spec_max ad) → 0 ≤ spec_max ad →
      AdmitAndReserve k q c ad None ttl now' e = (v, e') →
      step q c (now, e) (now', e')
  | step_release k now e : step q c (now, e) (now, Release k e)
  | step_sweep pick now e : step q c (now, e) (now, sweepLoop_tick pick now e)
  | step_stop now e : step q c (now, e) (now, Stop e)
  | step_time now now' e : now ≤ now' → step q c (now, e) (now', e).

(** The three metered dimensions, their field, usage and ceiling. *)
Definition field (d : dim) : reservationEntry → Z :=
  match d with Agents => re_agents | GPUs => re_gpus | Replicas => re_replicas end.
Definition used (d : dim) c : Z :=
  match d with
  | Agents => tq_UsedAgents c | GPUs => tq_UsedGPUs c | Replicas => tq_UsedTotalReplicas c
  end.
Definition ceiling (d : dim) q : Z :=
  match d with
  | Agents => tq_MaxAgents q | GPUs => tq_MaxGPUs q | Replicas => tq_MaxTotalReplicas q
  end.

Definition res_nonneg e : Prop :=
  ∀ d k v, reservations e !! k = Some v → 0 ≤ field d v.

(** Published usage plus everything in flight is within the quota. *)
Definition fits q c now e : Prop :=
  ∀ d, used d c + inflight_all (field d) now e ≤ ceiling d q.

Lemma res_nonneg_release k e : res_nonneg e → res_nonneg (Release k e).
Proof. intros Hn d k' v Hk; simpl in Hk. apply lookup_delete_Some in Hk as [_ Hk]. eauto. Qed.

Lemma res_nonneg_sweep now e : res_nonneg e → res_nonneg (sweepExpired now e).
Proof. intros Hn d k' v Hk; simpl in Hk. apply map_lookup_filter_Some in Hk as [Hk _]. eauto. Qed.

Lemma fits_later q c now now' e :
  res_nonneg e → now ≤ now' → fits q c now e → fits q c now' e.
Proof.
  intros Hn Hle Hf d. specialize (Hf d).
  pose proof (inflight_all_later_le (field d) now now' e (Hn d) Hle). lia.
Qed.

Lemma fits_release q c k now e :
  res_nonneg e → fits q c now e → fits q c now (Release k e).
Proof.
  intros Hn Hf d. specialize (Hf d).
  pose proof (inflight_all_release_le (field d) k now e (Hn d)). lia.
Qed.

(** What an admission of [k] sees in flight does not wrap. *)
Lemma inflight_seen q c k now e d :
  quota_wf q → (∀ d, 0 ≤ used d c) → res_nonneg e → fits q c now e →
  field d (sumInflightLocked k now e) = inflight (field d) k now e.
Proof.
  intros Hq Hc Hn Hf.
  pose proof (fits_release q c k now e Hn Hf d).
  pose proof (inflight_all_nonneg (field d) now _ (res_nonneg_release k e Hn d)).
  specialize (Hc d). rewrite <- inflight_exclude in *.
  assert (is_int32 (inflight (field d) k now e)).
  { destruct Hq as (? & ? & ? & ?). destruct d; simpl in *; ints. }
  destruct (sumInflightLocked_exact k now e) as (Ea & Eg & Er & _).
  destruct d; simpl in *; rewrite ?Ea, ?Eg, ?Er; by apply int32_id.
Qed.

(** The admission step preserves the quota invariant. *)
Lemma admit_create_fits q c k ad ttl now e v e' :
  quota_wf q → usage_wf c → (∀ d, 0 ≤ used d c) → res_nonneg e → fits q c now e →
  0 ≤ ttl → is_int32 (spec_max ad) → 0 ≤ spec_max ad →
  AdmitAndReserve k q c ad None ttl now e = (v, e') →
  res_nonneg e' ∧ fits q c now e'.
Proof.
  intros Hq Hw Hc Hn Hf Ht Hm Hm0 HA.
  rewrite AdmitAndReserve_spec in HA. injection HA as <- <-.
  destruct (CanAdmit k q c ad None now e).1 eqn:Hv; [|done].
  pose proof (gpusForAD_range e ad Hm) as Hg.
  apply evalQuotaRules_spec in Hv;
    [|done|apply sumInflightLocked_wf|by apply computeDelta_wf].
  destruct Hv as (_ & Ha & Hgp & Hr & _). simpl in *.
  split.
  - intros d k' v' Hk'; simpl in Hk'. apply lookup_insert_Some in Hk' as [[<- <-]|[_ Hk']];
      [destruct d; simpl; lia|eauto].
  - intros d. pose proof (inflight_seen q c k now e d Hq Hc Hn Hf) as Hi.
    unfold reserve. rewrite inflight_all_reserve, <- Hi
      by (unfold expired; simpl; apply Z.ltb_ge; lia).
    unfold sumInflight in *. destruct d; simpl in *; intuition (lia || discriminate).
Qed.

Lemma step_fits q c s s' :
  quota_wf q → usage_wf c → (∀ d, 0 ≤ used d c) → step q c s s' →
  res_nonneg s.2 ∧ fits q c s.1 s.2 → res_nonneg s'.2 ∧ fits q c s'.1 s'.2.
Proof.
  intros Hq Hw Hc Hs [Hn Hf].
  destruct Hs as [k ad ttl now now' e v e' ? ? ? ? HA| |pick now e| |]; simpl in *.
  - eapply (admit_create_fits q c k ad ttl now' e v e'); eauto using fits_later.
  - eauto using res_nonneg_release, fits_release.
  - unfold sweepLoop_tick. case_match; [done|].
    split; [by apply res_nonneg_sweep|]. intros d.
    rewrite inflight_all_sweep by lia. apply Hf.
  - done.
  - eauto using fits_later.
Qed.

(** The quota is never over-committed.  Starting from a fresh enforcer
    with published usage within the quota, in every state reachable by any
    interleaving of create admissions (of any agents, with any arrival
    times), releases, sweeps and time passing, the published usage plus all
    reservations in flight stays within every ceiling of the quota. *)
Theorem admissions_never_overcommit q c name t0 t e :
  quota_wf q → usage_wf c → (∀ d, 0 ≤ used d c) →
  (∀ d, used d c ≤ ceiling d q) →
  rtc (step q c) (t0, NewEnforcer name) (t, e) →
  ∀ d, used d c + inflight_all (field d) t e ≤ ceiling d q.
Proof.
  intros Hq Hw Hc Hle Hr.
  enough (∀ s s', rtc (step q c) s s' → res_nonneg s.2 ∧ fits q c s.1 s.2 →
            res_nonneg s'.2 ∧ fits q c s'.1 s'.2) as Hind.
  { apply (Hind _ _ Hr). split; [intros d k v Hk; simpl in Hk; by rewrite lookup_empty in Hk|].
    intros d. specialize (Hle d). unfold inflight_all; simpl.
    rewrite map_Zsum_empty. lia. }
  clear Hr Hle. induction 1; eauto using step_fits.
Qed.
End admission.

(** ** Committed usage *)
Section usage.
Context `{CoreTypesLaws}.
Implicit Types (e : Enforcer) (ads : list AgentDeploymentSpec).

Lemma ComputeUsage_wrapped e ads :
  let u := ComputeUsage e ads in
  tq_UsedAgents u = int32 (Z.of_nat (length ads)) ∧
  tq_UsedGPUs u = int32 (Zsum (gpusForAD e <$> ads)) ∧
  tq_UsedTotalReplicas u = int32 (Zsum (spec_max <$> ads)).
Proof.
  unfold ComputeUsage; simpl. induction ads as [|ad ads IH] using rev_ind; [done|].
  rewrite fold_left_app, !fmap_app, !Zsum_app, length_app; simpl.
  destruct IH as (-> & -> & ->). rewrite !int32_add_l. split_and!; f_equal; lia.
Qed.

Lemma usage_exact e ads q :
  is_int32 (Z.of_nat (length ads)) →
  is_int32 (Zsum (gpusForAD e <$> ads)) → is_int32 (Zsum (spec_max <$> ads)) →
  let u := ComputeUsage e ads in
  tq_UsedAgents u = Z.of_nat (length ads) ∧
  tq_UsedGPUs u = Zsum (gpusForAD e <$> ads) ∧
  tq_UsedTotalReplicas u = Zsum (spec_max <$> ads) ∧
  ((IsOverQuota q u).1 = true ↔
    tq_MaxAgents q < Z.of_nat (length ads) ∨
    tq_MaxGPUs q < Zsum (gpusForAD e <$> ads) ∨
    tq_MaxTotalReplicas q < Zsum (spec_max <$> ads)).
Proof.
  intros Ha Hg Hr u. destruct (ComputeUsage_wrapped e ads) as (Ea & Eg & Er).
  fold u in Ea, Eg, Er. rewrite int32_id in Ea, Eg, Er by done.
  split_and!; [done..|]. unfold IsOverQuota. rewrite Ea, Eg, Er.
  repeat (case_match; zbool; simpl; [split; [lia|done]|]). split; [done|lia].
Qed.

(** As long as the true totals fit in [int32], the usage the reconciler
    publishes is the exact total over the tenant's agents, and the OverQuota
    verdict is true exactly when a true total exceeds its ceiling. *)
Theorem usage_and_overquota_exact e ads q :
  is_int32 (Z.of_nat (length ads)) →
  is_int32 (Zsum (gpusForAD e <$> ads)) → is_int32 (Zsum (spec_max <$> ads)) →
  let u := ComputeUsage e ads in
  tq_UsedAgents u = Z.of_nat (length ads) ∧
  tq_UsedGPUs u = Zsum (gpusForAD e <$> ads) ∧
  tq_UsedTotalReplicas u = Zsum (spec_max <$> ads) ∧
  ((IsOverQuota q u).1 = true ↔
    tq_MaxAgents q < Z.of_nat (length ads) ∨
    tq_MaxGPUs q < Zsum (gpusForAD e <$> ads) ∨
    tq_MaxTotalReplicas q < Zsum (spec_max <$> ads)).
Proof. apply usage_exact. Qed.

(** [ComputeUsage] adds the saturated GPU counts in [int32]: two agents
    whose GPU request is clamped to [MaxInt32] are published as [-2] GPUs
    used, and the tenant is not reported over quota. *)
Theorem saturated_gpus_wrap_negative e a b q :
  gpusForAD e a = MaxInt32 → gpusForAD e b = MaxInt32 →
  0 ≤ tq_MaxGPUs q → 2 ≤ tq_MaxAgents q →
  is_int32 (spec_max a + spec_max b) → spec_max a + spec_max b ≤ tq_MaxTotalReplicas q →
  tq_UsedGPUs (ComputeUsage e [a; b]) = -2 ∧
  IsOverQuota q (ComputeUsage e [a; b]) = (false, "").
Proof.
  intros Ha Hb Hg Hq Hm Hr.
  destruct (ComputeUsage_wrapped e [a; b]) as (Ea & Eg & Er).
  revert Ea Eg Er. generalize (ComputeUsage e [a; b]) as u. simpl. intros u.
  rewrite Ha, Hb, !Z.add_0_r, (int32_id (spec_max a + spec_max b)) by done.
  change (int32 (MaxInt32 + MaxInt32)) with (-2). change (int32 (Z.of_nat 2)) with 2.
  intros Ea Eg Er. split; [done|]. unfold IsOverQuota. rewrite Ea, Eg, Er.
  repeat (case_match; zbool; [lia|]). done.
Qed.
End usage.

(** ** What the reservation map does not distinguish *)
Section interference.
Context `{CoreTypesLaws}.

(** Reservations are summed over all keys, not per tenant: while an
    admission of one tenant is in flight, a tenant with no agents at all and
    room for one is refused its first agent. *)
Theorem reservations_charged_across_tenants kA kB qA cA adA qB adB ttl now name e' :
  kA ≠ kB → 0 ≤ ttl →
  AdmitAndReserve kA qA cA adA None ttl now (NewEnforcer name) = ((true, ""), e') →
  tq_MaxAgents qB = 1 → gpusForAD e' adB ≠ MaxInt32 →
  AdmitAndReserve kB qB zero_usage adB None ttl now e' =
    ((false, "would exceed maxAgents (1): current=0 in-flight=1 delta=1"), e').
Proof.
  intros Hk Ht HA HB Hg. rewrite AdmitAndReserve_spec in HA |- *.
  injection HA as HA <-. rewrite HA in *. simpl in *.
  assert (Hi : re_agents (sumInflight kB now (reserve kA adA None ttl now (NewEnforcer name)))
               = 1).
  { destruct (sumInflightLocked_exact kB now
      (reserve kA adA None ttl now (NewEnforcer name))) as (E & _).
    unfold sumInflight. rewrite E. unfold inflight, reserve; simpl.
    rewrite map_Zsum_insert, map_Zsum_empty by done. unfold weight, expired; simpl.
    rewrite (proj2 (str_eqb_false kA kB) Hk). simpl.
    by rewrite (proj2 (Z.ltb_ge (now + ttl) now)) by lia. }
  unfold CanAdmit, evalQuotaRules. rewrite Hi, HB; simpl.
  by apply Z.eqb_neq in Hg as ->.
Qed.

(** A same-tenant update of an agent whose create is still in flight
    replaces the create's reservation by the update's delta.  For an
    unchanged spec (such as the finalizer write the reconciler does right
    after a create) the slot held for the create becomes zero although the
    published usage does not count the agent yet. *)
Theorem noop_update_drops_create_reservation k q c ad ttl now e :
  usage_wf c → is_int32 (spec_max ad) → 0 ≤ spec_max ad →
  reservations (AdmitAndReserve k q c ad (Some ad) ttl now e).2 !! k =
    Some {| re_agents := 0; re_gpus := 0; re_replicas := 0; re_expiry := now + ttl |}.
Proof.
  intros Hc Hm Hnn.
  pose proof (shrinking_update_admitted_aux k q c ad ad ttl now e Hc Hm Hm eq_refl
    ltac:(lia) Hnn ltac:(lia)) as Hv.
  rewrite AdmitAndReserve_spec in Hv |- *. simpl in Hv. rewrite Hv. simpl.
  rewrite lookup_insert_eq. unfold reservation_of, computeDelta.
  rewrite str_eqb_refl; simpl. by rewrite !Z.sub_diag.
Qed.
End interference.

(** ** Concrete instances of the theorems above *)
Section witnesses.
#[local] Existing Instance Ref.core.
#[local] Existing Instance Ref.core_laws.

(** An enforcer with one agent of 3 replicas and 1 GPU each in flight. *)
Definition demo_reserved : Enforcer :=
  (AdmitAndReserve "ns/a" Ref.quota zero_usage (Ref.agent 3 1000) None 5 5 (NewEnforcer "")).2.

(** The next create of 4 replicas is refused: 3 in flight, ceiling 6. *)
Example demo_second_denied :
  (AdmitAndReserve "ns/b" Ref.quota zero_usage (Ref.agent 4 0) None 5 5 demo_reserved).1 =
    (false, "would exceed maxTotalReplicas (6): current=0 in-flight=3 delta=4").
Proof. vm_compute. reflexivity. Qed.

Lemma admissions_never_overcommit_witness :
  used Replicas zero_usage + inflight_all (field Replicas) 5 demo_reserved
    ≤ ceiling Replicas Ref.quota.
Proof.
  apply (admissions_never_overcommit Ref.quota zero_usage "" 0 5 demo_reserved).
  - repeat split; vm_compute; discriminate.
  - repeat split; vm_compute; discriminate.
  - intros []; vm_compute; discriminate.
  - intros []; vm_compute; discriminate.
  - apply rtc_once.
    apply (step_admit _ _ "ns/a" (Ref.agent 3 1000) 5 0 5 (NewEnforcer "") (true, ""));
      vm_compute; repeat split; try discriminate; reflexivity.
Defined.

Lemma evalQuotaRules_correct_witness :
  (evalQuotaRules Ref.quota zero_usage zero_entry
     {| re_agents := 1; re_gpus := 3; re_replicas := 3; re_expiry := 0 |} 3 false 0).1 = true.
Proof.
  apply (evalQuotaRules_correct Ref.quota zero_usage zero_entry).
  1-3: repeat split; vm_compute; discriminate.
  unfold admissible; simpl. split_and!; [done|left; vm_compute; discriminate..].
Defined.

Lemma gpusForAD_saturates_witness :
  gpusForAD (NewEnforcer "") (Ref.agent 3 2000) = 6.
Proof.
  rewrite (gpusForAD_saturates (NewEnforcer "") (Ref.agent 3 2000)).
  - reflexivity.
  - split; vm_compute; discriminate.
Defined.

Lemma shrinking_update_admitted_witness :
  (AdmitAndReserve "ns/a" Ref.quota
     {| tq_UsedAgents := 9; tq_UsedGPUs := 9; tq_UsedTotalReplicas := 90; tq_Conditions := [] |}
     (Ref.agent 10 0) (Some (Ref.agent 90 0)) 5 0 demo_reserved).1 = (true, "").
Proof.
  apply (shrinking_update_admitted "ns/a" Ref.quota); try done;
    repeat split; vm_compute; discriminate.
Defined.

Lemma sumInflight_order_independent_witness :
  sum_entries "ns/x" 5 (reverse (map_to_list (reservations demo_reserved))) =
    sumInflightLocked "ns/x" 5 demo_reserved.
Proof.
  apply (sumInflight_order_independent "ns/x" 5 demo_reserved). apply reverse_Permutation.
Defined.

Lemma usage_and_overquota_exact_witness :
  tq_UsedTotalReplicas (ComputeUsage (NewEnforcer "") [Ref.agent 3 1000; Ref.agent 5 0]) = 8.
Proof.
  apply (usage_and_overquota_exact (NewEnforcer "") [Ref.agent 3 1000; Ref.agent 5 0] Ref.quota);
    split; vm_compute; discriminate.
Defined.

Lemma saturated_gpus_wrap_negative_witness :
  tq_UsedGPUs (ComputeUsage (NewEnforcer "")
    [Ref.agent 1 9000000000000000; Ref.agent 1 9000000000000000]) = -2.
Proof.
  apply (saturated_gpus_wrap_negative (NewEnforcer "") (Ref.agent 1 9000000000000000)
    (Ref.agent 1 9000000000000000) Ref.quota); try reflexivity;
    try (split; vm_compute; discriminate); vm_compute; discriminate.
Defined.

Lemma reservations_charged_across_tenants_witness :
  AdmitAndReserve "ns2/b" {| tq_MaxAgents := 1; tq_MaxGPUs := 0; tq_MaxTotalReplicas := 9;
      tq_MaxReplicasPerAgent := 9 |} zero_usage (Ref.agent 1 0) None 5 5 demo_reserved =
    ((false, "would exceed maxAgents (1): current=0 in-flight=1 delta=1"), demo_reserved).
Proof.
  apply (reservations_charged_across_tenants "ns/a" "ns2/b" Ref.quota zero_usage
    (Ref.agent 3 1000) _ (Ref.agent 1 0) 5 5 "" demo_reserved); try done;
    vm_compute; discriminate.
Defined.

Lemma noop_update_drops_create_reservation_witness :
  reservations (AdmitAndReserve "ns/a" Ref.quota zero_usage (Ref.agent 3 1000)
    (Some (Ref.agent 3 1000)) 5 6 demo_reserved).2 !! "ns/a" =
    Some {| re_agents := 0; re_gpus := 0; re_replicas := 0; re_expiry := 11 |}.
Proof.
  apply (noop_update_drops_create_reservation "ns/a" Ref.quota zero_usage (Ref.agent 3 1000)
    5 6 demo_reserved); repeat split; vm_compute; discriminate.
Defined.
End witnesses.
