(* ===== verification/EnforcerTypes.v ===== *)
(** The enforcer of [src/internal/quota/enforcer.go] at machine width: its
    [int32] and [int64] arithmetic, with the overflow check and the clamp of the
    GPU count, decides and reserves what the policy over unbounded integers
    does.  This holds after every sequence of operations, updates included, as
    long as the GPUs of an agent and the totals in flight fit in an [int32]. *)
From S2P Require Import Prelude Types Enforcer EnforcerProps.

Section typing.
Context `{CoreTypesLaws}.
Implicit Types (e : Enforcer) (ad : AgentDeploymentSpec).

Definition typed_spec ad : Prop := is_int32 (spec_max ad).
Definition typed e : Prop := map_Forall (λ _, entry_wf) (reservations e).

(** Every operation that writes the reservations. *)
Inductive op : Enforcer → Enforcer → Prop :=
  | op_admit k q u ad old ttl now e v e' :
      typed_spec ad → AdmitAndReserve k q u ad old ttl now e = (v, e') → op e e'
  | op_reserve k ad old ttl now e : typed_spec ad → op e (reserve k ad old ttl now e)
  | op_release k e : op e (Release k e)
  | op_sweep pick now e : op e (sweepLoop_tick pick now e)
  | op_stop e : op e (Stop e).

Lemma reserve_typed k ad old ttl now e : typed_spec ad → typed e → typed (reserve k ad old ttl now e).
Proof. intros Ha He. apply map_Forall_insert_2; [|done]. by apply computeDelta_wf. Qed.

Lemma op_typed e e' : op e e' → typed e → typed e'.
Proof.
  intros [k q u ad old ttl now e0 v e1 Ha Hr|k ad old ttl now e0 Ha|k e0|pick now e0|e0] He.
  - rewrite AdmitAndReserve_spec in Hr. injection Hr as <- <-. case_match; [by apply reserve_typed|done].
  - by apply reserve_typed.
  - by apply map_Forall_delete.
  - unfold sweepLoop_tick. case_match; [done|]. intros k v [Hk _]%map_lookup_filter_Some. by eapply He.
  - exact He.
Qed.

(** The policy, in unbounded integers.  What an agent takes of a dimension: *)
Definition ideal_amount (d : dim) e ad : Z :=
  match d with
  | Agents => 1
  | GPUs => extractGPUs e (spec_Resources ad) * spec_max ad
  | Replicas => spec_max ad
  end.

(** what a request adds: an update within the tenant only the difference; *)
Definition ideal_delta (d : dim) e ad (old : option AgentDeploymentSpec) : Z :=
  match old with
  | Some o => if sameTenantUpdate ad old then ideal_amount d e ad - ideal_amount d e o else ideal_amount d e ad
  | None => ideal_amount d e ad
  end.

(** and the rules: with what is used and in flight it stays within every
    ceiling and the agent within its own, or it is an update within the tenant
    that does not make the dimension worse. *)
Definition allowed (k : string) (q : TenantQuotaSpec) (u : TenantQuotaStatus) ad
    (old : option AgentDeploymentSpec) (now : Z) e : Prop :=
  (∀ d, used d u + inflight (field d) k now e + ideal_delta d e ad old ≤ ceiling d q ∨
    sameTenantUpdate ad old = true ∧ ideal_delta d e ad old ≤ 0) ∧
  (spec_max ad ≤ tq_MaxReplicasPerAgent q ∨ sameTenantUpdate ad old = true ∧ spec_max ad ≤ oldMax old).

(** The agents whose GPU count needs no clamp. *)
Definition fits_int32 e ad : Prop :=
  0 ≤ spec_max ad ≤ MaxInt32 ∧ 0 ≤ extractGPUs e (spec_Resources ad) ∧ ideal_amount GPUs e ad < MaxInt32.

Lemma gpus_exact e ad : fits_int32 e ad → gpusForAD e ad = ideal_amount GPUs e ad.
Proof.
  intros (Hm & Hg & Hf). simpl in Hf. rewrite gpusForAD_spec by ints.
  rewrite (proj2 (Z.ltb_ge _ _) Hg), (proj2 (Z.ltb_ge _ _) (proj1 Hm)). simpl. lia.
Qed.

Lemma delta_exact d e ad old : fits_int32 e ad → (∀ o, old = Some o → fits_int32 e o) →
  field d (computeDelta e ad old) = ideal_delta d e ad old.
Proof.
  intros Ha Ho. pose proof (gpus_exact e ad Ha) as Hg.
  destruct old as [o|]; [|destruct d; simpl in *; congruence].
  specialize (Ho o eq_refl). pose proof (gpus_exact e o Ho) as Hgo.
  unfold computeDelta, ideal_delta, sameTenantUpdate. destruct (_ =s? _); simpl; [|destruct d; simpl in *; congruence].
  rewrite Hg, Hgo. destruct Ha as (? & ? & ?), Ho as (? & ? & ?). simpl in *.
  assert (0 ≤ extractGPUs e (spec_Resources ad) * spec_max ad) by (apply Z.mul_nonneg_nonneg; lia).
  assert (0 ≤ extractGPUs e (spec_Resources o) * spec_max o) by (apply Z.mul_nonneg_nonneg; lia).
  destruct d; simpl; [done|apply int32_id; ints..].
Qed.

Lemma inflight_field d k now e : is_int32 (inflight (field d) k now e) →
  field d (sumInflight k now e) = inflight (field d) k now e.
Proof.
  intros Hi. destruct (sumInflightLocked_exact k now e) as (Ea & Eg & Er & _). unfold sumInflight.
  destruct d; simpl in *; rewrite ?Ea, ?Eg, ?Er; by apply int32_id.
Qed.

(** The rules of the code, dimension by dimension. *)
Lemma admissible_dims q u i dl req upd prev :
  admissible q u i dl req upd prev ↔
  re_gpus dl ≠ MaxInt32 ∧
  (∀ d, used d u + field d i + field d dl ≤ ceiling d q ∨ upd = true ∧ field d dl ≤ 0) ∧
  (req ≤ tq_MaxReplicasPerAgent q ∨ upd = true ∧ req ≤ prev).
Proof.
  unfold admissible. split; [intros (? & ? & ? & ? & ?); split_and!; [done|by intros []|done]|].
  intros (? & Hd & ?). split_and!; [done|exact (Hd Agents)|exact (Hd GPUs)|exact (Hd Replicas)|done].
Qed.

Lemma CanAdmit_exact k q u ad old now e :
  usage_wf u → fits_int32 e ad → (∀ o, old = Some o → fits_int32 e o) →
  (∀ d, is_int32 (inflight (field d) k now e)) →
  (CanAdmit k q u ad old now e).1 = true ↔ allowed k q u ad old now e.
Proof.
  intros Hu Ha Ho Hi. assert (Hm : is_int32 (spec_max ad)) by (destruct Ha; ints).
  unfold CanAdmit. rewrite evalQuotaRules_spec by eauto using sumInflightLocked_wf, computeDelta_wf.
  rewrite admissible_dims. unfold allowed.
  pose proof (delta_exact GPUs e ad old Ha Ho) as Hg. simpl in Hg.
  assert (Hne : re_gpus (computeDelta e ad old) ≠ MaxInt32).
  { rewrite Hg. unfold ideal_delta. destruct Ha as (? & ? & Hlt). destruct old as [o|]; [|lia].
    destruct (Ho o eq_refl) as (? & ? & _). assert (0 ≤ ideal_amount GPUs e o) by (apply Z.mul_nonneg_nonneg; lia).
    case_match; lia. }
  split; [intros (_ & Hd & Hr)|intros [Hd Hr]]; split_and?; try done;
    intros d; specialize (Hd d); rewrite delta_exact, inflight_field in * by done; done.
Qed.

(** C22: the arithmetic of the enforcer is the arithmetic of the policy.  After
    any sequence of admissions (creates and updates), reservations, releases,
    sweeps and stops on a new enforcer, every count it holds is an [int32]; a
    request for an agent whose GPU count fits in an [int32], made while the
    totals in flight do, is admitted exactly when the rules over unbounded
    integers allow it, and is then reserved with exactly what it adds, nothing
    else being changed; a request that is refused changes nothing. *)
Theorem enforcer_well_typed name e :
  rtc op (NewEnforcer name) e →
  typed e ∧
  ∀ k q u ad old ttl now v e', usage_wf u → fits_int32 e ad → (∀ o, old = Some o → fits_int32 e o) →
    (∀ d, is_int32 (inflight (field d) k now e)) →
    AdmitAndReserve k q u ad old ttl now e = (v, e') →
    (v.1 = true ↔ allowed k q u ad old now e) ∧
    (v.1 = false → e' = e) ∧
    (v.1 = true → ∃ r, reservations e' = <[k := r]> (reservations e) ∧ re_expiry r = now + ttl ∧
      ∀ d, field d r = ideal_delta d e ad old).
Proof.
  intros Hr. split.
  - assert (Hn : typed (NewEnforcer name)) by apply map_Forall_empty. revert Hn.
    induction Hr as [|e1 e2 e3 Hop _ IH]; [done|]. intros H1. by eapply IH, op_typed.
  - intros k q u ad old ttl now v e' Hu Ha Ho Hi HA. rewrite AdmitAndReserve_spec in HA. injection HA as <- <-.
    split; [by apply CanAdmit_exact|]. split; [by intros ->|]. intros ->.
    eexists. split; [reflexivity|]. split; [done|]. intros d. rewrite <- (delta_exact d e ad old Ha Ho). by destruct d.
Qed.
End typing.

Section witness.
#[local] Existing Instance Ref.core.

Definition typed_enforcer : Enforcer :=
  (AdmitAndReserve "ns/a" Ref.quota zero_usage (Ref.agent 4 1000) None 5 5 (NewEnforcer "")).2.

(** With an agent of 4 replicas in flight, an update that halves it is admitted
    and reserves two replicas less than nothing. *)
Lemma enforcer_well_typed_witness :
  let '(v, e2) := AdmitAndReserve "ns/a" Ref.quota zero_usage (Ref.agent 2 1000) (Some (Ref.agent 4 1000))
    5 6 typed_enforcer in
  typed typed_enforcer ∧ v.1 = true ∧
  ∃ r, reservations e2 = <["ns/a" := r]> (reservations typed_enforcer) ∧ field Replicas r = -2.
Proof.
  destruct (AdmitAndReserve _ _ _ _ _ _ _ _) as [v e2] eqn:E.
  destruct (enforcer_well_typed "" typed_enforcer) as (Ht & Hs).
  - apply rtc_once. eapply (op_admit "ns/a" Ref.quota zero_usage (Ref.agent 4 1000) None 5 5);
      [vm_compute; split; discriminate|apply surjective_pairing].
  - specialize (Hs "ns/a" Ref.quota zero_usage (Ref.agent 2 1000) (Some (Ref.agent 4 1000)) 5 6 v e2).
    assert (Hv : v.1 = true).
    { change v.1 with (v, e2).1.1. rewrite <- E. vm_compute. reflexivity. }
    destruct Hs as (_ & _ & Hs); [..|exact E|].
    + unfold usage_wf; cbn; ints.
    + split_and!; vm_compute; congruence.
    + intros o [= <-]. split_and!; vm_compute; congruence.
    + intros d. destruct d; vm_compute; split; congruence.
    + destruct (Hs Hv) as (r & Hr & _ & Hd). split; [exact Ht|]. split; [exact Hv|]. exists r.
      split; [exact Hr|]. rewrite (Hd Replicas). vm_compute. reflexivity.
Defined.
End witness.
