(* ===== verification/Objects.v ===== *)
(** The Kubernetes objects the operator manages for an AgentDeployment, with
    the fields its builders and reconcilers read or write.

    These are the data the source constructs as Go literals: [appsv1.Deployment],
    [corev1.Service], [autoscalingv2.HorizontalPodAutoscaler],
    [gatewayv1.HTTPRoute], [monitoringv1.ServiceMonitor], [corev1.ConfigMap] and
    the pod statuses it inspects.  Fields the API server assigns and the
    operator never touches (cluster IPs, rollout strategies) are left out. *)
From S2P Require Import Prelude Types.

(** [metav1.LabelSelector] with [MatchLabels] only: every listed label must be
    present with that value. *)
Definition selector_matches (sel labels : gmap string string) : bool :=
  bool_decide (map_Forall (λ k v, labels !! k = Some v) sel).

Record ContainerPort := {
  cp_Name : string;
  cp_ContainerPort : Z;
  cp_Protocol : string;
}.

Record DeploymentStatus := {
  ds_ObservedGeneration : Z;
  ds_UpdatedReplicas : Z;
  ds_AvailableReplicas : Z;
  ds_ReadyReplicas : Z;
}.

Definition empty_dep_status : DeploymentStatus :=
  {| ds_ObservedGeneration := 0; ds_UpdatedReplicas := 0; ds_AvailableReplicas := 0;
     ds_ReadyReplicas := 0 |}.

Record ServicePort := {
  svp_Name : string;
  svp_Port : Z;
  svp_TargetPort : Z;
  svp_Protocol : string;
}.

Record Service := {
  svc_Meta : ObjectMeta;
  svc_Selector : gmap string string;
  svc_Ports : list ServicePort;
  svc_Type : string;
}.

(** Gateway API: the route the canary controller splits traffic with. *)
Record ParentReference := { pr_Name : string; pr_Namespace : option string }.

Record BackendRef := {
  br_Kind : string;
  br_Group : string;
  br_Name : string;
  br_Port : Z;
  br_Weight : Z;
}.

Record HTTPRouteRule := {
  hr_Matches : list (string * string);
  hr_BackendRefs : list BackendRef;
}.

Record HTTPRouteSpec := {
  hr_ParentRefs : list ParentReference;
  hr_Rules : list HTTPRouteRule;
}.

Record HTTPRoute := {
  hr_Meta : ObjectMeta;
  hr_Spec : HTTPRouteSpec;
}.

#[export] Instance ParentReference_eq_dec : EqDecision ParentReference.
Proof. solve_decision. Defined.
#[export] Instance BackendRef_eq_dec : EqDecision BackendRef.
Proof. solve_decision. Defined.
#[export] Instance HTTPRouteRule_eq_dec : EqDecision HTTPRouteRule.
Proof. solve_decision. Defined.
#[export] Instance HTTPRouteSpec_eq_dec : EqDecision HTTPRouteSpec.
Proof. solve_decision. Defined.

Record ServiceMonitorSpec := {
  sm_Selector : gmap string string;
  sm_TargetLabels : list string;
  sm_Endpoints : list (string * string);
}.

Record ServiceMonitor := {
  sm_Meta : ObjectMeta;
  sm_Spec : ServiceMonitorSpec;
}.

Record ConfigMap := {
  cm_Meta : ObjectMeta;
  cm_Data : gmap string string;
}.

(** A container status: the reason and message when the container waits. *)
Record Pod := {
  pod_Meta : ObjectMeta;
  pod_ContainerStatuses : list (option (string * string));
  pod_InitContainerStatuses : list (option (string * string));
}.

(** Autoscaling. *)
Record CrossVersionObjectReference := {
  ref_APIVersion : string;
  ref_Kind : string;
  ref_Name : string;
}.

Record HPAScalingRules := {
  sr_StabilizationWindowSeconds : Z;
  sr_SelectPolicy : string;
  (** type, value, period in seconds *)
  sr_Policies : list (string * Z * Z);
}.

Record HPABehavior := {
  hb_ScaleUp : HPAScalingRules;
  hb_ScaleDown : HPAScalingRules;
}.

Section objects.
Context `{CoreTypes}.

Record Container := {
  ct_Name : string;
  ct_Image : string;
  ct_Ports : list ContainerPort;
  ct_Resources : ResourceRequirements;
  ct_Env : list EnvVar;
  ct_Args : list string;
}.

Record Deployment := {
  dep_Meta : ObjectMeta;
  dep_Replicas : option Z;
  dep_Selector : gmap string string;
  dep_TemplateLabels : gmap string string;
  dep_Containers : list Container;
  dep_Status : DeploymentStatus;
}.

(** An External metric with an AverageValue target. *)
Record MetricSpec := {
  ms_Type : string;
  ms_MetricName : string;
  ms_Selector : gmap string string;
  ms_TargetType : string;
  ms_AverageValue : Quantity;
}.

Record HorizontalPodAutoscaler := {
  hpa_Meta : ObjectMeta;
  hpa_ScaleTargetRef : CrossVersionObjectReference;
  hpa_MinReplicas : Z;
  hpa_MaxReplicas : Z;
  hpa_Metrics : list MetricSpec;
  hpa_Behavior : HPABehavior;
}.

Definition set_image (img : string) (c : Container) : Container :=
  {| ct_Name := ct_Name c; ct_Image := img; ct_Ports := ct_Ports c;
     ct_Resources := ct_Resources c; ct_Env := ct_Env c; ct_Args := ct_Args c |}.

Definition dep_set_containers (cs : list Container) (d : Deployment) : Deployment :=
  {| dep_Meta := dep_Meta d; dep_Replicas := dep_Replicas d; dep_Selector := dep_Selector d;
     dep_TemplateLabels := dep_TemplateLabels d; dep_Containers := cs;
     dep_Status := dep_Status d |}.

(** [dep.Spec.Template.Spec.Containers[0].Image = img] when there is one. *)
Definition dep_set_image (img : string) (d : Deployment) : Deployment :=
  match dep_Containers d with
  | [] => d
  | c :: cs => dep_set_containers (set_image img c :: cs) d
  end.

Definition dep_image (d : Deployment) : option string := ct_Image <$> head (dep_Containers d).
End objects.
