(* ===== verification/Scaling.v ===== *)
(** Horizontal autoscaling, [src/internal/scaling/autoscaler.go]: the desired
    HPA of an agent and the quota headroom that caps it. *)
From S2P Require Import Prelude Types Objects.

Definition MetricQueueDepth : string := "queueDepth".
Definition MetricGPUUtilization : string := "gpuUtilization".
Definition customMetricQueueDepth : string := "agentrax_queue_depth".
Definition customMetricGPUUtilization : string := "agentrax_gpu_utilization".
Definition scaleUpStabilizationSec : Z := 60.
Definition scaleDownStabilizationSec : Z := 300.

Definition customMetricNameFor (metric : string) : string :=
  if metric =s? MetricGPUUtilization then customMetricGPUUtilization
  else customMetricQueueDepth.

Section scaling.
Context `{CoreTypes}.

Definition hpaLabels (ad : AgentDeployment) : gmap string string :=
  {[ "app.kubernetes.io/name" := ad_Name ad;
     "app.kubernetes.io/managed-by" := "agentrax";
     "agentrax.io/tenant" := spec_TenantRef (ad_Spec ad) ]}.

Definition BuildHPA (ad : AgentDeployment) (quotaHeadroom : Z) : HorizontalPodAutoscaler :=
  let maxReplicas := sp_Max (spec_Replicas (ad_Spec ad)) in
  let maxReplicas := if quotaHeadroom <? maxReplicas then quotaHeadroom else maxReplicas in
  let minReplicas := sp_Min (spec_Replicas (ad_Spec ad)) in
  let maxReplicas := if maxReplicas <? minReplicas then minReplicas else maxReplicas in
  let metricName := customMetricNameFor (sp_Metric (spec_Replicas (ad_Spec ad))) in
  let targetValue :=
    NewMilliQuantity (int64 (sp_Target (spec_Replicas (ad_Spec ad)) * 1000)) in
  {| hpa_Meta := new_meta (ad_Name ad) (ad_Namespace ad) (hpaLabels ad);
     hpa_ScaleTargetRef :=
       {| ref_APIVersion := "apps/v1"; ref_Kind := "Deployment"; ref_Name := ad_Name ad |};
     hpa_MinReplicas := minReplicas;
     hpa_MaxReplicas := maxReplicas;
     hpa_Metrics :=
       [ {| ms_Type := "External"; ms_MetricName := metricName;
            ms_Selector := {[ "app_kubernetes_io_name" := ad_Name ad;
                              "app_kubernetes_io_managed_by" := "agentrax" ]};
            ms_TargetType := "AverageValue"; ms_AverageValue := targetValue |} ];
     hpa_Behavior :=
       {| hb_ScaleUp :=
            {| sr_StabilizationWindowSeconds := scaleUpStabilizationSec;
               sr_SelectPolicy := "Max"; sr_Policies := [("Pods", 4, 60)] |};
          hb_ScaleDown :=
            {| sr_StabilizationWindowSeconds := scaleDownStabilizationSec;
               sr_SelectPolicy := "Min"; sr_Policies := [("Pods", 1, 60)] |} |} |}.

Definition IsQuotaCapped (ad : AgentDeployment) (quotaHeadroom : Z) : bool :=
  quotaHeadroom <? sp_Max (spec_Replicas (ad_Spec ad)).

Definition QuotaHeadroom (tqSpec : TenantQuotaSpec) (adSpec : AgentDeploymentSpec)
    (usedReplicasByOthers : Z) : Z :=
  let perAgentCeiling := tq_MaxReplicasPerAgent tqSpec in
  let totalBudgetRemaining := int32 (tq_MaxTotalReplicas tqSpec - usedReplicasByOthers) in
  let totalBudgetRemaining :=
    if totalBudgetRemaining <? 0 then 0 else totalBudgetRemaining in
  let headroom := perAgentCeiling in
  if totalBudgetRemaining <? headroom then totalBudgetRemaining else headroom.

(** ** Properties *)

Definition ad_min (ad : AgentDeployment) : Z := sp_Min (spec_Replicas (ad_Spec ad)).
Definition ad_max (ad : AgentDeployment) : Z := sp_Max (spec_Replicas (ad_Spec ad)).

Lemma BuildHPA_max_spec ad h :
  hpa_MaxReplicas (BuildHPA ad h) = Z.max (ad_min ad) (Z.min (ad_max ad) h).
Proof.
  unfold BuildHPA, ad_min, ad_max; simpl. repeat case_match; zbool; lia.
Qed.

Lemma QuotaHeadroom_spec q s u :
  is_int32 (tq_MaxTotalReplicas q - u) →
  QuotaHeadroom q s u =
    Z.min (tq_MaxReplicasPerAgent q) (Z.max 0 (tq_MaxTotalReplicas q - u)).
Proof.
  intros Hi. unfold QuotaHeadroom. rewrite int32_id by done.
  repeat case_match; zbool; lia.
Qed.

(** The HPA is always a valid range, floored at [replicas.min] and
    otherwise the smallest of [replicas.max], the per-agent ceiling and the
    remaining tenant budget; the QuotaLimited signal is raised exactly when
    the quota is what lowered the ceiling below [replicas.max]. *)
Theorem hpa_ceiling_correct q ad u :
  is_int32 (tq_MaxTotalReplicas q - u) → ad_min ad ≤ ad_max ad →
  let h := QuotaHeadroom q (ad_Spec ad) u in
  let hpa := BuildHPA ad h in
  hpa_MinReplicas hpa = ad_min ad ∧
  hpa_MinReplicas hpa ≤ hpa_MaxReplicas hpa ≤ ad_max ad ∧
  hpa_MaxReplicas hpa = Z.max (ad_min ad)
    (Z.min (ad_max ad)
      (Z.min (tq_MaxReplicasPerAgent q) (Z.max 0 (tq_MaxTotalReplicas q - u)))) ∧
  (IsQuotaCapped ad h = true ↔
    tq_MaxReplicasPerAgent q < ad_max ad ∨ Z.max 0 (tq_MaxTotalReplicas q - u) < ad_max ad).
Proof.
  intros Hi Hmm h hpa. subst h hpa. rewrite BuildHPA_max_spec, QuotaHeadroom_spec by done.
  unfold IsQuotaCapped. rewrite Z.ltb_lt. fold (ad_max ad).
  change (hpa_MinReplicas _) with (ad_min ad). split_and!; lia.
Qed.

(** *** The tenant's budget *)

(** Replicas the other agents of [ads] may use, as seen by agent [ad]. *)
Definition used_by_others (ads : list AgentDeployment) (ad : AgentDeployment) : Z :=
  Zsum (ad_max <$> ads) - ad_max ad.

Definition hpa_max (q : TenantQuotaSpec) (ads : list AgentDeployment)
    (ad : AgentDeployment) : Z :=
  hpa_MaxReplicas (BuildHPA ad (QuotaHeadroom q (ad_Spec ad) (used_by_others ads ad))).

(** C21: the ceilings the reconciler gives the HPAs of one tenant never add
    up to more than [maxTotalReplicas], as long as no agent's floor
    [replicas.min] overrides its headroom, even when the declared
    [replicas.max] values do exceed the budget. *)
Theorem hpa_ceilings_within_tenant_budget q ads :
  quota_wf q → 0 ≤ tq_MaxTotalReplicas q →
  is_int32 (Zsum (ad_max <$> ads)) →
  Forall (λ ad, 0 ≤ ad_min ad ∧ 0 ≤ ad_max ad ∧
    ad_min ad ≤ Z.min (ad_max ad) (QuotaHeadroom q (ad_Spec ad) (used_by_others ads ad))) ads →
  Zsum (hpa_max q ads <$> ads) ≤ tq_MaxTotalReplicas q.
Proof.
  intros Hq H0 Hs Hall. set (S := Zsum (ad_max <$> ads)) in *.
  set (T := tq_MaxTotalReplicas q) in *.
  assert (Hnn : Forall (λ ad, 0 ≤ ad_max ad) ads)
    by (eapply Forall_impl; [|exact Hall]; naive_solver).
  pose proof (Zsum_member_le ad_max ads Hnn) as Hle. fold S in Hle.
  assert (Hmax : Forall (λ ad, hpa_max q ads ad ≤
    Z.max 0 (ad_max ad - Z.max 0 (S - T))) ads).
  { apply Forall_forall. intros ad Had.
    rewrite Forall_forall in Hall, Hle. destruct (Hall _ Had) as (? & ? & Hm).
    specialize (Hle _ Had). unfold hpa_max. rewrite BuildHPA_max_spec.
    assert (Hu : used_by_others ads ad = S - ad_max ad) by done. rewrite Hu in *.
    assert (is_int32 (tq_MaxTotalReplicas q - (S - ad_max ad))).
    { destruct Hq as (? & ? & ? & ?). fold T. simpl in Hle. ints. }
    rewrite QuotaHeadroom_spec in Hm |- * by done. fold T in Hm |- *.
    simpl in Hle. lia. }
  transitivity (Zsum ((λ ad, Z.max 0 (ad_max ad - Z.max 0 (S - T))) <$> ads)).
  - by apply Zsum_fmap_le.
  - etrans; [apply Zsum_excess; [lia|done]|]. fold S. lia.
Qed.
End scaling.

Section witnesses.
#[local] Existing Instance Ref.core.

Definition demo_status : AgentDeploymentStatus :=
  {| st_Phase := "Running"; st_CurrentReplicas := 1; st_StableVersion := "img:v1";
     st_CanaryVersion := ""; st_CanaryWeight := 0; st_CanaryStepIndex := 0;
     st_PauseStartedAt := None; st_PromUnreachableSince := None; st_Registered := false;
     st_Conditions := [] |}.

Definition demo_agent (name : string) (max : Z) : AgentDeployment :=
  {| ad_Meta := new_meta name "ns" ∅; ad_Spec := Ref.agent max 0; ad_Status := demo_status |}.

Lemma hpa_ceiling_correct_witness :
  hpa_MaxReplicas (BuildHPA (demo_agent "a" 5)
    (QuotaHeadroom Ref.quota (ad_Spec (demo_agent "a" 5)) 3)) = 3.
Proof.
  assert (Hi : is_int32 (tq_MaxTotalReplicas Ref.quota - 3)) by (split; vm_compute; discriminate).
  assert (Hm : ad_min (demo_agent "a" 5) ≤ ad_max (demo_agent "a" 5))
    by (vm_compute; discriminate).
  destruct (hpa_ceiling_correct Ref.quota (demo_agent "a" 5) 3 Hi Hm) as (_ & _ & E & _).
  rewrite E. reflexivity.
Defined.

(** Declared maxima 4 + 4 exceed the budget 6; the ceilings are 2 + 2. *)
Lemma hpa_ceilings_within_tenant_budget_witness :
  Zsum (hpa_max Ref.quota [demo_agent "a" 4; demo_agent "b" 4] <$>
    [demo_agent "a" 4; demo_agent "b" 4]) ≤ 6.
Proof.
  apply (hpa_ceilings_within_tenant_budget Ref.quota [demo_agent "a" 4; demo_agent "b" 4]).
  - repeat split; vm_compute; discriminate.
  - vm_compute; discriminate.
  - split; vm_compute; discriminate.
  - repeat constructor; vm_compute; discriminate.
Defined.
End witnesses.
