(* ===== verification/GoFloat.v ===== *)
(** Go's [float64]: IEEE 754 binary64 on the Standard Library's [spec_float]
    (no axioms), the comparisons and conversions the operator uses,
    [strconv.ParseFloat] and the [%.Nf] verbs of package [fmt], and
    [ParseErrorRate] of [src/api/v1alpha1/error_rate.go].

    A Go string is a sequence of bytes; [string] is a sequence of 8-bit
    characters. *)
From S2P Require Import Prelude.
From Stdlib Require Import SpecFloat.

(** ** binary64 *)

Notation float64 := spec_float.
Definition f64_prec : Z := 53.
Definition f64_emax : Z := 1024.

(** [float64(z)] for an integer: correctly rounded. *)
Definition f64_of_Z (z : Z) : float64 := binary_normalize f64_prec f64_emax z 0 false.

Definition f64_lt (a b : float64) : bool := SFltb a b.
Definition f64_gt (a b : float64) : bool := SFltb b a.
Definition f64_le (a b : float64) : bool := SFleb a b.
Definition f64_div (a b : float64) : float64 := SFdiv f64_prec f64_emax a b.
Definition f64_mul (a b : float64) : float64 := SFmul f64_prec f64_emax a b.

Definition f64_isNaN (a : float64) : bool :=
  match a with S754_nan => true | _ => false end.
Definition f64_isInf (a : float64) : bool :=
  match a with S754_infinity _ => true | _ => false end.

(** The float nearest to [m * 10^e] (ties to even), [m >= 0]: one correctly
    rounded operation on exact integers. *)
Definition f64_of_decimal (neg : bool) (m e : Z) : float64 :=
  match m with
  | Zpos p =>
      if 0 <=? e then
        let x := binary_normalize f64_prec f64_emax (Zpos p * 10 ^ e) 0 false in
        if neg then SFopp x else x
      else
        match 10 ^ (- e) with
        | Zpos q =>
            let '(mz, ez, lz) := SFdiv_core_binary f64_prec f64_emax (Zpos p) 0 (Zpos q) 0 in
            binary_round_aux f64_prec f64_emax neg mz ez lz
        | _ => S754_nan
        end
  | _ => S754_zero neg
  end.

(** The float nearest to [m * 2^e], [m >= 0]. *)
Definition f64_of_binary (neg : bool) (m e : Z) : float64 :=
  let x := binary_normalize f64_prec f64_emax m e false in
  if neg then SFopp x else x.

(** ** strconv.Quote, the [%q] verb

    Exact on ASCII, which covers every Kubernetes name; bytes above 127 are
    kept, as they are for printable characters. *)

Definition code (c : Ascii.ascii) : Z := Z.of_nat (Ascii.nat_of_ascii c).
Definition chr (n : Z) : Ascii.ascii := Ascii.ascii_of_nat (Z.to_nat n).
Definition dq : string := String (chr 34) EmptyString.

Definition hex_digit (n : Z) : Ascii.ascii := chr (if n <? 10 then 48 + n else 87 + n).

Definition quote_char (c : Ascii.ascii) : string :=
  let n := code c in
  let esc (k : Z) := String (chr 92) (String (chr k) EmptyString) in
  if (n =? 34) || (n =? 92) then esc n
  else if (32 <=? n) && negb (n =? 127) then String c EmptyString
  else if n =? 7 then esc 97 else if n =? 8 then esc 98 else if n =? 12 then esc 102
  else if n =? 10 then esc 110 else if n =? 13 then esc 114 else if n =? 9 then esc 116
  else if n =? 11 then esc 118
  else String (chr 92) (String (chr 120)
    (String (hex_digit (n / 16)) (String (hex_digit (n mod 16)) EmptyString))).

Fixpoint quote_body (s : string) : string :=
  match s with
  | EmptyString => EmptyString
  | String c s' => quote_char c +:+ quote_body s'
  end.

Definition Quote (s : string) : string := dq +:+ quote_body s +:+ dq.

(** ** strconv.ParseFloat *)

Definition lower (c : Ascii.ascii) : Z :=
  let n := code c in if (65 <=? n) && (n <=? 90) then n + 32 else n.
Definition is_digit (c : Ascii.ascii) : bool := (48 <=? code c) && (code c <=? 57).

(** The value of a digit in base 10 or 16. *)
Definition digit_val (base : Z) (c : Ascii.ascii) : option Z :=
  if is_digit c then Some (code c - 48)
  else if (base =? 16) && (97 <=? lower c) && (lower c <=? 102) then Some (lower c - 87)
  else None.

(** The digit loop of [readFloat]: mantissa, number of digits after the point,
    and whether a digit, a point and an underscore were seen. *)
Record digits_state := {
  dg_mant : Z; dg_frac : Z; dg_saw_digits : bool; dg_saw_dot : bool; dg_underscores : bool;
}.

Fixpoint read_digits (base : Z) (s : string) (st : digits_state) : digits_state * string :=
  match s with
  | EmptyString => (st, s)
  | String c s' =>
      if code c =? 95 then
        read_digits base s' {| dg_mant := dg_mant st; dg_frac := dg_frac st;
          dg_saw_digits := dg_saw_digits st; dg_saw_dot := dg_saw_dot st;
          dg_underscores := true |}
      else if code c =? 46 then
        if dg_saw_dot st then (st, s) else
        read_digits base s' {| dg_mant := dg_mant st; dg_frac := dg_frac st;
          dg_saw_digits := dg_saw_digits st; dg_saw_dot := true;
          dg_underscores := dg_underscores st |}
      else match digit_val base c with
        | Some d =>
            read_digits base s' {| dg_mant := dg_mant st * base + d;
              dg_frac := if dg_saw_dot st then dg_frac st + 1 else dg_frac st;
              dg_saw_digits := true; dg_saw_dot := dg_saw_dot st;
              dg_underscores := dg_underscores st |}
        | None => (st, s)
        end
  end.

(** The exponent digits: value (capped as in the source of [strconv]) and
    underscores. *)
Fixpoint read_exp (s : string) (e : Z) (us : bool) : Z * bool * string :=
  match s with
  | EmptyString => (e, us, s)
  | String c s' =>
      if code c =? 95 then read_exp s' e true
      else if is_digit c then read_exp s' (if e <? 10000 then e * 10 + (code c - 48) else e) us
      else (e, us, s)
  end.

(** [underscoreOK]: underscores only between digits, one allowed after a base
    prefix.  [prev] is ['0'] after a digit, ['_'] after an underscore, ['!']
    after another character and ['^'] at the start, as character codes. *)
Fixpoint underscore_ok_go (hex : bool) (s : string) (prev : Z) : bool :=
  match s with
  | EmptyString => negb (prev =? 95)
  | String c s' =>
      if is_digit c || (hex && (97 <=? lower c) && (lower c <=? 102)) then
        underscore_ok_go hex s' 48
      else if code c =? 95 then
        if prev =? 48 then underscore_ok_go hex s' 95 else false
      else if prev =? 95 then false
      else underscore_ok_go hex s' 33
  end.

Definition strip_sign (s : string) : bool * string :=
  match s with
  | String c s' => if code c =? 43 then (false, s') else if code c =? 45 then (true, s') else (false, s)
  | EmptyString => (false, s)
  end.

Definition underscoreOK (s : string) : bool :=
  let s := (strip_sign s).2 in
  match s with
  | String z (String x s') =>
      if (code z =? 48) && ((lower x =? 98) || (lower x =? 111) || (lower x =? 120))
      then underscore_ok_go (lower x =? 120) s' 48
      else underscore_ok_go false s 94
  | _ => underscore_ok_go false s 94
  end.

Fixpoint lower_string (s : string) : list Z :=
  match s with EmptyString => [] | String c s' => lower c :: lower_string s' end.

(** [special]: optionally signed infinities and NaN, case-insensitively. *)
Definition special (s : string) : option float64 :=
  let '(neg, body) := strip_sign s in
  let signed := negb (s =s? body) in
  let l := lower_string body in
  if bool_decide (l = lower_string "inf") || bool_decide (l = lower_string "infinity")
  then Some (S754_infinity neg)
  else if negb signed && bool_decide (l = lower_string "nan") then Some S754_nan
  else None.

Definition syntaxError (s : string) : error :=
  PlainError ("strconv.ParseFloat: parsing " +:+ Quote s +:+ ": invalid syntax").
Definition rangeError (s : string) : error :=
  PlainError ("strconv.ParseFloat: parsing " +:+ Quote s +:+ ": value out of range").

(** The finite literals: sign, optional [0x], digits, exponent; everything
    must be consumed. *)
Definition parse_finite (s : string) : option float64 :=
  let '(neg, body) := strip_sign s in
  let '(hex, body) :=
    match body with
    | String z (String x (String y r)) =>
        if (code z =? 48) && (lower x =? 120) then (true, String y r) else (false, body)
    | _ => (false, body)
    end in
  let base := if hex then 16 else 10 in
  let '(st, rest) := read_digits base body
    {| dg_mant := 0; dg_frac := 0; dg_saw_digits := false; dg_saw_dot := false;
       dg_underscores := false |} in
  if negb (dg_saw_digits st) then None else
  let scaled (e : Z) (us : bool) : option float64 :=
    if us && negb (underscoreOK s) then None else
    if hex then Some (f64_of_binary neg (dg_mant st) (e - 4 * dg_frac st))
    else Some (f64_of_decimal neg (dg_mant st) (e - dg_frac st)) in
  match rest with
  | EmptyString => if hex then None else scaled 0 (dg_underscores st)
  | String c r =>
      if negb (lower c =? (if hex then 112 else 101)) then None else
      let '(eneg, r) := strip_sign r in
      match r with
      | EmptyString => None
      | String d _ =>
          if negb (is_digit d) then None else
          let '(e, us, rest') := read_exp r 0 (dg_underscores st) in
          match rest' with
          | EmptyString => scaled (if eneg then - e else e) us
          | _ => None
          end
      end
  end.

(** [strconv.ParseFloat(s, 64)]. *)
Definition ParseFloat (s : string) : error + float64 :=
  match special s with
  | Some f => inr f
  | None =>
      match parse_finite s with
      | None => inl (syntaxError s)
      | Some f => if f64_isInf f then inl (rangeError s) else inr f
      end
  end.

(** ** The [%.Nf] verbs *)

(** The last [n] decimal digits of [z], before [acc]. *)
Fixpoint pad_digits (n : nat) (z : Z) (acc : string) : string :=
  match n with
  | O => acc
  | S n' => pad_digits n' (z / 10) (String (chr (48 + z mod 10)) acc)
  end.

(** [|m * 2^e| * 10^prec] rounded to an integer, ties to even. *)
Definition scaled_round (prec : nat) (m : positive) (e : Z) : Z :=
  let n := Zpos m * 10 ^ Z.of_nat prec in
  if 0 <=? e then n * 2 ^ e else
  let d := 2 ^ (- e) in
  let q := n / d in
  let r := n mod d in
  if (2 * r <? d) || ((2 * r =? d) && Z.even q) then q else q + 1.

Definition fmt_fixed (prec : nat) (q : Z) : string :=
  let p := 10 ^ Z.of_nat prec in
  match prec with
  | O => fmt_d q
  | _ => fmt_d (q / p) +:+ "." +:+ pad_digits prec (q mod p) EmptyString
  end.

(** [fmt.Sprintf("%.<prec>f", x)]. *)
Definition fmt_f (prec : nat) (x : float64) : string :=
  match x with
  | S754_nan => "NaN"
  | S754_infinity false => "+Inf"
  | S754_infinity true => "-Inf"
  | S754_zero neg => (if neg then "-" else "") +:+ fmt_fixed prec 0
  | S754_finite neg m e => (if neg then "-" else "") +:+ fmt_fixed prec (scaled_round prec m e)
  end.

(** ** ParseErrorRate *)

Definition ParseErrorRate (s : string) : error + float64 :=
  match split_last s with
  | None => inl (PlainError "empty error rate string")
  | Some (body, last) =>
      if negb (code last =? 37) then
        inl (PlainError ("error rate must end with '%': got " +:+ Quote s)) else
      match ParseFloat body with
      | inl err => inl (Errorf ("parsing error rate " +:+ Quote s) err)
      | inr pct =>
          if f64_isNaN pct || f64_isInf pct then
            inl (PlainError ("error rate " +:+ Quote s +:+ " is not a finite number")) else
          if f64_lt pct (f64_of_Z 0) || f64_gt pct (f64_of_Z 100) then
            inl (PlainError ("error rate " +:+ Quote s +:+ " out of range [0, 100]")) else
          inr (f64_div pct (f64_of_Z 100))
      end
  end.

Lemma split_last_app b c : split_last (b +:+ String c EmptyString) = Some (b, c).
Proof. induction b as [|x b IH]; simpl; [done|]. by rewrite IH. Qed.

Lemma split_last_inv s b c : split_last s = Some (b, c) → s = b +:+ String c EmptyString.
Proof.
  revert b. induction s as [|x s IH]; simpl; [done|]. intros b.
  destruct (split_last s) as [[i l]|] eqn:E; intros [= <- <-].
  - rewrite (IH i) by done. done.
  - destruct s as [|y s]; [done|]. simpl in E. by destruct (split_last s) as [[]|].
Qed.

Lemma code_percent c : code c = 37 → c = chr 37.
Proof.
  unfold code, chr. intros Hc.
  rewrite <- (Ascii.ascii_nat_embedding c). f_equal. lia.
Qed.

(** A finite number within the percent range, as float comparisons. *)
Definition percent_ok (pct : float64) : bool :=
  f64_le (f64_of_Z 0) pct && f64_le pct (f64_of_Z 100).

Lemma percent_ok_spec pct :
  percent_ok pct = negb (f64_isNaN pct || f64_isInf pct) &&
    negb (f64_lt pct (f64_of_Z 0) || f64_gt pct (f64_of_Z 100)).
Proof.
  unfold percent_ok, f64_le, f64_lt, f64_gt, SFleb, SFltb, f64_isNaN, f64_isInf.
  assert (Hflip : ∀ x y, SFcompare y x = (CompOpp <$> SFcompare x y)).
  { intros x y. destruct x as [[]|[]| |[] m e], y as [[]|[]| |[] m' e']; try done; simpl;
      rewrite (Z.compare_antisym e' e); destruct (e' ?= e) eqn:E; simpl; try done;
      f_equal; rewrite Pos.compare_cont_antisym; simpl; by rewrite ?CompOpp_involutive. }
  rewrite (Hflip pct (f64_of_Z 0)), (Hflip pct (f64_of_Z 100)).
  destruct pct as [[]|[]| |b m e]; try reflexivity.
  change (f64_isNaN (S754_finite b m e)) with false.
  destruct (SFcompare (S754_finite b m e) (f64_of_Z 0)) as [[]|] eqn:E0;
    destruct (SFcompare (S754_finite b m e) (f64_of_Z 100)) as [[]|] eqn:E1; simpl; try done.
Qed.

(** [ParseErrorRate] accepts exactly the strings that are a float literal
    followed by a percent sign whose value is a number within [0, 100], and
    returns the hundredth of that value; NaN, infinities, out-of-range values,
    garbage and a missing percent sign are all errors. *)
Theorem ParseErrorRate_accepts s r :
  ParseErrorRate s = inr r ↔
  ∃ body pct, s = body +:+ "%" ∧ ParseFloat body = inr pct ∧
    percent_ok pct = true ∧ r = f64_div pct (f64_of_Z 100).
Proof.
  unfold ParseErrorRate. split.
  - destruct (split_last s) as [[body last]|] eqn:Hs; [|done].
    apply split_last_inv in Hs as ->. case_match eqn:Hp; [done|]. zbool.
    apply code_percent in Hp as ->.
    destruct (ParseFloat body) as [e|pct] eqn:Hf; [done|].
    case_match eqn:Hfin; [done|]. case_match eqn:Hrng; [done|].
    intros [= <-]. exists body, pct. by rewrite percent_ok_spec, Hfin, Hrng.
  - intros (body & pct & -> & Hf & Hok & ->).
    change "%" with (String (chr 37) EmptyString). rewrite split_last_app.
    change (negb (code (chr 37) =? 37)) with false. cbv iota beta. rewrite Hf. rewrite percent_ok_spec in Hok. apply andb_true_iff in Hok as [Hfin Hrng].
    apply negb_true_iff in Hfin as ->. by apply negb_true_iff in Hrng as ->.
Qed.

#[export] Instance float64_eq_dec : EqDecision float64.
Proof. solve_decision. Defined.

Definition whole_percent_ok (n : Z) : bool :=
  match ParseErrorRate (fmt_d n +:+ "%") with
  | inr x => bool_decide (x = f64_of_decimal false n (-2))
  | inl _ => false
  end.

Lemma whole_percent_ok_spec n :
  whole_percent_ok n = true →
  ParseErrorRate (fmt_d n +:+ "%") = inr (f64_of_decimal false n (-2)).
Proof. unfold whole_percent_ok. case_match; [done|]. by intros ->%bool_decide_eq_true. Qed.

(** A whole percentage written in decimal parses to the double nearest to
    that many hundredths, so distinct percentages stay distinct thresholds. *)
Theorem ParseErrorRate_whole_percent n :
  0 ≤ n ≤ 100 →
  ParseErrorRate (fmt_d n +:+ "%") = inr (f64_of_decimal false n (-2)).
Proof.
  intros Hn.
  assert (Hall : forallb whole_percent_ok (seqZ 0 101) = true) by by vm_compute.
  rewrite forallb_forall in Hall. specialize (Hall n). rewrite <- list_elem_of_In in Hall.
  apply whole_percent_ok_spec, Hall, elem_of_seqZ. lia.
Qed.

Lemma ParseErrorRate_whole_percent_witness :
  ParseErrorRate "2%" = inr (f64_of_decimal false 2 (-2)).
Proof. apply (ParseErrorRate_whole_percent 2). lia. Defined.
