(* ===== verification/Json.v ===== *)
(** JSON as [encoding/json] of Go 1.22 reads and writes it: the syntax tree of a
    document, the scanner and parser, string quoting and unquoting with UTF-8,
    and the compact output of [json.Marshal].

    The clients of Prometheus and of MCP agents, and the registry, exchange
    their data in this format.  The parser takes fuel; [parse_json] gives it
    enough for every input ([parse_json_total]). *)
From S2P Require Import Prelude GoFloat.

(** ** Values

    A number keeps its literal, as the decoder converts it only when it knows
    the Go type; an object keeps its members in order, duplicates included. *)

Unset Elimination Schemes.
Inductive json :=
  | JNull
  | JBool (b : bool)
  | JNumber (literal : string)
  | JString (s : string)
  | JArray (elems : list json)
  | JObject (members : list (string * json)).
Set Elimination Schemes.

(** Induction over the elements of arrays and the members of objects. *)
Definition json_ind (P : json → Prop)
    (Hnull : P JNull) (Hbool : ∀ b, P (JBool b)) (Hnum : ∀ l, P (JNumber l))
    (Hstr : ∀ s, P (JString s)) (Harr : ∀ l, Forall P l → P (JArray l))
    (Hobj : ∀ l, Forall (λ kv, P kv.2) l → P (JObject l)) : ∀ v, P v :=
  fix go v :=
    match v with
    | JNull => Hnull
    | JBool b => Hbool b
    | JNumber l => Hnum l
    | JString s => Hstr s
    | JArray l => Harr l ((fix all l := match l return Forall P l with
        | [] => Forall_nil_2 _ | x :: l' => Forall_cons_2 _ _ _ (go x) (all l') end) l)
    | JObject l => Hobj l ((fix all l := match l return Forall (λ kv, P kv.2) l with
        | [] => Forall_nil_2 _ | x :: l' => Forall_cons_2 _ _ _ (go x.2) (all l') end) l)
    end.

(** ** Characters *)

Definition is_ws (c : Ascii.ascii) : bool :=
  (code c =? 32) || (code c =? 9) || (code c =? 10) || (code c =? 13).

Fixpoint skip_ws (s : string) : string :=
  match s with
  | EmptyString => s
  | String c s' => if is_ws c then skip_ws s' else s
  end.

(** The value of a hexadecimal digit. *)
Definition hex_val (c : Ascii.ascii) : option Z := digit_val 16 c.

(** [getu4]: the value of four hexadecimal digits. *)
Definition hex4 (a b c d : Ascii.ascii) : option Z :=
  match hex_val a, hex_val b, hex_val c, hex_val d with
  | Some a, Some b, Some c, Some d => Some (((a * 16 + b) * 16 + c) * 16 + d)
  | _, _, _, _ => None
  end.

(** [utf8.EncodeRune]: surrogates become U+FFFD. *)
Definition EncodeRune (r : Z) : string :=
  let cont (k : Z) := chr (128 + (r / 64 ^ k) mod 64) in
  if r <? 128 then String (chr r) EmptyString
  else if r <? 2048 then String (chr (192 + r / 64)) (String (cont 0) EmptyString)
  else if (55296 <=? r) && (r <=? 57343) then
    String (chr 239) (String (chr 191) (String (chr 189) EmptyString))
  else if r <? 65536 then
    String (chr (224 + r / 4096)) (String (cont 1) (String (cont 0) EmptyString))
  else String (chr (240 + r / 262144))
    (String (cont 2) (String (cont 1) (String (cont 0) EmptyString))).

Definition replacement : string := EncodeRune 65533.

Definition in_range (lo hi : Z) (c : Ascii.ascii) : bool := (lo <=? code c) && (code c <=? hi).
Definition is_cont (c : Ascii.ascii) : bool := in_range 128 191 c.

(** The length of the UTF-8 sequence a byte of at least 128 and what follows
    start with; 1 when [utf8.DecodeRune] finds no valid one. *)
Definition rune_width (c : Ascii.ascii) (s : string) : nat :=
  match s with
  | EmptyString => 1%nat
  | String c1 s1 =>
      if in_range 194 223 c then if is_cont c1 then 2%nat else 1%nat
      else
      let lo := if code c =? 224 then 160 else if code c =? 240 then 144 else 128 in
      let hi := if code c =? 237 then 159 else if code c =? 244 then 143 else 191 in
      if negb (in_range lo hi c1) then 1%nat else
      match s1 with
      | EmptyString => 1%nat
      | String c2 s2 =>
          if negb (is_cont c2) then 1%nat
          else if in_range 224 239 c then 3%nat
          else match s2 with
            | EmptyString => 1%nat
            | String c3 _ => if in_range 240 244 c && is_cont c3 then 4%nat else 1%nat
            end
      end
  end.

(** ** Strings *)

(** The characters the scanner accepts after a backslash, the [u] escape apart,
    and what they stand for. *)
Definition unescape (c : Ascii.ascii) : option Ascii.ascii :=
  let n := code c in
  if (n =? 34) || (n =? 92) || (n =? 47) then Some c
  else if n =? 98 then Some (chr 8) else if n =? 102 then Some (chr 12)
  else if n =? 110 then Some (chr 10) else if n =? 114 then Some (chr 13)
  else if n =? 116 then Some (chr 9) else None.

(** The scanner inside a string: the text up to the closing quote, escapes
    kept, and what follows the quote. *)
Fixpoint scan_string (s : string) : option (string * string) :=
  match s with
  | EmptyString => None
  | String c s1 =>
      if code c =? 34 then Some (EmptyString, s1)
      else if code c <? 32 then None
      else if code c =? 92 then
        match s1 with
        | EmptyString => None
        | String e s2 =>
            if code e =? 117 then
              match s2 with
              | String h1 (String h2 (String h3 (String h4 s6))) =>
                  match hex4 h1 h2 h3 h4, scan_string s6 with
                  | Some _, Some (body, rest) =>
                      Some (String c (String e (String h1 (String h2 (String h3 (String h4 body))))), rest)
                  | _, _ => None
                  end
              | _ => None
              end
            else
              match unescape e, scan_string s2 with
              | Some _, Some (body, rest) => Some (String c (String e body), rest)
              | _, _ => None
              end
        end
      else
        match scan_string s1 with
        | Some (body, rest) => Some (String c body, rest)
        | None => None
        end
  end.

(** [utf16.DecodeRune] on a surrogate [r1] and what the next six characters
    spell, if they are a [u] escape. *)
Definition low_surrogate (r1 : Z) (b u h1 h2 h3 h4 : Ascii.ascii) : option Z :=
  if (code b =? 92) && (code u =? 117) then
    match hex4 h1 h2 h3 h4 with
    | Some r2 =>
        if (r1 <? 56320) && (56320 <=? r2) && (r2 <? 57344)
        then Some ((r1 - 55296) * 1024 + (r2 - 56320) + 65536) else None
    | None => None
    end
  else None.

(** [unquoteBytes] on the text between the quotes. *)
Fixpoint unquote (s : string) : string :=
  match s with
  | EmptyString => EmptyString
  | String c s1 =>
      if code c =? 92 then
        match s1 with
        | EmptyString => EmptyString
        | String e s2 =>
            if code e =? 117 then
              match s2 with
              | String h1 (String h2 (String h3 (String h4 s6))) =>
                  match hex4 h1 h2 h3 h4 with
                  | None => EmptyString
                  | Some rr =>
                      if (55296 <=? rr) && (rr <? 57344) then
                        match s6 with
                        | String b (String u (String g1 (String g2 (String g3 (String g4 s12))))) =>
                            match low_surrogate rr b u g1 g2 g3 g4 with
                            | Some dec => EncodeRune dec +:+ unquote s12
                            | None => replacement +:+ unquote s6
                            end
                        | _ => replacement +:+ unquote s6
                        end
                      else EncodeRune rr +:+ unquote s6
                  end
              | _ => EmptyString
              end
            else String (default c (unescape e)) (unquote s2)
        end
      else if code c <? 128 then String c (unquote s1)
      else
        match rune_width c s1, s1 with
        | 2%nat, String c1 s2 => String c (String c1 (unquote s2))
        | 3%nat, String c1 (String c2 s3) => String c (String c1 (String c2 (unquote s3)))
        | 4%nat, String c1 (String c2 (String c3 s4)) =>
            String c (String c1 (String c2 (String c3 (unquote s4))))
        | _, _ => replacement +:+ unquote s1
        end
  end.

(** ** Numbers *)

Fixpoint span_digits (s : string) : string * string :=
  match s with
  | EmptyString => (EmptyString, s)
  | String c s' =>
      if is_digit c then let '(d, r) := span_digits s' in (String c d, r) else (EmptyString, s)
  end.

(** At least one digit. *)
Definition some_digits (s : string) : option (string * string) :=
  match span_digits s with (EmptyString, _) => None | dr => Some dr end.

(** [0] or digits without a leading zero. *)
Definition lex_int (s : string) : option (string * string) :=
  match s with
  | EmptyString => None
  | String c s' => if code c =? 48 then Some (String c EmptyString, s') else some_digits s
  end.

Definition lex_frac (s : string) : option (string * string) :=
  match s with
  | String c s' =>
      if code c =? 46 then '(d, r) ← some_digits s'; Some (String c d, r)
      else Some (EmptyString, s)
  | EmptyString => Some (EmptyString, s)
  end.

Definition is_sign (c : Ascii.ascii) : bool := (code c =? 43) || (code c =? 45).

Definition lex_exp (s : string) : option (string * string) :=
  match s with
  | String c s' =>
      if lower c =? 101 then
        match s' with
        | String g s'' =>
            if is_sign g then '(d, r) ← some_digits s''; Some (String c (String g d), r)
            else '(d, r) ← some_digits s'; Some (String c d, r)
        | EmptyString => None
        end
      else Some (EmptyString, s)
  | EmptyString => Some (EmptyString, s)
  end.

Definition lex_minus (s : string) : string * string :=
  match s with
  | String c s' => if code c =? 45 then (String c EmptyString, s') else (EmptyString, s)
  | EmptyString => (EmptyString, s)
  end.

(** A number literal at the front of the text. *)
Definition lex_number (s : string) : option (string * string) :=
  let '(sign, s1) := lex_minus s in
  '(i, s2) ← lex_int s1;
  '(f, s3) ← lex_frac s2;
  '(e, s4) ← lex_exp s3;
  Some (sign +:+ i +:+ f +:+ e, s4).

(** ** The parser *)

Inductive outcome (A : Type) :=
  | Parsed (a : A)
  | Malformed
  | OutOfFuel.
Arguments Parsed {A} a.
Arguments Malformed {A}.
Arguments OutOfFuel {A}.

Definition outcome_bind {A B} (m : outcome A) (f : A → outcome B) : outcome B :=
  match m with Parsed a => f a | Malformed => Malformed | OutOfFuel => OutOfFuel end.

Definition of_option {A} (m : option A) : outcome A :=
  match m with Some a => Parsed a | None => Malformed end.

(** [s] without the prefix [p]. *)
Fixpoint strip_prefix (p s : string) : option string :=
  match p, s with
  | EmptyString, _ => Some s
  | String a p', String b s' => if code a =? code b then strip_prefix p' s' else None
  | String _ _, EmptyString => None
  end.

Definition maxNestingDepth : Z := 10000.

(** The first character of a text and the text after it. *)
Definition first_is (n : Z) (s : string) : bool :=
  match s with String c _ => code c =? n | EmptyString => false end.
Definition rest_of (s : string) : string :=
  match s with String _ s' => s' | EmptyString => EmptyString end.

(** The value the text starts with (white space skipped before the call) and
    the text after it; [depth] is the number of arrays and objects around it. *)
Fixpoint parse_value (fuel : nat) (depth : Z) (s : string) {struct fuel} : outcome (json * string) :=
  match fuel with
  | O => OutOfFuel
  | S fuel =>
      if first_is 123 s then
        if maxNestingDepth <=? depth then Malformed else
        let s1 := skip_ws (rest_of s) in
        if first_is 125 s1 then Parsed (JObject [], rest_of s1) else
        outcome_bind (parse_members fuel (depth + 1) s1) (λ '(l, r), Parsed (JObject l, r))
      else if first_is 91 s then
        if maxNestingDepth <=? depth then Malformed else
        let s1 := skip_ws (rest_of s) in
        if first_is 93 s1 then Parsed (JArray [], rest_of s1) else
        outcome_bind (parse_elems fuel (depth + 1) s1) (λ '(l, r), Parsed (JArray l, r))
      else if first_is 34 s then
        outcome_bind (of_option (scan_string (rest_of s))) (λ '(body, r), Parsed (JString (unquote body), r))
      else if first_is 116 s then
        outcome_bind (of_option (strip_prefix "true" s)) (λ r, Parsed (JBool true, r))
      else if first_is 102 s then
        outcome_bind (of_option (strip_prefix "false" s)) (λ r, Parsed (JBool false, r))
      else if first_is 110 s then
        outcome_bind (of_option (strip_prefix "null" s)) (λ r, Parsed (JNull, r))
      else outcome_bind (of_option (lex_number s)) (λ '(l, r), Parsed (JNumber l, r))
  end
with parse_elems (fuel : nat) (depth : Z) (s : string) {struct fuel} : outcome (list json * string) :=
  match fuel with
  | O => OutOfFuel
  | S fuel =>
      outcome_bind (parse_value fuel depth s) (λ '(v, r),
      let s1 := skip_ws r in
      if first_is 44 s1 then
        outcome_bind (parse_elems fuel depth (skip_ws (rest_of s1))) (λ '(l, r'), Parsed (v :: l, r'))
      else if first_is 93 s1 then Parsed ([v], rest_of s1)
      else Malformed)
  end
with parse_members (fuel : nat) (depth : Z) (s : string) {struct fuel} :
    outcome (list (string * json) * string) :=
  match fuel with
  | O => OutOfFuel
  | S fuel =>
      if negb (first_is 34 s) then Malformed else
      outcome_bind (of_option (scan_string (rest_of s))) (λ '(k, r),
      let s1 := skip_ws r in
      if negb (first_is 58 s1) then Malformed else
      outcome_bind (parse_value fuel depth (skip_ws (rest_of s1))) (λ '(v, r1),
      let s2 := skip_ws r1 in
      if first_is 44 s2 then
        outcome_bind (parse_members fuel depth (skip_ws (rest_of s2)))
          (λ '(l, r'), Parsed ((unquote k, v) :: l, r'))
      else if first_is 125 s2 then Parsed ([(unquote k, v)], rest_of s2)
      else Malformed))
  end.

(** Enough for every text of this length. *)
Definition json_fuel (s : string) : nat := (2 * String.length s + 2)%nat.

(** What [json.Unmarshal] accepts: one value, white space around it. *)
Definition parse_json (s : string) : outcome json :=
  outcome_bind (parse_value (json_fuel s) 0 (skip_ws s)) (λ '(v, r),
  if skip_ws r =s? "" then Parsed v else Malformed).

(** What [Decoder.Decode] reads: the first value, whatever follows it. *)
Definition decode_json (s : string) : outcome json :=
  outcome_bind (parse_value (json_fuel s) 0 (skip_ws s)) (λ '(v, _), Parsed v).

(** ** Output *)

Definition bslash (t : string) : string := String (chr 92) t.

(** A character below 128 in a string of [json.Marshal], which also escapes
    the characters special to HTML. *)
Definition json_escape (c : Ascii.ascii) : string :=
  let n := code c in
  let esc (k : Z) := bslash (String (chr k) EmptyString) in
  if (n =? 34) || (n =? 92) then esc n
  else if n =? 8 then esc 98 else if n =? 12 then esc 102 else if n =? 10 then esc 110
  else if n =? 13 then esc 114 else if n =? 9 then esc 116
  else if (n <? 32) || (n =? 60) || (n =? 62) || (n =? 38) then
    bslash (String (chr 117) (String (chr 48) (String (chr 48)
      (String (hex_digit (n / 16)) (String (hex_digit (n mod 16)) EmptyString)))))
  else String c EmptyString.

(** U+2028 and U+2029, which [json.Marshal] escapes. *)
Definition is_line_sep (c c1 c2 : Ascii.ascii) : bool :=
  (code c =? 226) && (code c1 =? 128) && ((code c2 =? 168) || (code c2 =? 169)).

(** [appendString] between the quotes. *)
Fixpoint escape (s : string) : string :=
  match s with
  | EmptyString => EmptyString
  | String c s1 =>
      if code c <? 128 then json_escape c +:+ escape s1
      else
        match rune_width c s1, s1 with
        | 2%nat, String c1 s2 => String c (String c1 (escape s2))
        | 3%nat, String c1 (String c2 s3) =>
            if is_line_sep c c1 c2
            then bslash "u202" +:+ String (hex_digit (code c2 - 160)) (escape s3)
            else String c (String c1 (String c2 (escape s3)))
        | 4%nat, String c1 (String c2 (String c3 s4)) =>
            String c (String c1 (String c2 (String c3 (escape s4))))
        | _, _ => bslash "ufffd" +:+ escape s1
        end
  end.

Definition quote_json (s : string) : string := dq +:+ escape s +:+ dq.

Fixpoint print_json (v : json) : string :=
  match v with
  | JNull => "null"
  | JBool b => if b then "true" else "false"
  | JNumber l => l
  | JString s => quote_json s
  | JArray l => "[" +:+ String.concat "," (map print_json l) +:+ "]"
  | JObject l =>
      "{" +:+ String.concat "," (map (λ kv, quote_json kv.1 +:+ ":" +:+ print_json kv.2) l) +:+ "}"
  end.

(** [strings.ToValidUTF8] with U+FFFD for every invalid byte: what a string
    becomes when it is written and read back. *)
Fixpoint ToValid (s : string) : string :=
  match s with
  | EmptyString => EmptyString
  | String c s1 =>
      if code c <? 128 then String c (ToValid s1)
      else
        match rune_width c s1, s1 with
        | 2%nat, String c1 s2 => String c (String c1 (ToValid s2))
        | 3%nat, String c1 (String c2 s3) => String c (String c1 (String c2 (ToValid s3)))
        | 4%nat, String c1 (String c2 (String c3 s4)) =>
            String c (String c1 (String c2 (String c3 (ToValid s4))))
        | _, _ => replacement +:+ ToValid s1
        end
  end.

Definition valid_utf8 (s : string) : bool := ToValid s =s? s.

(** The number of arrays and objects nested in a value. *)
Fixpoint height (v : json) : Z :=
  match v with
  | JArray l => 1 + foldr Z.max 0 (map height l)
  | JObject l => 1 + foldr Z.max 0 (map (λ kv, height kv.2) l)
  | _ => 0
  end.

(** The values that exist as documents of at most [maxNestingDepth]. *)
Fixpoint json_wf (v : json) : bool :=
  match v with
  | JNumber l => bool_decide (lex_number l = Some (l, EmptyString))
  | JString s => valid_utf8 s
  | JArray l => forallb json_wf l
  | JObject l => forallb (λ kv, valid_utf8 kv.1 && json_wf kv.2) l
  | _ => true
  end.

(** ** Decoding into Go values

    A decoder updates a Go value in place with a JSON value, [None] when their
    types do not match.  [encoding/json] records the first mismatch, goes on and
    returns it; the callers use no value when there is an error, so decoding
    stops at the mismatch here. *)

Definition Decoder (A : Type) : Type := json → A → option A.

(** [null] leaves everything but pointers, slices and maps as it is. *)
Definition dec_string : Decoder string := λ v old,
  match v with JString s => Some s | JNull => Some old | _ => None end.

Definition dec_bool : Decoder bool := λ v old,
  match v with JBool b => Some b | JNull => Some old | _ => None end.

(** The value of a text of digits after [acc]. *)
Fixpoint digits_val (acc : Z) (d : string) : Z :=
  match d with
  | EmptyString => acc
  | String c d' => digits_val (acc * 10 + (code c - 48)) d'
  end.

(** [strconv.ParseInt(lit, 10, 64)] on a JSON number: digits with an optional
    minus sign, within [int64]. *)
Definition ParseInt_literal (l : string) : option Z :=
  let '(sign, s) := lex_minus l in
  match span_digits s with
  | (d, EmptyString) =>
      if d =s? "" then None else
      let n := if sign =s? "" then digits_val 0 d else - digits_val 0 d in
      if (MinInt64 <=? n) && (n <=? MaxInt64) then Some n else None
  | _ => None
  end.

Definition dec_int : Decoder Z := λ v old,
  match v with JNumber l => ParseInt_literal l | JNull => Some old | _ => None end.

(** A [json.RawMessage]: [None] is the nil slice, [Some v] the text of [v]. *)
Notation RawMessage := (option json).
Definition dec_raw : Decoder RawMessage := λ v _, Some (Some v).

(** A pointer: [null] makes it nil, another value is decoded into what it points
    to, a new zero value when it is nil. *)
Definition dec_pointer {A} (zero : A) (d : Decoder A) : Decoder (option A) := λ v old,
  match v with JNull => Some None | _ => Some <$> d v (default zero old) end.

(** A slice with its backing array: elements past the length keep what was
    decoded into them before and show again when the slice grows. *)
Record slice (A : Type) := { sl_backing : list A; sl_len : nat }.
Arguments sl_backing {A} s.
Arguments sl_len {A} s.

Definition slice_nil {A} : slice A := {| sl_backing := []; sl_len := 0 |}.
Definition slice_list {A} (s : slice A) : list A := take (sl_len s) (sl_backing s).

(** Decode the elements over those of the backing array. *)
Fixpoint dec_elems {A} (zero : A) (d : Decoder A) (l : list json) (backing : list A) :
    option (list A) :=
  match l with
  | [] => Some backing
  | v :: l' =>
      x ← d v (default zero (head backing));
      xs ← dec_elems zero d l' (tail backing);
      Some (x :: xs)
  end.

Definition dec_slice {A} (zero : A) (d : Decoder A) : Decoder (slice A) := λ v old,
  match v with
  | JNull | JArray [] => Some slice_nil
  | JArray l =>
      b ← dec_elems zero d l (sl_backing old);
      Some {| sl_backing := b; sl_len := length l |}
  | _ => None
  end.

(** [[2]T]: missing elements are zeroed, further ones skipped. *)
Definition dec_pair {A} (zero : A) (d : Decoder A) : Decoder (A * A) := λ v old,
  match v with
  | JNull => Some old
  | JArray [] => Some (zero, zero)
  | JArray [x] => a ← d x old.1; Some (a, zero)
  | JArray (x :: y :: _) => a ← d x old.1; b ← d y old.2; Some (a, b)
  | _ => None
  end.

(** [foldName]: upper case; the only other characters that fold to ASCII are
    U+017F (long s) and U+212A (Kelvin sign). *)
Fixpoint foldName (s : string) : string :=
  match s with
  | EmptyString => EmptyString
  | String c s1 =>
      let upper := if in_range 97 122 c then chr (code c - 32) else c in
      match s1 with
      | String c1 s2 =>
          if (code c =? 197) && (code c1 =? 191) then String (chr 83) (foldName s2)
          else
          match s2 with
          | String c2 s3 =>
              if (code c =? 226) && (code c1 =? 132) && (code c2 =? 170)
              then String (chr 75) (foldName s3)
              else String upper (foldName s1)
          | EmptyString => String upper (foldName s1)
          end
      | EmptyString => String upper (foldName s1)
      end
  end.

(** The field a key stands for: by its exact name, then by folded name. *)
Definition find_field {A} (fields : list (string * Decoder A)) (k : string) : option (Decoder A) :=
  match list_find (λ f, f.1 = k) fields with
  | Some (_, f) => Some f.2
  | None => (λ x, x.2.2) <$> list_find (λ f, foldName f.1 = foldName k) fields
  end.

(** The members of an object in order; unknown keys are skipped. *)
Fixpoint dec_members {A} (fields : list (string * Decoder A)) (l : list (string * json)) (a : A) :
    option A :=
  match l with
  | [] => Some a
  | (k, v) :: l' =>
      match find_field fields k with
      | Some d => a' ← d v a; dec_members fields l' a'
      | None => dec_members fields l' a
      end
  end.

Definition dec_struct {A} (fields : list (string * Decoder A)) : Decoder A := λ v old,
  match v with
  | JObject l => dec_members fields l old
  | JNull => Some old
  | _ => None
  end.

(** A decoder of a field, as a decoder of the struct. *)
Definition dec_field {A B} (get : A → B) (set : B → A → A) (d : Decoder B) : Decoder A := λ v a,
  b ← d v (get a); Some (set b a).

(** ** [json.Unmarshal] and [Decoder.Decode]

    The texts of decoding errors are left open: no code looks at them. *)

Class JSONErrors := {
  json_SyntaxError : string → error;
  json_UnmarshalTypeError : json → error;
  (** of a stream that is malformed, ends or fails before a complete value *)
  json_DecodeError : string → option error → error;
}.

Section unmarshal.
Context `{JSONErrors} {A : Type} (d : Decoder A).

Definition unmarshal_value (v : json) (a : A) : error + A :=
  match d v a with Some a' => inr a' | None => inl (json_UnmarshalTypeError v) end.

Definition Unmarshal (body : string) (a : A) : error + A :=
  match parse_json body with
  | Parsed v => unmarshal_value v a
  | _ => inl (json_SyntaxError body)
  end.

(** [json.Unmarshal] of a raw message; the nil one is the empty text. *)
Definition Unmarshal_raw (raw : RawMessage) (a : A) : error + A :=
  match raw with
  | Some v => unmarshal_value v a
  | None => inl (json_SyntaxError "")
  end.

(** [json.NewDecoder(r).Decode] on a reader that yields [body] and then ends, or
    fails with [readErr].  Only the bracket that closes an object or an array
    ends a value by itself. *)
Definition Decode (body : string) (readErr : option error) (a : A) : error + A :=
  match decode_json body, readErr with
  | Parsed v, None => unmarshal_value v a
  | Parsed (JArray _ as v), _ | Parsed (JObject _ as v), _ => unmarshal_value v a
  | _, _ => inl (json_DecodeError body readErr)
  end.
End unmarshal.
