(* ===== verification/JsonProps.v ===== *)
(** Properties of the JSON parser and printer of [Json.v]: the parser ends on
    every text, what [json.Marshal] writes is read back, and the text a
    [json.RawMessage] keeps decodes to the value it was cut out for. *)
From S2P Require Import Prelude GoFloat Json.

(** ** Termination: the fuel of [parse_json] is always enough *)

Lemma length_skip_ws s : (String.length (skip_ws s) ≤ String.length s)%nat.
Proof. induction s as [|c s IH]; simpl; [done|]. case_match; simpl; lia. Qed.

Lemma first_is_length n s : first_is n s = true → String.length s = S (String.length (rest_of s)).
Proof. by destruct s. Qed.

Definition consumes {A} (m : outcome (A * string)) (s : string) : Prop :=
  match m with
  | Parsed (_, r) => (String.length r < String.length s)%nat
  | Malformed => True
  | OutOfFuel => False
  end.

Lemma scan_string_length s b r :
  scan_string s = Some (b, r) → (String.length r < String.length s)%nat.
Proof.
  revert b r. induction s as [s IH] using string_length_ind. intros b r.
  destruct s as [|c s1]; [done|]. cbn [scan_string].
  assert (Hrec : ∀ t b r, (String.length t < S (String.length s1))%nat → scan_string t = Some (b, r) →
    (String.length r < S (String.length s1))%nat).
  { intros t b' r' Ht E. pose proof (IH t Ht b' r' E). lia. }
  repeat case_match; intros; simplify_eq/=; try lia; (eapply Hrec; [|eassumption]; simpl; lia).
Qed.
Lemma span_digits_length s d r :
  span_digits s = (d, r) → (String.length r + String.length d = String.length s)%nat.
Proof.
  revert d r. induction s as [|c s IH]; intros d r; simpl; [by intros [= <- <-]|].
  case_match; [|by intros [= <- <-]]. destruct (span_digits s) as [d' r'].
  intros [= <- <-]. specialize (IH _ _ eq_refl). simpl. lia.
Qed.

Lemma some_digits_length s d r :
  some_digits s = Some (d, r) → (String.length r < String.length s)%nat.
Proof.
  unfold some_digits. destruct (span_digits s) as [[|c d'] r'] eqn:E; [done|].
  intros [= <- <-]. apply span_digits_length in E. simpl in E. lia.
Qed.

(** Run the option-valued lexers in a hypothesis forward. *)
Ltac lex :=
  repeat match goal with
  | H : mbind _ _ = Some _ |- _ =>
      apply bind_Some in H as ([? ?] & ? & H)
  | H : context [match ?x with _ => _ end] |- _ =>
      lazymatch type of H with _ = Some _ => destruct x eqn:? end
  | H : Some _ = Some _ |- _ => injection H as; subst
  | H : some_digits _ = Some _ |- _ => apply some_digits_length in H
  end; try done.

Lemma lex_number_length s l r :
  lex_number s = Some (l, r) → (String.length r < String.length s)%nat.
Proof.
  unfold lex_number.
  destruct (lex_minus s) as [sign s1] eqn:Es.
  assert (Hs : (String.length s1 ≤ String.length s)%nat).
  { unfold lex_minus in Es. destruct s as [|c s']; [by injection Es as <- <-|].
    case_match; injection Es as <- <-; simpl; lia. }
  intros ([i s2] & Hi & ([f s3] & Hf & ([e s4] & He & Hr)%bind_Some)%bind_Some)%bind_Some.
  injection Hr as <- <-.
  assert (Hi' : (String.length s2 < String.length s1)%nat) by (unfold lex_int in Hi; lex; simpl in *; lia).
  assert (Hf' : (String.length s3 ≤ String.length s2)%nat) by (unfold lex_frac in Hf; lex; simpl in *; lia).
  assert (He' : (String.length s4 ≤ String.length s3)%nat) by (unfold lex_exp in He; lex; simpl in *; lia).
  lia.
Qed.

Lemma strip_prefix_length p s r :
  strip_prefix p s = Some r → (String.length r + String.length p = String.length s)%nat.
Proof.
  revert s. induction p as [|a p IH]; intros [|b s]; simpl; try done; [by intros [= <-]|by intros [= <-]|].
  case_match; [|done]. intros Hr%IH. lia.
Qed.

Lemma consumes_of_option {A B} (m : option A) (f : A → outcome (B * string)) s :
  (∀ a, m = Some a → consumes (f a) s) → consumes (outcome_bind (of_option m) f) s.
Proof. destruct m; simpl; auto. Qed.

Lemma consumes_bind {A B} (m : outcome (A * string)) (f : A * string → outcome (B * string)) s t :
  consumes m s → (∀ a r, (String.length r < String.length s)%nat → consumes (f (a, r)) t) →
  consumes (outcome_bind m f) t.
Proof. destruct m as [[a r]| |]; simpl; auto. Qed.

(** A call with twice its input as fuel succeeds or fails, and consumes input. *)
Lemma parse_consumes fuel :
  (∀ depth s, (2 * String.length s < fuel)%nat → consumes (parse_value fuel depth s) s) ∧
  (∀ depth s, (2 * String.length s + 1 < fuel)%nat → consumes (parse_elems fuel depth s) s) ∧
  (∀ depth s, (2 * String.length s < fuel)%nat → consumes (parse_members fuel depth s) s).
Proof.
  induction fuel as [|fuel (IHv & IHe & IHm)]; [split_and!; intros; lia|].
  split_and!; intros depth s Hf.
  - cbn [parse_value]. repeat case_match.
    (* brackets *)
    all: repeat match goal with H : first_is _ _ = true |- _ => apply first_is_length in H end.
    all: pose proof (length_skip_ws (rest_of s)).
    all: try done.
    all: try (simpl; lia).
    1-2: eapply consumes_bind; [first [apply IHm|apply IHe]; lia|]; simpl; lia.
    all: apply consumes_of_option.
    1: intros [b r] E%scan_string_length; simpl; lia.
    1-3: intros r E%strip_prefix_length; simpl in *; lia.
    intros [l r] E%lex_number_length. simpl. lia.
  - simpl. eapply consumes_bind; [apply IHv; lia|]. intros v r Hr. cbv beta zeta iota.
    pose proof (length_skip_ws r).
    destruct (first_is 44 (skip_ws r)) eqn:E1; [apply first_is_length in E1|].
    + pose proof (length_skip_ws (rest_of (skip_ws r))).
      eapply consumes_bind; [apply IHe; lia|]. simpl. lia.
    + destruct (first_is 93 (skip_ws r)) eqn:E2; [apply first_is_length in E2|done]. simpl. lia.
  - simpl. destruct (first_is 34 s) eqn:E0; [apply first_is_length in E0|done]. simpl.
    apply consumes_of_option. intros [k r] Hk%scan_string_length. cbv zeta.
    pose proof (length_skip_ws r).
    destruct (first_is 58 (skip_ws r)) eqn:E1; [apply first_is_length in E1|done]. simpl.
    pose proof (length_skip_ws (rest_of (skip_ws r))).
    eapply consumes_bind; [apply IHv; lia|]. intros v r1 Hr1. cbv beta zeta iota.
    pose proof (length_skip_ws r1).
    destruct (first_is 44 (skip_ws r1)) eqn:E2; [apply first_is_length in E2|].
    + pose proof (length_skip_ws (rest_of (skip_ws r1))).
      eapply consumes_bind; [apply IHm; lia|]. simpl. lia.
    + destruct (first_is 125 (skip_ws r1)) eqn:E3; [apply first_is_length in E3|done]. simpl. lia.
Qed.
Definition refines {A} (m m' : outcome A) : Prop := m = OutOfFuel ∨ m' = m.

Lemma refines_refl {A} (m : outcome A) : refines m m.
Proof. by right. Qed.

Lemma refines_bind {A B} (m m' : outcome A) (f f' : A → outcome B) :
  refines m m' → (∀ a, refines (f a) (f' a)) → refines (outcome_bind m f) (outcome_bind m' f').
Proof.
  intros [->| ->] Hf; [by left|]. destruct m; simpl; [apply Hf|by right|by left].
Qed.

#[local] Hint Resolve refines_refl : core.

(** More fuel does not change an answer. *)
Lemma parse_more_fuel fuel :
  (∀ depth s, refines (parse_value fuel depth s) (parse_value (S fuel) depth s)) ∧
  (∀ depth s, refines (parse_elems fuel depth s) (parse_elems (S fuel) depth s)) ∧
  (∀ depth s, refines (parse_members fuel depth s) (parse_members (S fuel) depth s)).
Proof.
  induction fuel as [|fuel (IHv & IHe & IHm)]; [by repeat split; left|].
  split_and!; intros depth s.
  - remember (S fuel) as m eqn:Em. rewrite Em at 1. cbn [parse_value]. subst m.
    repeat case_match; auto; apply refines_bind; auto; intros [??]; auto.
  - remember (S fuel) as m eqn:Em. rewrite Em at 1. cbn [parse_elems]. subst m.
    apply refines_bind; [auto|]. intros [v r]. cbv zeta.
    repeat case_match; auto; apply refines_bind; auto; intros [??]; auto.
  - remember (S fuel) as m eqn:Em. rewrite Em at 1. cbn [parse_members]. subst m.
    repeat case_match; auto; apply refines_bind; auto; intros [k r]; cbv zeta.
    repeat case_match; auto; apply refines_bind; auto; intros [v r1]; cbv zeta.
    repeat case_match; auto; apply refines_bind; auto; intros [??]; auto.
Qed.

Lemma parse_value_fuel_le n m depth s :
  (n ≤ m)%nat → refines (parse_value n depth s) (parse_value m depth s).
Proof.
  induction 1 as [|m _ IH]; [auto|].
  destruct IH as [IH|IH]; [by left|]. rewrite <- IH. apply parse_more_fuel.
Qed.

Lemma parse_value_total n depth s :
  (2 * String.length s < n)%nat →
  parse_value n depth s ≠ OutOfFuel ∧
  ∀ m, (2 * String.length s < m)%nat → parse_value m depth s = parse_value n depth s.
Proof.
  assert (Hok : ∀ k, (2 * String.length s < k)%nat → parse_value k depth s ≠ OutOfFuel).
  { intros k Hk E. pose proof (proj1 (parse_consumes k) depth s Hk) as Hc. by rewrite E in Hc. }
  intros Hn. split; [by apply Hok|]. intros m Hm.
  destruct (decide (n ≤ m)%nat).
  - destruct (parse_value_fuel_le n m depth s ltac:(lia)) as [E|E]; [by apply Hok in E|done].
  - destruct (parse_value_fuel_le m n depth s ltac:(lia)) as [E|E]; [by apply Hok in E|done].
Qed.

(** Any fuel that gives an answer gives the answer of [n]. *)
Lemma parse_value_any m n depth s v r :
  (2 * String.length s < n)%nat → parse_value m depth s = Parsed (v, r) →
  parse_value n depth s = Parsed (v, r).
Proof.
  intros Hn E. rewrite <- E. symmetry.
  destruct (parse_value_fuel_le m (Nat.max m n) depth s ltac:(lia)) as [E'|E']; [congruence|].
  rewrite <- E'. apply parse_value_total; lia.
Qed.

(** ** Round trip of strings *)

Lemma json_escape_scan c t :
  code c < 128 → scan_string (json_escape c +:+ t) =
    '(body, rest) ← scan_string t; Some (json_escape c +:+ body, rest).
Proof.
  intros Hc. destruct c as [[] [] [] [] [] [] [] []];
    try reflexivity; try (vm_compute in Hc; discriminate); cbn; by destruct (scan_string t) as [[]|].
Qed.

Lemma json_escape_unquote c t : code c < 128 → unquote (json_escape c +:+ t) = String c (unquote t).
Proof.
  intros Hc. destruct c as [[] [] [] [] [] [] [] []];
    try (vm_compute in Hc; discriminate); reflexivity.
Qed.

Lemma scan_high c t : 128 ≤ code c → scan_string (String c t) =
  '(body, rest) ← scan_string t; Some (String c body, rest).
Proof.
  intros Hc. cbn [scan_string].
  replace (code c =? 34) with false by lia. replace (code c <? 32) with false by lia.
  replace (code c =? 92) with false by lia. by destruct (scan_string t) as [[]|].
Qed.

Lemma is_cont_high c : is_cont c = true → 128 ≤ code c.
Proof. unfold is_cont, in_range. intros. zbool. done. Qed.

(** The bytes of a sequence of two, three or four: high ones, and the width
    does not depend on what follows them. *)
Lemma rune_width_inv c s1 :
  128 ≤ code c →
  match rune_width c s1 with
  | 2%nat => ∃ c1 s2, s1 = String c1 s2 ∧ 128 ≤ code c1 ∧ ∀ t, rune_width c (String c1 t) = 2%nat
  | 3%nat => ∃ c1 c2 s3, s1 = String c1 (String c2 s3) ∧ 128 ≤ code c1 ∧ 128 ≤ code c2 ∧
      ∀ t, rune_width c (String c1 (String c2 t)) = 3%nat
  | 4%nat => ∃ c1 c2 c3 s4, s1 = String c1 (String c2 (String c3 s4)) ∧
      128 ≤ code c1 ∧ 128 ≤ code c2 ∧ 128 ≤ code c3 ∧
      ∀ t, rune_width c (String c1 (String c2 (String c3 t))) = 4%nat
  | n => n = 1%nat
  end.
Proof.
  intros Hc. destruct s1 as [|c1 s2]; [done|]. cbn [rune_width].
  destruct (in_range 194 223 c) eqn:E2.
  { destruct (is_cont c1) eqn:E1; [|done]. exists c1, s2. split_and!; [done|by apply is_cont_high|].
    intros t. cbn [rune_width]. by rewrite ?E2, ?E1. }
  set (lo := if code c =? 224 then _ else _). set (hi := if code c =? 237 then _ else _).
  destruct (in_range lo hi c1) eqn:E1; [|done].
  assert (H1 : 128 ≤ code c1).
  { subst lo hi. unfold in_range in E1. zbool. repeat case_match; lia. }
  destruct s2 as [|c2 s3]; [done|]. simpl.
  destruct (is_cont c2) eqn:E3; [|done]. simpl.
  destruct (in_range 224 239 c) eqn:E4.
  { exists c1, c2, s3. split_and!; [done|done|by apply is_cont_high|].
    intros t. cbn [rune_width]. try (rewrite E2; fold lo hi). by rewrite ?E1, ?E3, ?E4. }
  destruct s3 as [|c3 s4]; [done|].
  destruct (in_range 240 244 c) eqn:E5, (is_cont c3) eqn:E6; try done.
  exists c1, c2, c3, s4.
  split_and!; [done|done|by apply is_cont_high|by apply is_cont_high|].
  intros t. cbn [rune_width]. try (rewrite E2; fold lo hi). by rewrite ?E1, ?E3, ?E4, ?E5, ?E6.
Qed.

Lemma line_sep_inv c c1 c2 : is_line_sep c c1 c2 = true →
  c = chr 226 ∧ c1 = chr 128 ∧ (c2 = chr 168 ∨ c2 = chr 169).
Proof.
  unfold is_line_sep. intros E. zbool.
  assert (Hchr : ∀ c n, code c = n → c = chr n).
  { intros x n <-. unfold chr, code. by rewrite Nat2Z.id, Ascii.ascii_nat_embedding. }
  apply orb_true_iff in H0 as [?|?]; zbool; auto.
Qed.

Ltac width c s1 :=
  let Hw := fresh "Hw" in
  pose proof (rune_width_inv c s1 ltac:(assumption)) as Hw;
  destruct (rune_width c s1) as [|[|[|[|[|]]]]] eqn:?; try done;
  [|destruct Hw as (?c1 & ?s2 & -> & ? & Hw)
   |destruct Hw as (?c1 & ?c2 & ?s3 & -> & ? & ? & Hw)
   |destruct Hw as (?c1 & ?c2 & ?c3 & ?s4 & -> & ? & ? & ? & Hw)].

(** The escapes of characters above 127. *)
Lemma scan_u e t : e ∈ ["ufffd"; "u2028"; "u2029"] →
  scan_string (bslash e +:+ t) = '(body, rest) ← scan_string t; Some (bslash e +:+ body, rest).
Proof.
  rewrite !elem_of_cons, elem_of_nil. intros He.
  assert (Heq : scan_string (bslash e +:+ t) =
    match scan_string t with Some (body, rest) => Some (bslash e +:+ body, rest) | None => None end)
    by (by destruct He as [->|[->|[->|[]]]]).
  rewrite Heq. by destruct (scan_string t) as [[]|].
Qed.

(** A quoted string ends at its closing quote. *)
Lemma scan_escape s rest : scan_string (escape s +:+ dq +:+ rest) = Some (escape s, rest).
Proof.
  induction s as [s IH] using string_length_ind.
  destruct s as [|c s1]; [done|]. cbn [escape].
  destruct (code c <? 128) eqn:Ec; zbool.
  { rewrite app_assoc_string, json_escape_scan, IH by (simpl; lia). done. }
  width c s1.
  - rewrite app_assoc_string, scan_u, IH by (simpl; first [lia|set_solver]). done.
  - rewrite !app_cons_string, !scan_high, IH by (simpl; lia). done.
  - destruct (is_line_sep c c1 c2) eqn:El.
    + apply line_sep_inv in El as (-> & -> & [-> | ->]).
      * change (bslash "u202" +:+ String _ (escape s3)) with (bslash "u2028" +:+ escape s3).
        rewrite app_assoc_string, scan_u, IH by (simpl; first [lia|set_solver]). done.
      * change (bslash "u202" +:+ String _ (escape s3)) with (bslash "u2029" +:+ escape s3).
        rewrite app_assoc_string, scan_u, IH by (simpl; first [lia|set_solver]). done.
    + rewrite !app_cons_string, !scan_high, IH by (simpl; lia). done.
  - rewrite !app_cons_string, !scan_high, IH by (simpl; lia). done.
Qed.

Lemma unquote_high c t : 128 ≤ code c → unquote (String c t) =
  match rune_width c t, t with
  | 2%nat, String c1 s2 => String c (String c1 (unquote s2))
  | 3%nat, String c1 (String c2 s3) => String c (String c1 (String c2 (unquote s3)))
  | 4%nat, String c1 (String c2 (String c3 s4)) =>
      String c (String c1 (String c2 (String c3 (unquote s4))))
  | _, _ => replacement +:+ unquote t
  end.
Proof.
  intros Hc. cbn [unquote]. replace (code c =? 92) with false by lia.
  by replace (code c <? 128) with false by lia.
Qed.

(** Writing a string and reading it back gives the string, an invalid byte
    replaced by U+FFFD. *)
Lemma unquote_escape s : unquote (escape s) = ToValid s.
Proof.
  induction s as [s IH] using string_length_ind.
  destruct s as [|c s1]; [done|]. cbn [escape ToValid].
  destruct (code c <? 128) eqn:Ec; zbool.
  { rewrite json_escape_unquote, IH by (simpl; lia). done. }
  width c s1.
  - change (unquote (bslash "ufffd" +:+ escape s1)) with (replacement +:+ unquote (escape s1)).
    rewrite IH by (simpl; lia). done.
  - rewrite unquote_high, Hw, IH by (simpl; lia). done.
  - destruct (is_line_sep c c1 c2) eqn:El.
    + apply line_sep_inv in El as (-> & -> & [-> | ->]).
      * change (unquote (bslash "u202" +:+ String _ (escape s3)))
          with (EncodeRune 8232 +:+ unquote (escape s3)).
        rewrite IH by (simpl; lia). done.
      * change (unquote (bslash "u202" +:+ String _ (escape s3)))
          with (EncodeRune 8233 +:+ unquote (escape s3)).
        rewrite IH by (simpl; lia). done.
    + rewrite unquote_high, Hw, IH by (simpl; lia). done.
  - rewrite unquote_high, Hw, IH by (simpl; lia). done.
Qed.
(** ** Round trip of values *)

(** A text that cannot continue a number. *)
Definition delimited (s : string) : bool :=
  match s with
  | EmptyString => true
  | String c _ => negb (is_digit c || (code c =? 46) || (lower c =? 101))
  end.

Section delimited.
Context (rest : string) (Hd : delimited rest = true).

Lemma span_digits_app s d r : span_digits s = (d, r) → span_digits (s +:+ rest) = (d, r +:+ rest).
Proof using Hd.
  revert d r. induction s as [|c s IH]; intros d r.
  - intros [= <- <-]. change ("" +:+ rest) with rest. destruct rest as [|c t]; [done|]. simpl in *.
    zbool. by rewrite H.
  - rewrite app_cons_string. simpl. case_match; [|by intros [= <- <-]].
    destruct (span_digits s) as [d' r']. intros [= <- <-]. by rewrite (IH _ _ eq_refl).
Qed.

Lemma some_digits_app s d r :
  some_digits s = Some (d, r) → some_digits (s +:+ rest) = Some (d, r +:+ rest).
Proof using Hd.
  unfold some_digits. destruct (span_digits s) as [d' r'] eqn:E. rewrite (span_digits_app _ _ _ E).
  by destruct d'; [|intros [= <- <-]].
Qed.

Lemma lex_int_app s d r : lex_int s = Some (d, r) → lex_int (s +:+ rest) = Some (d, r +:+ rest).
Proof using Hd.
  destruct s as [|c s]; [done|]. unfold lex_int. rewrite app_cons_string.
  case_match; [by intros [= <- <-]|]. rewrite <- app_cons_string. apply some_digits_app.
Qed.

Lemma lex_frac_app s d r : lex_frac s = Some (d, r) → lex_frac (s +:+ rest) = Some (d, r +:+ rest).
Proof using Hd.
  destruct s as [|c s].
  - intros [= <- <-]. change ("" +:+ rest) with rest. destruct rest as [|c t]; [done|]. simpl in *.
    zbool. by replace (code c =? 46) with false by lia.
  - unfold lex_frac. rewrite app_cons_string. case_match; [|by intros [= <- <-]].
    intros ([d' r'] & E & [= <- <-])%bind_Some. by rewrite (some_digits_app _ _ _ E).
Qed.

Lemma lex_exp_app s d r : lex_exp s = Some (d, r) → lex_exp (s +:+ rest) = Some (d, r +:+ rest).
Proof using Hd.
  destruct s as [|c s].
  - intros [= <- <-]. change ("" +:+ rest) with rest. destruct rest as [|c t]; [done|]. simpl in *.
    zbool. by replace (lower c =? 101) with false by lia.
  - unfold lex_exp. rewrite app_cons_string. case_match; [|by intros [= <- <-]].
    destruct s as [|g s]; [done|]. rewrite app_cons_string. case_match;
      intros ([d' r'] & E & [= <- <-])%bind_Some; rewrite <- ?app_cons_string;
      by rewrite (some_digits_app _ _ _ E).
Qed.

Lemma lex_number_app s d r : lex_number s = Some (d, r) → lex_number (s +:+ rest) = Some (d, r +:+ rest).
Proof using Hd.
  unfold lex_number. assert (Hm : s ≠ "" → lex_minus (s +:+ rest) = ((lex_minus s).1, (lex_minus s).2 +:+ rest)).
  { destruct s as [|c s']; [done|]. intros _. rewrite app_cons_string. simpl. by case_match. }
  destruct s as [|c s']; [done|]. rewrite Hm by done.
  destruct (lex_minus (String c s')) as [sign s1]. simpl.
  intros ([i s2] & Hi & ([f s3] & Hf & ([e s4] & He & [= <- <-])%bind_Some)%bind_Some)%bind_Some.
  rewrite (lex_int_app _ _ _ Hi); simpl. rewrite (lex_frac_app _ _ _ Hf); simpl.
  by rewrite (lex_exp_app _ _ _ He).
Qed.
End delimited.

(** The first character of a number is a minus sign or a digit. *)
Lemma lex_number_first s d r :
  lex_number s = Some (d, r) → ∃ c t, s = String c t ∧ (code c = 45 ∨ is_digit c = true).
Proof.
  unfold lex_number. destruct s as [|c t]; [done|]. intros E. exists c, t. split; [done|].
  unfold lex_minus in E. destruct (code c =? 45) eqn:Ec; zbool; [by left|]. right.
  apply bind_Some in E as ([i s2] & Hi & _). unfold lex_int in Hi.
  destruct (code c =? 48) eqn:E0; zbool; [by unfold is_digit; rewrite E0|].
  unfold some_digits in Hi. simpl in Hi. by destruct (is_digit c).
Qed.

(** The first character of a printed value: never white space, and the one the
    parser expects. *)
Definition starts (v : json) (c : Ascii.ascii) : Prop :=
  match v with
  | JNull => code c = 110
  | JBool b => code c = if b then 116 else 102
  | JNumber _ => code c = 45 ∨ is_digit c = true
  | JString _ => code c = 34
  | JArray _ => code c = 91
  | JObject _ => code c = 123
  end.

Lemma print_json_first v : json_wf v = true → ∃ c t, print_json v = String c t ∧ starts v c.
Proof.
  destruct v as [|[]|l|s|l|l]; simpl; intros Hwf; try (eexists _, _; by split).
  zbool. by apply lex_number_first in Hwf.
Qed.

Lemma digit_or_minus c : code c = 45 ∨ is_digit c = true → 45 ≤ code c ≤ 57.
Proof. unfold is_digit. intros [?|?]; zbool; lia. Qed.

Lemma skip_ws_print v rest : json_wf v = true → skip_ws (print_json v +:+ rest) = print_json v +:+ rest.
Proof.
  intros (c & t & -> & Hc)%print_json_first. rewrite app_cons_string. simpl.
  replace (is_ws c) with false; [done|]. symmetry. unfold is_ws.
  destruct v as [|[]| | | |]; simpl in Hc; try apply digit_or_minus in Hc;
    rewrite !orb_false_iff, !Z.eqb_neq; lia.
Qed.

(** [v] followed by [rest] is parsed back by every large enough fuel. *)
Definition parses_back (v : json) : Prop := ∀ depth rest,
  json_wf v = true → depth + height v ≤ maxNestingDepth → delimited rest = true →
  ∃ n, ∀ m, (n ≤ m)%nat → parse_value m depth (print_json v +:+ rest) = Parsed (v, rest).

Lemma parse_number_back l : parses_back (JNumber l).
Proof.
  intros depth rest Hwf _ Hd. simpl in Hwf. zbool. exists 1%nat. intros [|m] Hm; [lia|].
  pose proof Hwf as Hf. apply lex_number_first in Hf as (c & t & -> & Hc%digit_or_minus).
  apply (lex_number_app rest Hd) in Hwf. cbn [print_json parse_value].
  rewrite app_cons_string in *. cbn [first_is].
  repeat match goal with |- context [code c =? ?k] => replace (code c =? k) with false by lia end.
  cbv iota. rewrite Hwf. done.
Qed.

Lemma parse_string_back s : parses_back (JString s).
Proof.
  intros depth rest Hwf _ _. simpl in Hwf. exists 1%nat. intros [|m] Hm; [lia|].
  cbn [print_json]. unfold quote_json. rewrite !app_assoc_string. cbn [parse_value].
  change (dq +:+ escape s +:+ dq +:+ rest) with (String (chr 34) (escape s +:+ dq +:+ rest)).
  cbn [first_is rest_of]. change (code (chr 34)) with 34. simpl.
  rewrite scan_escape. simpl. rewrite unquote_escape. apply str_eqb_true in Hwf. by rewrite Hwf.
Qed.
Lemma foldr_max_nonneg l : 0 ≤ foldr Z.max 0 l.
Proof. induction l; simpl; lia. Qed.

Lemma concat_cons x y l : String.concat "," (x :: y :: l) = x +:+ "," +:+ String.concat "," (y :: l).
Proof. done. Qed.

Lemma skip_ws_elems v l t : json_wf v = true →
  skip_ws (String.concat "," (map print_json (v :: l)) +:+ t) =
  String.concat "," (map print_json (v :: l)) +:+ t.
Proof.
  intros Hv. destruct l as [|w l]; cbn [map]; [by apply skip_ws_print|].
  rewrite concat_cons, app_assoc_string. by apply skip_ws_print.
Qed.

Lemma parse_elems_back depth rest v l :
  Forall parses_back (v :: l) → forallb json_wf (v :: l) = true →
  depth + foldr Z.max 0 (map height (v :: l)) ≤ maxNestingDepth →
  ∃ n, ∀ m, (n ≤ m)%nat →
    parse_elems m depth (String.concat "," (map print_json (v :: l)) +:+ "]" +:+ rest) =
    Parsed (v :: l, rest).
Proof.
  revert v. induction l as [|w l IH]; intros v HP Hwf Hh; apply Forall_cons_1 in HP as [Hv HP];
    cbn [forallb] in Hwf; apply andb_true_iff in Hwf as [Hwv Hwf]; simpl in Hh.
  - destruct (Hv depth ("]" +:+ rest)) as [n Hn]; [done|lia|done|].
    exists (S n). intros [|m] Hm; [lia|]. cbn [map String.concat parse_elems].
    rewrite Hn by lia. done.
  - destruct (IH w) as [n1 Hn1]; [done|done|simpl; lia|].
    set (tail := String.concat "," (map print_json (w :: l)) +:+ "]" +:+ rest) in *.
    destruct (Hv depth ("," +:+ tail)) as [n2 Hn2]; [done|lia|done|].
    exists (S (n1 + n2)). intros [|m] Hm; [lia|]. cbn [map]. rewrite concat_cons.
    rewrite !app_assoc_string. change (String.concat "," (print_json w :: map print_json l)) with
      (String.concat "," (map print_json (w :: l))). fold tail.
    cbn [parse_elems]. rewrite Hn2 by lia. cbn [outcome_bind].
    change (skip_ws ("," +:+ tail)) with (String (chr 44) tail). cbn [first_is rest_of].
    change (code (chr 44) =? 44) with true. cbv iota.
    unfold tail. rewrite skip_ws_elems by (by apply andb_true_iff in Hwf as [??]). fold tail.
    by rewrite Hn1 by lia.
Qed.

Lemma parse_array_back l : Forall parses_back l → parses_back (JArray l).
Proof.
  intros HP depth rest Hwf Hh _. cbn [json_wf height] in *.
  destruct l as [|v l].
  - exists 1%nat. intros [|m] Hm; [lia|]. simpl in Hh. cbn -[Z.leb].
    by replace (maxNestingDepth <=? depth) with false by (unfold maxNestingDepth in *; lia).
  - destruct (parse_elems_back (depth + 1) rest v l HP Hwf) as [n Hn]; [lia|].
    assert (0 ≤ foldr Z.max 0 (map height (v :: l))) by apply foldr_max_nonneg.
    exists (S n). intros [|m] Hm; [lia|]. cbn [print_json]. rewrite !app_assoc_string.
    set (text := String.concat "," (map print_json (v :: l)) +:+ "]" +:+ rest) in *.
    change ("[" +:+ text) with (String (chr 91) text). cbn [parse_value first_is rest_of].
    change (code (chr 91) =? 123) with false. change (code (chr 91) =? 91) with true. cbv iota zeta.
    replace (maxNestingDepth <=? depth) with false by lia.
    assert (E : skip_ws text = text) by (apply skip_ws_elems; by apply andb_true_iff in Hwf as [??]).
    rewrite E, (Hn m) by lia.
    simpl in Hwf. apply andb_true_iff in Hwf as [(c & t & Hc & Hs)%print_json_first _].
    assert (F : first_is 93 text = false).
    { unfold text. destruct l; cbn [map]; rewrite ?concat_cons, ?app_assoc_string; cbn [String.concat];
        rewrite Hc, app_cons_string; simpl; apply Z.eqb_neq;
        destruct v as [|[]| | | |]; simpl in Hs; try apply digit_or_minus in Hs; lia. }
    by rewrite F.
Qed.

(** A member of an object in print. *)
Definition print_member (kv : string * json) : string := quote_json kv.1 +:+ ":" +:+ print_json kv.2.

Lemma print_member_first kv l t : ∃ u,
  String.concat "," (map print_member (kv :: l)) +:+ t = String (chr 34) u.
Proof. destruct l; cbn [map]; rewrite ?concat_cons; eexists; reflexivity. Qed.

(** The steps of [parse_members] on a printed member. *)
Lemma parse_member m depth k v n rest :
  valid_utf8 k = true → json_wf v = true → (n ≤ m)%nat →
  (∀ m, (n ≤ m)%nat → parse_value m depth (print_json v +:+ rest) = Parsed (v, rest)) →
  parse_members (S m) depth (print_member (k, v) +:+ rest) =
    let s2 := skip_ws rest in
    if first_is 44 s2 then
      outcome_bind (parse_members m depth (skip_ws (rest_of s2)))
        (λ '(l, r'), Parsed ((k, v) :: l, r'))
    else if first_is 125 s2 then Parsed ([(k, v)], rest_of s2)
    else Malformed.
Proof.
  intros Hk Hv Hm Hn. unfold print_member, quote_json. cbn [fst snd]. rewrite !app_assoc_string.
  set (text := dq +:+ ":" +:+ print_json v +:+ rest).
  change (dq +:+ escape k +:+ text) with (String (chr 34) (escape k +:+ text)).
  cbn [parse_members first_is rest_of]. change (code (chr 34) =? 34) with true. cbn [negb].
  unfold text. rewrite scan_escape. cbn [of_option outcome_bind]. cbv zeta.
  set (body := print_json v +:+ rest).
  change (skip_ws (":" +:+ body)) with (String (chr 58) body). cbn [first_is rest_of].
  change (code (chr 58) =? 58) with true. cbn [negb]. unfold body.
  rewrite skip_ws_print, Hn, unquote_escape by done. apply str_eqb_true in Hk. by rewrite Hk.
Qed.

Lemma parse_members_back depth rest kv l :
  Forall (λ kv, parses_back kv.2) (kv :: l) →
  forallb (λ kv, valid_utf8 kv.1 && json_wf kv.2) (kv :: l) = true →
  depth + foldr Z.max 0 (map (λ kv, height kv.2) (kv :: l)) ≤ maxNestingDepth →
  ∃ n, ∀ m, (n ≤ m)%nat →
    parse_members m depth (String.concat "," (map print_member (kv :: l)) +:+ "}" +:+ rest) =
    Parsed (kv :: l, rest).
Proof.
  revert kv. induction l as [|kw l IH]; intros [k v] HP Hwf Hh; apply Forall_cons_1 in HP as [Hv HP];
    cbn [forallb] in Hwf; apply andb_true_iff in Hwf as [Hkv Hwf]; simpl in Hh, Hkv, Hv;
    apply andb_true_iff in Hkv as [Hk Hwv].
  - destruct (Hv depth ("}" +:+ rest)) as [n Hn]; [done|lia|done|].
    exists (S n). intros [|m] Hm; [lia|]. cbn [map String.concat].
    rewrite (parse_member m depth k v n) by (done || lia). done.
  - destruct (IH kw) as [n1 Hn1]; [done|done|simpl; lia|].
    set (tail := String.concat "," (map print_member (kw :: l)) +:+ "}" +:+ rest) in *.
    destruct (Hv depth ("," +:+ tail)) as [n2 Hn2]; [done|lia|done|].
    exists (S (n1 + n2)). intros [|m] Hm; [lia|].
    change (map print_member ((k, v) :: kw :: l)) with
      (print_member (k, v) :: print_member kw :: map print_member l).
    rewrite concat_cons, !app_assoc_string.
    change (String.concat "," (print_member kw :: map print_member l)) with
      (String.concat "," (map print_member (kw :: l))). fold tail.
    rewrite (parse_member m depth k v n2) by (done || lia). cbv zeta.
    change (skip_ws ("," +:+ tail)) with (String (chr 44) tail). cbn [first_is rest_of].
    change (code (chr 44) =? 44) with true. cbv iota.
    assert (E : skip_ws tail = tail)
      by (unfold tail; destruct (print_member_first kw l ("}" +:+ rest)) as [u ->]; done).
    by rewrite E, Hn1 by lia.
Qed.

Lemma parse_object_back l : Forall (λ kv, parses_back kv.2) l → parses_back (JObject l).
Proof.
  intros HP depth rest Hwf Hh _. cbn [json_wf height] in *.
  pose proof (foldr_max_nonneg (map (λ kv, height kv.2) l)).
  assert (Hdep : (maxNestingDepth <=? depth) = false) by lia.
  destruct l as [|kv l].
  - exists 1%nat. intros [|m] Hm; [lia|]. cbn -[Z.leb maxNestingDepth]. by rewrite Hdep.
  - destruct (parse_members_back (depth + 1) rest kv l HP Hwf) as [n Hn]; [lia|].
    exists (S n). intros [|m] Hm; [lia|]. cbn [print_json]. rewrite !app_assoc_string.
    change (map (λ kv, quote_json kv.1 +:+ ":" +:+ print_json kv.2) (kv :: l)) with
      (map print_member (kv :: l)).
    destruct (print_member_first kv l ("}" +:+ rest)) as [u Eu]. rewrite Eu in *.
    change ("{" +:+ String (chr 34) u) with (String (chr 123) (String (chr 34) u)).
    cbn [parse_value first_is rest_of]. change (code (chr 123) =? 123) with true. cbv iota zeta.
    rewrite Hdep. change (skip_ws (String (chr 34) u)) with (String (chr 34) u). cbn [first_is].
    change (code (chr 34) =? 125) with false. cbv iota. by rewrite (Hn m) by lia.
Qed.

Lemma print_parse v : parses_back v.
Proof.
  induction v using json_ind.
  - intros depth rest _ _ _. exists 1%nat. by intros [|m] Hm; [lia|].
  - intros depth rest _ _ _. exists 1%nat. by destruct b; intros [|m] Hm; [lia| |lia|].
  - apply parse_number_back.
  - apply parse_string_back.
  - by apply parse_array_back.
  - by apply parse_object_back.
Qed.

(** What [json.Marshal] writes, [json.Unmarshal] reads back, and [Decoder.Decode]
    too, whatever follows it that cannot continue a number. *)
Lemma print_parse_json v :
  json_wf v = true → height v ≤ maxNestingDepth →
  parse_json (print_json v) = Parsed v ∧
  ∀ rest, delimited rest = true → decode_json (print_json v +:+ rest) = Parsed v.
Proof.
  intros Hwf Hh.
  assert (Hp : ∀ rest, delimited rest = true →
    parse_value (json_fuel (print_json v +:+ rest)) 0 (skip_ws (print_json v +:+ rest)) = Parsed (v, rest)).
  { intros rest Hr. destruct (print_parse v 0 rest) as [n Hn]; [done|lia|done|].
    rewrite skip_ws_print by done. eapply parse_value_any; [unfold json_fuel; lia|]. by apply (Hn n). }
  split.
  - unfold parse_json. specialize (Hp "" eq_refl). rewrite app_nil_string in Hp. by rewrite Hp.
  - intros rest Hr. unfold decode_json. by rewrite Hp.
Qed.

(** ** Raw messages

    A [json.RawMessage] holds the text of a value and is decoded later, on its
    own.  The decoders above keep the value instead: parsing the text that was
    consumed for it gives the same value. *)

(** [t] starts like [r], or is empty. *)
Definition head_ok (t r : string) : Prop :=
  match t with
  | EmptyString => True
  | String c _ => ∃ r', r = String c r'
  end.

Lemma head_ok_app x t r : head_ok t r → head_ok (x +:+ t) (x +:+ r).
Proof. destruct x as [|c x]; [done|]. intros _. by eexists. Qed.

Lemma head_ok_prefix r1 r2 : head_ok r1 (r1 +:+ r2).
Proof. destruct r1; [done|]. by eexists. Qed.

(** A lexer that returns the text it consumed, and does so again on that text
    before any text that starts like the rest. *)
Definition relexes (lex : string → option (string * string)) : Prop :=
  ∀ s l r, lex s = Some (l, r) → s = l +:+ r ∧ ∀ t, head_ok t r → lex (l +:+ t) = Some (l, t).

Lemma span_digits_again s d r :
  span_digits s = (d, r) → s = d +:+ r ∧ ∀ t, head_ok t r → span_digits (d +:+ t) = (d, t).
Proof.
  revert d r. induction s as [|c s IH]; intros d r; cbn [span_digits].
  - intros [= <- <-]. split; [done|]. intros [|c t]; [done|]. by intros [? ?].
  - destruct (is_digit c) eqn:Ec.
    + destruct (span_digits s) as [d' r']. intros [= <- <-].
      destruct (IH _ _ eq_refl) as [-> Ht]. split; [done|]. intros t Hh.
      rewrite app_cons_string. cbn [span_digits]. by rewrite Ec, Ht.
    + intros [= <- <-]. split; [done|]. intros [|c' t]; [done|]. intros [r' [= <- <-]].
      change ("" +:+ String c t) with (String c t). cbn [span_digits]. by rewrite Ec.
Qed.

Lemma some_digits_again : relexes some_digits.
Proof.
  intros s l r. unfold some_digits. destruct (span_digits s) as [d r'] eqn:E.
  destruct d as [|c d]; [done|]. intros [= <- <-]. apply span_digits_again in E as [-> Ht].
  split; [done|]. intros t Hh. by rewrite Ht.
Qed.

Lemma lex_int_again : relexes lex_int.
Proof.
  intros [|c s] l r; [done|]. cbn [lex_int]. destruct (code c =? 48) eqn:Ec.
  - intros [= <- <-]. split; [done|]. intros t _. rewrite app_cons_string. cbn [lex_int]. by rewrite Ec.
  - intros [E Ht]%some_digits_again. split; [done|]. intros t Hh.
    rewrite <- (Ht t Hh). destruct l as [|c' l]; [by pose proof (Ht "" I)|].
    rewrite app_cons_string in E. injection E as <- _. rewrite app_cons_string. cbn [lex_int].
    by rewrite Ec.
Qed.

Lemma lex_frac_again : relexes lex_frac.
Proof.
  intros [|c s] l r; cbn [lex_frac].
  - intros [= <- <-]. split; [done|]. intros [|c t]; [done|]. by intros [? ?].
  - destruct (code c =? 46) eqn:Ec.
    + intros ([d r'] & [-> Ht]%some_digits_again & [= <- <-])%bind_Some. split; [done|].
      intros t Hh. rewrite app_cons_string. cbn [lex_frac]. by rewrite Ec, Ht.
    + intros [= <- <-]. split; [done|]. intros [|c' t]; [done|]. intros [r' [= <- <-]].
      change ("" +:+ String c t) with (String c t). cbn [lex_frac]. by rewrite Ec.
Qed.

Lemma lex_exp_again : relexes lex_exp.
Proof.
  intros [|c s] l r; cbn [lex_exp].
  - intros [= <- <-]. split; [done|]. intros [|c t]; [done|]. by intros [? ?].
  - destruct (lower c =? 101) eqn:Ec.
    + destruct s as [|g s]; [done|]. destruct (is_sign g) eqn:Eg.
      * intros ([d r'] & [-> Ht]%some_digits_again & [= <- <-])%bind_Some. split; [done|].
        intros t Hh. rewrite !app_cons_string. cbn [lex_exp]. by rewrite Ec, Eg, Ht.
      * intros ([d r'] & [E Ht]%some_digits_again & [= <- <-])%bind_Some.
        rewrite E. split; [done|]. intros t Hh. rewrite app_cons_string. cbn [lex_exp].
        rewrite Ec. destruct d as [|g' d]; [by pose proof (Ht "" I)|].
        specialize (Ht t Hh). rewrite app_cons_string in *. injection E as <- _. by rewrite Eg, Ht.
    + intros [= <- <-]. split; [done|]. intros [|c' t]; [done|]. intros [r' [= <- <-]].
      change ("" +:+ String c t) with (String c t). cbn [lex_exp]. by rewrite Ec.
Qed.

Lemma lex_minus_again s g r :
  lex_minus s = (g, r) → s = g +:+ r ∧ ∀ t, head_ok t r → lex_minus (g +:+ t) = (g, t).
Proof.
  destruct s as [|c s]; cbn [lex_minus].
  - intros [= <- <-]. split; [done|]. intros [|c t]; [done|]. by intros [? ?].
  - destruct (code c =? 45) eqn:Ec; intros [= <- <-]; (split; [done|]).
    + intros t _. rewrite app_cons_string. cbn [lex_minus]. by rewrite Ec.
    + intros [|c' t]; [done|]. intros [r' [= <- <-]].
      change ("" +:+ String c t) with (String c t). cbn [lex_minus]. by rewrite Ec.
Qed.

Lemma lex_number_again : relexes lex_number.
Proof.
  intros s l r. unfold lex_number. destruct (lex_minus s) as [g s1] eqn:Eg.
  apply lex_minus_again in Eg as [-> Hg].
  intros ([i s2] & [-> Hi]%lex_int_again &
    ([f s3] & [-> Hf]%lex_frac_again & ([e s4] & [-> He]%lex_exp_again & [= <- <-])%bind_Some)%bind_Some)%bind_Some.
  split; [by rewrite !app_assoc_string|]. intros t Hh. rewrite !app_assoc_string.
  rewrite Hg, Hi by auto using head_ok_app. cbn [mbind option_bind].
  rewrite Hf by auto using head_ok_app. cbn [mbind option_bind].
  rewrite He by done. done.
Qed.

Lemma skip_ws_again s : ∃ w, s = w +:+ skip_ws s ∧ ∀ t, skip_ws (w +:+ t) = skip_ws t.
Proof.
  induction s as [|c s (w & E & Hw)]; [by exists ""|]. cbn [skip_ws].
  destruct (is_ws c) eqn:Ec; [|by exists ""]. exists (String c w). rewrite app_cons_string, <- E.
  split; [done|]. intros t. rewrite app_cons_string. cbn [skip_ws]. by rewrite Ec.
Qed.

Lemma skip_ws_head c s : is_ws c = false → skip_ws (String c s) = String c s.
Proof. intros Ec. cbn [skip_ws]. by rewrite Ec. Qed.

Lemma skip_ws_idemp s : match skip_ws s with String c _ => is_ws c = false | EmptyString => True end.
Proof. induction s as [|c s IH]; [done|]. cbn [skip_ws]. by destruct (is_ws c) eqn:Ec. Qed.

(** White space before a non-empty text that is not white space itself. *)
Lemma skip_ws_before s p r t : skip_ws s = p +:+ r → p ≠ "" → skip_ws (p +:+ t) = p +:+ t.
Proof.
  intros E Hp. pose proof (skip_ws_idemp s) as Hi. rewrite E in Hi.
  destruct p as [|c p]; [done|]. rewrite app_cons_string in *. by apply skip_ws_head.
Qed.

Lemma scan_string_again s b r : scan_string s = Some (b, r) →
  ∃ p, s = p +:+ r ∧ ∀ t, scan_string (p +:+ t) = Some (b, t).
Proof.
  revert b r. induction s as [s IH] using string_length_ind. intros b r.
  destruct s as [|c s1]; [done|]. cbn [scan_string].
  destruct (code c =? 34) eqn:E34.
  { intros [= <- <-]. exists (String c ""). split; [done|]. intros t.
    change (String c "" +:+ t) with (String c t). cbn [scan_string]. by rewrite E34. }
  destruct (code c <? 32) eqn:E32; [done|].
  destruct (code c =? 92) eqn:E92.
  - destruct s1 as [|e s2]; [done|]. destruct (code e =? 117) eqn:Eu.
    + destruct s2 as [|h1 [|h2 [|h3 [|h4 s6]]]]; try done.
      destruct (hex4 h1 h2 h3 h4) as [n|] eqn:Eh; [|done].
      destruct (scan_string s6) as [[body rest]|] eqn:E; [|done]. intros [= <- <-].
      destruct (IH s6) with (b := body) (r := rest) as (p & -> & Ht); [simpl; lia|done|].
      exists (String c (String e (String h1 (String h2 (String h3 (String h4 p)))))).
      split; [done|]. intros t. rewrite !app_cons_string. cbn [scan_string].
      by rewrite E34, E32, E92, Eu, Eh, Ht.
    + destruct (unescape e) eqn:Ee; [|done].
      destruct (scan_string s2) as [[body rest]|] eqn:E; [|done]. intros [= <- <-].
      destruct (IH s2) with (b := body) (r := rest) as (p & -> & Ht); [simpl; lia|done|].
      exists (String c (String e p)). split; [done|]. intros t. rewrite !app_cons_string.
      cbn [scan_string]. by rewrite E34, E32, E92, Eu, Ee, Ht.
  - destruct (scan_string s1) as [[body rest]|] eqn:E; [|done]. intros [= <- <-].
    destruct (IH s1) with (b := body) (r := rest) as (p & -> & Ht); [simpl; lia|done|].
    exists (String c p). split; [done|]. intros t. rewrite !app_cons_string.
    cbn [scan_string]. by rewrite E34, E32, E92, Ht.
Qed.

Lemma strip_prefix_again p s r : strip_prefix p s = Some r →
  ∃ q, s = q +:+ r ∧ String.length q = String.length p ∧
    ∀ t, strip_prefix p (q +:+ t) = Some t.
Proof.
  revert s. induction p as [|a p IH]; intros s; cbn [strip_prefix].
  - intros [= <-]. by exists "".
  - destruct s as [|b s]; [done|]. destruct (code a =? code b) eqn:E; [|done].
    intros (q & -> & Hl & Ht)%IH. exists (String b q). split_and!; [done|simpl; lia|].
    intros t. rewrite app_cons_string. cbn [strip_prefix]. by rewrite E.
Qed.

(** What a parser returned it returns again on the text it consumed, nested no
    deeper, before any text that starts like the rest. *)
Definition reparses {A} (P : Z → string → outcome (A * string)) : Prop := ∀ depth s a r,
  P depth s = Parsed (a, r) → ∃ p, p ≠ "" ∧ s = p +:+ r ∧
    ∀ depth' t, depth' ≤ depth → head_ok t r → P depth' (p +:+ t) = Parsed (a, t).

Lemma first_is_inv n s : first_is n s = true → ∃ c, s = String c (rest_of s) ∧ code c = n.
Proof. destruct s as [|c s]; [done|]. intros E. exists c. simpl in E. zbool. done. Qed.

(** The first character decides which branch is taken. *)
Lemma first_is_app n p r t : p ≠ "" → first_is n (p +:+ t) = first_is n (p +:+ r).
Proof. by destruct p. Qed.

Lemma outcome_bind_Parsed {A B} (m : outcome A) (f : A → outcome B) b :
  outcome_bind m f = Parsed b → ∃ a, m = Parsed a ∧ f a = Parsed b.
Proof. destruct m; [eauto|done..]. Qed.

Lemma of_option_Parsed {A} (m : option A) a : of_option m = Parsed a → m = Some a.
Proof. destruct m; naive_solver. Qed.

(** An opening bracket, white space, and then a closing one or the contents. *)
Lemma brackets_again {A B} (P : Z → string → outcome (A * string)) (mk : A → B) (nil : B)
    (close : Z) depth s a r :
  reparses P → (∀ d, code d = close → is_ws d = false) →
  (let s1 := skip_ws s in
   if first_is close s1 then Parsed (nil, rest_of s1) else
   outcome_bind (P (depth + 1) s1) (λ '(l, r), Parsed (mk l, r))) = Parsed (a, r) →
  ∃ p, s = p +:+ r ∧ ∀ depth' t, depth' ≤ depth → head_ok t r →
    (let s1 := skip_ws (p +:+ t) in
     if first_is close s1 then Parsed (nil, rest_of s1) else
     outcome_bind (P (depth' + 1) s1) (λ '(l, r), Parsed (mk l, r))) = Parsed (a, t).
Proof.
  intros HP Hws. cbv zeta. destruct (skip_ws_again s) as (w & Es & Hw).
  destruct (first_is close (skip_ws s)) eqn:Ec.
  - apply first_is_inv in Ec as (d & Ed & Hd). intros [= <- <-].
    exists (w +:+ String d ""). split.
    { rewrite app_assoc_string. rewrite Es at 1. by rewrite Ed at 1. }
    intros depth' t _ _. rewrite app_assoc_string, Hw.
    change (String d "" +:+ t) with (String d t). rewrite skip_ws_head by auto.
    cbn [first_is rest_of]. by rewrite Hd, Z.eqb_refl.
  - intros ([l r'] & (p & Hp & Ep & Ht)%HP & [= <- <-])%outcome_bind_Parsed.
    exists (w +:+ p). split; [rewrite app_assoc_string, <- Ep; done|].
    intros depth' t Hd Hh. rewrite app_assoc_string, Hw, (skip_ws_before _ _ _ _ Ep Hp).
    rewrite (first_is_app close p r' t Hp), <- Ep, Ec, (Ht (depth' + 1) t) by (done || lia). done.
Qed.

(** White space and a separator after a value. *)
Lemma separator_again n r : (∀ d, code d = n → is_ws d = false) → first_is n (skip_ws r) = true →
  ∃ q d, code d = n ∧ r = q +:+ rest_of (skip_ws r) ∧
    ∀ t, skip_ws (q +:+ t) = String d t ∧ head_ok (q +:+ t) r.
Proof.
  intros Hws Hf. destruct (skip_ws_again r) as (w & Es & Hw).
  apply first_is_inv in Hf as (d & Ed & Hd). exists (w +:+ String d ""), d. split; [done|].
  assert (E : r = (w +:+ String d "") +:+ rest_of (skip_ws r)).
  { rewrite app_assoc_string. rewrite Es at 1. by rewrite Ed at 1. }
  split; [done|]. intros t. split.
  - rewrite app_assoc_string, Hw. apply skip_ws_head. auto.
  - rewrite E. rewrite !app_assoc_string. apply head_ok_app. by eexists.
Qed.

Lemma not_ws d n : code d = n → n ∈ [44; 58; 93; 125] → is_ws d = false.
Proof.
  intros <- Hn. unfold is_ws. rewrite !elem_of_cons, elem_of_nil in Hn.
  destruct Hn as [->|[->|[->|[->|[]]]]]; done.
Qed.

(** A separator, white space and what the parser [P] reads next. *)
Lemma continue_again {A} (P : Z → string → outcome (A * string)) n depth r a r' :
  reparses P → (∀ d, code d = n → is_ws d = false) → first_is n (skip_ws r) = true →
  P depth (skip_ws (rest_of (skip_ws r))) = Parsed (a, r') →
  ∃ q, r = q +:+ r' ∧ ∀ depth' t, depth' ≤ depth → head_ok t r' →
    head_ok (q +:+ t) r ∧ first_is n (skip_ws (q +:+ t)) = true ∧
    P depth' (skip_ws (rest_of (skip_ws (q +:+ t)))) = Parsed (a, t).
Proof.
  intros HP Hws Hf (p & Hp & Ep & Ht)%HP.
  destruct (separator_again n r Hws Hf) as (q & d & Hd & Er & Hq).
  destruct (skip_ws_again (rest_of (skip_ws r))) as (w & Ew & Hw).
  exists (q +:+ w +:+ p). split.
  { rewrite !app_assoc_string, <- Ep, <- Ew. done. }
  intros depth' t Hle Hh. rewrite !app_assoc_string.
  destruct (Hq (w +:+ p +:+ t)) as [E1 E2]. split; [done|]. rewrite E1. cbn [first_is rest_of].
  split; [by apply Z.eqb_eq|].
  rewrite Hw, (skip_ws_before _ _ _ _ Ep Hp). by apply Ht.
Qed.

Lemma app_nonempty p q : p ≠ "" → p +:+ q ≠ "".
Proof. by destruct p. Qed.

(** Everything but arrays and objects. *)
Definition parse_scalar (s : string) : outcome (json * string) :=
  if first_is 34 s then
    outcome_bind (of_option (scan_string (rest_of s))) (λ '(body, r), Parsed (JString (unquote body), r))
  else if first_is 116 s then
    outcome_bind (of_option (strip_prefix "true" s)) (λ r, Parsed (JBool true, r))
  else if first_is 102 s then
    outcome_bind (of_option (strip_prefix "false" s)) (λ r, Parsed (JBool false, r))
  else if first_is 110 s then
    outcome_bind (of_option (strip_prefix "null" s)) (λ r, Parsed (JNull, r))
  else outcome_bind (of_option (lex_number s)) (λ '(l, r), Parsed (JNumber l, r)).

Lemma parse_scalar_again s a r : parse_scalar s = Parsed (a, r) →
  ∃ p, p ≠ "" ∧ s = p +:+ r ∧ ∀ t, head_ok t r → parse_scalar (p +:+ t) = Parsed (a, t).
Proof.
  unfold parse_scalar. destruct (first_is 34 s) eqn:E34.
  { apply first_is_inv in E34 as (c & Es & Hc).
    intros ([b r'] & (p & Ep & Hs)%of_option_Parsed%scan_string_again & [= <- <-])%outcome_bind_Parsed.
    exists (String c p). split; [done|]. split; [by rewrite app_cons_string, <- Ep|].
    intros t _. rewrite app_cons_string. cbn [first_is rest_of]. by rewrite Hc, Hs. }
  assert (Hlit : ∀ lit v, lit ≠ "" →
    outcome_bind (of_option (strip_prefix lit s)) (λ r, Parsed (v, r)) = Parsed (a, r) →
    ∃ p, p ≠ "" ∧ s = p +:+ r ∧ ∀ t, a = v ∧ strip_prefix lit (p +:+ t) = Some t).
  { intros lit v Hl (r' & (p & Ep & Hlen & Ht)%of_option_Parsed%strip_prefix_again & [= <- <-])%outcome_bind_Parsed.
    exists p. split; [by destruct lit, p|]. split; [done|]. intros t. by rewrite Ht. }
  destruct (first_is 116 s) eqn:E1; [|destruct (first_is 102 s) eqn:E2; [|destruct (first_is 110 s) eqn:E3]].
  1-3: intros (p & Hp & -> & Ht)%Hlit; [|done]; exists p; split; [done|]; split; [done|];
    intros t _; destruct (Ht t) as [-> Hst];
    rewrite !(first_is_app _ p r t Hp), E34, ?E1, ?E2, ?E3, Hst; done.
  intros ([l r'] & [Es Hs]%of_option_Parsed%lex_number_again & [= <- <-])%outcome_bind_Parsed.
  assert (Hp : l ≠ "") by (intros ->; by pose proof (Hs "" I)).
  exists l. split; [done|]. split; [done|]. intros t Hh. subst s.
  by rewrite !(first_is_app _ l r' t Hp), E34, E1, E2, E3, Hs.
Qed.

Section reparse.
Context (fuel : nat) (IHv : reparses (parse_value fuel)) (IHe : reparses (parse_elems fuel))
  (IHm : reparses (parse_members fuel)).

Lemma parse_elems_again : reparses (parse_elems (S fuel)).
Proof using IHv IHe IHm.
  intros depth s a r. cbn [parse_elems].
  intros ([v r0] & (p & Hp & -> & Ht)%IHv & Hk)%outcome_bind_Parsed. cbv zeta in Hk.
  destruct (first_is 44 (skip_ws r0)) eqn:E44.
  - apply outcome_bind_Parsed in Hk as ([l r'] & Hl & [= <- <-]).
    eapply (continue_again _ 44) in Hl as (q & -> & Hq);
      [|done|by intros d Hd; eapply not_ws; [done|set_solver]|done].
    exists (p +:+ q). split; [by apply app_nonempty|]. split; [by rewrite app_assoc_string|].
    intros depth' t Hle Hh. destruct (Hq depth' t Hle Hh) as (H1 & H2 & H3).
    rewrite app_assoc_string, (Ht depth' (q +:+ t) Hle H1). cbn [outcome_bind]. by rewrite H2, H3.
  - destruct (first_is 93 (skip_ws r0)) eqn:E93; [|done]. injection Hk as <- <-.
    destruct (separator_again 93 r0) as (q & d & Hd & Er & Hq);
      [by intros d Hd; eapply not_ws; [done|set_solver]|done|].
    exists (p +:+ q). split; [by apply app_nonempty|]. split; [by rewrite app_assoc_string, <- Er|].
    intros depth' t Hle Hh. destruct (Hq t) as [E1 E2].
    rewrite app_assoc_string, (Ht depth' (q +:+ t) Hle E2). cbn [outcome_bind].
    rewrite E1. cbn [first_is rest_of]. by rewrite Hd.
Qed.

Lemma parse_members_again : reparses (parse_members (S fuel)).
Proof using IHv IHe IHm.
  intros depth s a r. cbn [parse_members]. destruct (first_is 34 s) eqn:E34; [|done]. cbn [negb].
  apply first_is_inv in E34 as (dq & Es & Hdq).
  intros ([k r0] & (p & Ep & Hs)%of_option_Parsed%scan_string_again & Hk)%outcome_bind_Parsed.
  cbv zeta in Hk. destruct (first_is 58 (skip_ws r0)) eqn:E58; [|done]. cbn [negb] in Hk.
  apply outcome_bind_Parsed in Hk as ([v r1] & Hv & Hk).
  eapply (continue_again _ 58) in Hv as (q & Eq & Hq);
    [|done|by intros d Hd; eapply not_ws; [done|set_solver]|done].
  cbv zeta in Hk. destruct (first_is 44 (skip_ws r1)) eqn:E44.
  - apply outcome_bind_Parsed in Hk as ([l r'] & Hl & [= <- <-]).
    eapply (continue_again _ 44) in Hl as (q' & Eq' & Hq');
      [|done|by intros d Hd; eapply not_ws; [done|set_solver]|done].
    exists (String dq (p +:+ q +:+ q')). split; [done|]. split.
    { by rewrite app_cons_string, !app_assoc_string, <- Eq', <- Eq, <- Ep. }
    intros depth' t Hle Hh. destruct (Hq' depth' t Hle Hh) as (H1 & H2 & H3).
    destruct (Hq depth' (q' +:+ t) Hle H1) as (G1 & G2 & G3).
    rewrite app_cons_string, !app_assoc_string. cbn [first_is rest_of]. rewrite Hdq, Z.eqb_refl.
    cbn [negb]. rewrite Hs. cbn [of_option outcome_bind]. rewrite G2, G3. cbn [negb outcome_bind].
    by rewrite H2, H3.
  - destruct (first_is 125 (skip_ws r1)) eqn:E125; [|done]. injection Hk as <- <-.
    destruct (separator_again 125 r1) as (q' & d & Hd & Er & Hq');
      [by intros d Hd; eapply not_ws; [done|set_solver]|done|].
    exists (String dq (p +:+ q +:+ q')). split; [done|]. split.
    { by rewrite app_cons_string, !app_assoc_string, <- Er, <- Eq, <- Ep. }
    intros depth' t Hle Hh. destruct (Hq' t) as [E1 E2].
    destruct (Hq depth' (q' +:+ t) Hle E2) as (G1 & G2 & G3).
    rewrite app_cons_string, !app_assoc_string. cbn [first_is rest_of]. rewrite Hdq, Z.eqb_refl.
    cbn [negb]. rewrite Hs. cbn [of_option outcome_bind]. rewrite G2, G3. cbn [negb outcome_bind].
    rewrite E1. cbn [first_is rest_of]. by rewrite Hd.
Qed.

Lemma parse_value_again : reparses (parse_value (S fuel)).
Proof using IHv IHe IHm.
  intros depth s a r. cbn [parse_value].
  destruct (first_is 123 s) eqn:E123; [|destruct (first_is 91 s) eqn:E91].
  - apply first_is_inv in E123 as (c & Es & Hc). destruct (maxNestingDepth <=? depth) eqn:Em; [done|].
    intros (p & Ep & Ht)%(brackets_again _ JObject (JObject []) 125);
      [|done|by intros d Hd; eapply not_ws; [done|set_solver]].
    exists (String c p). split; [done|]. split; [by rewrite app_cons_string, <- Ep|].
    intros depth' t Hle Hh. rewrite app_cons_string. cbn [first_is rest_of]. rewrite Hc.
    replace (maxNestingDepth <=? depth') with false by lia. by apply (Ht depth' t).
  - apply first_is_inv in E91 as (c & Es & Hc). destruct (maxNestingDepth <=? depth) eqn:Em; [done|].
    intros (p & Ep & Ht)%(brackets_again _ JArray (JArray []) 93);
      [|done|by intros d Hd; eapply not_ws; [done|set_solver]].
    exists (String c p). split; [done|]. split; [by rewrite app_cons_string, <- Ep|].
    intros depth' t Hle Hh. rewrite app_cons_string. cbn [first_is rest_of]. rewrite Hc.
    replace (maxNestingDepth <=? depth') with false by lia. by apply (Ht depth' t).
  - fold (parse_scalar s). intros (p & Hp & -> & Ht)%parse_scalar_again.
    exists p. split; [done|]. split; [done|]. intros depth' t _ Hh.
    rewrite !(first_is_app _ p r t Hp), E123, E91, <- !(first_is_app _ p r t Hp).
    fold (parse_scalar (p +:+ t)). by apply Ht.
Qed.
End reparse.

Lemma parse_again fuel :
  reparses (parse_value fuel) ∧ reparses (parse_elems fuel) ∧ reparses (parse_members fuel).
Proof.
  induction fuel as [|fuel (IHv & IHe & IHm)]; [by repeat split; intros ????|].
  split_and!; [by apply parse_value_again|by apply parse_elems_again|by apply parse_members_again].
Qed.

(** No value starts with white space. *)
Lemma parse_value_no_ws fuel depth s v r : parse_value fuel depth s = Parsed (v, r) → skip_ws s = s.
Proof.
  destruct fuel as [|fuel]; [done|]. destruct s as [|c s]; [done|]. intros Hp. apply skip_ws_head.
  destruct (is_ws c) eqn:Ec; [|done]. exfalso. unfold is_ws in Ec. rewrite !orb_true_iff, !Z.eqb_eq in Ec.
  assert (Hn : ∀ n, n ∉ [32; 9; 10; 13] → (code c =? n) = false).
  { intros n Hn. apply Z.eqb_neq. set_solver. }
  cbn [parse_value first_is] in Hp. rewrite !Hn in Hp by set_solver.
  apply outcome_bind_Parsed in Hp as ([l r'] & Hl%of_option_Parsed & _).
  apply lex_number_first in Hl as (c' & t & [= <- <-] & Hc%digit_or_minus). lia.
Qed.

Lemma raw_text_parses fuel depth s v r :
  0 ≤ depth → parse_value fuel depth s = Parsed (v, r) →
  ∃ raw, s = raw +:+ r ∧ parse_json raw = Parsed v.
Proof.
  intros Hd Hp. pose proof (parse_value_no_ws _ _ _ _ _ Hp) as Hws.
  apply parse_again in Hp as (p & Hne & -> & Ht). exists p. split; [done|].
  specialize (Ht 0 "" Hd I). rewrite app_nil_string in Ht. unfold parse_json.
  assert (Hsp : skip_ws p = p).
  { destruct p as [|c p]; [done|]. rewrite app_cons_string in Hws. cbn [skip_ws] in *.
    destruct (is_ws c); [|done]. pose proof (length_skip_ws (p +:+ r)) as Hl. rewrite Hws in Hl.
    simpl in Hl. lia. }
  rewrite Hsp, (parse_value_any fuel (json_fuel p) 0 p v ""); [done|unfold json_fuel; lia|done].
Qed.

(** ** Integers *)

Lemma pretty_N_char_digit r : (r < 10)%N →
  is_digit (pretty_N_char r) = true ∧ code (pretty_N_char r) - 48 = Z.of_N r.
Proof.
  intros Hr. assert (r = 0 ∨ r = 1 ∨ r = 2 ∨ r = 3 ∨ r = 4 ∨ r = 5 ∨ r = 6 ∨ r = 7 ∨ r = 8 ∨ r = 9)%N
    as Hc by lia. by destruct_or! Hc; subst r.
Qed.

(** The decimal text of a number consists of digits and has its value. *)
Lemma pretty_digits x s : (∀ d r, span_digits s = (d, r) → span_digits (pretty_N_go x s) =
    (pretty_N_go x d, r)) ∧ digits_val 0 (pretty_N_go x s) = digits_val (Z.of_N x) s.
Proof.
  revert s. induction x as [x IH] using (well_founded_induction N.lt_wf_0). intros s.
  assert (x = 0 ∨ 0 < x)%N as [->|Hx] by lia.
  { split; [|by rewrite pretty_N_go_0]. intros d r. by rewrite !pretty_N_go_0. }
  pose proof (N.mod_lt x 10 ltac:(lia)) as Hm. pose proof (N.div_mod x 10 ltac:(lia)) as Hd.
  destruct (pretty_N_char_digit (x mod 10) Hm) as [Hdig Hval].
  rewrite pretty_N_go_step by done.
  destruct (IH (x / 10)%N (N.div_lt x 10 Hx ltac:(lia)) (String (pretty_N_char (x mod 10)) s)) as [IH1 IH2].
  split.
  - intros d r E. rewrite (pretty_N_go_step x d) by done. apply IH1. cbn [span_digits].
    by rewrite Hdig, E.
  - rewrite IH2. cbn [digits_val]. rewrite Hval. f_equal. lia.
Qed.

Lemma pretty_N_go_nonempty x s : s ≠ "" ∨ (0 < x)%N → pretty_N_go x s ≠ "".
Proof.
  revert s. induction x as [x IH] using (well_founded_induction N.lt_wf_0). intros s.
  assert (x = 0 ∨ 0 < x)%N as [->|Hx] by lia; [rewrite pretty_N_go_0; naive_solver lia|].
  intros _. rewrite pretty_N_go_step by done. apply IH; [apply N.div_lt; lia|by left].
Qed.

(** It starts with a digit from 1 to 9. *)
Lemma pretty_N_go_first x s : (0 < x)%N →
  ∃ c t, pretty_N_go x s = String c t ∧ 49 ≤ code c ≤ 57.
Proof.
  revert s. induction x as [x IH] using (well_founded_induction N.lt_wf_0). intros s Hx.
  rewrite pretty_N_go_step by done.
  pose proof (N.mod_lt x 10 ltac:(lia)) as Hm.
  destruct (pretty_N_char_digit (x mod 10) Hm) as [Hdig Hval].
  destruct (N.eq_0_gt_0_cases (x / 10)) as [E|Hx'].
  - rewrite E, pretty_N_go_0. eexists _, _. split; [done|]. pose proof (N.div_mod x 10 ltac:(lia)). lia.
  - apply IH; [apply N.div_lt; lia|done].
Qed.

(** The text of an integer: an optional minus sign and digits, without leading
    zeros. *)
Lemma fmt_d_shape z : ∃ sign d, fmt_d z = sign +:+ d ∧ lex_minus (fmt_d z) = (sign, d) ∧
  span_digits d = (d, "") ∧ (d = "0" ∨ ∃ c t, d = String c t ∧ 49 ≤ code c ≤ 57) ∧
  (if sign =s? "" then digits_val 0 d else - digits_val 0 d) = z.
Proof.
  assert (Hpos : ∀ p, let t := pretty_N_go (N.pos p) "" in span_digits t = (t, "") ∧
    (∃ c u, t = String c u ∧ 49 ≤ code c ≤ 57) ∧ digits_val 0 t = Z.pos p).
  { intros p t. destruct (pretty_digits (N.pos p) "") as [Hs Hv].
    split; [exact (Hs "" "" eq_refl)|]. split; [by apply pretty_N_go_first|exact Hv]. }
  destruct z as [|p|p]; [by exists "", "0"; naive_solver| |]; destruct (Hpos p) as (Hs & (c & u & Hc & Hr) & Hv);
    unfold fmt_d, pretty, pretty_Z, pretty, pretty_positive, pretty, pretty_N; case_decide; [lia| |lia|].
  - exists "", (pretty_N_go (N.pos p) ""). split; [done|]. split; [|by eauto 10].
    rewrite Hc. unfold lex_minus. by replace (code c =? 45) with false by lia.
  - exists "-", (pretty_N_go (N.pos p) ""). split; [done|]. split; [done|]. split; [done|]. split; [by eauto|].
    change ("-" =s? "") with false. cbv iota. by rewrite Hv.
Qed.

(** An [int64] written as a JSON number is read back. *)
Lemma ParseInt_fmt_d z : is_int64 z → ParseInt_literal (fmt_d z) = Some z.
Proof.
  intros Hz. assert (Hr : (MinInt64 <=? z) && (z <=? MaxInt64) = true) by ints.
  destruct (fmt_d_shape z) as (sign & d & _ & Hm & Hd & Hf & Hv).
  unfold ParseInt_literal. rewrite Hm, Hd, Hv, Hr.
  destruct Hf as [->|(c & t & -> & _)]; done.
Qed.

Lemma lex_number_fmt_d z : lex_number (fmt_d z) = Some (fmt_d z, "").
Proof.
  destruct (fmt_d_shape z) as (sign & d & E & Hm & Hd & Hf & _). unfold lex_number. rewrite Hm, E.
  assert (lex_int d = Some (d, "")) as ->.
  { destruct Hf as [->|(c & t & -> & Hc)]; [done|]. unfold lex_int, some_digits. rewrite Hd.
    by replace (code c =? 48) with false by lia. }
  cbn [mbind option_bind lex_frac lex_exp]. by rewrite !app_nil_string.
Qed.

(** ** Decoding what was encoded *)

Lemma dec_strings l : dec_elems "" dec_string (JString <$> l) [] = Some l.
Proof. induction l as [|s l IH]; [done|]. cbn. cbn in IH. by rewrite IH. Qed.

Lemma dec_slice_fresh {A} (zero : A) d l xs :
  dec_elems zero d l [] = Some xs → length xs = length l →
  ∃ s, dec_slice zero d (JArray l) slice_nil = Some s ∧ slice_list s = xs.
Proof.
  intros E Hl. destruct l as [|v l].
  - exists slice_nil. split; [done|]. by destruct xs.
  - unfold dec_slice. change (sl_backing slice_nil) with (@nil A). rewrite E. eexists.
    split; [done|]. unfold slice_list; cbn. apply take_ge. simpl in Hl. lia.
Qed.

(** One member of an object whose key is a field. *)
Lemma dec_members_cons {A} (fields : list (string * Decoder A)) k v l d a a' :
  find_field fields k = Some d → d v a = Some a' →
  dec_members fields ((k, v) :: l) a = dec_members fields l a'.
Proof. intros Hf Hd. cbn [dec_members]. rewrite Hf, Hd. done. Qed.

Lemma dec_field_Some {A B} (get : A → B) set (d : Decoder B) v a b :
  d v (get a) = Some b → dec_field get set d v a = Some (set b a).
Proof. unfold dec_field. by intros ->. Qed.

Lemma dec_pointer_Some {A} (zero : A) d l a :
  d (JObject l) zero = Some a → dec_pointer zero d (JObject l) None = Some (Some a).
Proof. cbn. by intros ->. Qed.

(** Decode the next member, a known field whose value [tac] decodes. *)
Ltac member tac :=
  erewrite dec_members_cons; [|reflexivity|cbn [snd]; apply dec_field_Some; tac].

(** Error texts, to evaluate with. *)
Definition plain_errors : JSONErrors := {|
  json_SyntaxError s := PlainError "unexpected end of JSON input";
  json_UnmarshalTypeError v := PlainError "json: cannot unmarshal";
  json_DecodeError s e := default (PlainError "unexpected EOF") e |}.
