(* ===== verification/GoTime.v ===== *)
(** Times and durations of the Go standard library: the text of a duration,
    the proleptic Gregorian calendar, and times in RFC 3339 as [encoding/json]
    writes and reads them.

    A time is an instant, in nanoseconds since 1 January 1970 UTC; the offset
    of the local time zone is an argument of what prints it. *)
From Stdlib Require Import SpecFloat.
From S2P Require Import Prelude GoFloat Json JsonProps.

(** ** Durations *)

Fixpoint trim_zeros (s : string) : string :=
  match s with
  | EmptyString => EmptyString
  | String c s' =>
      match trim_zeros s' with
      | EmptyString => if code c =? 48 then EmptyString else String c EmptyString
      | t => String c t
      end
  end.

(** [fmtFrac]: the fraction [v / 10^prec] without trailing zeros, and the
    integer part that remains. *)
Definition fmtFrac (v : Z) (prec : nat) : string * Z :=
  let p := 10 ^ Z.of_nat prec in
  let f := trim_zeros (pad_digits prec (v mod p) EmptyString) in
  (match f with EmptyString => EmptyString | _ => "." +:+ f end, v / p).

(** [time.Duration.String]. *)
Definition Duration_String (d : Z) : string :=
  let u := Z.abs d in
  let body :=
    if u =? 0 then "0s"
    else if u <? 1000 then fmt_d u +:+ "ns"
    else if u <? Millisecond then let '(f, v) := fmtFrac u 3 in fmt_d v +:+ f +:+ "µs"
    else if u <? Second then let '(f, v) := fmtFrac u 6 in fmt_d v +:+ f +:+ "ms"
    else
      let '(f, v) := fmtFrac u 9 in
      let secs := fmt_d (v mod 60) +:+ f +:+ "s" in
      let mins := v / 60 in
      if mins =? 0 then secs else
      let hours := mins / 60 in
      let ms := fmt_d (mins mod 60) +:+ "m" +:+ secs in
      if hours =? 0 then ms else fmt_d hours +:+ "h" +:+ ms in
  (if d <? 0 then "-" else "") +:+ body.

(** ** The calendar *)

Definition leap (y : Z) : bool :=
  (y mod 4 =? 0) && (negb (y mod 100 =? 0) || (y mod 400 =? 0)).

(** Days of the years from 0 to [y - 1]. *)
Definition days_before_year (y : Z) : Z := 365 * y + (y + 3) / 4 - (y + 99) / 100 + (y + 399) / 400.

Definition month_lengths (y : Z) : list Z :=
  [31; if leap y then 29 else 28; 31; 30; 31; 30; 31; 31; 30; 31; 30; 31].

Definition daysIn (m y : Z) : Z := default 0 (month_lengths y !! Z.to_nat (m - 1)).

(** Days since 1 January of year 0. *)
Definition date_days (y m d : Z) : Z :=
  days_before_year y + Zsum (take (Z.to_nat (m - 1)) (month_lengths y)) + (d - 1).

(** The year of a day: the average length of a year gives it up to one. *)
Definition year_of (n : Z) : Z :=
  let y := n * 400 / 146097 in
  if days_before_year (y + 1) <=? n then y + 1
  else if days_before_year y <=? n then y
  else y - 1.

(** Month and day of the month, from the days since its first month. *)
Fixpoint month_of (lengths : list Z) (m doy : Z) : Z * Z :=
  match lengths with
  | [] => (m, doy + 1)
  | len :: lengths' => if doy <? len then (m, doy + 1) else month_of lengths' (m + 1) (doy - len)
  end.

Definition unix_epoch : Z := date_days 1970 1 1.

(** ** RFC 3339 *)

(** [t.MarshalJSON] without the quotes, in a zone [off] minutes east of UTC: the
    years from 0 to 9999 and the zones less than a day away have a text. *)
Definition format_zone (off : Z) : string :=
  if off =? 0 then "Z" else
  (if off <? 0 then "-" else "+") +:+ pad_digits 2 (Z.abs off / 60) "" +:+ ":" +:+
  pad_digits 2 (Z.abs off mod 60) "".

Definition format_date (n : Z) : string :=
  let y := year_of n in
  let '(m, d) := month_of (month_lengths y) 1 (n - days_before_year y) in
  pad_digits 4 y "" +:+ "-" +:+ pad_digits 2 m "" +:+ "-" +:+ pad_digits 2 d "".

Definition format_clock (sod : Z) : string :=
  pad_digits 2 (sod / 3600) "" +:+ ":" +:+ pad_digits 2 (sod / 60 mod 60) "" +:+ ":" +:+
  pad_digits 2 (sod mod 60) "".

Definition MarshalTime (off t : Z) : option string :=
  let '(frac, sec) := fmtFrac t 9 in
  let local := sec + 60 * off in
  let day := unix_epoch + local / 86400 in
  if (0 <=? year_of day) && (year_of day <=? 9999) && (Z.abs off <? 1440) then
    Some (format_date day +:+ "T" +:+ format_clock (local mod 86400) +:+ frac +:+ format_zone off)
  else None.

(** [parseUint] of exactly [n] digits. *)
Fixpoint take_digits (n : nat) (acc : Z) (s : string) : option (Z * string) :=
  match n with
  | O => Some (acc, s)
  | S n' =>
      match s with
      | String c s' => if is_digit c then take_digits n' (acc * 10 + (code c - 48)) s' else None
      | EmptyString => None
      end
  end.

Definition uint_in (n : nat) (lo hi : Z) (s : string) : option (Z * string) :=
  '(x, r) ← take_digits n 0 s; if (lo <=? x) && (x <=? hi) then Some (x, r) else None.

Definition expect (n : Z) (s : string) : option string :=
  if first_is n s then Some (rest_of s) else None.

(** [parseNanoseconds]: the first nine digits count. *)
Definition nanoseconds (digits : string) : Z :=
  let d := String.substring 0 9 digits in
  digits_val 0 d * 10 ^ (9 - Z.of_nat (String.length d)).

Definition parse_fraction (s : string) : Z * string :=
  match expect 46 s with
  | Some s' => match span_digits s' with (EmptyString, _) => (0, s) | (d, r) => (nanoseconds d, r) end
  | None => (0, s)
  end.

(** [hh:mm] in minutes. *)
Definition parse_hhmm (s : string) : option Z :=
  '(hr, s) ← uint_in 2 0 23 s;
  s ← expect 58 s;
  '(mm, s) ← uint_in 2 0 59 s;
  if s =s? "" then Some (hr * 60 + mm) else None.

Definition parse_zone (s : string) : option Z :=
  if s =s? "Z" then Some 0
  else if first_is 45 s then Z.opp <$> parse_hhmm (rest_of s)
  else if first_is 43 s then parse_hhmm (rest_of s)
  else None.

(** [parseRFC3339]: the instant, whatever the zone of the text. *)
Definition parseRFC3339 (s : string) : option Z :=
  '(year, s) ← uint_in 4 0 9999 s;
  s ← expect 45 s;
  '(month, s) ← uint_in 2 1 12 s;
  s ← expect 45 s;
  '(day, s) ← uint_in 2 1 (daysIn month year) s;
  s ← expect 84 s;
  '(hour, s) ← uint_in 2 0 23 s;
  s ← expect 58 s;
  '(min, s) ← uint_in 2 0 59 s;
  s ← expect 58 s;
  '(sec, s) ← uint_in 2 0 59 s;
  let '(nsec, s) := parse_fraction s in
  off ← parse_zone s;
  Some (((date_days year month day - unix_epoch) * 86400 + hour * 3600 + min * 60 + sec - 60 * off)
    * Second + nsec).

Example rfc3339_examples :
  (MarshalTime 0 0, MarshalTime 330 1785585600123400000, MarshalTime (-90) (-1),
   MarshalTime 0 (-62167219200 * Second - 1)) =
  (Some "1970-01-01T00:00:00Z", Some "2026-08-01T17:30:00.1234+05:30",
   Some "1969-12-31T22:29:59.999999999-01:30", None) ∧
  (parseRFC3339 "2024-02-29T12:00:00.5Z", parseRFC3339 "2023-02-29T12:00:00Z") =
  (Some 1709208000500000000, None).
Proof. by vm_compute. Qed.

(** ** Reading back what was written *)

Lemma leap_days y :
  days_before_year (y + 1) - days_before_year y = 365 + (if leap y then 1 else 0).
Proof.
  unfold days_before_year, leap.
  destruct (y mod 4 =? 0) eqn:E4, (y mod 100 =? 0) eqn:E100, (y mod 400 =? 0) eqn:E400; zbool;
    Z.to_euclidean_division_equations; simpl; lia.
Qed.

Lemma year_of_spec n : days_before_year (year_of n) ≤ n < days_before_year (year_of n + 1).
Proof.
  unfold year_of. set (y := n * 400 / 146097).
  assert (Hy : days_before_year (y - 1) ≤ n < days_before_year (y + 2)).
  { unfold days_before_year. subst y. Z.to_euclidean_division_equations. lia. }
  repeat case_match; zbool.
  - replace (y + 1 + 1) with (y + 2) by lia. lia.
  - lia.
  - replace (y - 1 + 1) with y by lia. lia.
Qed.

Lemma month_of_spec lengths m doy m' d :
  0 ≤ doy < Zsum lengths → month_of lengths m doy = (m', d) →
  m ≤ m' < m + Z.of_nat (length lengths) ∧
  (∃ len, lengths !! Z.to_nat (m' - m) = Some len ∧ 1 ≤ d ≤ len) ∧
  Zsum (take (Z.to_nat (m' - m)) lengths) + (d - 1) = doy.
Proof.
  revert m doy. induction lengths as [|len lengths IH]; intros m doy Hd Hm; [simpl in Hd; lia|].
  cbn [month_of] in Hm. rewrite Zsum_cons in Hd. destruct (doy <? len) eqn:E; zbool.
  - injection Hm as <- <-. rewrite Z.sub_diag. simpl. split; [lia|]. split; [|unfold Zsum; simpl; lia].
    exists len. split; [done|lia].
  - destruct (IH (m + 1) (doy - len) ltac:(lia) Hm) as (Hr & (l & Hl & Hdl) & Hs).
    replace (Z.to_nat (m' - m)) with (S (Z.to_nat (m' - (m + 1)))) by lia.
    cbn [take lookup list_lookup length]. rewrite Zsum_cons. split; [lia|]. split; [|lia].
    exists l. split; [exact Hl|done].
Qed.

Lemma month_lengths_sum y : Zsum (month_lengths y) = 365 + (if leap y then 1 else 0).
Proof. unfold month_lengths. by destruct (leap y). Qed.

(** Digits *)
Lemma take_digits_app n m a s :
  take_digits (n + m) a s = ('(x, r) ← take_digits n a s; take_digits m x r).
Proof.
  revert a s. induction n as [|n IH]; intros a s; [done|]. cbn [take_digits plus].
  destruct s as [|c s]; [done|]. destruct (is_digit c); [apply IH|done].
Qed.

Lemma digit_char z : is_digit (chr (48 + z mod 10)) = true ∧ code (chr (48 + z mod 10)) - 48 = z mod 10.
Proof.
  pose proof (Z.mod_pos_bound z 10 ltac:(lia)). unfold is_digit.
  assert (E : code (chr (48 + z mod 10)) = 48 + z mod 10).
  { assert (z mod 10 = 0 ∨ z mod 10 = 1 ∨ z mod 10 = 2 ∨ z mod 10 = 3 ∨ z mod 10 = 4 ∨ z mod 10 = 5 ∨
      z mod 10 = 6 ∨ z mod 10 = 7 ∨ z mod 10 = 8 ∨ z mod 10 = 9) as Hc by lia.
    by destruct_or! Hc; rewrite Hc. }
  rewrite E. split; [|lia]. apply andb_true_intro. split; zbool; lia.
Qed.

Lemma pow10_S n : 10 ^ Z.of_nat (S n) = 10 * 10 ^ Z.of_nat n.
Proof. rewrite Nat2Z.inj_succ, Z.pow_succ_r; lia. Qed.

Lemma take_pad_digits n z a acc :
  take_digits n a (pad_digits n z acc) = Some (a * 10 ^ Z.of_nat n + z mod 10 ^ Z.of_nat n, acc).
Proof.
  revert z acc. induction n as [|n IH]; intros z acc.
  { cbn [take_digits pad_digits]. change (10 ^ Z.of_nat 0) with 1. rewrite Z.mod_1_r. do 2 f_equal. lia. }
  cbn [pad_digits]. replace (S n) with (n + 1)%nat at 1 by lia. rewrite take_digits_app, IH.
  cbn [mbind option_bind take_digits]. destruct (digit_char z) as [-> ->].
  do 2 f_equal. rewrite pow10_S, Z.rem_mul_r by lia. lia.
Qed.

Lemma pad_digits_acc n z acc : pad_digits n z acc = pad_digits n z "" +:+ acc.
Proof.
  revert z acc. induction n as [|n IH]; intros z acc; [done|]. cbn [pad_digits].
  rewrite IH, (IH _ (String _ "")), app_assoc_string. done.
Qed.

Lemma uint_in_pad n lo hi z t :
  lo ≤ z ≤ hi → 0 ≤ z < 10 ^ Z.of_nat n → uint_in n lo hi (pad_digits n z "" +:+ t) = Some (z, t).
Proof.
  intros Hz Hn. unfold uint_in. rewrite <- pad_digits_acc, take_pad_digits. cbn [mbind option_bind].
  rewrite Z.mod_small by done. replace (0 * _ + z) with z by lia.
  replace ((lo <=? z) && (z <=? hi)) with true; [done|]. symmetry. apply andb_true_intro. split; zbool; lia.
Qed.

Lemma expect_cons c t : expect (code c) (String c t) = Some t.
Proof. unfold expect. cbn. by rewrite Z.eqb_refl. Qed.

(** Texts of digits. *)
Definition all_digits (s : string) : Prop := span_digits s = (s, "").

Lemma all_digits_cons c s : all_digits (String c s) ↔ is_digit c = true ∧ all_digits s.
Proof.
  unfold all_digits. cbn [span_digits]. destruct (is_digit c); [|naive_solver].
  destruct (span_digits s) as [d r]. naive_solver.
Qed.

Lemma pad_digits_spec n z acc : all_digits acc →
  all_digits (pad_digits n z acc) ∧ String.length (pad_digits n z acc) = (n + String.length acc)%nat ∧
  ∀ a, digits_val a (pad_digits n z acc) = digits_val (a * 10 ^ Z.of_nat n + z mod 10 ^ Z.of_nat n) acc.
Proof.
  revert z acc. induction n as [|n IH]; intros z acc Hacc; cbn [pad_digits].
  { split; [done|]. split; [done|]. intros a. change (10 ^ Z.of_nat 0) with 1. rewrite Z.mod_1_r.
    f_equal. lia. }
  destruct (digit_char z) as [Hd Hv].
  destruct (IH (z / 10) (String (chr (48 + z mod 10)) acc)) as (H1 & H2 & H3);
    [by apply all_digits_cons|].
  split; [done|]. split; [rewrite H2; simpl; lia|]. intros a. rewrite H3. cbn [digits_val].
  rewrite Hv. f_equal. rewrite pow10_S, Z.rem_mul_r by lia. lia.
Qed.

Lemma trim_zeros_spec s : all_digits s →
  all_digits (trim_zeros s) ∧ (String.length (trim_zeros s) ≤ String.length s)%nat ∧
  ∀ a, digits_val a (trim_zeros s) * 10 ^ Z.of_nat (String.length s - String.length (trim_zeros s)) =
    digits_val a s.
Proof.
  induction s as [|c s IH]; [intros _; split; [done|]; split; [done|]; intros a; simpl; lia|].
  intros [Hc Hs]%all_digits_cons. destruct (IH Hs) as (H1 & H2 & H3). cbn [trim_zeros digits_val].
  destruct (trim_zeros s) as [|c' t] eqn:Et.
  - simpl in H3. rewrite Nat.sub_0_r in H3. destruct (code c =? 48) eqn:E; zbool.
    + split; [done|]. split; [simpl; lia|]. intros a. cbn [digits_val String.length].
      rewrite Nat.sub_0_r, pow10_S, <- H3. lia.
    + split; [by apply all_digits_cons|]. split; [simpl; lia|]. intros a. cbn [digits_val String.length].
      replace (S (String.length s) - 1)%nat with (String.length s) by lia. apply H3.
  - split; [by apply all_digits_cons|]. split; [simpl in *; lia|]. intros a.
    change (digits_val a (String c (String c' t))) with (digits_val (a * 10 + (code c - 48)) (String c' t)).
    rewrite <- H3. done.
Qed.

Lemma substring_all n s : (String.length s ≤ n)%nat → String.substring 0 n s = s.
Proof.
  revert n. induction s as [|c s IH]; intros n Hn; [by destruct n|]. destruct n as [|n]; [simpl in Hn; lia|].
  simpl. f_equal. apply IH. simpl in Hn. lia.
Qed.

Lemma parse_hhmm_pad n : 0 ≤ n < 1440 →
  parse_hhmm (pad_digits 2 (n / 60) "" +:+ ":" +:+ pad_digits 2 (n mod 60) "") = Some n.
Proof.
  intros Hn. assert (Hh : 0 ≤ n / 60 ≤ 23) by (Z.to_euclidean_division_equations; lia).
  assert (Hm : 0 ≤ n mod 60 ≤ 59) by (Z.to_euclidean_division_equations; lia).
  unfold parse_hhmm. rewrite uint_in_pad by (simpl; lia). cbn [mbind option_bind].
  change (expect 58 _) with (Some (pad_digits 2 (n mod 60) "")). cbn [mbind option_bind].
  rewrite <- (app_nil_string (pad_digits 2 (n mod 60) "")), uint_in_pad by (simpl; lia).
  cbn [mbind option_bind]. rewrite str_eqb_refl. f_equal. Z.to_euclidean_division_equations. lia.
Qed.

Lemma parse_zone_format off : Z.abs off < 1440 →
  parse_zone (format_zone off) = Some off ∧ delimited (format_zone off) = true.
Proof.
  intros Ho. unfold format_zone. destruct (off =? 0) eqn:E0; zbool; [by subst|].
  pose proof (parse_hhmm_pad (Z.abs off) ltac:(lia)) as Hz. set (rest := pad_digits 2 (Z.abs off / 60) "" +:+ _) in *.
  destruct (off <? 0) eqn:Es; zbool; (split; [|done]).
  - change (parse_zone ("-" +:+ rest)) with (Z.opp <$> parse_hhmm rest). rewrite Hz. cbn. f_equal. lia.
  - change (parse_zone ("+" +:+ rest)) with (parse_hhmm rest). rewrite Hz. f_equal. lia.
Qed.

Lemma delimited_no_dot r : delimited r = true → first_is 46 r = false.
Proof. destruct r as [|c r]; [done|]. cbn. intros. zbool. by apply Z.eqb_neq. Qed.

Lemma parse_fraction_format t r : delimited r = true →
  let '(frac, sec) := fmtFrac t 9 in
  parse_fraction (frac +:+ r) = (t mod Second, r) ∧ sec = t / Second.
Proof.
  intros Hr. unfold fmtFrac. change (10 ^ Z.of_nat 9) with Second. split; [|done].
  set (ns := t mod Second). assert (Hns : 0 ≤ ns < Second) by (apply Z.mod_pos_bound; done).
  destruct (pad_digits_spec 9 ns "" eq_refl) as (Hp1 & Hp2 & Hp3).
  destruct (trim_zeros_spec _ Hp1) as (Ht1 & Ht2 & Ht3). rewrite Hp2 in Ht2, Ht3.
  specialize (Ht3 0). rewrite Hp3 in Ht3. cbn [digits_val] in Ht3. change (10 ^ Z.of_nat 9) with Second in Ht3.
  rewrite (Z.mod_small ns) in Ht3 by done.
  clear Hp1 Hp2 Hp3. destruct (trim_zeros _) as [|c d]; cbn [digits_val String.length] in *.
  - change ("" +:+ r) with r. unfold parse_fraction, expect.
    rewrite delimited_no_dot by done. f_equal. lia.
  - rewrite app_assoc_string. change (parse_fraction ("." +:+ ?x)) with
      (match span_digits x with (EmptyString, _) => (0, "." +:+ x) | (d, r) => (nanoseconds d, r) end).
    rewrite (span_digits_app r Hr _ _ _ Ht1). cbn [String.append]. f_equal. unfold nanoseconds.
    rewrite substring_all by (simpl; lia). replace ns with (0 * Second + ns) by lia. rewrite <- Ht3. cbn [digits_val]. do 2 f_equal. simpl. lia.
Qed.

Lemma month_length_le y i len : month_lengths y !! i = Some len → len ≤ 31.
Proof. intros Hl. do 12 (destruct i as [|i]; [simpl in Hl; destruct (leap y); simplify_eq; lia|]). done. Qed.

Lemma date_spec n m d :
  month_of (month_lengths (year_of n)) 1 (n - days_before_year (year_of n)) = (m, d) →
  1 ≤ m ≤ 12 ∧ 1 ≤ d ≤ daysIn m (year_of n) ∧ d ≤ 31 ∧ date_days (year_of n) m d = n.
Proof.
  intros Em. pose proof (year_of_spec n) as Hy. pose proof (leap_days (year_of n)) as Hl.
  apply month_of_spec in Em as (Hm & (len & Hlen & Hd) & Hsum); [|rewrite month_lengths_sum; lia].
  change (Z.of_nat (length _)) with 12 in Hm. pose proof (month_length_le _ _ _ Hlen).
  unfold daysIn, date_days. rewrite Hlen. simpl. lia.
Qed.

(** The instant is read back, whatever zone it was written in. *)
Lemma parse_MarshalTime off t s : MarshalTime off t = Some s → parseRFC3339 s = Some t.
Proof.
  unfold MarshalTime. destruct (fmtFrac t 9) as [frac sec] eqn:Ef.
  set (local := sec + 60 * off). set (day := unix_epoch + local / 86400). case_match; [|done].
  intros [= <-]. zbool.
  pose proof (parse_zone_format off ltac:(lia)) as [Hzone Hdel].
  pose proof (parse_fraction_format t _ Hdel) as Hfrac. rewrite Ef in Hfrac. destruct Hfrac as [Hfrac Hsec].
  set (sod := local mod 86400). assert (Hsod : 0 ≤ sod < 86400) by (by apply Z.mod_pos_bound).
  assert (0 ≤ sod / 3600 ≤ 23 ∧ 0 ≤ sod / 60 mod 60 ≤ 59 ∧ 0 ≤ sod mod 60 ≤ 59 ∧
    sod / 3600 * 3600 + sod / 60 mod 60 * 60 + sod mod 60 = sod) as (Hh & Hm & Hs & Hclock)
    by (Z.to_euclidean_division_equations; lia).
  unfold format_date, format_clock. destruct (month_of _ _ _) as [mo d] eqn:Emo.
  apply date_spec in Emo as (Hmo & Hd & Hd31 & Hdate).
  rewrite !app_assoc_string. unfold parseRFC3339.
  repeat (rewrite uint_in_pad by (simpl; lia); cbn [mbind option_bind];
    try (match goal with |- context [expect ?n ("" +:+ _)] => idtac | |- context [expect ?n (?c +:+ ?x)] =>
      change (expect n (c +:+ x)) with (Some x) end; cbn [mbind option_bind])).
  rewrite Hfrac, Hzone. cbn [mbind option_bind]. f_equal. rewrite Hdate.
  transitivity ((local - 60 * off) * Second + t mod Second).
  - pose proof (Z.div_mod local 86400 ltac:(lia)). fold sod in H. subst day. do 2 f_equal. lia.
  - subst local. rewrite Hsec. pose proof (Z.div_mod t Second ltac:(done)). lia.
Qed.

(** The years and zones that have a text. *)
Definition time_ok (off t : Z) : bool :=
  let year := year_of (unix_epoch + (t / Second + 60 * off) / 86400) in
  (0 <=? year) && (year <=? 9999) && (Z.abs off <? 1440).

Lemma MarshalTime_ok off t : time_ok off t = true → ∃ s, MarshalTime off t = Some s.
Proof. unfold time_ok, MarshalTime, fmtFrac. change (10 ^ Z.of_nat 9) with Second. intros ->. by eexists. Qed.

(** The text of a time is ASCII. *)
Fixpoint ascii_text (s : string) : bool :=
  match s with EmptyString => true | String c s' => (code c <? 128) && ascii_text s' end.

Lemma ascii_text_app s t : ascii_text (s +:+ t) = ascii_text s && ascii_text t.
Proof.
  induction s as [|c s IH]; [done|]. rewrite app_cons_string. cbn [ascii_text]. rewrite IH.
  by destruct (code c <? 128).
Qed.

Lemma ascii_text_valid s : ascii_text s = true → valid_utf8 s = true.
Proof.
  unfold valid_utf8. intros Hs. apply str_eqb_true. induction s as [|c s IH]; [done|].
  cbn in Hs. apply andb_prop in Hs as [Hc Hs]. cbn [ToValid]. rewrite Hc. f_equal. by apply IH.
Qed.

Lemma all_digits_ascii s : all_digits s → ascii_text s = true.
Proof.
  induction s as [|c s IH]; [done|]. intros [Hc Hs]%all_digits_cons. cbn [ascii_text].
  rewrite IH by done. unfold is_digit in Hc. zbool. apply andb_true_intro. split; [zbool; lia|done].
Qed.

Lemma pad_digits_ascii n z : ascii_text (pad_digits n z "") = true.
Proof. apply all_digits_ascii. by apply pad_digits_spec. Qed.

Lemma fmtFrac_ascii v n : ascii_text (fmtFrac v n).1 = true.
Proof.
  assert (Ht : ascii_text (trim_zeros (pad_digits n (v mod 10 ^ Z.of_nat n) "")) = true)
    by (by apply all_digits_ascii, trim_zeros_spec, pad_digits_spec).
  unfold fmtFrac. simpl. by destruct (trim_zeros _).
Qed.

Lemma MarshalTime_ascii off t s : MarshalTime off t = Some s → ascii_text s = true.
Proof.
  unfold MarshalTime. pose proof (fmtFrac_ascii t 9) as Hf. destruct (fmtFrac t 9) as [frac sec].
  cbn [fst] in Hf. case_match; [|done]. intros [= <-].
  unfold format_date, format_clock, format_zone. destruct (month_of _ _ _) as [mo d].
  assert (Hz : ∀ sign, ascii_text sign = true → ascii_text (sign +:+ pad_digits 2 (Z.abs off / 60) "" +:+
    ":" +:+ pad_digits 2 (Z.abs off mod 60) "") = true)
    by (intros sign Hs; by rewrite !ascii_text_app, !pad_digits_ascii, Hs).
  rewrite !ascii_text_app, !pad_digits_ascii, Hf. case_match; [done|]. rewrite Hz; [done|]. by case_match.
Qed.

(** ** [time.ParseDuration] *)

Definition two63 : Z := 2 ^ 63.

(** [leadingInt]: the digits at the front, [None] on overflow. *)
Fixpoint leadingInt (acc : Z) (s : string) : option (Z * string) :=
  match s with
  | String c s' =>
      if is_digit c then
        if two63 / 10 <? acc then None else
        let x := acc * 10 + (code c - 48) in
        if two63 <? x then None else leadingInt x s'
      else Some (acc, s)
  | EmptyString => Some (acc, s)
  end.

(** [leadingFraction]: digits past an overflow are read and ignored. *)
Fixpoint leadingFraction (overflow : bool) (x : Z) (scale : float64) (s : string) :
    Z * float64 * string :=
  match s with
  | String c s' =>
      if is_digit c then
        let y := x * 10 + (code c - 48) in
        if overflow || ((two63 - 1) / 10 <? x) || (two63 <? y) then leadingFraction true x scale s'
        else leadingFraction false y (f64_mul scale (f64_of_Z 10)) s'
      else (x, scale, s)
  | EmptyString => (x, scale, s)
  end.

(** The unit: everything before the next digit or dot. *)
Fixpoint span_unit (s : string) : string * string :=
  match s with
  | String c s' =>
      if (code c =? 46) || is_digit c then (EmptyString, s)
      else let '(u, r) := span_unit s' in (String c u, r)
  | EmptyString => (EmptyString, EmptyString)
  end.

(** [unitMap]; microseconds with either mu. *)
Definition unit_of (u : string) : option Z :=
  if u =s? "ns" then Some 1
  else if (u =s? "us") || (u =s? "µs") || (u =s? "μs") then Some 1000
  else if u =s? "ms" then Some Millisecond
  else if u =s? "s" then Some Second
  else if u =s? "m" then Some Minute
  else if u =s? "h" then Some Hour
  else None.

(** [float64(f) * (float64(unit) / scale)] as a [uint64]. *)
Definition fraction_value (f unit : Z) (scale : float64) : Z :=
  match f64_mul (f64_of_Z f) (f64_div (f64_of_Z unit) scale) with
  | S754_finite false m e => if e <? 0 then Z.pos m / 2 ^ (- e) else Z.pos m * 2 ^ e
  | _ => 0
  end.

(** One number with its unit, as nanoseconds: the body of the loop. *)
Definition duration_part (orig s : string) : error + Z * string :=
  let invalid := PlainError ("time: invalid duration " +:+ Quote orig) in
  if negb (first_is 46 s || match s with String c _ => is_digit c | "" => false end) then inl invalid else
  match leadingInt 0 s with
  | None => inl invalid
  | Some (v, s1) =>
      let pre := negb (String.length s1 =? String.length s)%nat in
      let '(f, scale, post, s2) :=
        if first_is 46 s1 then
          let r := rest_of s1 in
          let '(f, scale, s2) := leadingFraction false 0 (f64_of_Z 1) r in
          (f, scale, negb (String.length s2 =? String.length r)%nat, s2)
        else (0, f64_of_Z 1, false, s1) in
      if negb pre && negb post then inl invalid else
      let '(u, s3) := span_unit s2 in
      if u =s? "" then inl (PlainError ("time: missing unit in duration " +:+ Quote orig)) else
      match unit_of u with
      | None => inl (PlainError ("time: unknown unit " +:+ Quote u +:+ " in duration " +:+ Quote orig))
      | Some unit =>
          if two63 / unit <? v then inl invalid else
          let v := v * unit in
          if 0 <? f then
            let v := v + fraction_value f unit scale in
            if two63 <? v then inl invalid else inr (v, s3)
          else inr (v, s3)
      end
  end.

(** The loop; every part consumes a character. *)
Fixpoint duration_parts (fuel : nat) (orig : string) (d : Z) (s : string) : error + Z :=
  match s, fuel with
  | EmptyString, _ => inr d
  | _, O => inl (PlainError "out of fuel")
  | _, S fuel =>
      match duration_part orig s with
      | inl e => inl e
      | inr (v, s') =>
          let d := (d + v) mod 2 ^ 64 in
          if two63 <? d then inl (PlainError ("time: invalid duration " +:+ Quote orig))
          else duration_parts fuel orig d s'
      end
  end.

Definition ParseDuration (orig : string) : error + Z :=
  let invalid := PlainError ("time: invalid duration " +:+ Quote orig) in
  let '(neg, s) :=
    if first_is 45 orig then (true, rest_of orig)
    else if first_is 43 orig then (false, rest_of orig) else (false, orig) in
  if s =s? "0" then inr 0 else
  if s =s? "" then inl invalid else
  match duration_parts (String.length s) orig 0 s with
  | inl e => inl e
  | inr d =>
      if neg then inr (- d) else
      if two63 - 1 <? d then inl invalid else inr d
  end.

Example ParseDuration_examples :
  (ParseDuration "1h15m30.918s", ParseDuration "-1.5h", ParseDuration "90", ParseDuration "90s",
   ParseDuration "1.5.s", ParseDuration "9223372036854775807ns", ParseDuration "9223372036854775808ns",
   ParseDuration "-9223372036854775808ns") =
  (inr 4530918000000, inr (-5400000000000),
   inl (PlainError ("time: missing unit in duration " +:+ Quote "90")), inr (90 * Second),
   inl (PlainError ("time: missing unit in duration " +:+ Quote "1.5.s")), inr MaxInt64,
   inl (PlainError ("time: invalid duration " +:+ Quote "9223372036854775808ns")), inr MinInt64).
Proof. by vm_compute. Qed.

Lemma leadingInt_length acc s x r : leadingInt acc s = Some (x, r) → (String.length r ≤ String.length s)%nat.
Proof.
  revert acc. induction s as [|c s IH]; intros acc; cbn [leadingInt]; [by intros [= _ <-]|].
  repeat case_match; try done; [|by intros [= _ <-]]. intros Hl%IH. simpl. lia.
Qed.

Lemma leadingFraction_length o x sc s y sc' r :
  leadingFraction o x sc s = (y, sc', r) → (String.length r ≤ String.length s)%nat.
Proof.
  revert o x sc. induction s as [|c s IH]; intros o x sc; cbn [leadingFraction]; [by intros [= _ _ <-]|].
  repeat case_match; [..|by intros [= _ _ <-]]; intros Hl%IH; simpl; lia.
Qed.

Lemma span_unit_length s u r : span_unit s = (u, r) →
  String.length s = (String.length u + String.length r)%nat.
Proof.
  revert u r. induction s as [|c s IH]; intros u r; cbn [span_unit]; [by intros [= <- <-]|].
  case_match; [by intros [= <- <-]|]. destruct (span_unit s) as [u' r'].
  intros [= <- <-]. simpl. by rewrite (IH _ _ eq_refl).
Qed.

Lemma duration_part_shorter orig s v r : duration_part orig s = inr (v, r) →
  (String.length r < String.length s)%nat.
Proof.
  unfold duration_part. cbv zeta. case_match; [done|].
  destruct (leadingInt 0 s) as [[x s1]|] eqn:E1; [|done]. apply leadingInt_length in E1.
  destruct (if first_is 46 s1 then _ else _) as [[[f sc] post] s2] eqn:E2.
  assert (Hs2 : (String.length s2 ≤ String.length s1)%nat).
  { destruct (first_is 46 s1); [|by injection E2 as _ _ _ <-].
    destruct (leadingFraction _ _ _ _) as [[y sc'] r'] eqn:E3. apply leadingFraction_length in E3.
    injection E2 as _ _ _ <-. destruct s1; simpl in *; lia. }
  clear E2. destruct (negb _ && negb post); [done|]. destruct (span_unit s2) as [u s3] eqn:E3. apply span_unit_length in E3.
  destruct (u =s? "") eqn:Eu; [done|]. apply str_eqb_false in Eu. destruct u as [|c u]; [done|].
  simpl in E3. intros Hr. repeat case_match; try done; injection Hr as _ <-; lia.
Qed.

(** The fuel is enough: more of it changes nothing. *)
Lemma duration_parts_fuel n m orig d s :
  (String.length s ≤ n)%nat → (String.length s ≤ m)%nat →
  duration_parts n orig d s = duration_parts m orig d s.
Proof.
  revert m d s. induction n as [|n IH]; intros m d s Hn Hm; [by destruct s; [destruct m|simpl in Hn; lia]|].
  destruct s as [|c s]; [by destruct m|]. destruct m as [|m]; [simpl in Hm; lia|].
  cbn [duration_parts]. destruct (duration_part orig (String c s)) as [e|[v r]] eqn:E; [done|].
  apply duration_part_shorter in E. simpl in *. case_match; [done|]. apply IH; lia.
Qed.

(** A whole number with a unit. *)
Lemma digits_val_le acc d : all_digits d → 0 ≤ acc → acc ≤ digits_val acc d.
Proof.
  revert acc. induction d as [|c d IH]; intros acc Hd Ha; [done|]. apply all_digits_cons in Hd as [Hc Hd].
  unfold is_digit in Hc. zbool. cbn [digits_val].
  pose proof (IH (acc * 10 + (code c - 48)) Hd ltac:(lia)). lia.
Qed.

Lemma leadingInt_digits d r acc : all_digits d → delimited r = true → 0 ≤ acc →
  digits_val acc d ≤ two63 → leadingInt acc (d +:+ r) = Some (digits_val acc d, r).
Proof.
  revert acc. induction d as [|c d IH]; intros acc Hd Hr Ha Hv.
  - change ("" +:+ r) with r. destruct r as [|c r]; [done|]. cbn in *. zbool.
    match goal with H : is_digit c = false |- _ => by rewrite H end.
  - apply all_digits_cons in Hd as [Hc Hd]. rewrite app_cons_string. cbn [leadingInt digits_val] in *.
    rewrite Hc. unfold is_digit in Hc. zbool.
    pose proof (digits_val_le (acc * 10 + (code c - 48)) d Hd ltac:(lia)). unfold two63 in *.
    replace (2 ^ 63 / 10 <? acc) with false by (symmetry; apply Z.ltb_ge, Z.div_le_lower_bound; lia).
    replace (2 ^ 63 <? acc * 10 + (code c - 48)) with false by lia. apply IH; [done|done|lia|lia].
Qed.

Definition whole_units : list (string * Z) :=
  [("ns", 1); ("ms", Millisecond); ("s", Second); ("m", Minute); ("h", Hour)].

Lemma whole_unit u unit : (u, unit) ∈ whole_units →
  u ≠ "" ∧ 0 < unit ∧ unit_of u = Some unit ∧ span_unit u = (u, "") ∧ first_is 46 u = false ∧ delimited u = true.
Proof. unfold whole_units. rewrite !elem_of_cons, elem_of_nil. by intros Hu; destruct_or! Hu; simplify_eq. Qed.

Lemma digits_shape n : 0 ≤ n → ∃ c t, fmt_d n = String c t ∧ all_digits (String c t) ∧ digits_val 0 (String c t) = n.
Proof.
  intros Hn. destruct (fmt_d_shape n) as (sign & d & Ed & Hmi & Hd & Hf & Hv).
  assert (sign = "") as ->.
  { destruct (sign =s? "") eqn:Es; [by apply str_eqb_true in Es|].
    pose proof (digits_val_le 0 d Hd ltac:(lia)). assert (n = 0) as -> by lia. by injection Hmi as <- <-. }
  rewrite str_eqb_refl in Hv. change ("" +:+ d) with d in Ed. rewrite Ed.
  destruct Hf as [->|(c & t & -> & _)]; by eexists _, _.
Qed.

Lemma duration_part_whole orig n u unit :
  0 ≤ n → n * unit ≤ MaxInt64 → (u, unit) ∈ whole_units →
  duration_part orig (fmt_d n +:+ u) = inr (n * unit, "").
Proof.
  intros Hn Hm Hu. destruct (whole_unit _ _ Hu) as (Hne & Hpos & Hunit & Hspan & Hdot & Hdel).
  destruct (digits_shape n Hn) as (c & t & E & Hd & Hv). rewrite E.
  pose proof Hd as [Hc _]%all_digits_cons. unfold duration_part. cbv zeta.
  rewrite (leadingInt_digits _ _ 0 Hd Hdel) by (unfold two63, MaxInt64 in *; nia).
  rewrite Hdot, Hspan, Hv, Hunit. rewrite app_cons_string. cbn [first_is]. rewrite Hc, orb_true_r. cbn [negb].
  apply str_eqb_false in Hne. rewrite Hne.
  replace (String.length u =? _)%nat with false
    by (symmetry; apply Nat.eqb_neq; simpl; rewrite length_app_string; lia).
  cbn [negb andb]. change (0 <? 0) with false. cbv iota.
  replace (two63 / unit <? n) with false; [done|]. symmetry. apply Z.ltb_ge, Z.div_le_lower_bound; [done|].
  unfold two63, MaxInt64 in *. lia.
Qed.

(** A whole number of a unit is read as written. *)
Lemma ParseDuration_whole n u unit :
  0 ≤ n → n * unit ≤ MaxInt64 → (u, unit) ∈ whole_units →
  ParseDuration (fmt_d n +:+ u) = inr (n * unit).
Proof.
  intros Hn Hm Hu. pose proof (λ o, duration_part_whole o n u unit Hn Hm Hu) as Hp.
  destruct (whole_unit _ _ Hu) as (Hne & Hpos & _).
  destruct (digits_shape n Hn) as (c & t & E & Hd & _). rewrite E, app_cons_string in *.
  apply all_digits_cons in Hd as [Hc _]. unfold is_digit in Hc. zbool.
  unfold ParseDuration. cbn [first_is]. replace (code c =? 45) with false by lia.
  replace (code c =? 43) with false by lia. set (s := String c (t +:+ u)) in *.
  assert (Hs0 : s ≠ "0").
  { intros [= _ Et]. apply Hne. apply (f_equal String.length) in Et. rewrite length_app_string in Et.
    destruct u; [done|simpl in Et; lia]. }
  apply str_eqb_false in Hs0. rewrite Hs0. change (s =s? "") with false. cbv iota.
  assert (Hl : duration_parts (String.length s) s 0 s = inr (n * unit)).
  { rewrite (duration_parts_fuel _ (S (String.length s))) by lia. subst s. cbn [duration_parts].
    rewrite Hp. rewrite Z.mod_small by (unfold MaxInt64 in *; nia).
    replace (two63 <? 0 + n * unit) with false by (unfold two63, MaxInt64 in *; lia).
    by destruct (String.length _). }
  rewrite Hl. by replace (two63 - 1 <? n * unit) with false by (unfold two63, MaxInt64 in *; lia).
Qed.
