(* ===== verification/Cluster.v ===== *)
(** The outside world of the operator: the Kubernetes API behind
    controller-runtime's [client.Client], the clock, and the interface of the
    MCP registrar.

    None of this is code of the repository.  Each service is a class of
    operations over an abstract world [W]; a second class states the documented
    behaviour the proofs rely on.  The operator's components are written and
    verified against these classes, and [RefWorld.v] gives an executable
    instance. *)
From S2P Require Import Prelude Types Objects GoFloat Enforcer.

(** ** Objects of the API server *)

Inductive Kind :=
  | KAgentDeployment | KTenantQuota | KDeployment | KService | KHPA
  | KHTTPRoute | KServiceMonitor | KConfigMap | KPod | KCRD.

#[export] Instance Kind_eq_dec : EqDecision Kind.
Proof. solve_decision. Defined.
#[export] Instance Kind_countable : Countable Kind.
Proof.
  refine (inj_countable'
    (λ k, match k with
      | KAgentDeployment => 0 | KTenantQuota => 1 | KDeployment => 2 | KService => 3
      | KHPA => 4 | KHTTPRoute => 5 | KServiceMonitor => 6 | KConfigMap => 7
      | KPod => 8 | KCRD => 9 end%nat)
    (λ n, match n with
      | 0 => KAgentDeployment | 1 => KTenantQuota | 2 => KDeployment | 3 => KService
      | 4 => KHPA | 5 => KHTTPRoute | 6 => KServiceMonitor | 7 => KConfigMap
      | 8 => KPod | _ => KCRD end%nat) _).
  by intros [].
Defined.

Notation ObjKey := (Kind * NamespacedName)%type.

Section objects.
Context `{CoreTypes}.

Inductive Object :=
  | OAgentDeployment (x : AgentDeployment)
  | OTenantQuota (x : TenantQuota)
  | ODeployment (x : Deployment)
  | OService (x : Service)
  | OHPA (x : HorizontalPodAutoscaler)
  | OHTTPRoute (x : HTTPRoute)
  | OServiceMonitor (x : ServiceMonitor)
  | OConfigMap (x : ConfigMap)
  | OPod (x : Pod)
  | OCRD (x : ObjectMeta).

Definition obj_kind (o : Object) : Kind :=
  match o with
  | OAgentDeployment _ => KAgentDeployment | OTenantQuota _ => KTenantQuota
  | ODeployment _ => KDeployment | OService _ => KService | OHPA _ => KHPA
  | OHTTPRoute _ => KHTTPRoute | OServiceMonitor _ => KServiceMonitor
  | OConfigMap _ => KConfigMap | OPod _ => KPod | OCRD _ => KCRD
  end.

Definition obj_meta (o : Object) : ObjectMeta :=
  match o with
  | OAgentDeployment x => ad_Meta x | OTenantQuota x => tq_Meta x
  | ODeployment x => dep_Meta x | OService x => svc_Meta x | OHPA x => hpa_Meta x
  | OHTTPRoute x => hr_Meta x | OServiceMonitor x => sm_Meta x
  | OConfigMap x => cm_Meta x | OPod x => pod_Meta x | OCRD x => x
  end.

Definition obj_key (o : Object) : ObjKey := (obj_kind o, om_key (obj_meta o)).

Definition dep_set_meta (m : ObjectMeta) (d : Deployment) : Deployment :=
  {| dep_Meta := m; dep_Replicas := dep_Replicas d; dep_Selector := dep_Selector d;
     dep_TemplateLabels := dep_TemplateLabels d; dep_Containers := dep_Containers d;
     dep_Status := dep_Status d |}.
Definition dep_set_status (s : DeploymentStatus) (d : Deployment) : Deployment :=
  {| dep_Meta := dep_Meta d; dep_Replicas := dep_Replicas d; dep_Selector := dep_Selector d;
     dep_TemplateLabels := dep_TemplateLabels d; dep_Containers := dep_Containers d;
     dep_Status := s |}.
Definition svc_set_meta (m : ObjectMeta) (s : Service) : Service :=
  {| svc_Meta := m; svc_Selector := svc_Selector s; svc_Ports := svc_Ports s;
     svc_Type := svc_Type s |}.
Definition hpa_set_meta (m : ObjectMeta) (h : HorizontalPodAutoscaler) : HorizontalPodAutoscaler :=
  {| hpa_Meta := m; hpa_ScaleTargetRef := hpa_ScaleTargetRef h;
     hpa_MinReplicas := hpa_MinReplicas h; hpa_MaxReplicas := hpa_MaxReplicas h;
     hpa_Metrics := hpa_Metrics h; hpa_Behavior := hpa_Behavior h |}.
Definition hr_set_meta (m : ObjectMeta) (r : HTTPRoute) : HTTPRoute :=
  {| hr_Meta := m; hr_Spec := hr_Spec r |}.
Definition sm_set_meta (m : ObjectMeta) (s : ServiceMonitor) : ServiceMonitor :=
  {| sm_Meta := m; sm_Spec := sm_Spec s |}.
Definition cm_set_meta (m : ObjectMeta) (c : ConfigMap) : ConfigMap :=
  {| cm_Meta := m; cm_Data := cm_Data c |}.
Definition tq_set_meta (m : ObjectMeta) (t : TenantQuota) : TenantQuota :=
  {| tq_Meta := m; tq_Spec := tq_Spec t; tq_Status := tq_Status t |}.
Definition tq_set_status (s : TenantQuotaStatus) (t : TenantQuota) : TenantQuota :=
  {| tq_Meta := tq_Meta t; tq_Spec := tq_Spec t; tq_Status := s |}.
Definition pod_set_meta (m : ObjectMeta) (p : Pod) : Pod :=
  {| pod_Meta := m; pod_ContainerStatuses := pod_ContainerStatuses p;
     pod_InitContainerStatuses := pod_InitContainerStatuses p |}.

Definition obj_set_meta (m : ObjectMeta) (o : Object) : Object :=
  match o with
  | OAgentDeployment x => OAgentDeployment (with_meta m x)
  | OTenantQuota x => OTenantQuota (tq_set_meta m x)
  | ODeployment x => ODeployment (dep_set_meta m x)
  | OService x => OService (svc_set_meta m x)
  | OHPA x => OHPA (hpa_set_meta m x)
  | OHTTPRoute x => OHTTPRoute (hr_set_meta m x)
  | OServiceMonitor x => OServiceMonitor (sm_set_meta m x)
  | OConfigMap x => OConfigMap (cm_set_meta m x)
  | OPod x => OPod (pod_set_meta m x)
  | OCRD _ => OCRD m
  end.

(** *** What the API server does with a write *)

(** [metav1.Time] is stored with second resolution. *)
Definition wire_time (t : Z) : Z := t / Second * Second.

Definition wire_status (s : AgentDeploymentStatus) : AgentDeploymentStatus :=
  set_PauseStartedAt (wire_time <$> st_PauseStartedAt s)
    (set_PromUnreachableSince (wire_time <$> st_PromUnreachableSince s) s).

Definition stamp (rv : string) (gen : Z) (o : Object) : Object :=
  obj_set_meta (om_set_server rv gen (obj_meta o)) o.

(** An update of the main resource leaves the status subresource alone. *)
Definition keep_status (old new : Object) : Object :=
  match old, new with
  | OAgentDeployment a, OAgentDeployment b => OAgentDeployment (with_status (ad_Status a) b)
  | OTenantQuota a, OTenantQuota b => OTenantQuota (tq_set_status (tq_Status a) b)
  | ODeployment a, ODeployment b => ODeployment (dep_set_status (dep_Status a) b)
  | _, _ => new
  end.

(** A status update changes nothing but the status. *)
Definition take_status (old new : Object) : Object :=
  match old, new with
  | OAgentDeployment a, OAgentDeployment b =>
      OAgentDeployment (with_status (wire_status (ad_Status b)) a)
  | OTenantQuota a, OTenantQuota b => OTenantQuota (tq_set_status (tq_Status b) a)
  | _, _ => old
  end.

(** An object marked for deletion disappears with its last finalizer. *)
Definition collectable (o : Object) : bool :=
  match om_DeletionTimestamp (obj_meta o), om_Finalizers (obj_meta o) with
  | Some _, [] => true
  | _, _ => false
  end.

(** A kind of object as a Go type. *)
Class Resource (A : Type) := {
  kind : Kind;
  inj : A → Object;
  prj : Object → option A;
  res_meta : A → ObjectMeta;
  res_set_meta : ObjectMeta → A → A;
  prj_inj : ∀ a, prj (inj a) = Some a;
  inj_prj : ∀ o a, prj o = Some a → o = inj a;
  kind_inj : ∀ a, obj_kind (inj a) = kind;
  meta_inj : ∀ a, obj_meta (inj a) = res_meta a;
  inj_kind : ∀ o, obj_kind o = kind → ∃ a, o = inj a;
  set_meta_inj : ∀ m a, obj_set_meta m (inj a) = inj (res_set_meta m a);
  (** the typed counterparts of [keep_status] and [take_status] *)
  res_keep : A → A → A;
  res_take : A → A → A;
  keep_inj : ∀ a b, keep_status (inj a) (inj b) = inj (res_keep a b);
  take_inj : ∀ a b, take_status (inj a) (inj b) = inj (res_take a b);
}.

Ltac resource_law := try done; by intros []; naive_solver.

#[export] Program Instance AgentDeployment_resource : Resource AgentDeployment := {|
  kind := KAgentDeployment; inj := OAgentDeployment;
  prj o := match o with OAgentDeployment x => Some x | _ => None end;
  res_meta := ad_Meta; res_set_meta := with_meta;
  res_keep := λ a b, with_status (ad_Status a) b;
  res_take := λ a b, with_status (wire_status (ad_Status b)) a |}.
Solve All Obligations with resource_law.
#[export] Program Instance TenantQuota_resource : Resource TenantQuota := {|
  kind := KTenantQuota; inj := OTenantQuota;
  prj o := match o with OTenantQuota x => Some x | _ => None end;
  res_meta := tq_Meta; res_set_meta := tq_set_meta;
  res_keep := λ a b, tq_set_status (tq_Status a) b;
  res_take := λ a b, tq_set_status (tq_Status b) a |}.
Solve All Obligations with resource_law.
#[export] Program Instance Deployment_resource : Resource Deployment := {|
  kind := KDeployment; inj := ODeployment;
  prj o := match o with ODeployment x => Some x | _ => None end;
  res_meta := dep_Meta; res_set_meta := dep_set_meta;
  res_keep := λ a b, dep_set_status (dep_Status a) b;
  res_take := λ a b, a |}.
Solve All Obligations with resource_law.
#[export] Program Instance Service_resource : Resource Service := {|
  kind := KService; inj := OService;
  prj o := match o with OService x => Some x | _ => None end;
  res_meta := svc_Meta; res_set_meta := svc_set_meta;
  res_keep := λ a b, b;
  res_take := λ a b, a |}.
Solve All Obligations with resource_law.
#[export] Program Instance HPA_resource : Resource HorizontalPodAutoscaler := {|
  kind := KHPA; inj := OHPA;
  prj o := match o with OHPA x => Some x | _ => None end;
  res_meta := hpa_Meta; res_set_meta := hpa_set_meta;
  res_keep := λ a b, b;
  res_take := λ a b, a |}.
Solve All Obligations with resource_law.
#[export] Program Instance HTTPRoute_resource : Resource HTTPRoute := {|
  kind := KHTTPRoute; inj := OHTTPRoute;
  prj o := match o with OHTTPRoute x => Some x | _ => None end;
  res_meta := hr_Meta; res_set_meta := hr_set_meta;
  res_keep := λ a b, b;
  res_take := λ a b, a |}.
Solve All Obligations with resource_law.
#[export] Program Instance ServiceMonitor_resource : Resource ServiceMonitor := {|
  kind := KServiceMonitor; inj := OServiceMonitor;
  prj o := match o with OServiceMonitor x => Some x | _ => None end;
  res_meta := sm_Meta; res_set_meta := sm_set_meta;
  res_keep := λ a b, b;
  res_take := λ a b, a |}.
Solve All Obligations with resource_law.
#[export] Program Instance ConfigMap_resource : Resource ConfigMap := {|
  kind := KConfigMap; inj := OConfigMap;
  prj o := match o with OConfigMap x => Some x | _ => None end;
  res_meta := cm_Meta; res_set_meta := cm_set_meta;
  res_keep := λ a b, b;
  res_take := λ a b, a |}.
Solve All Obligations with resource_law.
#[export] Program Instance Pod_resource : Resource Pod := {|
  kind := KPod; inj := OPod;
  prj o := match o with OPod x => Some x | _ => None end;
  res_meta := pod_Meta; res_set_meta := pod_set_meta;
  res_keep := λ a b, b;
  res_take := λ a b, a |}.
Solve All Obligations with resource_law.
#[export] Program Instance CRD_resource : Resource ObjectMeta := {|
  kind := KCRD; inj := OCRD;
  prj o := match o with OCRD x => Some x | _ => None end;
  res_meta := id; res_set_meta := λ m _, m;
  res_keep := λ a b, b;
  res_take := λ a b, a |}.
Solve All Obligations with resource_law.
End objects.

(** ** controller-runtime's client *)

Class KubeClient `{CoreTypes} (W : Type) := {
  (** the objects the API server holds *)
  store : W → gmap ObjKey Object;
  kube_get : ObjKey → Proc W Object;
  kube_list : Kind → string → Proc W (list Object);
  kube_create : Object → Proc W Object;
  kube_update : Object → Proc W Object;
  kube_status_update : Object → Proc W Object;
  kube_delete : Object → Proc W unit;
  (** [controllerutil.CreateOrUpdate(ctx, c, obj, mutate)] *)
  kube_create_or_update : Object → (Object → error + Object) → Proc W unit;
  (** [controllerutil.SetControllerReference(ad, obj, scheme)] on metadata *)
  set_controller_reference : AgentDeployment → ObjectMeta → error + ObjectMeta;
  (** [time.Now()] *)
  clock : W → Z;
}.

(** The documented behaviour of the calls.  A call that returns an error had
    no effect; a call may fail for any reason at any time. *)
Class KubeLaws `{KubeClient W} : Prop := {
  store_key w k o : store w !! k = Some o → obj_key o = k;
  store_stored w k o : store w !! k = Some o → om_ResourceVersion (obj_meta o) ≠ "";
  store_live w k o : store w !! k = Some o → collectable o = false;
  kube_get_spec k w r w' : kube_get k w = (r, w') →
    store w' = store w ∧
    match r with
    | inr o => store w !! k = Some o
    | inl e => IsNotFound e = true → store w !! k = None
    end;
  kube_list_spec kd ns w r w' : kube_list kd ns w = (r, w') →
    store w' = store w ∧
    match r with
    | inr l => NoDup (obj_key <$> l) ∧
        ∀ o, o ∈ l ↔ store w !! obj_key o = Some o ∧
          obj_kind o = kd ∧ om_Namespace (obj_meta o) = ns
    | inl _ => True
    end;
  kube_create_spec o w r w' : kube_create o w = (r, w') →
    match r with
    | inr o' => store w !! obj_key o = None ∧
        ∃ rv gen, rv ≠ "" ∧ o' = stamp rv gen o ∧ store w' = <[obj_key o := o']> (store w)
    | inl _ => store w' = store w
    end;
  kube_update_spec o w r w' : kube_update o w = (r, w') →
    match r with
    | inr o' => ∃ old rv gen, store w !! obj_key o = Some old ∧ rv ≠ "" ∧
        o' = stamp rv gen (keep_status old o) ∧
        store w' = (if collectable o' then delete (obj_key o) (store w)
                    else <[obj_key o := o']> (store w))
    | inl _ => store w' = store w
    end;
  kube_status_update_spec o w r w' : kube_status_update o w = (r, w') →
    match r with
    | inr o' => ∃ old rv, store w !! obj_key o = Some old ∧ rv ≠ "" ∧
        o' = stamp rv (om_Generation (obj_meta old)) (take_status old o) ∧
        store w' = <[obj_key o := o']> (store w)
    | inl _ => store w' = store w
    end;
  kube_delete_spec o w r w' : kube_delete o w = (r, w') →
    match r with
    | inr _ =>
        (∀ k, k ≠ obj_key o → store w' !! k = store w !! k) ∧
        ((∀ o0, store w !! obj_key o = Some o0 → om_Finalizers (obj_meta o0) = []) →
          store w' = delete (obj_key o) (store w))
    | inl e => store w' = store w ∧ (IsNotFound e = true → store w !! obj_key o = None)
    end;
  kube_create_or_update_spec o f w r w' : kube_create_or_update o f w = (r, w') →
    match r with
    | inr _ => ∃ o1 rv gen, f (default o (store w !! obj_key o)) = inr o1 ∧
        obj_key o1 = obj_key o ∧ rv ≠ "" ∧
        store w' = <[obj_key o := stamp rv gen o1]> (store w)
    | inl _ => store w' = store w
    end;
  set_controller_reference_spec ad m m' : set_controller_reference ad m = inr m' →
    m' = om_set_controller (Some (ad_Name ad)) m;
}.

(** ** Typed calls, as the source writes them *)
Section calls.
Context `{KubeClient W}.

Definition Now : Proc W Z := λ w, (inr (clock w), w).

Definition lift_sum {A} (x : error + A) : Proc W A := λ w, (x, w).

Definition of_object `{!Resource A} (o : Object) : Proc W A :=
  match prj o with
  | Some a => mret a
  | None => fail (PlainError "unexpected object type")
  end.

(** [c.Get(ctx, key, obj)]. *)
Definition Get {A} `{!Resource A} (k : NamespacedName) : Proc W A :=
  kube_get (kind (A := A), k) ≫= of_object.

(** [c.List(ctx, list, client.InNamespace(ns))]. *)
Definition List {A} `{!Resource A} (ns : string) : Proc W (list A) :=
  l ← kube_list (kind (A := A)) ns; mret (omap prj l).

Definition Create {A} `{!Resource A} (a : A) : Proc W A := kube_create (inj a) ≫= of_object.
Definition Update {A} `{!Resource A} (a : A) : Proc W A := kube_update (inj a) ≫= of_object.
Definition StatusUpdate {A} `{!Resource A} (a : A) : Proc W A :=
  kube_status_update (inj a) ≫= of_object.
Definition Delete {A} `{!Resource A} (a : A) : Proc W unit := kube_delete (inj a).

(** [controllerutil.CreateOrUpdate] with a typed mutate function. *)
Definition CreateOrUpdate {A} `{!Resource A} (a : A) (f : A → error + A) : Proc W unit :=
  kube_create_or_update (inj a) (λ o,
    match prj o with
    | None => inl (PlainError "unexpected object type")
    | Some x => match f x with inl e => inl e | inr y => inr (inj y) end
    end).

Definition SetControllerReference {A} `{!Resource A} (ad : AgentDeployment) (a : A) : error + A :=
  match set_controller_reference ad (res_meta a) with
  | inl e => inl e
  | inr m => inr (res_set_meta m a)
  end.
End calls.

(** ** Specifications of the typed calls *)
Section call_specs.
Context `{KubeLaws}.
Context {A : Type} `{!Resource A}.
Implicit Types (a b : A) (w : W) (k : NamespacedName).

Definition rkey (a : A) : ObjKey := obj_key (inj a).

Lemma rkey_eq a : rkey a = (kind (A := A), om_key (res_meta a)).
Proof. unfold rkey, obj_key. by rewrite kind_inj, meta_inj. Qed.

Lemma Get_inr k w a w' :
  Get k w = (inr a, w') → store w' = store w ∧ store w !! (kind (A := A), k) = Some (inj a).
Proof.
  unfold Get. intros (o & w1 & Hg & Ho)%bind_inr.
  apply kube_get_spec in Hg as [Hw Ho1]. unfold of_object in Ho.
  destruct (prj o) as [x|] eqn:E; unfold mret, Proc_ret, fail in Ho; simplify_eq.
  apply inj_prj in E as ->. auto.
Qed.

Lemma Get_inl k w e w' :
  Get (A := A) k w = (inl e, w') →
  store w' = store w ∧ (IsNotFound e = true → store w !! (kind (A := A), k) = None).
Proof.
  unfold Get. intros [Hg|(o & w1 & Hg & Ho)]%bind_inl.
  - by apply kube_get_spec in Hg.
  - apply kube_get_spec in Hg as [Hw _]. unfold of_object in Ho.
    destruct (prj o) as [x|] eqn:E; unfold mret, Proc_ret, fail in Ho; simplify_eq. done.
Qed.

Lemma Get_key k w a w' : Get k w = (inr a, w') → om_key (res_meta a) = k.
Proof.
  intros [_ Hs]%Get_inr. apply store_key in Hs.
  change (obj_key (inj a)) with (rkey a) in Hs. rewrite rkey_eq in Hs. congruence.
Qed.

(** Whatever happens, reading does not change the cluster. *)
Lemma Get_store k w r w' : Get (A := A) k w = (r, w') → store w' = store w.
Proof. destruct r; [intros [? _]%Get_inl | intros [? _]%Get_inr]; done. Qed.

Definition res_stamp (rv : string) (gen : Z) (a : A) : A :=
  res_set_meta (om_set_server rv gen (res_meta a)) a.

Lemma stamp_inj rv gen a : stamp rv gen (inj a) = inj (res_stamp rv gen a).
Proof. unfold stamp, res_stamp. by rewrite meta_inj, set_meta_inj. Qed.

Lemma of_object_inj a w : of_object (inj a) w = (inr a, w).
Proof. unfold of_object. by rewrite prj_inj. Qed.

Lemma of_object_inr o w r w' : of_object o w = (r, w') → w' = w.
Proof.
  unfold of_object. destruct (prj o); unfold mret, Proc_ret, fail; by intros [= _ ->].
Qed.

Lemma stored_typed w k o :
  store w !! (kind (A := A), k) = Some o → ∃ a, o = inj a ∧ om_key (res_meta a) = k.
Proof.
  intros Hs. apply store_key in Hs as Hk. injection Hk as Hk1 Hk2.
  apply inj_kind in Hk1 as [a ->]. exists a. by rewrite meta_inj in Hk2.
Qed.

Lemma stored_rkey w b o : store w !! rkey b = Some o → ∃ a, o = inj a ∧ rkey a = rkey b.
Proof.
  rewrite rkey_eq. intros (a & -> & Ha)%stored_typed. exists a. by rewrite rkey_eq, Ha.
Qed.

Lemma Update_inr a w a' w' :
  Update a w = (inr a', w') →
  ∃ old rv gen, store w !! rkey a = Some (inj old) ∧ rv ≠ "" ∧
    a' = res_stamp rv gen (res_keep old a) ∧
    store w' = (if collectable (inj a') then delete (rkey a) (store w)
                else <[rkey a := inj a']> (store w)).
Proof.
  unfold Update. intros (o & w1 & Hu & Ho)%bind_inr.
  apply kube_update_spec in Hu as (old & rv & gen & Hold & Hrv & -> & Hs).
  apply (stored_rkey w a) in Hold as Hold'. destruct Hold' as (old' & -> & _).
  rewrite keep_inj, stamp_inj in Ho, Hs. rewrite of_object_inj in Ho. simplify_eq. eauto 10.
Qed.

Lemma Update_inl a w e w' : Update a w = (inl e, w') → store w' = store w.
Proof.
  unfold Update. intros [Hu|(o & w1 & Hu & Ho)]%bind_inl.
  - by apply kube_update_spec in Hu.
  - apply kube_update_spec in Hu as (old & rv & gen & Hold & Hrv & -> & Hs).
    apply (stored_rkey w a) in Hold as Hold'. destruct Hold' as (old' & -> & _).
    rewrite keep_inj, stamp_inj, of_object_inj in Ho. done.
Qed.

Lemma StatusUpdate_inr a w a' w' :
  StatusUpdate a w = (inr a', w') →
  ∃ old rv, store w !! rkey a = Some (inj old) ∧ rv ≠ "" ∧
    a' = res_stamp rv (om_Generation (res_meta old)) (res_take old a) ∧
    store w' = <[rkey a := inj a']> (store w).
Proof.
  unfold StatusUpdate. intros (o & w1 & Hu & Ho)%bind_inr.
  apply kube_status_update_spec in Hu as (old & rv & Hold & Hrv & -> & Hs).
  apply (stored_rkey w a) in Hold as Hold'. destruct Hold' as (old' & -> & _).
  rewrite take_inj, meta_inj, stamp_inj in Ho, Hs. rewrite of_object_inj in Ho.
  simplify_eq. eauto 10.
Qed.

Lemma StatusUpdate_inl a w e w' : StatusUpdate a w = (inl e, w') → store w' = store w.
Proof.
  unfold StatusUpdate. intros [Hu|(o & w1 & Hu & Ho)]%bind_inl.
  - by apply kube_status_update_spec in Hu.
  - apply kube_status_update_spec in Hu as (old & rv & Hold & Hrv & -> & Hs).
    apply (stored_rkey w a) in Hold as Hold'. destruct Hold' as (old' & -> & _).
    rewrite take_inj, meta_inj, stamp_inj, of_object_inj in Ho. done.
Qed.

Lemma Create_inr a w a' w' :
  Create a w = (inr a', w') →
  store w !! rkey a = None ∧ ∃ rv gen, rv ≠ "" ∧ a' = res_stamp rv gen a ∧
    store w' = <[rkey a := inj a']> (store w).
Proof.
  unfold Create. intros (o & w1 & Hu & Ho)%bind_inr.
  apply kube_create_spec in Hu as (Hn & rv & gen & Hrv & -> & Hs).
  rewrite stamp_inj in Ho, Hs. rewrite of_object_inj in Ho. simplify_eq. eauto 10.
Qed.

Lemma Create_inl a w e w' : Create a w = (inl e, w') → store w' = store w.
Proof.
  unfold Create. intros [Hu|(o & w1 & Hu & Ho)]%bind_inl.
  - by apply kube_create_spec in Hu.
  - apply kube_create_spec in Hu as (Hn & rv & gen & Hrv & -> & Hs).
    rewrite stamp_inj, of_object_inj in Ho. done.
Qed.

Lemma CreateOrUpdate_inr a f w u w' :
  CreateOrUpdate a f w = (inr u, w') →
  ∃ base b rv gen,
    (store w !! rkey a = Some (inj base) ∨ store w !! rkey a = None ∧ base = a) ∧
    f base = inr b ∧ rkey b = rkey a ∧ rv ≠ "" ∧
    store w' = <[rkey a := inj (res_stamp rv gen b)]> (store w).
Proof.
  unfold CreateOrUpdate. intros Hc.
  apply kube_create_or_update_spec in Hc as (o1 & rv & gen & Hf & Hk & Hrv & Hs).
  fold (rkey a) in *.
  assert (∃ base, default (inj a) (store w !! rkey a) = inj base ∧
    (store w !! rkey a = Some (inj base) ∨ store w !! rkey a = None ∧ base = a))
    as (base & Hb & Hc).
  { destruct (store w !! rkey a) as [o|] eqn:E; simpl; [|eauto].
    apply stored_rkey in E as (x & -> & _). eauto. }
  rewrite Hb, prj_inj in Hf. destruct (f base) as [e|b] eqn:Hfb; simplify_eq.
  rewrite stamp_inj in Hs. eauto 12.
Qed.

Lemma CreateOrUpdate_inl a f w e w' :
  CreateOrUpdate a f w = (inl e, w') → store w' = store w.
Proof. unfold CreateOrUpdate. intros Hc. by apply kube_create_or_update_spec in Hc. Qed.

Lemma Delete_inr a w u w' :
  Delete a w = (inr u, w') →
  (∀ o, store w !! rkey a = Some o → om_Finalizers (obj_meta o) = []) →
  store w' = delete (rkey a) (store w).
Proof. unfold Delete. intros [_ Hd]%kube_delete_spec Hf. by apply Hd. Qed.

Lemma Delete_inl a w e w' :
  Delete a w = (inl e, w') →
  store w' = store w ∧ (IsNotFound e = true → store w !! rkey a = None).
Proof. unfold Delete. intros Hd. by apply kube_delete_spec in Hd. Qed.

Lemma omap_prj_inj (l : list A) : omap prj (inj <$> l) = l.
Proof. induction l as [|x l IH]; simpl; [done|]. rewrite prj_inj; simpl. by f_equal. Qed.

Lemma List_inr ns w (l : list A) w' :
  List ns w = (inr l, w') →
  store w' = store w ∧ NoDup (rkey <$> l) ∧
  ∀ a, a ∈ l ↔ store w !! rkey a = Some (inj a) ∧ om_Namespace (res_meta a) = ns.
Proof.
  unfold List. intros (os & w1 & Hl & Hr)%bind_inr. injection Hr as <- <-.
  apply kube_list_spec in Hl as (Hs & Hnd & Hin).
  assert (∃ l, os = inj <$> l) as [l ->].
  { assert (Hk : ∀ o, o ∈ os → obj_kind o = kind (A := A)) by (intros o Ho; by apply Hin in Ho as (_ & ? & _)).
    clear Hnd Hin. induction os as [|o os IH]; [by exists []|].
    destruct (inj_kind o) as [a ->]; [apply Hk; set_solver|].
    destruct IH as [l ->]; [set_solver|]. by exists (a :: l). }
  rewrite omap_prj_inj. split; [done|]. split.
  - by rewrite <- list_fmap_compose in Hnd.
  - intros a. transitivity (inj a ∈ inj <$> l).
    + rewrite list_elem_of_fmap. split; [by eauto|]. intros (x & Hx & ?).
      apply (f_equal prj) in Hx. rewrite !prj_inj in Hx. by injection Hx as ->.
    + rewrite Hin, kind_inj, meta_inj. unfold rkey. naive_solver.
Qed.
End call_specs.

(** ** The shared quota enforcer

    The webhook and the TenantQuota reconciler hold the same [*Enforcer]; its
    state is part of the world. *)
Class SharedEnforcer (W : Type) := {
  enforcer : W → Enforcer;
  set_enforcer : Enforcer → W → W;
}.

(** The enforcer is a cell of its own: writing it touches neither the cluster
    nor the clock, and the API client does not touch it. *)
Class SharedEnforcerLaws `{KubeClient W, !SharedEnforcer W} : Prop := {
  enforcer_set e w : enforcer (set_enforcer e w) = e;
  store_set_enforcer e w : store (set_enforcer e w) = store w;
  kube_get_enforcer k w r w' : kube_get k w = (r, w') → enforcer w' = enforcer w;
  kube_list_enforcer kd ns w r w' : kube_list kd ns w = (r, w') → enforcer w' = enforcer w;
  kube_status_update_enforcer o w r w' :
    kube_status_update o w = (r, w') → enforcer w' = enforcer w;
}.

(** The gauge [observability.QuotaUsageRatio]: one series per label value. *)
Class UsageGauge (W : Type) := {
  gauge : W → gmap string float64;
  set_gauge : gmap string float64 → W → W;
}.

Class UsageGaugeLaws `{KubeClient W, !SharedEnforcer W, !UsageGauge W} : Prop := {
  gauge_set g w : gauge (set_gauge g w) = g;
  store_set_gauge g w : store (set_gauge g w) = store w;
  enforcer_set_gauge g w : enforcer (set_gauge g w) = enforcer w;
  gauge_set_enforcer e w : gauge (set_enforcer e w) = gauge w;
  kube_get_gauge k w r w' : kube_get k w = (r, w') → gauge w' = gauge w;
  kube_list_gauge kd ns w r w' : kube_list kd ns w = (r, w') → gauge w' = gauge w;
  kube_status_update_gauge o w r w' :
    kube_status_update o w = (r, w') → gauge w' = gauge w;
}.

#[export] Hint Rewrite @enforcer_set @store_set_enforcer : agentrax.

Section enforcer_lemmas.
Context `{SharedEnforcerLaws}.

Lemma Get_enforcer {A} `{!Resource A} k w r w' :
  Get (A := A) k w = (r, w') → enforcer w' = enforcer w.
Proof.
  unfold Get. destruct r as [e|a].
  - intros [Hg|(o & w1 & Hg & Ho)]%bind_inl; [by eapply kube_get_enforcer|].
    apply of_object_inr in Ho as ->. by eapply kube_get_enforcer.
  - intros (o & w1 & Hg & Ho)%bind_inr.
    apply of_object_inr in Ho as ->. by eapply kube_get_enforcer.
Qed.
End enforcer_lemmas.
