(* ===== verification/Http.v ===== *)
(** What the program's two HTTP clients use of Go's standard library: URLs and
    query strings ([net/url]), requests and responses ([net/http]), and the
    bounded reading of bodies ([io]).

    Sending a request is the class [HTTPClient]; [url.Parse] is its
    [url_Parse]. *)
From S2P Require Import Prelude Types Objects GoFloat Enforcer Cluster Json.

(** ** Query strings, [net/url] *)

Definition is_alnum (c : Ascii.ascii) : bool :=
  is_digit c || ((97 <=? lower c) && (lower c <=? 122)).

(** [shouldEscape] of a query component: all but letters, digits and [-_.~]. *)
Definition shouldEscape (c : Ascii.ascii) : bool :=
  negb (is_alnum c || (code c =? 45) || (code c =? 95) || (code c =? 46) || (code c =? 126)).

Definition upper_hex (n : Z) : Ascii.ascii := chr (if n <? 10 then 48 + n else 55 + n).

Fixpoint QueryEscape (s : string) : string :=
  match s with
  | EmptyString => EmptyString
  | String c s' =>
      if shouldEscape c then
        if code c =? 32 then String (chr 43) (QueryEscape s')
        else String (chr 37) (String (upper_hex (code c / 16)) (String (upper_hex (code c mod 16))
          (QueryEscape s')))
      else String c (QueryEscape s')
  end.

Fixpoint QueryUnescape (s : string) : option string :=
  match s with
  | EmptyString => Some EmptyString
  | String c s1 =>
      if code c =? 37 then
        match s1 with
        | String h1 (String h2 s3) =>
            match hex_val h1, hex_val h2 with
            | Some a, Some b => String (chr (a * 16 + b)) <$> QueryUnescape s3
            | _, _ => None
            end
        | _ => None
        end
      else if code c =? 43 then String (chr 32) <$> QueryUnescape s1
      else String c <$> QueryUnescape s1
  end.

(** [strings.Cut] at the first character of code [n]. *)
Fixpoint cut (n : Z) (s : string) : string * option string :=
  match s with
  | EmptyString => (EmptyString, None)
  | String c s' =>
      if code c =? n then (EmptyString, Some s')
      else let '(a, b) := cut n s' in (String c a, b)
  end.

Definition contains_char (n : Z) (s : string) : bool :=
  match (cut n s).2 with Some _ => true | None => false end.

(** The parts of a text between characters of code [n]. *)
Fixpoint split_on (n : Z) (s : string) : list string :=
  match s with
  | EmptyString => [EmptyString]
  | String c s' =>
      if code c =? n then EmptyString :: split_on n s'
      else match split_on n s' with
        | p :: ps => String c p :: ps
        | [] => [String c EmptyString]
        end
  end.

(** One [key=value] of a query string; malformed ones are dropped. *)
Definition parse_pair (kv : string) : option (string * string) :=
  if contains_char 59 kv || (kv =s? "") then None else
  let '(k, v) := cut 61 kv in
  k' ← QueryUnescape k;
  v' ← QueryUnescape (default "" v);
  Some (k', v').

(** [url.Values], sorted by key, as [Encode] lists them. *)
Definition Values : Type := list (string * list string).

Fixpoint Values_update (k : string) (f : list string → list string) (q : Values) : Values :=
  match q with
  | [] => [(k, f [])]
  | (k', vs) :: q' =>
      match String.compare k k' with
      | Eq => (k', f vs) :: q'
      | Lt => (k, f []) :: q
      | Gt => (k', vs) :: Values_update k f q'
      end
  end.

Definition Values_Set (k v : string) (q : Values) : Values := Values_update k (λ _, [v]) q.
Definition Values_Add (q : Values) (kv : string * string) : Values :=
  Values_update kv.1 (λ vs, vs ++ [kv.2]) q.

(** [ParseQuery], its error dropped as [URL.Query] does. *)
Definition ParseQuery (s : string) : Values :=
  foldl Values_Add [] (omap parse_pair (split_on 38 s)).

Definition Values_pairs (q : Values) : list (string * string) :=
  q ≫= λ '(k, vs), (λ v, (k, v)) <$> vs.

Definition encode_pair (kv : string * string) : string :=
  QueryEscape kv.1 +:+ "=" +:+ QueryEscape kv.2.

Definition Values_Encode (q : Values) : string := String.concat "&" (map encode_pair (Values_pairs q)).

(** [v.Get(k)]. *)
Definition Values_Get (k : string) (q : Values) : string :=
  match list_find (λ kv, kv.1 = k) q with
  | Some (_, (_, v :: _)) => v
  | _ => ""
  end.

(** A parsed URL: what [String] writes before the query, the query, and the
    fragment. *)
Record URL := { u_Prefix : string; u_RawQuery : string; u_Fragment : string }.

Definition URL_Query (u : URL) : Values := ParseQuery (u_RawQuery u).
Definition URL_set_RawQuery (q : string) (u : URL) : URL :=
  {| u_Prefix := u_Prefix u; u_RawQuery := q; u_Fragment := u_Fragment u |}.
Definition URL_String (u : URL) : string :=
  u_Prefix u +:+
  (if u_RawQuery u =s? "" then "" else "?" +:+ u_RawQuery u) +:+
  (if u_Fragment u =s? "" then "" else "#" +:+ u_Fragment u).

(** ** Requests, [net/http] *)

Record HTTPRequest := {
  rq_Method : string;
  rq_URL : string;
  rq_Header : list (string * string);
  rq_Body : string;
}.

(** A response: its status and the bytes its body yields, up to the end or up
    to a read error. *)
Record HTTPResponse := {
  ht_StatusCode : Z;
  ht_Body : string;
  ht_BodyError : option error;
}.

Class HTTPClient (W : Type) := {
  url_Parse : string → error + URL;
  (** send a request with a timeout in nanoseconds *)
  Do : Z → HTTPRequest → Proc W HTTPResponse;
}.

(** [http.NewRequestWithContext] for a valid method: fails when the URL does
    not parse. *)
Definition NewRequest `{HTTPClient W} (method url body : string) : error + HTTPRequest :=
  match url_Parse url with
  | inl e => inl e
  | inr _ => inr {| rq_Method := method; rq_URL := url; rq_Header := []; rq_Body := body |}
  end.

Definition Header_Set (k v : string) (r : HTTPRequest) : HTTPRequest :=
  {| rq_Method := rq_Method r; rq_URL := rq_URL r;
     rq_Header := rq_Header r ++ [(k, v)]; rq_Body := rq_Body r |}.

(** The first [n] bytes. *)
Definition prefix_bytes (n : Z) (s : string) : string := String.substring 0 (Z.to_nat n) s.

(** [io.ReadAll(io.LimitReader(resp.Body, n))]: what was read, with the error if
    it came before the limit. *)
Definition ReadAll_limited (n : Z) (resp : HTTPResponse) : string * option error :=
  if n <=? Z.of_nat (String.length (ht_Body resp)) then (prefix_bytes n (ht_Body resp), None)
  else (ht_Body resp, ht_BodyError resp).

(** ** Strings *)

(** [strings.TrimRight(s, "/")]. *)
Fixpoint TrimRight_slash (s : string) : string :=
  match s with
  | EmptyString => EmptyString
  | String c s' =>
      match TrimRight_slash s' with
      | EmptyString => if code c =? 47 then EmptyString else String c EmptyString
      | t => String c t
      end
  end.

(** [strings.HasSuffix(s, suf)]. *)
Fixpoint HasSuffix (s suf : string) : bool :=
  (s =s? suf) || match s with EmptyString => false | String _ s' => HasSuffix s' suf end.

(** Slashes at the end of a URL, and that trimming ignores them. *)
Fixpoint slashes (n : nat) : string :=
  match n with O => "" | S n => String (chr 47) (slashes n) end.

Lemma TrimRight_slashes n : TrimRight_slash (slashes n) = "".
Proof. induction n as [|n IH]; [done|]. cbn. by rewrite IH. Qed.

Lemma TrimRight_app s n : TrimRight_slash (s +:+ slashes n) = TrimRight_slash s.
Proof.
  induction s as [|c s IH]; [apply TrimRight_slashes|]. rewrite app_cons_string.
  cbn [TrimRight_slash]. by rewrite IH.
Qed.
