(* ===== verification/PromQL.v ===== *)
(** The rollout evaluator, [src/internal/rollout/promql.go]: the PromQL
    expressions it sends, the Prometheus duration syntax, and [Evaluate], which
    turns three scalar answers into a verdict on the canary.

    Prometheus is a service outside the program, reached through the interface
    [Prometheus]; [Metrics.v] models the client that implements it. *)
From S2P Require Import Prelude Types Objects GoFloat Json JsonProps GoTime Cluster.

(** The amounts are at most [d], so none of the arithmetic can wrap. *)
Definition promDuration (d : Z) : error + string :=
  if d <=? 0 then inr "0s" else
  if negb (go_rem d Second =? 0) then
    if go_rem d Millisecond =? 0 then inr (fmt_d (go_div d Millisecond) +:+ "ms")
    else inl (PlainError ("duration " +:+ Duration_String d +:+
      " has sub-millisecond precision, which PromQL range selectors cannot represent"))
  else
    let hours := go_div d Hour in
    let d := d - hours * Hour in
    let mins := go_div d Minute in
    let d := d - mins * Minute in
    let secs := go_div d Second in
    inr ((if hours >? 0 then fmt_d hours +:+ "h" else "") +:+
         (if mins >? 0 then fmt_d mins +:+ "m" else "") +:+
         (if secs >? 0 then fmt_d secs +:+ "s" else "")).

(** ** PromQL query templates *)

Definition requestCountQuery (adName namespace : string) (window : Z) : error + string :=
  match promDuration window with
  | inl err => inl err
  | inr d => inr ("sum(increase(http_requests_total{namespace=" +:+ Quote namespace +:+
      ",app_kubernetes_io_name=" +:+ Quote adName +:+ ",agentrax_io_variant=" +:+
      Quote "canary" +:+ "}[" +:+ d +:+ "])) or vector(0)")
  end.

Definition errorRateQuery (adName namespace : string) (window : Z) : error + string :=
  match promDuration window with
  | inl err => inl err
  | inr d => inr (
      "(sum(increase(http_requests_total{namespace=" +:+ Quote namespace +:+
      ",app_kubernetes_io_name=" +:+ Quote adName +:+ ",agentrax_io_variant=" +:+
      Quote "canary" +:+ ",code=~" +:+ Quote "5.." +:+ "}[" +:+ d +:+ "])) or vector(0))" +:+
      " / on() group_left " +:+
      "clamp_min(sum(increase(http_requests_total{namespace=" +:+ Quote namespace +:+
      ",app_kubernetes_io_name=" +:+ Quote adName +:+ ",agentrax_io_variant=" +:+
      Quote "canary" +:+ "}[" +:+ d +:+ "])) or vector(0), 1)")
  end.

Definition p99LatencyQuery (adName namespace : string) (window : Z) : error + string :=
  match promDuration window with
  | inl err => inl err
  | inr d => inr (
      "histogram_quantile(0.99, sum by (le) (" +:+
      "rate(http_request_duration_milliseconds_bucket{namespace=" +:+ Quote namespace +:+
      ",app_kubernetes_io_name=" +:+ Quote adName +:+ ",agentrax_io_variant=" +:+
      Quote "canary" +:+ "}[" +:+ d +:+ "])))")
  end.

(** ** Evaluation *)

Record EvaluationResult := {
  ev_SampleCount : float64;
  ev_ErrorRate : float64;
  ev_P99LatencyMs : float64;
  ev_SampleTooSmall : bool;
  ev_ThresholdBreached : bool;
  ev_BreachReason : string;
}.

(** What the evaluator needs of the metrics client. *)
Class Prometheus (W : Type) := {
  QueryScalar : string → Proc W float64;
}.

(** A query changes nothing in the cluster. *)
Class PrometheusLaws `{KubeClient W, !Prometheus W} : Prop := {
  QueryScalar_store q w r w' : QueryScalar q w = (r, w') → store w' = store w;
}.

Section evaluate.
Context `{CoreTypes} `{Prometheus W}.

(** [if minSample <= 0 { minSample = 100 }]. *)
Definition minSample (policy : RollbackPolicy) : float64 :=
  let m := f64_of_Z (rb_MinRequestSample policy) in
  if f64_le m (f64_of_Z 0) then f64_of_Z 100 else m.

(** [if maxErrorRateStr == "" { maxErrorRateStr = "1%" }]. *)
Definition maxErrorRateStr (policy : RollbackPolicy) : string :=
  if rb_MaxErrorRate policy =s? "" then "1%" else rb_MaxErrorRate policy.

Definition maxP99 (policy : RollbackPolicy) : Z :=
  if rb_MaxP99LatencyMs policy <=? 0 then 500 else rb_MaxP99LatencyMs policy.

(** The query built, or the error of building it under [ctx]. *)
Definition build_query (q : error + string) (ctx : string) : Proc W string :=
  (λ w, (q, w)) <?> ctx.

Definition Evaluate (ad : AgentDeployment) (window : Z) : Proc W EvaluationResult :=
  let name := ad_Name ad in
  let ns := ad_Namespace ad in
  let policy := ro_Rollback (spec_Rollout (ad_Spec ad)) in
  (* 1. Sample-size gate *)
  reqCountQuery ← build_query (requestCountQuery name ns window) "building request count query";
  sampleCount ← QueryScalar reqCountQuery <?> "querying request count";
  if f64_lt sampleCount (minSample policy) then
    mret {| ev_SampleCount := sampleCount; ev_ErrorRate := f64_of_Z 0;
            ev_P99LatencyMs := f64_of_Z 0; ev_SampleTooSmall := true;
            ev_ThresholdBreached := false; ev_BreachReason := "" |}
  else
  (* 2. Error rate threshold *)
  errRateQuery ← build_query (errorRateQuery name ns window) "building error rate query";
  errorRate ← QueryScalar errRateQuery <?> "querying error rate";
  match ParseErrorRate (maxErrorRateStr policy) with
  | inl parseErr =>
      mret {| ev_SampleCount := sampleCount; ev_ErrorRate := errorRate;
              ev_P99LatencyMs := f64_of_Z 0; ev_SampleTooSmall := false;
              ev_ThresholdBreached := true;
              ev_BreachReason := "invalid maxErrorRate " +:+ Quote (maxErrorRateStr policy) +:+
                ": " +:+ Error parseErr |}
  | inr maxRate =>
      if f64_gt errorRate maxRate then
        mret {| ev_SampleCount := sampleCount; ev_ErrorRate := errorRate;
                ev_P99LatencyMs := f64_of_Z 0; ev_SampleTooSmall := false;
                ev_ThresholdBreached := true;
                ev_BreachReason := "error rate " +:+ fmt_f 2 (f64_mul errorRate (f64_of_Z 100)) +:+
                  "% exceeds threshold " +:+ fmt_f 2 (f64_mul maxRate (f64_of_Z 100)) +:+ "%" |}
      else
      (* 3. p99 latency threshold *)
      p99Query ← build_query (p99LatencyQuery name ns window) "building p99 latency query";
      p99Ms ← QueryScalar p99Query <?> "querying p99 latency";
      if f64_gt p99Ms (f64_of_Z (maxP99 policy)) then
        mret {| ev_SampleCount := sampleCount; ev_ErrorRate := errorRate;
                ev_P99LatencyMs := p99Ms; ev_SampleTooSmall := false;
                ev_ThresholdBreached := true;
                ev_BreachReason := "p99 latency " +:+ fmt_f 1 p99Ms +:+
                  "ms exceeds threshold " +:+ fmt_d (maxP99 policy) +:+ "ms" |}
      else
        mret {| ev_SampleCount := sampleCount; ev_ErrorRate := errorRate;
                ev_P99LatencyMs := p99Ms; ev_SampleTooSmall := false;
                ev_ThresholdBreached := false; ev_BreachReason := "" |}
  end.
End evaluate.

(** ** The duration syntax of Prometheus

    A duration is a sequence of numbers with a unit, [ms], [s], [m] or [h];
    its value is their sum.  This is the grammar range selectors are read
    with, and the specification [promDuration] is checked against. *)

Fixpoint parse_num (acc : N) (s : string) : N * string :=
  match s with
  | String c s' =>
      if is_digit c then parse_num (acc * 10 + Z.to_N (code c - 48))%N s' else (acc, s)
  | EmptyString => (acc, s)
  end.

Definition parse_unit (s : string) : option (Z * string) :=
  match s with
  | String c s' =>
      if code c =? 104 then Some (Hour, s')
      else if code c =? 115 then Some (Second, s')
      else if code c =? 109 then
        match s' with
        | String c' s'' => if code c' =? 115 then Some (Millisecond, s'') else Some (Minute, s')
        | EmptyString => Some (Minute, s')
        end
      else None
  | EmptyString => None
  end.

Fixpoint parse_parts (fuel : nat) (s : string) : option Z :=
  match fuel with
  | O => None
  | S fuel =>
      match s with
      | EmptyString => Some 0
      | String c _ =>
          if negb (is_digit c) then None else
          let '(n, rest) := parse_num 0 s in
          '(unit, rest) ← parse_unit rest;
          t ← parse_parts fuel rest;
          Some (Z.of_N n * unit + t)
      end
  end.

(** At most four parts, one per unit, plus the end of the string. *)
Definition parse_prom_duration (s : string) : option Z :=
  if s =s? "" then None else parse_parts 5 s.

Lemma parse_num_pretty_go x s :
  parse_num 0 (pretty_N_go x s) = parse_num x s.
Proof.
  revert s. induction x as [x IH] using (well_founded_induction N.lt_wf_0). intros s.
  assert (x = 0 ∨ 0 < x)%N as [->|Hx] by lia; [by rewrite pretty_N_go_0|].
  rewrite pretty_N_go_step by done. rewrite IH by (apply N.div_lt; lia).
  pose proof (N.mod_lt x 10 ltac:(lia)) as Hm.
  pose proof (N.div_mod x 10 ltac:(lia)) as Hd.
  generalize dependent (x mod 10)%N. intros r Hm Hd. simpl.
  assert (is_digit (pretty_N_char r) = true ∧ Z.to_N (code (pretty_N_char r) - 48) = r)
    as [-> ->]; [|f_equal; lia].
  assert (r = 0 ∨ r = 1 ∨ r = 2 ∨ r = 3 ∨ r = 4 ∨ r = 5 ∨ r = 6 ∨ r = 7 ∨ r = 8 ∨ r = 9)%N
    as Hr by lia. by destruct_or! Hr; subst r.
Qed.

Lemma pretty_go_app x s t : pretty_N_go x s +:+ t = pretty_N_go x (s +:+ t).
Proof.
  revert s. induction x as [x IH] using (well_founded_induction N.lt_wf_0). intros s.
  assert (x = 0 ∨ 0 < x)%N as [->|Hx] by lia; [by rewrite !pretty_N_go_0|].
  rewrite !(pretty_N_go_step x) by done. rewrite IH by (apply N.div_lt; lia). done.
Qed.

(** A printed positive number starts with a digit and is read back up to the
    text that follows it. *)
Lemma fmt_d_pos n : 0 < n → fmt_d n = pretty_N_go (Z.to_N n) "".
Proof.
  intros Hn. destruct n as [|p|p]; [lia| |lia]. unfold fmt_d, pretty, pretty_Z, pretty_positive.
  unfold pretty, pretty_N. case_decide; [done|done].
Qed.

Lemma pretty_go_head x s :
  (0 < x)%N → ∃ c t, pretty_N_go x s = String c t ∧ is_digit c = true.
Proof.
  revert s. induction x as [x IH] using (well_founded_induction N.lt_wf_0). intros s Hx.
  rewrite pretty_N_go_step by done.
  assert (x < 10 ∨ 10 ≤ x)%N as [Hlt|Hge] by lia.
  - rewrite N.div_small, pretty_N_go_0 by done. eexists _, _. split; [done|].
    rewrite N.mod_small by done.
    assert (x = 1 ∨ x = 2 ∨ x = 3 ∨ x = 4 ∨ x = 5 ∨ x = 6 ∨ x = 7 ∨ x = 8 ∨ x = 9)%N
      as Hr by lia. by destruct_or! Hr; subst x.
  - apply IH; [apply N.div_lt; lia|]. apply N.div_str_pos. lia.
Qed.

Lemma parse_part n u rest unit rest' fuel :
  0 < n →
  (∀ x, parse_num x (u +:+ rest) = (x, u +:+ rest)) →
  parse_unit (u +:+ rest) = Some (unit, rest') →
  parse_parts (S fuel) (fmt_d n +:+ u +:+ rest) =
    t ← parse_parts fuel rest'; Some (n * unit + t).
Proof.
  intros Hn Hnum Hu. rewrite fmt_d_pos, pretty_go_app by done.
  destruct (pretty_go_head (Z.to_N n) ("" +:+ u +:+ rest)) as (c & t & Hc & Hd); [lia|].
  assert (Hp := parse_num_pretty_go (Z.to_N n) (u +:+ rest)).
  change ("" +:+ u +:+ rest) with (u +:+ rest) in *. rewrite Hc in *.
  cbn [parse_parts]. rewrite Hd. simpl negb. cbv iota. rewrite Hp, Hnum. simpl.
  rewrite Hu. simpl. by rewrite Z2N.id by lia.
Qed.

(** The optional parts [promDuration] concatenates. *)
Definition part (n : Z) (u : string) : string := if n >? 0 then fmt_d n +:+ u else "".

Lemma part_pos n u : 0 < n → part n u = fmt_d n +:+ u.
Proof. intros Hn. unfold part. rewrite Z.gtb_ltb. by apply Z.ltb_lt in Hn as ->. Qed.
Lemma part_zero u : part 0 u = "".
Proof. done. Qed.

Lemma parse_secs fuel s :
  0 ≤ s → parse_parts (S (S fuel)) (part s "s") = Some (s * Second).
Proof.
  intros Hs. assert (s = 0 ∨ 0 < s) as [->|Hp] by lia; [done|].
  rewrite part_pos, <- (app_nil_string "s") by done.
  erewrite parse_part; [|done|done|done]. simpl. f_equal. lia.
Qed.

Lemma parse_mins fuel m s :
  0 ≤ m → 0 ≤ s →
  parse_parts (S (S (S fuel))) (part m "m" +:+ part s "s") = Some (m * Minute + s * Second).
Proof.
  intros Hm Hs. assert (m = 0 ∨ 0 < m) as [->|Hp] by lia.
  { rewrite part_zero. by apply parse_secs. }
  rewrite part_pos, app_assoc_string by done.
  assert (Hu : parse_unit ("m" +:+ part s "s") = Some (Minute, part s "s")).
  { assert (s = 0 ∨ 0 < s) as [->|Hsp] by lia; [done|].
    rewrite part_pos, fmt_d_pos, pretty_go_app by done.
    destruct (pretty_go_head (Z.to_N s) ("" +:+ "s")) as (c & t & -> & Hc); [lia|].
    simpl. unfold is_digit in Hc. zbool. by rewrite (proj2 (Z.eqb_neq _ _)) by lia. }
  erewrite parse_part; [|done|done|exact Hu].
  rewrite parse_secs by done. simpl. done.
Qed.

Lemma parse_hours h m s :
  0 ≤ h → 0 ≤ m → 0 ≤ s →
  parse_parts 5 (part h "h" +:+ part m "m" +:+ part s "s") =
    Some (h * Hour + m * Minute + s * Second).
Proof.
  intros Hh Hm Hs. assert (h = 0 ∨ 0 < h) as [->|Hp] by lia.
  { rewrite part_zero. change ("" +:+ ?x) with x. rewrite parse_mins by done. f_equal; lia. }
  rewrite part_pos, app_assoc_string by done.
  erewrite parse_part; [|done|done|done].
  rewrite parse_mins by done. simpl. f_equal. lia.
Qed.

Lemma part_nonempty n u : 0 < n → part n u ≠ "".
Proof.
  intros Hn. rewrite part_pos, fmt_d_pos, pretty_go_app by done.
  by destruct (pretty_go_head (Z.to_N n) ("" +:+ u)) as (c & t & -> & _); [lia|].
Qed.

Lemma parse_prom_duration_parts s v :
  s ≠ "" → parse_parts 5 s = Some v → parse_prom_duration s = Some v.
Proof. intros Hs Hp. unfold parse_prom_duration. by apply str_eqb_false in Hs as ->. Qed.

Lemma promDuration_spec d :
  match promDuration d with
  | inr s => parse_prom_duration s = Some (Z.max 0 d)
  | inl _ => 0 < d ∧ d mod Millisecond ≠ 0
  end.
Proof.
  unfold promDuration, go_rem, go_div. destruct (d <=? 0) eqn:Hd; zbool.
  { rewrite Z.max_l by lia. by vm_compute. }
  rewrite Z.max_r, !Z.rem_mod_nonneg by (unfold Second, Millisecond; lia).
  destruct (d mod Second =? 0) eqn:Hs; simpl negb; cbv iota; zbool;
    [|destruct (d mod Millisecond =? 0) eqn:Hms; zbool; [|done]]; cycle 1.
  - rewrite Z.quot_div_nonneg by (unfold Millisecond; lia).
    pose proof (Z.div_mod d Millisecond) as Hdm. unfold Millisecond in *.
    rewrite <- (app_nil_string "ms"). apply parse_prom_duration_parts.
    + rewrite fmt_d_pos, pretty_go_app by lia.
      by destruct (pretty_go_head (Z.to_N (d / 1000000)) ("" +:+ "ms" +:+ "")) as (c & t & -> & _); [lia|].
    + erewrite parse_part; [|lia|done|done]. simpl. f_equal. unfold Millisecond. lia.
  - change Hour with 3600000000000; change Minute with 60000000000;
      change Second with 1000000000 in *.
    set (h := d ÷ 3600000000000). set (m := (d - h * 3600000000000) ÷ 60000000000).
    set (s := (d - h * 3600000000000 - m * 60000000000) ÷ 1000000000).
    assert (0 ≤ h ∧ 0 ≤ m ∧ 0 ≤ s ∧
      h * 3600000000000 + m * 60000000000 + s * 1000000000 = d) as (Hh&Hm&Hs'&Hsum).
    { assert (Hh : h = d / 3600000000000) by (apply Z.quot_div_nonneg; lia).
      assert (0 ≤ d - h * 3600000000000) by (clearbody h; clear m s; Z.to_euclidean_division_equations; lia).
      assert (Hm : m = (d - h * 3600000000000) / 60000000000)
        by (apply Z.quot_div_nonneg; lia).
      assert (0 ≤ d - h * 3600000000000 - m * 60000000000)
        by (clearbody h m; clear s; Z.to_euclidean_division_equations; lia).
      assert (Hs2 : s = (d - h * 3600000000000 - m * 60000000000) / 1000000000)
        by (apply Z.quot_div_nonneg; lia).
      clearbody h m s. Z.to_euclidean_division_equations; lia. }
    clearbody h m s.
    change (parse_prom_duration (part h "h" +:+ part m "m" +:+ part s "s") = Some d).
    apply parse_prom_duration_parts; [|by rewrite parse_hours; [f_equal; unfold Hour, Minute, Second; lia|..]].
    assert (0 < h ∨ h = 0) as [Hp| ->] by lia.
    { intros He. destruct (part h "h") eqn:E; [by apply part_nonempty in E|done]. }
    assert (0 < m ∨ m = 0) as [Hp| ->] by lia.
    { intros He. destruct (part m "m") eqn:E; [by apply part_nonempty in E|done]. }
    change (part s "s" ≠ ""). apply part_nonempty. lia.
Qed.

(** The text [promDuration] writes into a range selector denotes, in
    Prometheus' duration syntax, exactly the window it was given (zero when the
    window is not positive), and it refuses exactly the positive windows finer
    than a millisecond. *)
Theorem promDuration_roundtrip d :
  match promDuration d with
  | inr s => parse_prom_duration s = Some (Z.max 0 d)
  | inl _ => 0 < d ∧ d mod Millisecond ≠ 0
  end.
Proof. apply promDuration_spec. Qed.

(** ** The verdict *)

(** The error-rate rule; a threshold that does not parse counts as breached. *)
Definition rate_breach (policy : RollbackPolicy) (errorRate : float64) : bool :=
  match ParseErrorRate (maxErrorRateStr policy) with
  | inl _ => true
  | inr maxRate => f64_gt errorRate maxRate
  end.

Definition latency_breach (policy : RollbackPolicy) (p99 : float64) : bool :=
  f64_gt p99 (f64_of_Z (maxP99 policy)).

Lemma build_query_inr `{Prometheus W} (q : error + string) ctx (w : W) s w' :
  build_query q ctx w = (inr s, w') → q = inr s ∧ w' = w.
Proof. unfold build_query. intros ?%wrap_err_inr. naive_solver. Qed.

Section verdict.
Context `{CoreTypes} `{Prometheus W}.
Implicit Types (ad : AgentDeployment) (w : W).

(** The run of [Evaluate] that returns a result, query by query. *)
Lemma Evaluate_run ad window w r w' :
  let policy := ro_Rollback (spec_Rollout (ad_Spec ad)) in
  Evaluate ad window w = (inr r, w') →
  ∃ q1 w1, requestCountQuery (ad_Name ad) (ad_Namespace ad) window = inr q1 ∧
    QueryScalar q1 w = (inr (ev_SampleCount r), w1) ∧
    ev_SampleTooSmall r = f64_lt (ev_SampleCount r) (minSample policy) ∧
    if ev_SampleTooSmall r then ev_ThresholdBreached r = false ∧ w' = w1 else
    ∃ q2 w2, errorRateQuery (ad_Name ad) (ad_Namespace ad) window = inr q2 ∧
      QueryScalar q2 w1 = (inr (ev_ErrorRate r), w2) ∧
      if rate_breach policy (ev_ErrorRate r) then ev_ThresholdBreached r = true ∧ w' = w2 else
      ∃ q3, p99LatencyQuery (ad_Name ad) (ad_Namespace ad) window = inr q3 ∧
        QueryScalar q3 w2 = (inr (ev_P99LatencyMs r), w') ∧
        ev_ThresholdBreached r = latency_breach policy (ev_P99LatencyMs r).
Proof.
  intros policy. unfold Evaluate, rate_breach, latency_breach. fold policy.
  intros (q1 & ? & [Hq1 ->]%build_query_inr & (c & w1 & Hc%wrap_err_inr & Hrun)%bind_inr)%bind_inr.
  exists q1, w1.
  destruct (f64_lt c (minSample policy)) eqn:Hs; [run; by rewrite Hs|].
  apply bind_inr in Hrun as (q2 & ? & [Hq2 ->]%build_query_inr & Hrun).
  apply bind_inr in Hrun as (e & w2 & He%wrap_err_inr & Hrun).
  destruct (ParseErrorRate (maxErrorRateStr policy)) as [pe|rate] eqn:Hr.
  { run. rewrite Hs. eauto 10. }
  destruct (f64_gt e rate) eqn:Hgt.
  { run. rewrite Hs. split_and!; try done. eexists q2, _. by rewrite Hgt. }
  apply bind_inr in Hrun as (q3 & ? & [Hq3 ->]%build_query_inr & Hrun).
  apply bind_inr in Hrun as (p & w3 & Hp%wrap_err_inr & Hrun).
  case_match eqn:Hl; run; rewrite Hs; split_and!; try done; exists q2, w2; simpl; rewrite Hgt;
    split_and!; try done; exists q3; by rewrite Hl.
Qed.

(** The converse: a Prometheus that answers every query of a snapshot yields
    the verdict of the policy on that snapshot. *)
Lemma Evaluate_answers ad window (c e p : float64) :
  let policy := ro_Rollback (spec_Rollout (ad_Spec ad)) in
  (∀ q w, requestCountQuery (ad_Name ad) (ad_Namespace ad) window = inr q →
    ∃ w', QueryScalar q w = (inr c, w')) →
  (∀ q w, errorRateQuery (ad_Name ad) (ad_Namespace ad) window = inr q →
    ∃ w', QueryScalar q w = (inr e, w')) →
  (∀ q w, p99LatencyQuery (ad_Name ad) (ad_Namespace ad) window = inr q →
    ∃ w', QueryScalar q w = (inr p, w')) →
  ∀ d, promDuration window = inr d →
  ∀ w, ∃ r w', Evaluate ad window w = (inr r, w') ∧
    ev_SampleTooSmall r = f64_lt c (minSample policy) ∧
    ev_ThresholdBreached r = negb (f64_lt c (minSample policy)) &&
      (rate_breach policy e || latency_breach policy p).
Proof.
  intros policy H1 H2 H3 d Hd w.
  unfold Evaluate, rate_breach, latency_breach. fold policy.
  unfold requestCountQuery, errorRateQuery, p99LatencyQuery in *. rewrite Hd in *.
  erewrite bind_step by done. cbv beta.
  edestruct (H1 _ w eq_refl) as [w1 Hq1].
  erewrite bind_step by (by apply wrap_err_inr). cbv beta.
  destruct (f64_lt c (minSample policy)) eqn:Hs; [by eexists _, _|].
  erewrite bind_step by done. cbv beta.
  edestruct (H2 _ w1 eq_refl) as [w2 Hq2].
  erewrite bind_step by (by apply wrap_err_inr). cbv beta.
  destruct (ParseErrorRate (maxErrorRateStr policy)) as [pe|rate]; [by eexists _, _|].
  destruct (f64_gt e rate) eqn:Hgt; [by eexists _, _|].
  erewrite bind_step by done. cbv beta.
  edestruct (H3 _ w2 eq_refl) as [w3 Hq3].
  erewrite bind_step by (by apply wrap_err_inr). cbv beta.
  by destruct (f64_gt p (f64_of_Z (maxP99 policy))); eexists _, _.
Qed.

(** [Evaluate] fails only when the window cannot be written or a query fails. *)
Lemma Evaluate_error ad window w e w' :
  Evaluate ad window w = (inl e, w') →
  (0 < window ∧ window mod Millisecond ≠ 0) ∨ ∃ q wq e0, QueryScalar q wq = (inl e0, w').
Proof.
  pose proof (promDuration_spec window) as Hd. destruct (promDuration window) as [|s] eqn:E; [auto|].
  unfold Evaluate, requestCountQuery, errorRateQuery, p99LatencyQuery. rewrite E.
  intros Hrun. right.
  assert (Hb : ∀ q ctx (w : W) e w', build_query (inr q) ctx w ≠ (inl e, w')) by done.
  repeat match goal with
  | H : (_ ≫= _) _ = (inl _, _) |- _ => apply bind_inl in H as [H|(?&?&?&H)]; cbv beta in H
  | H : (QueryScalar _ <?> _) _ = (inl _, _) |- _ =>
      apply wrap_err_inl in H as (? & ? & _); by eauto
  | H : build_query _ _ _ = (inl _, _) |- _ => by apply Hb in H
  | H : (if ?b then _ else _) _ = _ |- _ => destruct b; [done|]
  | H : match ?x with inl _ => _ | inr _ => _ end _ = _ |- _ => destruct x; [done|]
  end; done.
Qed.
End verdict.

(** A Prometheus that answers by the metric the query names. *)
Module PromRef.
Record metrics := { count : float64; errors : float64; p99 : float64 }.

#[global] Instance prom : Prometheus metrics := {|
  QueryScalar q w := (inr (
    if has_prefix "sum(" q then count w else if has_prefix "(sum" q then errors w else p99 w), w)
|}.

Definition ad : @AgentDeployment Ref.core :=
  @Build_AgentDeployment Ref.core (new_meta "agent" "ns" ∅) (Ref.agent 3 1000)
    {| st_Phase := PhaseRolloutInProgress; st_CurrentReplicas := 1; st_StableVersion := "img:v0";
       st_CanaryVersion := "img:v1"; st_CanaryWeight := 10; st_CanaryStepIndex := 1;
       st_PauseStartedAt := None; st_PromUnreachableSince := None; st_Registered := false;
       st_Conditions := [] |}.

Definition healthy : metrics :=
  {| count := f64_of_Z 200; errors := f64_of_decimal false 1 (-2); p99 := f64_of_Z 80 |}.
End PromRef.

(** With Prometheus answering the three queries with a request count [c],
    an error rate [e] and a latency [p], [Evaluate] returns a verdict for every
    window PromQL can express: the sample is too small exactly when [c] is below
    the (defaulted) minimum, and the canary is condemned exactly when the sample
    suffices and the error-rate threshold does not parse, or [e] exceeds it, or
    [p] exceeds the latency threshold. *)
Theorem Evaluate_verdict `{CoreTypes} `{Prometheus W} ad window (c e p : float64) :
  let policy := ro_Rollback (spec_Rollout (ad_Spec ad)) in
  (∀ q w, requestCountQuery (ad_Name ad) (ad_Namespace ad) window = inr q →
    ∃ w', QueryScalar q w = (inr c, w')) →
  (∀ q w, errorRateQuery (ad_Name ad) (ad_Namespace ad) window = inr q →
    ∃ w', QueryScalar q w = (inr e, w')) →
  (∀ q w, p99LatencyQuery (ad_Name ad) (ad_Namespace ad) window = inr q →
    ∃ w', QueryScalar q w = (inr p, w')) →
  ∀ d, promDuration window = inr d →
  ∀ w : W, ∃ r w', Evaluate ad window w = (inr r, w') ∧
    ev_SampleTooSmall r = f64_lt c (minSample policy) ∧
    ev_ThresholdBreached r = negb (f64_lt c (minSample policy)) &&
      (rate_breach policy e || latency_breach policy p).
Proof. apply Evaluate_answers. Qed.

(** The hypotheses hold of a Prometheus that keeps answering [c], [e], [p]. *)
Definition constant_prom (c e p : float64) : Prometheus unit := {|
  QueryScalar q w := (inr (
    if has_prefix "sum(" q then c else if has_prefix "(sum" q then e else p), w) |}.

Lemma Evaluate_verdict_witness :
  let prom := constant_prom (f64_of_Z 200) (f64_of_decimal false 3 (-2)) (f64_of_Z 80) in
  ∃ r w', Evaluate (H0 := prom) PromRef.ad (5 * Minute) tt = (inr r, w') ∧
    ev_SampleTooSmall r = false ∧ ev_ThresholdBreached r = true.
Proof.
  set (prom := constant_prom _ _ _).
  destruct (Evaluate_verdict (H0 := prom) PromRef.ad (5 * Minute)
    (f64_of_Z 200) (f64_of_decimal false 3 (-2)) (f64_of_Z 80)) with (d := "5m") (w := tt)
    as (r & w' & Hr & Hs & Hb).
  - intros q w [= <-]. eexists; vm_compute; reflexivity.
  - intros q w [= <-]. eexists; vm_compute; reflexivity.
  - intros q w [= <-]. eexists; vm_compute; reflexivity.
  - vm_compute; reflexivity.
  - exists r, w'. rewrite Hs, Hb. split; [exact Hr|]. by vm_compute.
Defined.

(** Every verdict rests on the queries it needs and on no other: the
    request count is always read first; when it is below the minimum nothing
    else is asked and the canary is not condemned; otherwise the error rate is
    read, and the latency only when the error rate passed. *)
Theorem Evaluate_sound `{CoreTypes} `{Prometheus W} ad window (w : W) r w' :
  let policy := ro_Rollback (spec_Rollout (ad_Spec ad)) in
  Evaluate ad window w = (inr r, w') →
  ∃ q1 w1, requestCountQuery (ad_Name ad) (ad_Namespace ad) window = inr q1 ∧
    QueryScalar q1 w = (inr (ev_SampleCount r), w1) ∧
    ev_SampleTooSmall r = f64_lt (ev_SampleCount r) (minSample policy) ∧
    if ev_SampleTooSmall r then ev_ThresholdBreached r = false ∧ w' = w1 else
    ∃ q2 w2, errorRateQuery (ad_Name ad) (ad_Namespace ad) window = inr q2 ∧
      QueryScalar q2 w1 = (inr (ev_ErrorRate r), w2) ∧
      if rate_breach policy (ev_ErrorRate r) then ev_ThresholdBreached r = true ∧ w' = w2 else
      ∃ q3, p99LatencyQuery (ad_Name ad) (ad_Namespace ad) window = inr q3 ∧
        QueryScalar q3 w2 = (inr (ev_P99LatencyMs r), w') ∧
        ev_ThresholdBreached r = latency_breach policy (ev_P99LatencyMs r).
Proof. apply Evaluate_run. Qed.

Lemma Evaluate_sound_witness :
  ∃ r w', Evaluate PromRef.ad (5 * Minute) PromRef.healthy = (inr r, w') ∧
    ev_SampleTooSmall r = false ∧ ev_ThresholdBreached r = false.
Proof.
  destruct (Evaluate PromRef.ad (5 * Minute) PromRef.healthy) as [[e|r] w'] eqn:E;
    [vm_compute in E; discriminate E|].
  exists r, w'. split; [done|].
  destruct (Evaluate_sound _ _ _ _ _ E) as (q1 & w1 & _ & _ & Hs & _).
  vm_compute in E. injection E as <- <-. split; [exact Hs|done].
Defined.

Lemma nan_not_above x : f64_gt SpecFloat.S754_nan x = false.
Proof. by destruct x as [[]|[]| |[]]. Qed.

(** A NaN answer passes every check: not a number is neither below the
    minimum sample nor above a threshold, so a canary whose three metrics are
    all NaN is declared healthy. *)
Theorem nan_metrics_pass `{CoreTypes} `{Prometheus W} ad window d maxRate :
  (∀ q w, ∃ w', QueryScalar q w = (inr SpecFloat.S754_nan, w')) →
  promDuration window = inr d →
  ParseErrorRate (maxErrorRateStr (ro_Rollback (spec_Rollout (ad_Spec ad)))) = inr maxRate →
  ∀ w : W, ∃ r w', Evaluate ad window w = (inr r, w') ∧
    ev_SampleTooSmall r = false ∧ ev_ThresholdBreached r = false.
Proof.
  intros Hq Hd Hr w.
  destruct (Evaluate_answers ad window SpecFloat.S754_nan SpecFloat.S754_nan SpecFloat.S754_nan)
    with (d := d) (w := w) as (r & w' & He & Hs & Hb); eauto.
  exists r, w'. split; [done|]. rewrite Hs, Hb. unfold rate_breach. rewrite Hr.
  unfold latency_breach. by rewrite !nan_not_above, andb_false_r.
Qed.

Lemma nan_metrics_pass_witness :
  ∃ r w', Evaluate PromRef.ad (5 * Minute)
    (H0 := constant_prom SpecFloat.S754_nan SpecFloat.S754_nan SpecFloat.S754_nan) tt = (inr r, w') ∧
    ev_SampleTooSmall r = false ∧ ev_ThresholdBreached r = false.
Proof.
  apply nan_metrics_pass with (d := "5m") (maxRate := f64_of_decimal false 2 (-2)).
  - intros q w. exists w. cbn [QueryScalar constant_prom].
    by destruct (has_prefix "sum(" q), (has_prefix "(sum" q).
  - by vm_compute.
  - by vm_compute.
Defined.
