(* ===== verification/Metrics.v ===== *)
(** The Prometheus query client, [src/internal/metrics/prometheus.go]: instant
    and range queries over HTTP and the extraction of one number from the JSON
    of the response.  The client is the implementation of the interface
    [Prometheus] that the evaluator of [PromQL.v] is written against. *)
From S2P Require Import Prelude Types Objects GoFloat Enforcer Cluster Json JsonProps Http PromQL.
From Stdlib Require Import SpecFloat.

Definition defaultTimeout : Z := 10 * Second.
Definition maxResponseBytes : Z := Z.shiftl 1 20.

(** [httpClient] is its timeout. *)
Record Client := { cl_baseURL : string; cl_Timeout : Z }.

Definition Option_ : Type := Client → Client.

Definition WithTimeout (d : Z) : Option_ := λ c,
  {| cl_baseURL := cl_baseURL c; cl_Timeout := d |}.

Definition NewClient (baseURL : string) (opts : list Option_) : Client :=
  foldl (λ c o, o c) {| cl_baseURL := TrimRight_slash baseURL; cl_Timeout := defaultTimeout |} opts.

(** ** Response parsing *)

Record responseData := { rd_ResultType : string; rd_Result : slice RawMessage }.
Record prometheusResponse := { pr_Status : string; pr_Data : responseData }.

Definition zero_response : prometheusResponse :=
  {| pr_Status := ""; pr_Data := {| rd_ResultType := ""; rd_Result := slice_nil |} |}.

(** The decoders [encoding/json] derives from the struct tags. *)
Definition dec_responseData : Decoder responseData := dec_struct [
  ("resultType", dec_field rd_ResultType
     (λ x r, {| rd_ResultType := x; rd_Result := rd_Result r |}) dec_string);
  ("result", dec_field rd_Result
     (λ x r, {| rd_ResultType := rd_ResultType r; rd_Result := x |}) (dec_slice None dec_raw))].

Definition dec_prometheusResponse : Decoder prometheusResponse := dec_struct [
  ("status", dec_field pr_Status (λ x r, {| pr_Status := x; pr_Data := pr_Data r |}) dec_string);
  ("data", dec_field pr_Data (λ x r, {| pr_Status := pr_Status r; pr_Data := x |})
     dec_responseData)].

(** The anonymous structs of a vector and of a matrix element: one field. *)
Definition dec_value_field : Decoder RawMessage := dec_struct [("value", dec_raw)].
Definition dec_values_field : Decoder (slice RawMessage) :=
  dec_struct [("values", dec_slice None dec_raw)].

Definition wrap {A} (ctx : string) (x : error + A) : error + A :=
  match x with inl e => inl (Errorf ctx e) | inr a => inr a end.

#[local] Instance sum_bind : MBind (sum error) := λ A B f x,
  match x with inl e => inl e | inr a => f a end.

Section client.
Context `{JSONErrors}.

Definition extractValueFromPair (raw : RawMessage) : error + float64 :=
  pair ← wrap "decoding value pair" (Unmarshal_raw (dec_pair None dec_raw) raw (None, None));
  valStr ← wrap "decoding value string" (Unmarshal_raw dec_string pair.2 "");
  ParseFloat valStr.

Definition extractValueFromVectorElement (raw : RawMessage) : error + float64 :=
  value ← wrap "decoding vector element" (Unmarshal_raw dec_value_field raw None);
  extractValueFromPair value.

Definition parseScalarFromQueryResponse (body : string) : error + float64 :=
  r ← wrap "decoding Prometheus response" (Unmarshal dec_prometheusResponse body zero_response);
  if negb (pr_Status r =s? "success") then
    inl (PlainError ("Prometheus query status: " +:+ Quote (pr_Status r))) else
  let result := slice_list (rd_Result (pr_Data r)) in
  let len := fmt_d (Z.of_nat (length result)) in
  if rd_ResultType (pr_Data r) =s? "scalar" then
    match result with
    | [_; second] =>
        valStr ← wrap "decoding scalar value string" (Unmarshal_raw dec_string second "");
        ParseFloat valStr
    | _ => inl (PlainError
        ("Prometheus scalar result must contain exactly 2 elements, got " +:+ len))
    end
  else if rd_ResultType (pr_Data r) =s? "vector" then
    match result with
    | [elem] => extractValueFromVectorElement elem
    | _ => inl (PlainError ("Prometheus vector result must contain exactly 1 element, got " +:+ len +:+
        " (metric may not exist yet or query returned multiple series)"))
    end
  else inl (PlainError ("unsupported Prometheus result type: " +:+
    Quote (rd_ResultType (pr_Data r)))).

Definition parseLastValueFromRangeResponse (body : string) : error + float64 :=
  r ← wrap "decoding Prometheus range response" (Unmarshal dec_prometheusResponse body zero_response);
  if negb (pr_Status r =s? "success") then
    inl (PlainError ("Prometheus range query status: " +:+ Quote (pr_Status r))) else
  match slice_list (rd_Result (pr_Data r)) with
  | [] => inl (PlainError "Prometheus range result is empty")
  | first :: _ =>
      values ← wrap "decoding range matrix element" (Unmarshal_raw dec_values_field first slice_nil);
      match list.last (slice_list values) with
      | None => inl (PlainError "range result has no values")
      | Some v => extractValueFromPair v
      end
  end.

(** ** Queries *)

(** [strconv.FormatFloat(x, 'f', 3, 64)] of a time and of a duration. *)
Definition formatTime (t : Z) : string :=
  fmt_f 3 (f64_div (f64_of_Z (int64 t)) (f64_of_Z 1000000000)).

Definition Duration_Seconds (d : Z) : float64 :=
  SFadd f64_prec f64_emax (f64_of_Z (go_div d Second))
    (f64_div (f64_of_Z (go_rem d Second)) (f64_of_Z 1000000000)).

Definition formatDuration (d : Z) : string := fmt_f 3 (Duration_Seconds d) +:+ "s".

Context `{HTTPClient W}.

Definition lift {A} (x : error + A) : Proc W A := λ w, (x, w).

(** The body of a response, read up to the limit. *)
Definition read_body (resp : HTTPResponse) : error + string :=
  match ReadAll_limited maxResponseBytes resp with
  | (_, Some e) => inl e
  | (body, None) => inr body
  end.

Definition Client_QueryScalar (c : Client) (query : string) : Proc W float64 :=
  u ← lift (url_Parse (cl_baseURL c +:+ "/api/v1/query")) <?> "parsing Prometheus URL";
  let q := Values_Set "query" query (URL_Query u) in
  let u := URL_set_RawQuery (Values_Encode q) u in
  req ← lift (NewRequest "GET" (URL_String u) "") <?> "building Prometheus request";
  resp ← Do (cl_Timeout c) req <?> "querying Prometheus";
  body ← lift (read_body resp) <?> "reading Prometheus response";
  if negb (ht_StatusCode resp =? 200) then
    fail (PlainError ("Prometheus returned HTTP " +:+ fmt_d (ht_StatusCode resp) +:+ ": " +:+ body))
  else lift (parseScalarFromQueryResponse body).

Definition QueryRange (c : Client) (query : string) (start end_ step : Z) : Proc W float64 :=
  u ← lift (url_Parse (cl_baseURL c +:+ "/api/v1/query_range")) <?> "parsing Prometheus URL";
  let q := URL_Query u in
  let q := Values_Set "query" query q in
  let q := Values_Set "start" (formatTime start) q in
  let q := Values_Set "end" (formatTime end_) q in
  let q := Values_Set "step" (formatDuration step) q in
  let u := URL_set_RawQuery (Values_Encode q) u in
  req ← lift (NewRequest "GET" (URL_String u) "") <?> "building Prometheus range request";
  resp ← Do (cl_Timeout c) req <?> "querying Prometheus range";
  body ← lift (read_body resp) <?> "reading Prometheus range response";
  if negb (ht_StatusCode resp =? 200) then
    fail (PlainError ("Prometheus returned HTTP " +:+ fmt_d (ht_StatusCode resp) +:+ ": " +:+ body))
  else lift (parseLastValueFromRangeResponse body).
End client.

(** The client implements the interface the evaluator uses. *)
Definition Client_Prometheus `{JSONErrors, HTTPClient W} (c : Client) : Prometheus W := {|
  QueryScalar := Client_QueryScalar c;
|}.
