(* ===== verification/MetricsProps.v ===== *)
(** Properties of the Prometheus client of [Metrics.v]: the query text reaches
    the server as it was built, an answer is reduced to the one number it
    stands for or refused, and the evaluation of a canary runs over it.

    The server's side is the documented query API of Prometheus: the result
    types [prom_answer], their JSON [render] and the class [PrometheusServer]. *)
From Stdlib Require Import SpecFloat.
From S2P Require Import Prelude Types Objects GoFloat Enforcer Cluster Json JsonProps Http PromQL Metrics.

(** ** The query text survives the URL *)

Lemma QueryUnescape_char c s :
  QueryUnescape (QueryEscape (String c s)) = String c <$> QueryUnescape (QueryEscape s).
Proof. destruct c as [[] [] [] [] [] [] [] []]; reflexivity. Qed.

Lemma QueryUnescape_Escape s : QueryUnescape (QueryEscape s) = Some s.
Proof. induction s as [|c s IH]; [done|]. by rewrite QueryUnescape_char, IH. Qed.

(** The separators of a query string: [&], [;] and [=]. *)
Definition separator (n : Z) : Prop := n = 38 ∨ n = 59 ∨ n = 61.

(** Text without a given character. *)
Fixpoint lacks (n : Z) (s : string) : bool :=
  match s with EmptyString => true | String c s' => negb (code c =? n) && lacks n s' end.

Lemma lacks_app n s t : lacks n (s +:+ t) = lacks n s && lacks n t.
Proof.
  induction s as [|c s IH]; [done|]. rewrite app_cons_string. simpl. rewrite IH. apply andb_assoc.
Qed.

Lemma lacks_QueryEscape n s : separator n → lacks n (QueryEscape s) = true.
Proof.
  intros Hn. induction s as [|c s IH]; [done|].
  assert (E : lacks n (QueryEscape (String c s)) = lacks n (QueryEscape s)); [|by rewrite E].
  destruct Hn as [->|[->| ->]]; destruct c as [[] [] [] [] [] [] [] []]; reflexivity.
Qed.

Lemma cut_lacks n s t : lacks n s = true → cut n (s +:+ String (chr n) t) =
  if code (chr n) =? n then (s, Some t) else cut n (s +:+ String (chr n) t).
Proof.
  intros Hs. case_match eqn:E; [|done]. induction s as [|c s IH].
  - change ("" +:+ String (chr n) t) with (String (chr n) t). simpl. by rewrite E.
  - rewrite app_cons_string. simpl in *. zbool. replace (code c =? n) with false by lia.
    by rewrite IH.
Qed.

Lemma cut_none n s : lacks n s = true → cut n s = (s, None).
Proof.
  induction s as [|c s IH]; [done|]. simpl. intros Hs. zbool.
  replace (code c =? n) with false by lia. by rewrite IH.
Qed.

Lemma encode_pair_parse kv : parse_pair (encode_pair kv) = Some kv.
Proof.
  destruct kv as [k v]. unfold parse_pair, encode_pair. cbn [fst snd].
  assert (Hc : contains_char 59 (QueryEscape k +:+ "=" +:+ QueryEscape v) = false).
  { unfold contains_char. rewrite cut_none; [done|].
    rewrite !lacks_app, !lacks_QueryEscape by (unfold separator; lia). done. }
  assert (He : (QueryEscape k +:+ "=" +:+ QueryEscape v =s? "") = false).
  { apply str_eqb_false. by destruct (QueryEscape k). }
  rewrite Hc, He. cbn [orb].
  change (QueryEscape k +:+ "=" +:+ QueryEscape v) with (QueryEscape k +:+ String (chr 61) (QueryEscape v)).
  rewrite cut_lacks by (apply lacks_QueryEscape; unfold separator; lia).
  change (code (chr 61) =? 61) with true. simpl. by rewrite !QueryUnescape_Escape.
Qed.

Lemma encode_pair_lacks kv : lacks 38 (encode_pair kv) = true.
Proof.
  unfold encode_pair. rewrite !lacks_app, !lacks_QueryEscape by (unfold separator; lia). done.
Qed.

Lemma split_on_none n s : lacks n s = true → split_on n s = [s].
Proof.
  induction s as [|c s IH]; [done|]. simpl. intros Hs. zbool.
  replace (code c =? n) with false by lia. by rewrite IH.
Qed.

Lemma split_on_app s t : lacks 38 s = true → split_on 38 (s +:+ "&" +:+ t) = s :: split_on 38 t.
Proof.
  induction s as [|c s IH]; [done|]. rewrite app_cons_string. simpl. intros Hs. zbool.
  replace (code c =? 38) with false by lia. by rewrite IH.
Qed.

Lemma pairs_roundtrip l :
  omap parse_pair (split_on 38 (String.concat "&" (map encode_pair l))) = l.
Proof.
  destruct l as [|kv l]; [done|]. revert kv. induction l as [|kw l IH]; intros kv.
  - cbn [map String.concat]. rewrite split_on_none by apply encode_pair_lacks. simpl.
    by rewrite encode_pair_parse.
  - change (String.concat "&" (map encode_pair (kv :: kw :: l))) with
      (encode_pair kv +:+ "&" +:+ String.concat "&" (map encode_pair (kw :: l))).
    rewrite split_on_app by apply encode_pair_lacks. specialize (IH kw).
    cbn -[split_on String.concat] in *. by rewrite encode_pair_parse, IH.
Qed.

Lemma ParseQuery_Encode_pairs q : ParseQuery (Values_Encode q) = foldl Values_Add [] (Values_pairs q).
Proof. unfold ParseQuery, Values_Encode. by rewrite pairs_roundtrip. Qed.

(** ** Answers of the Prometheus query API

    The documented result types of [/api/v1/query] and [/api/v1/query_range],
    and the JSON they are reported in. *)

(** A point: a timestamp literal and the text of the value. *)
Record point := { pt_time : string; pt_value : string }.

Inductive prom_answer :=
  | AScalar (p : point)
  | AString (p : point)
  | AVector (samples : list (list (string * string) * point))
  | AMatrix (series : list (list (string * string) * list point))
  | AError (errorType msg : string).

Definition render_point (p : point) : json := JArray [JNumber (pt_time p); JString (pt_value p)].
Definition render_metric (m : list (string * string)) : json :=
  JObject ((λ kv, (kv.1, JString kv.2)) <$> m).

Definition render_sample (s : list (string * string) * point) : json :=
  JObject [("metric", render_metric s.1); ("value", render_point s.2)].
Definition render_series (s : list (string * string) * list point) : json :=
  JObject [("metric", render_metric s.1); ("values", JArray (render_point <$> s.2))].

Definition render_data (resultType : string) (result : list json) : json :=
  JObject [("status", JString "success");
    ("data", JObject [("resultType", JString resultType); ("result", JArray result)])].

Definition render (a : prom_answer) : json :=
  match a with
  | AScalar p => render_data "scalar" [JNumber (pt_time p); JString (pt_value p)]
  | AString p => render_data "string" [JNumber (pt_time p); JString (pt_value p)]
  | AVector l => render_data "vector" (render_sample <$> l)
  | AMatrix l => render_data "matrix" (render_series <$> l)
  | AError t m => JObject [("status", JString "error"); ("errorType", JString t); ("error", JString m)]
  end.

(** The one number an instant query stands for: a scalar's, or the value of the
    only sample of a vector. *)
Definition instant_value (a : prom_answer) : option string :=
  match a with
  | AScalar p => Some (pt_value p)
  | AVector [s] => Some (pt_value s.2)
  | _ => None
  end.

(** The most recent value of the first series. *)
Definition latest_value (a : prom_answer) : option string :=
  match a with
  | AMatrix (s :: _) => pt_value <$> list.last s.2
  | _ => None
  end.

(** [r] is the number the text [v] denotes, or an error when there is none. *)
Definition reads (v : option string) (r : error + float64) : Prop :=
  match v with
  | Some s => r = ParseFloat s
  | None => ∃ e, r = inl e
  end.

Section parsing.
Context `{JSONErrors}.

Lemma dec_elems_raw l : ∀ b : list RawMessage, ∃ b',
  dec_elems None dec_raw l b = Some ((Some <$> l) ++ b').
Proof.
  induction l as [|v l IH]; intros b; [by exists b|]. cbn [dec_elems].
  destruct (IH (List.tl b)) as [b' E]. simpl. rewrite E. by exists b'.
Qed.

Lemma dec_slice_raw l :
  ∃ s, dec_slice None dec_raw (JArray l) slice_nil = Some s ∧ slice_list s = Some <$> l.
Proof.
  destruct l as [|v l]; [by eexists|]. unfold dec_slice.
  destruct (dec_elems_raw (v :: l) (sl_backing slice_nil)) as [b ->]. eexists. split; [done|].
  unfold slice_list; cbn [sl_len sl_backing]. rewrite take_app_length'; [done|]. by rewrite length_fmap.
Qed.

Lemma decode_data t l : ∃ r,
  dec_prometheusResponse (render_data t l) zero_response = Some r ∧
  pr_Status r = "success" ∧ rd_ResultType (pr_Data r) = t ∧
  slice_list (rd_Result (pr_Data r)) = Some <$> l.
Proof.
  destruct (dec_slice_raw l) as (s & Hs & El).
  unfold dec_prometheusResponse, render_data. cbn [dec_struct dec_members].
  assert (F1 : ∀ A (f g : Decoder A), find_field [("status", f); ("data", g)] "status" = Some f) by done.
  assert (F2 : ∀ A (f g : Decoder A), find_field [("status", f); ("data", g)] "data" = Some g) by done.
  assert (F3 : ∀ A (f g : Decoder A), find_field [("resultType", f); ("result", g)] "resultType" = Some f) by done.
  assert (F4 : ∀ A (f g : Decoder A), find_field [("resultType", f); ("result", g)] "result" = Some g) by done.
  rewrite F1, F2. unfold dec_field at 1 2. cbn.
  unfold dec_responseData. cbn [dec_struct dec_members]. rewrite F3, F4. unfold dec_field. cbn [dec_string].
  cbn -[dec_slice]. rewrite Hs. cbn. eexists. split_and!; done.
Qed.

Lemma extract_point p : extractValueFromPair (Some (render_point p)) = ParseFloat (pt_value p).
Proof. done. Qed.

Lemma extract_sample s :
  extractValueFromVectorElement (Some (render_sample s)) = ParseFloat (pt_value s.2).
Proof. done. Qed.

Lemma decode_series s : ∃ vs,
  Unmarshal_raw dec_values_field (Some (render_series s)) slice_nil = inr vs ∧
  slice_list vs = (λ p, Some (render_point p)) <$> s.2.
Proof.
  destruct (dec_slice_raw (render_point <$> s.2)) as (vs & Hs & El).
  exists vs. split; [|by rewrite El, <- list_fmap_compose].
  unfold Unmarshal_raw, unmarshal_value, dec_values_field, render_series. cbn [dec_struct dec_members].
  assert (F1 : ∀ A (f : Decoder A), find_field [("values", f)] "metric" = None) by done.
  assert (F2 : ∀ A (f : Decoder A), find_field [("values", f)] "values" = Some f) by done.
  by rewrite F1, F2, Hs.
Qed.

Lemma parseScalar_render body a :
  parse_json body = Parsed (render a) → reads (instant_value a) (parseScalarFromQueryResponse body).
Proof.
  intros Hb. unfold parseScalarFromQueryResponse, Unmarshal. rewrite Hb. unfold unmarshal_value.
  destruct a as [p|p|l|l|t m]; cbn [render instant_value].
  1-4: match goal with |- context [render_data ?t ?l] =>
    destruct (decode_data t l) as (r & Hr & Es & Et & El) end;
    rewrite Hr; cbn [wrap mbind sum_bind]; rewrite Es, Et, El; cbn [str_eqb].
  - done.
  - by eexists.
  - by destruct l as [|s [|s' l]]; [eexists| |eexists].
  - by eexists.
  - by eexists.
Qed.

Lemma parseLast_render body a :
  parse_json body = Parsed (render a) → reads (latest_value a) (parseLastValueFromRangeResponse body).
Proof.
  intros Hb. unfold parseLastValueFromRangeResponse, Unmarshal. rewrite Hb. unfold unmarshal_value.
  destruct a as [p|p|l|l|t m]; cbn [render latest_value]; [| | | |by eexists].
  all: match goal with |- context [render_data ?t ?l] =>
    destruct (decode_data t l) as (r & Hr & Es & Et & El) end;
    rewrite Hr; cbn [wrap mbind sum_bind]; rewrite Es, El, str_eqb_refl; cbn [negb].
  1-2: by eexists.
  - by destruct l as [|s l]; eexists.
  - destruct l as [|s l]; [by eexists|]. rewrite !fmap_cons.
    destruct (decode_series s) as (vs & Hv & Ev). rewrite Hv. cbn [wrap mbind sum_bind].
    rewrite Ev, fmap_last. destruct (list.last s.2); [done|by eexists].
Qed.
End parsing.

(** ** A server of the query API *)

(** The response to a query that has the answer [a]: its JSON below the size
    limit, with status 200 exactly for a success. *)
Definition delivers (a : prom_answer) (resp : HTTPResponse) : Prop :=
  Z.of_nat (String.length (ht_Body resp)) < maxResponseBytes ∧ ht_BodyError resp = None ∧
  parse_json (ht_Body resp) = Parsed (render a) ∧
  (ht_StatusCode resp = 200 ↔ match a with AError _ _ => False | _ => True end).

Definition GET (url : string) : HTTPRequest :=
  {| rq_Method := "GET"; rq_URL := url; rq_Header := []; rq_Body := "" |}.

Definition api_query : string := "/api/v1/query".
Definition api_query_range : string := "/api/v1/query_range".

(** [base] is the URL of a Prometheus that evaluates the query parameter of a
    request; URLs below it parse into themselves. *)
Class PrometheusServer `{HTTPClient W} (base : string)
    (instant : string → prom_answer) (range : Values → prom_answer) : Prop := {
  base_trimmed : TrimRight_slash base = base;
  path_parses path : path ∈ [api_query; api_query_range] →
    url_Parse (base +:+ path) = inr {| u_Prefix := base +:+ path; u_RawQuery := ""; u_Fragment := "" |};
  query_parses path q : path ∈ [api_query; api_query_range] →
    ∃ u, url_Parse (base +:+ path +:+ "?" +:+ Values_Encode q) = inr u;
  instant_answer timeout raw w : ∃ resp w',
    Do timeout (GET (base +:+ api_query +:+ "?" +:+ raw)) w = (inr resp, w') ∧
    delivers (instant (Values_Get "query" (ParseQuery raw))) resp;
  range_answer timeout raw w : ∃ resp w',
    Do timeout (GET (base +:+ api_query_range +:+ "?" +:+ raw)) w = (inr resp, w') ∧
    delivers (range (ParseQuery raw)) resp;
}.

Lemma NewClient_baseURL base n ds :
  cl_baseURL (NewClient (base +:+ slashes n) (WithTimeout <$> ds)) = TrimRight_slash base.
Proof.
  unfold NewClient. rewrite TrimRight_app. set (c := Build_Client _ _).
  change (TrimRight_slash base) with (cl_baseURL c). clearbody c. revert c.
  induction ds as [|d ds IH]; intros c; [done|]. cbn. by rewrite IH.
Qed.

(** The request of an instant query and of a range query. *)
Definition instant_params (q : string) : Values := [("query", [q])].
Definition range_params (q : string) (start end_ step : Z) : Values :=
  [("end", [formatTime end_]); ("query", [q]); ("start", [formatTime start]);
   ("step", [formatDuration step])].

Lemma instant_params_read q : Values_Get "query" (ParseQuery (Values_Encode (instant_params q))) = q.
Proof. by rewrite ParseQuery_Encode_pairs. Qed.

Lemma range_params_read q start end_ step :
  ParseQuery (Values_Encode (range_params q start end_ step)) = range_params q start end_ step.
Proof. by rewrite ParseQuery_Encode_pairs. Qed.

Lemma Values_Encode_nonempty k v vs q : (Values_Encode ((k, v :: vs) :: q) =s? "") = false.
Proof.
  apply str_eqb_false. unfold Values_Encode, Values_pairs. cbn.
  assert (He : ∀ x t, encode_pair x +:+ t ≠ "").
  { intros [k' v'] t. unfold encode_pair. cbn. by destruct (QueryEscape k'). }
  destruct (_ ++ _); cbn; [|apply He]. rewrite <- (app_nil_string (encode_pair (k, v))). apply He.
Qed.

Section server.
Context `{JSONErrors} `{PrometheusServer W base instant range}.
Implicit Types (w : W).

(** The URL of a request with parameters. *)
Lemma query_url path k v vs q :
  URL_String (URL_set_RawQuery (Values_Encode ((k, v :: vs) :: q))
    {| u_Prefix := base +:+ path; u_RawQuery := ""; u_Fragment := "" |}) =
  base +:+ path +:+ "?" +:+ Values_Encode ((k, v :: vs) :: q).
Proof.
  unfold URL_String, URL_set_RawQuery. cbn [u_Prefix u_RawQuery u_Fragment].
  by rewrite Values_Encode_nonempty, str_eqb_refl, app_nil_string, app_assoc_string.
Qed.

(** Reading what the server delivers. *)
Lemma read_delivered a resp : delivers a resp → read_body resp = inr (ht_Body resp).
Proof.
  intros (Hl & He & _). unfold read_body, ReadAll_limited.
  replace (maxResponseBytes <=? _) with false by lia. by rewrite He.
Qed.

(** A response with another status than 200 carries no number. *)
Lemma refused_reads a (value : prom_answer → option string) resp e :
  (∀ t m, value (AError t m) = None) → delivers a resp → ht_StatusCode resp ≠ 200 →
  reads (value a) (inl e).
Proof.
  intros Hv (_ & _ & _ & Hcode) Hne. destruct a; try (destruct Hne; by apply Hcode).
  rewrite Hv. by eexists.
Qed.

Lemma QueryScalar_server c q w :
  cl_baseURL c = base →
  ∃ r w', Client_QueryScalar c q w = (r, w') ∧ reads (instant_value (instant q)) r.
Proof.
  intros Hb. unfold Client_QueryScalar. rewrite Hb. change "/api/v1/query" with api_query.
  erewrite bind_step by (apply wrap_err_inr; unfold lift; rewrite path_parses by set_solver; done).
  cbv beta zeta. change (Values_Set _ _ _) with (instant_params q).
  destruct (query_parses api_query (instant_params q)) as [u Hpu]; [set_solver|].
  erewrite bind_step; [|apply wrap_err_inr; unfold lift, NewRequest, instant_params;
    rewrite query_url; unfold instant_params in Hpu; rewrite Hpu; reflexivity].
  cbv beta.
  destruct (instant_answer (cl_Timeout c) (Values_Encode (instant_params q)) w) as (resp & w' & Hdo & Hdel).
  erewrite bind_step by (apply wrap_err_inr; exact Hdo). cbv beta.
  erewrite bind_step by (apply wrap_err_inr; unfold lift; rewrite (read_delivered _ _ Hdel); done).
  cbv beta. rewrite instant_params_read in Hdel.
  destruct (ht_StatusCode resp =? 200) eqn:Ec; zbool; cbn [negb]; (eexists _, _; split; [done|]).
  - apply parseScalar_render, Hdel.
  - by eapply refused_reads.
Qed.

Lemma QueryRange_server c q start end_ step w :
  cl_baseURL c = base →
  ∃ r w', QueryRange c q start end_ step w = (r, w') ∧
    reads (latest_value (range (range_params q start end_ step))) r.
Proof.
  intros Hb. unfold QueryRange. rewrite Hb. change "/api/v1/query_range" with api_query_range.
  erewrite bind_step by (apply wrap_err_inr; unfold lift; rewrite path_parses by set_solver; done).
  cbv beta zeta.
  change (Values_Set "step" _ _) with (range_params q start end_ step).
  destruct (query_parses api_query_range (range_params q start end_ step)) as [u Hpu]; [set_solver|].
  erewrite bind_step; [|apply wrap_err_inr; unfold lift, NewRequest, range_params;
    rewrite query_url; unfold range_params in Hpu; rewrite Hpu; reflexivity].
  cbv beta.
  destruct (range_answer (cl_Timeout c) (Values_Encode (range_params q start end_ step)) w)
    as (resp & w' & Hdo & Hdel).
  erewrite bind_step by (apply wrap_err_inr; exact Hdo). cbv beta.
  erewrite bind_step by (apply wrap_err_inr; unfold lift; rewrite (read_delivered _ _ Hdel); done).
  cbv beta. rewrite range_params_read in Hdel.
  destruct (ht_StatusCode resp =? 200) eqn:Ec; zbool; cbn [negb]; (eexists _, _; split; [done|]).
  - apply parseLast_render, Hdel.
  - by eapply refused_reads.
Qed.
End server.

(** ** The step of a range query

    Prometheus reads a step as a number of seconds or as a duration. *)

Definition ends_in_s (s : string) : Prop := ∃ t, s = t +:+ "s".

Lemma ends_in_s_cons c s : ends_in_s (String c s) → (s = "" ∧ code c = 115) ∨ ends_in_s s.
Proof.
  intros [[|c' t] E].
  - left. by injection E as -> ->.
  - rewrite app_cons_string in E. injection E as -> ->. right. by exists t.
Qed.

Lemma ends_in_s_nonempty s : ends_in_s s → s ≠ "".
Proof. by intros [[|c t] ->]. Qed.

Lemma s_no_digit base c : code c = 115 → digit_val base c = None.
Proof.
  intros E. unfold digit_val, is_digit, lower. rewrite E. simpl. by rewrite andb_false_r.
Qed.

Lemma read_digits_s base s st : ends_in_s s → ends_in_s (read_digits base s st).2.
Proof.
  revert st. induction s as [|c s IH]; intros st Hs; [done|]. cbn [read_digits].
  destruct (ends_in_s_cons _ _ Hs) as [[-> Hc]|Hs'].
  - rewrite Hc, (s_no_digit base c Hc). done.
  - repeat case_match; try (by apply IH); done.
Qed.

Lemma read_exp_s s e us : ends_in_s s → ends_in_s (read_exp s e us).2.
Proof.
  revert e us. induction s as [|c s IH]; intros e us Hs; [done|]. cbn [read_exp].
  destruct (ends_in_s_cons _ _ Hs) as [[-> Hc]|Hs'].
  - unfold is_digit. by rewrite Hc.
  - repeat case_match; try (by apply IH); done.
Qed.

Lemma strip_sign_s s : ends_in_s s → ends_in_s (strip_sign s).2.
Proof.
  intros Hs. destruct s as [|c s]; [done|]. cbn [strip_sign].
  destruct (ends_in_s_cons _ _ Hs) as [[-> Hc]|Hs']; [by rewrite Hc|]. by repeat case_match.
Qed.

Lemma special_s s : ends_in_s s → special s = None.
Proof.
  intros Hs. unfold special. pose proof (strip_sign_s s Hs) as [t Ht].
  destruct (strip_sign s) as [neg body]. simpl in Ht. subst body.
  assert (Hl : list.last (lower_string (t +:+ "s")) = Some 115).
  { clear. induction t as [|c t IH]; [done|]. rewrite app_cons_string. cbn [lower_string].
    by rewrite last_cons, IH. }
  rewrite !bool_decide_eq_false_2 by (intros E; rewrite E in Hl; discriminate Hl).
  by rewrite andb_false_r.
Qed.

Lemma parse_finite_s s : ends_in_s s → parse_finite s = None.
Proof.
  intros Hs. unfold parse_finite. pose proof (strip_sign_s s Hs) as Hb.
  destruct (strip_sign s) as [neg body]. simpl in Hb.
  set (hb := match body with "" => _ | _ => _ end).
  assert (Hhb : ends_in_s hb.2).
  { subst hb. destruct body as [|z [|x [|y r]]]; try done. case_match; [|done]. simpl.
    apply ends_in_s_cons in Hb as [[? _]|Hb]; [done|]. by apply ends_in_s_cons in Hb as [[? _]|Hb]. }
  destruct hb as [hex body0]. cbn [snd] in Hhb. cbv zeta.
  match goal with |- context [read_digits ?b body0 ?st] =>
    pose proof (read_digits_s b body0 st Hhb) as Hr; destruct (read_digits b body0 st) as [st' rest] end.
  cbn [snd] in Hr. case_match; [done|].
  destruct rest as [|c r]; [by apply ends_in_s_nonempty in Hr|]. case_match; [done|].
  apply ends_in_s_cons in Hr as [[-> _]|Hr]; [done|].
  pose proof (strip_sign_s r Hr) as He. destruct (strip_sign r) as [eneg r0]. cbn [snd] in He.
  destruct r0 as [|d r0]; [done|]. destruct (negb (is_digit d)); [done|].
  pose proof (read_exp_s _ 0 (dg_underscores st') He) as Hx.
  destruct (read_exp _ _ _) as [[e us] z]. cbn [snd] in Hx.
  destruct z; [by apply ends_in_s_nonempty in Hx|done].
Qed.

Lemma parse_num_dot n t : 0 ≤ n → (parse_num 0 (fmt_d n +:+ "." +:+ t)).2 = "." +:+ t.
Proof.
  intros Hn. destruct (decide (n = 0)) as [->|].
  - done.
  - rewrite fmt_d_pos by lia. rewrite pretty_go_app, parse_num_pretty_go. done.
Qed.

Lemma fmt_fixed_rejected prec q t : (prec ≠ 0)%nat → 0 ≤ q → parse_parts 5 (fmt_fixed prec q +:+ t) = None.
Proof.
  intros Hp Hq. unfold fmt_fixed. destruct prec as [|p]; [done|].
  assert (H10 : 0 < 10 ^ Z.of_nat (S p)) by (apply Z.pow_pos_nonneg; lia).
  assert (Hn : 0 ≤ q / 10 ^ Z.of_nat (S p)) by (by apply Z.div_pos).
  rewrite !app_assoc_string. generalize dependent (q / 10 ^ Z.of_nat (S p)). intros n Hn.
  set (u := pad_digits _ _ _ +:+ t). pose proof (parse_num_dot n u Hn) as Hd.
  cbn [parse_parts]. destruct (fmt_d n +:+ "." +:+ u) as [|c v] eqn:E; [by destruct (fmt_d n)|].
  case_match; [done|]. destruct (parse_num 0 (String c v)) as [m r]. cbn [snd] in Hd. by rewrite Hd.
Qed.

Lemma fmt_f_rejected x t : parse_prom_duration (fmt_f 3 x +:+ t) = None.
Proof.
  unfold parse_prom_duration. case_match; [done|].
  destruct x as [neg|neg| |neg m e]; cbn [fmt_f].
  - destruct neg; [done|]. by apply fmt_fixed_rejected.
  - by destruct neg.
  - done.
  - destruct neg; [done|]. apply fmt_fixed_rejected; [done|]. unfold scaled_round.
    assert (0 < 10 ^ Z.of_nat 3) by done.
    repeat case_match; try (apply Z.mul_nonneg_nonneg; [lia|apply Z.pow_nonneg; lia]).
    + apply Z.div_pos; [lia|]. apply Z.pow_pos_nonneg; lia.
    + assert (0 ≤ Z.pos m * 10 ^ Z.of_nat 3 / 2 ^ (- e)); [|lia].
      apply Z.div_pos; [lia|]. apply Z.pow_pos_nonneg; lia.
Qed.

(** ** Evaluations that cannot be made *)

(** [expr or vector(0)] is what [expr] is, or the number 0 when that is empty. *)
Definition or_vector_zero (t : string) (a : prom_answer) : prom_answer :=
  match a with AVector [] => AVector [([], {| pt_time := t; pt_value := "0" |})] | _ => a end.

Lemma or_vector_zero_value t a v :
  instant_value a = Some v → instant_value (or_vector_zero t a) = Some v.
Proof. by destruct a as [| |[|]| |]. Qed.

(** The request count without its default. *)
Definition requestCountExpr (adName namespace d : string) : string :=
  "sum(increase(http_requests_total{namespace=" +:+ Quote namespace +:+
  ",app_kubernetes_io_name=" +:+ Quote adName +:+ ",agentrax_io_variant=" +:+
  Quote "canary" +:+ "}[" +:+ d +:+ "]))".

Lemma requestCountQuery_expr name ns window d : promDuration window = inr d →
  requestCountQuery name ns window = inr (requestCountExpr name ns d +:+ " or vector(0)").
Proof. intros Hd. unfold requestCountQuery, requestCountExpr. by rewrite Hd, !app_assoc_string. Qed.

Lemma errorRateQuery_total name ns window d : promDuration window = inr d →
  ∃ q, errorRateQuery name ns window = inr q.
Proof. intros Hd. unfold errorRateQuery. rewrite Hd. by eexists. Qed.

Lemma p99LatencyQuery_total name ns window d : promDuration window = inr d →
  ∃ q, p99LatencyQuery name ns window = inr q.
Proof. intros Hd. unfold p99LatencyQuery. rewrite Hd. by eexists. Qed.

(** Rounding a positive mantissa gives a number. *)
Lemma shr_1_nonneg mrs : 0 ≤ shr_m mrs → 0 ≤ shr_m (shr_1 mrs).
Proof. destruct mrs as [[|[]|[]] r s]; simpl; lia. Qed.

Lemma shr_nonneg mrs e n : 0 ≤ shr_m mrs → 0 ≤ shr_m (shr mrs e n).1.
Proof.
  intros H0. destruct n as [|p|p]; simpl; [done| |done]. revert mrs H0.
  induction p as [p IH|p IH|]; intros mrs H0; simpl; auto using shr_1_nonneg.
Qed.

Lemma f64_of_Z_number z : f64_of_Z z ≠ S754_nan.
Proof.
  assert (Hr : ∀ sx m e, 0 ≤ m → binary_round_aux f64_prec f64_emax sx m e loc_Exact ≠ S754_nan).
  { intros sx m e Hm. unfold binary_round_aux, shr_fexp.
    pose proof (shr_nonneg (shr_record_of_loc m loc_Exact) e
      (fexp f64_prec f64_emax (Zdigits2 m + e) - e) Hm) as H1.
    destruct (shr _ e _) as [mrs e']. simpl in H1.
    assert (H2 : 0 ≤ round_nearest_even (shr_m mrs) (loc_of_shr_record mrs))
      by (unfold round_nearest_even; repeat case_match; lia).
    pose proof (shr_nonneg (shr_record_of_loc _ loc_Exact) e'
      (fexp f64_prec f64_emax (Zdigits2 (round_nearest_even (shr_m mrs) (loc_of_shr_record mrs)) + e') - e') H2) as H3.
    destruct (shr _ e' _) as [mrs2 e2]. simpl in H3. destruct (shr_m mrs2); [done| |lia]. by case_match. }
  unfold f64_of_Z, binary_normalize, binary_round. destruct z; [done|..]; destruct (shl_align _ _ _); by apply Hr.
Qed.

(** At least one request is asked for. *)
Lemma minSample_pos policy : f64_lt (f64_of_Z 0) (minSample policy) = true.
Proof.
  unfold minSample. destruct (f64_le _ _) eqn:E; [by vm_compute|].
  pose proof (f64_of_Z_number (rb_MinRequestSample policy)).
  destruct (f64_of_Z (rb_MinRequestSample policy)) as [|[]| |[]]; done.
Qed.

Section unmeasured.
Context `{CoreTypes} `{Prometheus W}.
Implicit Types (ad : AgentDeployment) (w : W).

Lemma Evaluate_small ad window q c w w' :
  requestCountQuery (ad_Name ad) (ad_Namespace ad) window = inr q → QueryScalar q w = (inr c, w') →
  f64_lt c (minSample (ro_Rollback (spec_Rollout (ad_Spec ad)))) = true →
  ∃ r, Evaluate ad window w = (inr r, w') ∧ ev_SampleTooSmall r = true ∧ ev_ThresholdBreached r = false ∧
    ev_SampleCount r = c.
Proof.
  intros Hq Hr Hs. unfold Evaluate. rewrite Hq. erewrite bind_step by done. cbv beta.
  erewrite bind_step by (by apply wrap_err_inr). cbv beta. rewrite Hs. by eexists.
Qed.

Lemma Evaluate_no_rate ad window q c qe e w w1 w2 :
  requestCountQuery (ad_Name ad) (ad_Namespace ad) window = inr q → QueryScalar q w = (inr c, w1) →
  f64_lt c (minSample (ro_Rollback (spec_Rollout (ad_Spec ad)))) = false →
  errorRateQuery (ad_Name ad) (ad_Namespace ad) window = inr qe → QueryScalar qe w1 = (inl e, w2) →
  ∃ err w', Evaluate ad window w = (inl err, w').
Proof.
  intros Hq Hr Hs Hqe Hre. unfold Evaluate. rewrite Hq, Hqe. erewrite bind_step by done. cbv beta.
  erewrite bind_step by (by apply wrap_err_inr). cbv beta. rewrite Hs. erewrite bind_step by done. cbv beta.
  eexists _, w2. apply bind_fail. unfold wrap_err. by rewrite Hre.
Qed.

Lemma Evaluate_no_latency ad window q c qe e qp ep w w1 w2 w3 :
  let policy := ro_Rollback (spec_Rollout (ad_Spec ad)) in
  requestCountQuery (ad_Name ad) (ad_Namespace ad) window = inr q → QueryScalar q w = (inr c, w1) →
  f64_lt c (minSample policy) = false →
  errorRateQuery (ad_Name ad) (ad_Namespace ad) window = inr qe → QueryScalar qe w1 = (inr e, w2) →
  rate_breach policy e = false →
  p99LatencyQuery (ad_Name ad) (ad_Namespace ad) window = inr qp → QueryScalar qp w2 = (inl ep, w3) →
  ∃ err w', Evaluate ad window w = (inl err, w').
Proof.
  intros policy Hq Hr Hs Hqe Hre Hb Hqp Hrp. unfold Evaluate. fold policy. rewrite Hq, Hqe, Hqp.
  erewrite bind_step by done. cbv beta. erewrite bind_step by (by apply wrap_err_inr). cbv beta. rewrite Hs.
  erewrite bind_step by done. cbv beta. erewrite bind_step by (by apply wrap_err_inr). cbv beta.
  unfold rate_breach in Hb. destruct (ParseErrorRate _) as [|rate]; [done|]. rewrite Hb.
  erewrite bind_step by done. cbv beta. eexists _, w3. apply bind_fail. unfold wrap_err. by rewrite Hrp.
Qed.
End unmeasured.

Section answers.
Context `{JSONErrors} `{PrometheusServer W base instant range}.
Implicit Types (w : W).

Lemma QueryScalar_value n ds q v f w : instant_value (instant q) = Some v → ParseFloat v = inr f →
  ∃ w', Client_QueryScalar (NewClient (base +:+ slashes n) (WithTimeout <$> ds)) q w = (inr f, w').
Proof.
  intros Hv Hf. destruct (QueryScalar_server (NewClient (base +:+ slashes n) (WithTimeout <$> ds)) q w)
    as (r & w' & Hr & Hrd); [by rewrite NewClient_baseURL, base_trimmed|].
  rewrite Hv in Hrd. simpl in Hrd. exists w'. by rewrite <- Hf, <- Hrd.
Qed.

Lemma QueryScalar_no_value n ds q w : instant_value (instant q) = None →
  ∃ e w', Client_QueryScalar (NewClient (base +:+ slashes n) (WithTimeout <$> ds)) q w = (inl e, w').
Proof.
  intros Hv. destruct (QueryScalar_server (NewClient (base +:+ slashes n) (WithTimeout <$> ds)) q w)
    as (r & w' & Hr & Hrd); [by rewrite NewClient_baseURL, base_trimmed|].
  rewrite Hv in Hrd. destruct Hrd as [e ->]. by exists e, w'.
Qed.
End answers.

(** ** A server to evaluate the client on *)

Module PromServer.
Section server.
Context (instant : string → prom_answer) (range : Values → prom_answer).

Definition base : string := "http://prometheus.monitoring.svc:9090".

Definition respond (a : prom_answer) : HTTPResponse :=
  {| ht_StatusCode := match a with AError _ _ => 422 | _ => 200 end;
     ht_Body := print_json (render a); ht_BodyError := None |}.

Definition http : HTTPClient unit := {|
  url_Parse s := let '(p, q) := cut 63 s in
    inr {| u_Prefix := p; u_RawQuery := default "" q; u_Fragment := "" |};
  Do _ req w :=
    let '(p, q) := cut 63 (rq_URL req) in
    let raw := default "" q in
    (inr (respond (if p =s? base +:+ api_query then instant (Values_Get "query" (ParseQuery raw))
                   else range (ParseQuery raw))), w);
|}.

(** An answer whose JSON is well formed and below the limit. *)
Definition deliverable (a : prom_answer) : bool :=
  json_wf (render a) && (height (render a) <=? maxNestingDepth) &&
  (Z.of_nat (String.length (print_json (render a))) <? maxResponseBytes).

Lemma respond_delivers a : deliverable a = true → delivers a (respond a).
Proof.
  unfold deliverable. intros Hd. zbool. unfold delivers, respond.
  cbn [ht_Body ht_BodyError ht_StatusCode]. split_and!; [done|done|by apply print_parse_json|].
  destruct a; (split; [intros E|intros []]); (exact I || discriminate E || reflexivity).
Qed.

Lemma server :
  (∀ q, deliverable (instant q) = true) → (∀ v, deliverable (range v) = true) →
  PrometheusServer (H := http) base instant range.
Proof.
  intros Hi Hr. split.
  - done.
  - intros path Hp. rewrite !elem_of_cons, elem_of_nil in Hp. by destruct Hp as [->|[->|[]]].
  - intros path q Hp. rewrite !elem_of_cons, elem_of_nil in Hp.
    destruct Hp as [->|[->|[]]]; by eexists.
  - intros timeout raw w. exists (respond (instant (Values_Get "query" (ParseQuery raw)))), w.
    split; [reflexivity|]. by apply respond_delivers.
  - intros timeout raw w. exists (respond (range (ParseQuery raw))), w.
    split; [reflexivity|]. by apply respond_delivers.
Qed.
End server.

#[global] Instance errors : JSONErrors := {|
  json_SyntaxError s := PlainError "unexpected end of JSON input";
  json_UnmarshalTypeError v := PlainError "json: cannot unmarshal";
  json_DecodeError s e := default (PlainError "unexpected EOF") e |}.

Definition sample (v : string) : prom_answer :=
  AVector [([("app", "agent")], {| pt_time := "1700000000.5"; pt_value := v |})].

(** A canary with 200 requests, 3% errors and 80ms latency. *)
Definition measured (q : string) : prom_answer :=
  sample (if has_prefix "sum(" q then "200" else if has_prefix "(sum" q then "0.03" else "80").

(** A canary that is not scraped: there is no series of it, so that a count is
    empty, the same [or vector(0)] is zero, and so is the quotient of two such. *)
Definition now : string := "1700000000.5".
Definition unscraped (q : string) : prom_answer :=
  let or_zero := "])) or vector(0)" in
  let ending := String.substring (String.length q - String.length or_zero) (String.length or_zero) q in
  if has_prefix "histogram_quantile" q || has_prefix "sum(" q && negb (ending =s? or_zero) then AVector []
  else AVector [([], {| pt_time := now; pt_value := "0" |})].

Definition history (v : Values) : prom_answer :=
  AMatrix [([("app", "agent")], [{| pt_time := "1"; pt_value := "3" |}; {| pt_time := "2"; pt_value := "7" |}])].

Lemma measured_deliverable q : deliverable (measured q) = true.
Proof. unfold measured. by destruct (has_prefix _ q), (has_prefix "(sum" q). Qed.

Lemma unscraped_deliverable q : deliverable (unscraped q) = true.
Proof. unfold unscraped. cbv zeta. by destruct (_ || _). Qed.
End PromServer.

(** ** Theorems *)

(** No range query is ever accepted: the step is written in seconds with
    three decimals and a unit, which Prometheus reads neither as a number of
    seconds nor as a duration. *)
Theorem range_step_rejected d :
  parse_prom_duration (formatDuration d) = None ∧ ∃ e, ParseFloat (formatDuration d) = inl e.
Proof.
  split; [apply fmt_f_rejected|]. assert (Hs : ends_in_s (formatDuration d)) by (by eexists).
  unfold ParseFloat. rewrite special_s, parse_finite_s by done. by eexists.
Qed.

(** C24: an instant query returns the one number it asks for.  Whatever slashes
    end the configured URL and whatever timeout is set, the server evaluates
    exactly the PromQL text it was given (URL encoding included), and the result
    is the value of a scalar or of the only sample of a vector as
    [strconv.ParseFloat] reads it; every other answer (no sample, several
    samples, another result type, a failed query) is an error. *)
Theorem QueryScalar_correct `{JSONErrors, PrometheusServer W base instant range} n ds q w :
  let c := NewClient (base +:+ slashes n) (WithTimeout <$> ds) in
  ∃ r w', Client_QueryScalar c q w = (r, w') ∧ reads (instant_value (instant q)) r.
Proof. intros c. apply QueryScalar_server. unfold c. by rewrite NewClient_baseURL, base_trimmed. Qed.

Lemma QueryScalar_correct_witness :
  let http := PromServer.http PromServer.measured PromServer.history in
  ∃ r w', Client_QueryScalar (NewClient (PromServer.base +:+ "/") []) "(sum" tt = (r, w') ∧
    r = inr (f64_of_decimal false 3 (-2)).
Proof.
  set (http := PromServer.http _ _).
  pose proof (PromServer.server PromServer.measured PromServer.history
    PromServer.measured_deliverable (λ _, eq_refl)) as Hs.
  destruct (QueryScalar_correct (base := PromServer.base) 1 [] "(sum" tt) as (r & w' & Hr & Hv).
  exists r, w'. split; [exact Hr|]. rewrite Hv. by vm_compute.
Defined.

(** A range query passes its four parameters on and returns the latest
    value of the first series of a matrix; every other answer is an error. *)
Theorem QueryRange_correct `{JSONErrors, PrometheusServer W base instant range} n ds q start end_ step w :
  let c := NewClient (base +:+ slashes n) (WithTimeout <$> ds) in
  ∃ r w', QueryRange c q start end_ step w = (r, w') ∧
    reads (latest_value (range (range_params q start end_ step))) r.
Proof. intros c. apply QueryRange_server. unfold c. by rewrite NewClient_baseURL, base_trimmed. Qed.

Lemma QueryRange_correct_witness :
  let http := PromServer.http PromServer.measured PromServer.history in
  ∃ r w', QueryRange (NewClient PromServer.base [WithTimeout Second]) "up" 0 Minute Second tt = (r, w') ∧
    r = inr (f64_of_Z 7).
Proof.
  set (http := PromServer.http _ _).
  pose proof (PromServer.server PromServer.measured PromServer.history
    PromServer.measured_deliverable (λ _, eq_refl)) as Hs.
  destruct (QueryRange_correct (base := PromServer.base) 0 [Second] "up" 0 Minute Second tt)
    as (r & w' & Hr & Hv).
  exists r, w'. split; [exact Hr|]. rewrite Hv. by vm_compute.
Defined.

(** C25: evaluator and client compose: when the server's answers to the three
    queries of a canary have the values [c], [e] and [p], the evaluation over
    HTTP returns the verdict the rollback policy gives on those numbers. *)
Theorem Evaluate_over_http `{CoreTypes} `{JSONErrors, PrometheusServer W base instant range}
    n ds ad window (c e p : string) (fc fe fp : float64) :
  let prom := Client_Prometheus (NewClient (base +:+ slashes n) (WithTimeout <$> ds)) in
  let policy := ro_Rollback (spec_Rollout (ad_Spec ad)) in
  (∀ q, requestCountQuery (ad_Name ad) (ad_Namespace ad) window = inr q → instant_value (instant q) = Some c) →
  (∀ q, errorRateQuery (ad_Name ad) (ad_Namespace ad) window = inr q → instant_value (instant q) = Some e) →
  (∀ q, p99LatencyQuery (ad_Name ad) (ad_Namespace ad) window = inr q → instant_value (instant q) = Some p) →
  ParseFloat c = inr fc → ParseFloat e = inr fe → ParseFloat p = inr fp →
  ∀ d, promDuration window = inr d →
  ∀ w, ∃ r w', Evaluate (H0 := prom) ad window w = (inr r, w') ∧
    ev_SampleTooSmall r = f64_lt fc (minSample policy) ∧
    ev_ThresholdBreached r = negb (f64_lt fc (minSample policy)) &&
      (rate_breach policy fe || latency_breach policy fp).
Proof.
  intros prom policy Hc He Hp Fc Fe Fp d Hd w.
  assert (Hq : ∀ v f q w, instant_value (instant q) = Some v → ParseFloat v = inr f →
    ∃ w', QueryScalar q w = (inr f, w')).
  { intros v f q w0 Hv Hf. exact (QueryScalar_value n ds q v f w0 Hv Hf). }
  eapply (Evaluate_answers (H0 := prom)); eauto.
Qed.

Lemma Evaluate_over_http_witness :
  let http := PromServer.http PromServer.measured PromServer.history in
  ∃ r w', Evaluate (H0 := Client_Prometheus (NewClient (PromServer.base +:+ "//") []))
    PromRef.ad (5 * Minute) tt = (inr r, w') ∧
    ev_SampleTooSmall r = false ∧ ev_ThresholdBreached r = true.
Proof.
  set (http := PromServer.http _ _).
  pose proof (PromServer.server PromServer.measured PromServer.history
    PromServer.measured_deliverable (λ _, eq_refl)) as Hs.
  destruct (Evaluate_over_http (base := PromServer.base) 2 [] PromRef.ad (5 * Minute) "200" "0.03" "80"
    (f64_of_Z 200) (f64_of_decimal false 3 (-2)) (f64_of_Z 80)) with (d := "5m") (w := tt)
    as (r & w' & Hr & Hsm & Hb); [by intros q [= <-]..|by vm_compute|by vm_compute|by vm_compute|by vm_compute|].
  exists r, w'. split; [exact Hr|]. rewrite Hsm, Hb. split; vm_compute; reflexivity.
Defined.


