(* ===== verification/Registry.v ===== *)
(** The MCP discovery registry, [src/internal/registry/registry.go]: the
    in-memory entries with their time-to-live, the sweeper, persistence in a
    ConfigMap and the REST handlers.

    The mutexes make every access to the entries atomic; an entry behind a
    pointer is never shared outside the map ([Get] and [List] copy), so the map
    holds values.  JSON encoding is the class [RegistryJSON], which
    [RegistryJson.v] implements. *)
From S2P Require Import Prelude Types Objects Enforcer Cluster.

Definition DefaultTTL : Z := 90 * Second.
Definition DefaultSweepInterval : Z := 30 * Second.
Definition DefaultConfigMapName : string := "agentrax-registry".
Definition configMapKey : string := "state".

Record Entry := {
  en_Namespace : string;
  en_Name : string;
  en_Endpoint : string;
  en_Tools : list string;
  en_RegisteredAt : Z;
  en_HeartbeatAt : Z;
  en_TTL : Z;
}.

#[export] Instance Entry_eq_dec : EqDecision Entry.
Proof. solve_decision. Defined.

(** [has_client] is [client != nil]. *)
Record Registry := {
  rg_entries : gmap string Entry;
  rg_has_client : bool;
  rg_namespace : string;
  rg_configMapName : string;
  rg_defaultTTL : Z;
  rg_sweepInterval : Z;
}.

Definition with_entries (m : gmap string Entry) (r : Registry) : Registry :=
  {| rg_entries := m; rg_has_client := rg_has_client r; rg_namespace := rg_namespace r;
     rg_configMapName := rg_configMapName r; rg_defaultTTL := rg_defaultTTL r;
     rg_sweepInterval := rg_sweepInterval r |}.

Definition NewRegistry (has_client : bool) (namespace : string) (defaultTTL : Z) : Registry :=
  {| rg_entries := ∅; rg_has_client := has_client;
     rg_namespace := if namespace =s? "" then "agentrax-system" else namespace;
     rg_configMapName := DefaultConfigMapName;
     rg_defaultTTL := if defaultTTL <=? 0 then DefaultTTL else defaultTTL;
     rg_sweepInterval := DefaultSweepInterval |}.

Definition SetSweepInterval (interval : Z) (r : Registry) : Registry :=
  {| rg_entries := rg_entries r; rg_has_client := rg_has_client r;
     rg_namespace := rg_namespace r; rg_configMapName := rg_configMapName r;
     rg_defaultTTL := rg_defaultTTL r; rg_sweepInterval := interval |}.

(** ** The entries *)

Definition key (namespace name : string) : string := namespace +:+ "/" +:+ name.

(** [ttl := entry.TTL; if ttl <= 0 { ttl = r.defaultTTL }]. *)
Definition effective_ttl (r : Registry) (e : Entry) : Z :=
  if en_TTL e <=? 0 then rg_defaultTTL r else en_TTL e.

(** [now.Sub(entry.HeartbeatAt) > ttl]. *)
Definition stale (r : Registry) (now : Z) (e : Entry) : bool :=
  effective_ttl r e <? time_Sub now (en_HeartbeatAt e).

(** Deletes what exceeded its TTL and returns the number of removed entries. *)
Definition sweepExpired (now : Z) (r : Registry) : Z * Registry :=
  let kept := filter (λ kv, stale r now kv.2 = false) (rg_entries r) in
  (Z.of_nat (size (rg_entries r)) - Z.of_nat (size kept), with_entries kept r).

(** The critical section of [Register]. *)
Definition register_entry (e : Entry) (now : Z) (r : Registry) : Registry :=
  let k := key (en_Namespace e) (en_Name e) in
  with_entries (<[k := {|
    en_Namespace := en_Namespace e; en_Name := en_Name e; en_Endpoint := en_Endpoint e;
    en_Tools := en_Tools e;
    en_RegisteredAt :=
      match rg_entries r !! k with None => now | Some existing => en_RegisteredAt existing end;
    en_HeartbeatAt := now;
    en_TTL := if en_TTL e <=? 0 then rg_defaultTTL r else en_TTL e |}]> (rg_entries r)) r.

Definition set_heartbeat (now : Z) (e : Entry) : Entry :=
  {| en_Namespace := en_Namespace e; en_Name := en_Name e; en_Endpoint := en_Endpoint e;
     en_Tools := en_Tools e; en_RegisteredAt := en_RegisteredAt e; en_HeartbeatAt := now;
     en_TTL := en_TTL e |}.

(** [Get] at time [now]: [None] when absent or expired. *)
Definition registry_Get (namespace name : string) (now : Z) (r : Registry) : option Entry :=
  match rg_entries r !! key namespace name with
  | None => None
  | Some entry => if stale r now entry then None else Some entry
  end.

(** [List] in one of the orders map iteration may yield. *)
Definition registry_List (now : Z) (r : Registry) : list Entry :=
  filter (λ e, stale r now e = false) ((map_to_list (rg_entries r)).*2).

(** ** Effects *)

Class SharedRegistry (W : Type) := {
  registry : W → Registry;
  set_registry : Registry → W → W;
}.

(** [json.Marshal] of the entries and [json.Unmarshal] into them. *)
Class RegistryJSON := {
  Marshal_entries : gmap string Entry → error + string;
  Unmarshal_entries : string → error + gmap string Entry;
  (** the entries [encoding/json] represents: valid UTF-8, four-digit years *)
  json_ok : gmap string Entry → Prop;
}.

Class RegistryJSONLaws `{RegistryJSON} : Prop := {
  json_roundtrip m : json_ok m →
    ∃ s, Marshal_entries m = inr s ∧ s ≠ "" ∧ Unmarshal_entries s = inr m;
}.

(** The registry is a cell of its own; the API client does not touch it. *)
Class SharedRegistryLaws `{KubeClient W, !SharedRegistry W} : Prop := {
  registry_set r w : registry (set_registry r w) = r;
  store_set_registry r w : store (set_registry r w) = store w;
  clock_set_registry r w : clock (set_registry r w) = clock w;
  kube_get_registry k w r w' : kube_get k w = (r, w') → registry w' = registry w;
  kube_create_or_update_registry o f w r w' :
    kube_create_or_update o f w = (r, w') → registry w' = registry w;
}.

Section effects.
Context `{CoreTypes, !KubeClient W, !SharedRegistry W, !RegistryJSON}.

Definition modify_registry (f : Registry → Registry) : Proc W unit := λ w,
  (inr tt, set_registry (f (registry w)) w).
Definition read_registry : Proc W Registry := λ w, (inr (registry w), w).

(** [retry.RetryOnConflict(retry.DefaultRetry, f)]: up to five attempts. *)
Fixpoint retry_on_conflict (steps : nat) (f : Proc W unit) : Proc W unit := λ w,
  match f w with
  | (inl e, w') =>
      match steps with
      | S n => if IsConflict e then retry_on_conflict n f w' else (inl e, w')
      | O => (inl e, w')
      end
  | r => r
  end.

Definition DefaultRetry_extra : nat := 4.

(** The function that is retried. *)
Definition persist_once : Proc W unit :=
  r ← read_registry;
  data ← lift_sum (Marshal_entries (rg_entries r)) <?> "marshaling registry state";
  CreateOrUpdate
    {| cm_Meta := new_meta (rg_configMapName r) (rg_namespace r) ∅; cm_Data := ∅ |}
    (λ cm, inr {| cm_Meta := cm_Meta cm; cm_Data := <[configMapKey := data]> (cm_Data cm) |})
    <?> "persisting registry ConfigMap".

Definition persistToConfigMap : Proc W unit := retry_on_conflict DefaultRetry_extra persist_once.

Definition loadFromConfigMap : Proc W unit :=
  r ← read_registry;
  res ← try (Get (A := ConfigMap) (NN (rg_namespace r) (rg_configMapName r)));
  match res with
  | inl err => if IsNotFound err then mret tt else fail (Errorf "fetching registry ConfigMap" err)
  | inr cm =>
      match cm_Data cm !! configMapKey with
      | None => mret tt
      | Some raw =>
          if raw =s? "" then mret tt else
          loaded ← lift_sum (Unmarshal_entries raw) <?> "unmarshaling registry state";
          modify_registry (λ r, with_entries (loaded ∪ rg_entries r) r)
      end
  end.

(** [if r.client != nil { return r.persistToConfigMap(ctx) }]. *)
Definition persist_if_client : Proc W unit :=
  r ← read_registry; if rg_has_client r then persistToConfigMap else mret tt.

Definition registry_Register (e : Entry) : Proc W unit :=
  if (en_Namespace e =s? "") || (en_Name e =s? "") || (en_Endpoint e =s? "") then
    fail (PlainError "namespace, name, and endpoint are required for registration") else
  now ← Now;
  modify_registry (register_entry e now);;
  persist_if_client.

Definition registry_Deregister (namespace name : string) : Proc W unit :=
  let k := key namespace name in
  r ← read_registry;
  match rg_entries r !! k with
  | None => mret tt
  | Some _ =>
      modify_registry (λ r, with_entries (delete k (rg_entries r)) r);;
      persist_if_client
  end.

Definition registry_Heartbeat (namespace name : string) : Proc W unit :=
  let k := key namespace name in
  r ← read_registry;
  match rg_entries r !! k with
  | None => fail (PlainError ("agent " +:+ k +:+ " not found in registry"))
  | Some entry =>
      now ← Now;
      modify_registry (λ r, with_entries (<[k := set_heartbeat now entry]> (rg_entries r)) r)
  end.

(** One tick of [runSweeper]; a persistence error is only logged. *)
Definition sweep_tick : Proc W unit :=
  now ← Now;
  r ← read_registry;
  let '(removed, r') := sweepExpired now r in
  modify_registry (λ _, r');;
  if 0 <? removed then
    if rg_has_client r then try persistToConfigMap;; mret tt else mret tt
  else mret tt.

(** The synchronous part of [Start]; a load error is only logged. *)
Definition Start : Proc W unit :=
  r ← read_registry;
  if rg_has_client r then try loadFromConfigMap;; mret tt else mret tt.

(** ** REST handlers

    A response is a status code and the value encoded in the body. *)

Inductive Body :=
  | BodyText (s : string)
  | BodyStatus (s : string)
  | BodyAgents (l : list Entry)
  | BodyAgent (e : Entry).

Record Response := { rs_Code : Z; rs_Body : Body }.

Definition StatusOK : Z := 200.
Definition StatusBadRequest : Z := 400.
Definition StatusNotFound : Z := 404.
Definition StatusInternalServerError : Z := 500.

(** The body of a POST: the decoder's error or the entry. *)
Definition handleRegister (body : error + Entry) : Proc W Response :=
  match body with
  | inl err => mret {| rs_Code := StatusBadRequest;
                       rs_Body := BodyText ("invalid request body: " +:+ Error err) |}
  | inr entry =>
      res ← try (registry_Register entry);
      mret match res with
        | inl err => {| rs_Code := StatusBadRequest;
                        rs_Body := BodyText ("registration failed: " +:+ Error err) |}
        | inr _ => {| rs_Code := StatusOK; rs_Body := BodyStatus "registered" |}
        end
  end.

Definition handleDeregisterAgentPath (namespace name : string) : Proc W Response :=
  if (namespace =s? "") || (name =s? "") then
    mret {| rs_Code := StatusBadRequest;
            rs_Body := BodyText "namespace and name are required in URL path" |} else
  res ← try (registry_Deregister namespace name);
  mret match res with
    | inl err => {| rs_Code := StatusInternalServerError;
                    rs_Body := BodyText ("deregistration failed: " +:+ Error err) |}
    | inr _ => {| rs_Code := StatusOK; rs_Body := BodyStatus "deregistered" |}
    end.

Definition handleListAgents : Proc W Response :=
  now ← Now; r ← read_registry;
  mret {| rs_Code := StatusOK; rs_Body := BodyAgents (registry_List now r) |}.

Definition handleGetAgent (namespace name : string) : Proc W Response :=
  if (namespace =s? "") || (name =s? "") then
    mret {| rs_Code := StatusBadRequest;
            rs_Body := BodyText "namespace and name are required" |} else
  now ← Now; r ← read_registry;
  mret match registry_Get namespace name now r with
    | None => {| rs_Code := StatusNotFound;
                 rs_Body := BodyText ("agent " +:+ namespace +:+ "/" +:+ name +:+ " not found") |}
    | Some entry => {| rs_Code := StatusOK; rs_Body := BodyAgent entry |}
    end.

(** The routes [Handler] registers. *)
Inductive Route :=
  | GET_agents
  | POST_agents (body : error + Entry)
  | GET_agent (namespace name : string)
  | DELETE_agent (namespace name : string).

Definition Handler (req : Route) : Proc W Response :=
  match req with
  | GET_agents => handleListAgents
  | POST_agents body => handleRegister body
  | GET_agent namespace name => handleGetAgent namespace name
  | DELETE_agent namespace name => handleDeregisterAgentPath namespace name
  end.
End effects.
