(* ===== verification/RegistryJson.v ===== *)
(** How the registry of [src/internal/registry/registry.go] writes its entries
    and reads them back: the JSON that [encoding/json] derives from the tags of
    [Entry], as it is stored in the ConfigMap and spoken by the REST handlers.

    The codec implements the class [RegistryJSON] of [Registry.v] and satisfies
    its law for every state of valid UTF-8 strings, four-digit years and [int64]
    TTLs. *)
From stdpp Require Import sorting.
From S2P Require Import Prelude Types Objects GoFloat Json JsonProps GoTime Enforcer Cluster Registry.

(** ** Encoding

    A time is printed in the zone it carries; its offset from UTC is a function
    of the instant. *)

Section encode.
Context (utc_offset : Z → Z).

(** [tools,omitempty]. *)
Definition json_of_Tools (tools : list string) : list (string * json) :=
  match tools with [] => [] | _ => [("tools", JArray (JString <$> tools))] end.

Definition json_of_Entry (e : Entry) : option json :=
  registeredAt ← MarshalTime (utc_offset (en_RegisteredAt e)) (en_RegisteredAt e);
  heartbeatAt ← MarshalTime (utc_offset (en_HeartbeatAt e)) (en_HeartbeatAt e);
  Some (JObject (
    [("namespace", JString (en_Namespace e)); ("name", JString (en_Name e));
     ("endpoint", JString (en_Endpoint e))] ++ json_of_Tools (en_Tools e) ++
    [("registeredAt", JString registeredAt); ("heartbeatAt", JString heartbeatAt);
     ("ttl", JNumber (fmt_d (en_TTL e)))])).

(** A map is written in the order of its keys. *)
Definition key_le (a b : string * Entry) : Prop := String.leb a.1 b.1 = true.

#[export] Instance key_le_dec a b : Decision (key_le a b).
Proof. unfold key_le. apply _. Defined.

Definition json_of_entries (m : gmap string Entry) : option json :=
  members ← mapM (λ kv, pair kv.1 <$> json_of_Entry kv.2) (merge_sort key_le (map_to_list m));
  Some (JObject members).
End encode.

(** ** Decoding *)

(** [time.Time{}]. *)
Definition zero_time : Z := (date_days 1 1 1 - unix_epoch) * 86400 * Second.

Definition zero_Entry : Entry :=
  {| en_Namespace := ""; en_Name := ""; en_Endpoint := ""; en_Tools := [];
     en_RegisteredAt := zero_time; en_HeartbeatAt := zero_time; en_TTL := 0 |}.

(** An entry while it is decoded: [Tools] with its backing array. *)
Record entryState := {
  es_Namespace : string;
  es_Name : string;
  es_Endpoint : string;
  es_Tools : slice string;
  es_RegisteredAt : Z;
  es_HeartbeatAt : Z;
  es_TTL : Z;
}.

Definition state_of (e : Entry) : entryState :=
  {| es_Namespace := en_Namespace e; es_Name := en_Name e; es_Endpoint := en_Endpoint e;
     es_Tools := {| sl_backing := en_Tools e; sl_len := length (en_Tools e) |};
     es_RegisteredAt := en_RegisteredAt e; es_HeartbeatAt := en_HeartbeatAt e; es_TTL := en_TTL e |}.

Definition entry_of (s : entryState) : Entry :=
  {| en_Namespace := es_Namespace s; en_Name := es_Name s; en_Endpoint := es_Endpoint s;
     en_Tools := slice_list (es_Tools s); en_RegisteredAt := es_RegisteredAt s;
     en_HeartbeatAt := es_HeartbeatAt s; en_TTL := es_TTL s |}.

Section decode.
(** The texts that [parseRFC3339] refuses and [time.Parse] still accepts: a
    one-digit hour, a comma before the fraction. *)
Context (Parse_lenient : string → option Z).

(** [time.Time.UnmarshalJSON]. *)
Definition dec_time : Decoder Z := λ v old,
  match v with
  | JString s => match parseRFC3339 s with Some t => Some t | None => Parse_lenient s end
  | JNull => Some old
  | _ => None
  end.

Definition entry_fields : list (string * Decoder entryState) := [
  ("namespace", dec_field es_Namespace (λ x r, {| es_Namespace := x; es_Name := es_Name r;
     es_Endpoint := es_Endpoint r; es_Tools := es_Tools r; es_RegisteredAt := es_RegisteredAt r;
     es_HeartbeatAt := es_HeartbeatAt r; es_TTL := es_TTL r |}) dec_string);
  ("name", dec_field es_Name (λ x r, {| es_Namespace := es_Namespace r; es_Name := x;
     es_Endpoint := es_Endpoint r; es_Tools := es_Tools r; es_RegisteredAt := es_RegisteredAt r;
     es_HeartbeatAt := es_HeartbeatAt r; es_TTL := es_TTL r |}) dec_string);
  ("endpoint", dec_field es_Endpoint (λ x r, {| es_Namespace := es_Namespace r; es_Name := es_Name r;
     es_Endpoint := x; es_Tools := es_Tools r; es_RegisteredAt := es_RegisteredAt r;
     es_HeartbeatAt := es_HeartbeatAt r; es_TTL := es_TTL r |}) dec_string);
  ("tools", dec_field es_Tools (λ x r, {| es_Namespace := es_Namespace r; es_Name := es_Name r;
     es_Endpoint := es_Endpoint r; es_Tools := x; es_RegisteredAt := es_RegisteredAt r;
     es_HeartbeatAt := es_HeartbeatAt r; es_TTL := es_TTL r |}) (dec_slice "" dec_string));
  ("registeredAt", dec_field es_RegisteredAt (λ x r, {| es_Namespace := es_Namespace r;
     es_Name := es_Name r; es_Endpoint := es_Endpoint r; es_Tools := es_Tools r; es_RegisteredAt := x;
     es_HeartbeatAt := es_HeartbeatAt r; es_TTL := es_TTL r |}) dec_time);
  ("heartbeatAt", dec_field es_HeartbeatAt (λ x r, {| es_Namespace := es_Namespace r;
     es_Name := es_Name r; es_Endpoint := es_Endpoint r; es_Tools := es_Tools r;
     es_RegisteredAt := es_RegisteredAt r; es_HeartbeatAt := x; es_TTL := es_TTL r |}) dec_time);
  ("ttl", dec_field es_TTL (λ x r, {| es_Namespace := es_Namespace r; es_Name := es_Name r;
     es_Endpoint := es_Endpoint r; es_Tools := es_Tools r; es_RegisteredAt := es_RegisteredAt r;
     es_HeartbeatAt := es_HeartbeatAt r; es_TTL := x |}) dec_int)].

Definition dec_Entry : Decoder Entry := λ v old, entry_of <$> dec_struct entry_fields v (state_of old).

(** [map[string]*Entry]: every member gets a new pointer, nil for [null]; the
    last one of a key stays. *)
Fixpoint dec_map (l : list (string * json)) (m : gmap string (option Entry)) :
    option (gmap string (option Entry)) :=
  match l with
  | [] => Some m
  | (k, v) :: l' => p ← dec_pointer zero_Entry dec_Entry v None; dec_map l' (<[k := p]> m)
  end.

Definition dec_entries : Decoder (gmap string (option Entry)) := λ v old,
  match v with JObject l => dec_map l old | JNull => Some ∅ | _ => None end.
End decode.

(** ** The codec *)

Section codec.
Context (utc_offset : Z → Z) (Parse_lenient : string → option Z) `{JSONErrors}.

(** The strings, times and TTLs that JSON represents. *)
Definition entry_ok (e : Entry) : bool :=
  valid_utf8 (en_Namespace e) && valid_utf8 (en_Name e) && valid_utf8 (en_Endpoint e) &&
  forallb valid_utf8 (en_Tools e) &&
  time_ok (utc_offset (en_RegisteredAt e)) (en_RegisteredAt e) &&
  time_ok (utc_offset (en_HeartbeatAt e)) (en_HeartbeatAt e) &&
  (MinInt64 <=? en_TTL e) && (en_TTL e <=? MaxInt64).

Definition entries_ok (m : gmap string Entry) : Prop :=
  map_Forall (λ k e, valid_utf8 k = true ∧ entry_ok e = true) m.

(** Nil pointers: the registry never writes [null], so a text that has one was
    not written by it; such a text is refused here, where the program would
    keep the pointer until the sweeper dereferences it. *)
Definition codec : RegistryJSON := {|
  Marshal_entries m :=
    match json_of_entries utc_offset m with
    | Some v => inr (print_json v)
    | None => inl (PlainError "json: error calling MarshalJSON for type time.Time")
    end;
  Unmarshal_entries raw :=
    match Unmarshal (dec_entries Parse_lenient) raw ∅ with
    | inl e => inl e
    | inr m =>
        if bool_decide (map_Forall (λ _ p, is_Some p) m) then inr (omap id m)
        else inl (PlainError "invalid memory address or nil pointer dereference")
    end;
  json_ok := entries_ok;
|}.
End codec.

(** ** Round trip *)

Section roundtrip.
Context (utc_offset : Z → Z) (Parse_lenient : string → option Z) `{JSONErrors}.

Lemma time_member t s : MarshalTime (utc_offset t) t = Some s → ∀ old,
  dec_time Parse_lenient (JString s) old = Some t.
Proof. intros Hs old. unfold dec_time. by rewrite (parse_MarshalTime _ _ _ Hs). Qed.

(** The entry that is decoded has the tools that were written. *)
Lemma dec_json_of_Tools tools l s : es_Tools s = slice_nil → ∃ sl, slice_list sl = tools ∧
  dec_members (entry_fields Parse_lenient) (json_of_Tools tools ++ l) s =
  dec_members (entry_fields Parse_lenient) l
    {| es_Namespace := es_Namespace s; es_Name := es_Name s; es_Endpoint := es_Endpoint s; es_Tools := sl;
       es_RegisteredAt := es_RegisteredAt s; es_HeartbeatAt := es_HeartbeatAt s; es_TTL := es_TTL s |}.
Proof.
  intros Hs. destruct tools as [|x tools].
  - exists slice_nil. split; [done|]. rewrite <- Hs. by destruct s.
  - destruct (dec_slice_fresh "" dec_string (JString <$> x :: tools) (x :: tools)) as (sl & Hd & El);
      [apply dec_strings|by rewrite length_fmap|].
    exists sl. split; [done|]. cbn [json_of_Tools app].
    by member ltac:(rewrite Hs; exact Hd).
Qed.

Lemma height_strings l : height (JArray (JString <$> l)) = 1.
Proof.
  cbn [height]. assert (foldr Z.max 0 (map height (JString <$> l)) = 0); [|lia]. induction l as [|x l IH]; [done|].
  rewrite fmap_cons. cbn [map foldr height]. lia.
Qed.

Lemma strings_wf l : forallb valid_utf8 l = true → json_wf (JArray (JString <$> l)) = true.
Proof.
  cbn [json_wf]. induction l as [|x l IH]; [done|]. cbn. intros [-> Hl]%andb_prop. by apply IH.
Qed.

Lemma Entry_roundtrip e : entry_ok utc_offset e = true → ∃ l, json_of_Entry utc_offset e = Some (JObject l) ∧
  dec_Entry Parse_lenient (JObject l) zero_Entry = Some e ∧
  json_wf (JObject l) = true ∧ height (JObject l) ≤ 2.
Proof.
  unfold entry_ok. rewrite !andb_true_iff. intros [[[[[[[Hns Hn] He] Ht] Hr] Hh] Hl1] Hl2].
  destruct (MarshalTime_ok _ _ Hr) as [sr Esr], (MarshalTime_ok _ _ Hh) as [sh Esh].
  unfold json_of_Entry. rewrite Esr, Esh. eexists. split; [done|]. split_and!.
  - unfold dec_Entry, dec_struct. cbn [app]. do 3 member ltac:(reflexivity).
    destruct (dec_json_of_Tools (en_Tools e) [("registeredAt", JString sr); ("heartbeatAt", JString sh);
      ("ttl", JNumber (fmt_d (en_TTL e)))] {| es_Namespace := en_Namespace e; es_Name := en_Name e;
        es_Endpoint := en_Endpoint e; es_Tools := slice_nil; es_RegisteredAt := zero_time;
        es_HeartbeatAt := zero_time; es_TTL := 0 |} eq_refl) as (sl & El & Ed).
    etransitivity; [apply (f_equal (fmap entry_of)); exact Ed|].
    member ltac:(by apply time_member). member ltac:(by apply time_member).
    member ltac:(apply ParseInt_fmt_d; unfold is_int64; lia). cbn. unfold entry_of; cbn. rewrite El.
    by destruct e.
  - assert (Htools : forallb (λ kv, valid_utf8 kv.1 && json_wf kv.2) (json_of_Tools (en_Tools e)) = true).
    { apply strings_wf in Ht. destruct (en_Tools e) as [|x l]; [done|].
      cbn [json_of_Tools forallb fst snd]. by rewrite Ht. }
    cbn [json_wf]. rewrite !forallb_app. cbn [forallb fst snd json_wf].
    rewrite Hns, Hn, He, Htools, (ascii_text_valid sr), (ascii_text_valid sh), lex_number_fmt_d,
      bool_decide_eq_true_2 by (done || by eapply MarshalTime_ascii). done.
  - pose proof (height_strings (en_Tools e)) as Hs. unfold json_of_Tools. destruct (en_Tools e) as [|x l].
    + done.
    + set (arr := JArray (JString <$> x :: l)) in *. clearbody arr. cbn -[Z.add Z.max]. lia.
Qed.

Lemma members_roundtrip kes :
  Forall (λ ke, valid_utf8 ke.1 = true ∧ entry_ok utc_offset ke.2 = true) kes → ∃ l,
  mapM (λ kv, pair kv.1 <$> json_of_Entry utc_offset kv.2) kes = Some l ∧
  json_wf (JObject l) = true ∧ height (JObject l) ≤ 3 ∧
  ∀ m, dec_map Parse_lenient l m = Some (foldl (λ m ke, <[ke.1 := Some ke.2]> m) m kes).
Proof.
  induction 1 as [|[k e] kes [Hk He] _ IH]; [by exists []|]. cbn [fst snd] in *.
  destruct IH as (l & Hl & Hwf & Hh & Hd), (Entry_roundtrip e He) as (le & Hle & Hde & Hwfe & Hhe).
  exists ((k, JObject le) :: l). cbn [mapM fst snd]. rewrite Hle, Hl. split; [done|]. split_and!.
  - cbn [json_wf forallb fst snd] in *. by rewrite Hk, Hwfe, Hwf.
  - clear -Hh Hhe. set (v := JObject le) in *. clearbody v. cbn -[Z.add Z.max] in *. lia.
  - intros m. cbn [dec_map]. rewrite (dec_pointer_Some _ _ _ e Hde). apply Hd.
Qed.

Lemma foldl_insert (kes : list (string * Entry)) (m : gmap string (option Entry)) : NoDup kes.*1 →
  foldl (λ m ke, <[ke.1 := Some ke.2]> m) m kes = (Some <$> list_to_map (M := gmap string Entry) kes) ∪ m.
Proof.
  revert m. induction kes as [|[k e] kes IH]; intros m Hnd.
  - simpl. by rewrite fmap_empty, (left_id_L ∅ (∪)).
  - rewrite fmap_cons, list.NoDup_cons in Hnd. destruct Hnd as [Hk Hnd]. cbn [foldl fst snd]. rewrite list_to_map_cons.
    rewrite IH, fmap_insert, <- insert_union_l by done. rewrite insert_union_r; [done|].
    rewrite lookup_fmap. by rewrite (proj1 (not_elem_of_list_to_map _ _) Hk).
Qed.

(** What is written for a state is not empty and is read back as that state. *)
Lemma codec_roundtrip m : entries_ok utc_offset m →
  let c := codec utc_offset Parse_lenient in
  ∃ s, Marshal_entries m = inr s ∧ s ≠ "" ∧ Unmarshal_entries s = inr m.
Proof.
  intros Hok c. set (kes := merge_sort key_le (map_to_list m)).
  assert (Hkes : kes ≡ₚ map_to_list m) by apply merge_sort_Permutation.
  destruct (members_roundtrip kes) as (l & Hl & Hwf & Hh & Hd).
  { rewrite Hkes. apply map_Forall_to_list in Hok. eapply Forall_impl; [|exact Hok]. by intros [k e]. }
  assert (Hj : json_of_entries utc_offset m = Some (JObject l)) by (unfold json_of_entries; fold kes; by rewrite Hl).
  exists (print_json (JObject l)). cbn [Marshal_entries c codec]. rewrite Hj. split; [done|]. split; [done|].
  destruct (print_parse_json (JObject l) Hwf) as [Hp _]; [unfold maxNestingDepth; lia|].
  unfold Unmarshal_entries, c, codec, Unmarshal, unmarshal_value. rewrite Hp. cbn [dec_entries].
  rewrite Hd, foldl_insert.
  2: { rewrite Hkes. apply NoDup_fst_map_to_list. }
  assert (list_to_map kes = m) as ->.
  { etransitivity; [|apply list_to_map_to_list]. apply list_to_map_proper; [|done].
    rewrite Hkes. apply NoDup_fst_map_to_list. }
  rewrite (right_id_L ∅ (∪)), bool_decide_eq_true_2.
  - f_equal. apply map_eq. intros k. rewrite lookup_omap, lookup_fmap. by destruct (m !! k).
  - intros k p. rewrite lookup_fmap. destruct (m !! k); [|done]. intros [= <-]. by eexists.
Qed.
End roundtrip.

#[export] Instance codec_laws utc_offset Parse_lenient `{JSONErrors} :
  RegistryJSONLaws (H := codec utc_offset Parse_lenient).
Proof. split. intros m Hm. by apply codec_roundtrip. Qed.

(** C31: what [persistToConfigMap] writes, [loadFromConfigMap] reads: for every
    state of valid UTF-8 strings, years from 0 to 9999 in the local zone and
    [int64] TTLs, marshaling succeeds and unmarshaling the text gives back
    exactly the same entries, to the nanosecond and whatever the zone. *)
Theorem registry_state_roundtrip utc_offset Parse_lenient `{JSONErrors} m :
  entries_ok utc_offset m →
  let c := codec utc_offset Parse_lenient in
  ∃ s, Marshal_entries m = inr s ∧ s ≠ "" ∧ Unmarshal_entries s = inr m.
Proof. apply codec_roundtrip. Qed.

(** Two entries in a zone five and a half hours east of UTC. *)
Definition two_entries : gmap string Entry :=
  <["ns/b" := {| en_Namespace := "ns"; en_Name := "b"; en_Endpoint := "http://b.ns.svc:80"; en_Tools := ["x"; "y"];
     en_RegisteredAt := 1785585600123400000; en_HeartbeatAt := 1785585600123400000; en_TTL := DefaultTTL |}]>
  {["ns/a" := {| en_Namespace := "ns"; en_Name := "a"; en_Endpoint := "http://a.ns.svc:80"; en_Tools := [];
     en_RegisteredAt := 0; en_HeartbeatAt := Second; en_TTL := DefaultTTL |}]}.

Lemma registry_state_roundtrip_witness :
  let c := codec (H := plain_errors) (λ _, 330) (λ _, None) in
  ∃ s, Marshal_entries two_entries = inr s ∧ Unmarshal_entries s = inr two_entries.
Proof.
  destruct (registry_state_roundtrip (H := plain_errors) (λ _, 330) (λ _, None) two_entries)
    as (s & Hm & _ & Hu).
  - apply (bool_decide_unpack _). vm_compute. exact I.
  - exists s. split; [exact Hm|exact Hu].
Defined.
