(* ===== verification/McpClient.v ===== *)
(** The HTTP client that performs MCP handshakes,
    [src/internal/registry/mcp_client.go]: the JSON-RPC request it sends to an
    agent and the tools it reads out of the response. *)
From S2P Require Import Prelude Types Objects GoFloat Enforcer Cluster Json Http.

Definition DefaultHandshakeTimeout : Z := 10 * Second.
Definition DefaultMCPProtocolVersion : string := "2024-11-05".

(** [httpClient] is its timeout. *)
Record httpMCPClient := { hc_Timeout : Z }.
Definition NewHTTPMCPClient : httpMCPClient := {| hc_Timeout := DefaultHandshakeTimeout |}.

(** ** The request *)

Record mcpClientInfo := { ci_Name : string; ci_Version : string }.

(** [Capabilities] in the order of its keys. *)
Record mcpInitializeParams := {
  ip_ProtocolVersion : string;
  ip_ClientInfo : mcpClientInfo;
  ip_Capabilities : list (string * json);
}.

Record mcpInitializeRequest := {
  ir_JSONRPC : string;
  ir_ID : Z;
  ir_Method : string;
  ir_Params : mcpInitializeParams;
}.

Definition json_of_ClientInfo (i : mcpClientInfo) : json :=
  JObject [("name", JString (ci_Name i)); ("version", JString (ci_Version i))].

Definition json_of_Params (p : mcpInitializeParams) : json :=
  JObject [("protocolVersion", JString (ip_ProtocolVersion p));
           ("clientInfo", json_of_ClientInfo (ip_ClientInfo p));
           ("capabilities", JObject (ip_Capabilities p))].

Definition json_of_Request (r : mcpInitializeRequest) : json :=
  JObject [("jsonrpc", JString (ir_JSONRPC r)); ("id", JNumber (fmt_d (ir_ID r)));
           ("method", JString (ir_Method r)); ("params", json_of_Params (ir_Params r))].

(** [json.Marshal(reqBody)]: these types always encode. *)
Definition Marshal_Request (r : mcpInitializeRequest) : string := print_json (json_of_Request r).

Definition initialize_request : mcpInitializeRequest :=
  {| ir_JSONRPC := "2.0"; ir_ID := 1; ir_Method := "initialize";
     ir_Params := {| ip_ProtocolVersion := DefaultMCPProtocolVersion;
       ip_ClientInfo := {| ci_Name := "agentrax"; ci_Version := "1.0" |};
       ip_Capabilities := [] |} |}.

Definition initialize_url (endpoint : string) : string :=
  let url := TrimRight_slash endpoint in
  if HasSuffix url "/initialize" then url else url +:+ "/initialize".

(** ** The response *)

Record mcpError := { me_Code : Z; me_Message : string }.
Record mcpToolDefinition := { td_Name : string }.
Record mcpToolsCapability := { tc_Available : slice string; tc_List : bool }.
Record mcpCapabilities := { cp_Tools : option mcpToolsCapability }.

Record mcpInitializeResult := {
  mr_ProtocolVersion : string;
  mr_Capabilities : mcpCapabilities;
  mr_ServerInfo : option mcpClientInfo;
  mr_Tools : slice mcpToolDefinition;
}.

Record mcpInitializeResponse := {
  rp_JSONRPC : string;
  rp_ID : Z;
  rp_Result : option mcpInitializeResult;
  rp_Error : option mcpError;
}.

(** Zero values. *)
Definition zero_ClientInfo : mcpClientInfo := {| ci_Name := ""; ci_Version := "" |}.
Definition zero_Error : mcpError := {| me_Code := 0; me_Message := "" |}.
Definition zero_Tool : mcpToolDefinition := {| td_Name := "" |}.
Definition zero_ToolsCapability : mcpToolsCapability := {| tc_Available := slice_nil; tc_List := false |}.
Definition zero_Result : mcpInitializeResult :=
  {| mr_ProtocolVersion := ""; mr_Capabilities := {| cp_Tools := None |};
     mr_ServerInfo := None; mr_Tools := slice_nil |}.
Definition zero_Response : mcpInitializeResponse :=
  {| rp_JSONRPC := ""; rp_ID := 0; rp_Result := None; rp_Error := None |}.

(** The decoders [encoding/json] derives from the struct tags. *)
Definition dec_ClientInfo : Decoder mcpClientInfo := dec_struct [
  ("name", dec_field ci_Name (λ x r, {| ci_Name := x; ci_Version := ci_Version r |}) dec_string);
  ("version", dec_field ci_Version (λ x r, {| ci_Name := ci_Name r; ci_Version := x |}) dec_string)].

Definition dec_Error : Decoder mcpError := dec_struct [
  ("code", dec_field me_Code (λ x r, {| me_Code := x; me_Message := me_Message r |}) dec_int);
  ("message", dec_field me_Message (λ x r, {| me_Code := me_Code r; me_Message := x |}) dec_string)].

Definition dec_Tool : Decoder mcpToolDefinition := dec_struct [
  ("name", dec_field td_Name (λ x _, {| td_Name := x |}) dec_string)].

Definition dec_ToolsCapability : Decoder mcpToolsCapability := dec_struct [
  ("available", dec_field tc_Available (λ x r, {| tc_Available := x; tc_List := tc_List r |})
     (dec_slice "" dec_string));
  ("list", dec_field tc_List (λ x r, {| tc_Available := tc_Available r; tc_List := x |}) dec_bool)].

Definition dec_Capabilities : Decoder mcpCapabilities := dec_struct [
  ("tools", dec_field cp_Tools (λ x _, {| cp_Tools := x |})
     (dec_pointer zero_ToolsCapability dec_ToolsCapability))].

Definition dec_Result : Decoder mcpInitializeResult := dec_struct [
  ("protocolVersion", dec_field mr_ProtocolVersion (λ x r, {| mr_ProtocolVersion := x;
     mr_Capabilities := mr_Capabilities r; mr_ServerInfo := mr_ServerInfo r;
     mr_Tools := mr_Tools r |}) dec_string);
  ("capabilities", dec_field mr_Capabilities (λ x r, {| mr_ProtocolVersion := mr_ProtocolVersion r;
     mr_Capabilities := x; mr_ServerInfo := mr_ServerInfo r; mr_Tools := mr_Tools r |})
     dec_Capabilities);
  ("serverInfo", dec_field mr_ServerInfo (λ x r, {| mr_ProtocolVersion := mr_ProtocolVersion r;
     mr_Capabilities := mr_Capabilities r; mr_ServerInfo := x; mr_Tools := mr_Tools r |})
     (dec_pointer zero_ClientInfo dec_ClientInfo));
  ("tools", dec_field mr_Tools (λ x r, {| mr_ProtocolVersion := mr_ProtocolVersion r;
     mr_Capabilities := mr_Capabilities r; mr_ServerInfo := mr_ServerInfo r; mr_Tools := x |})
     (dec_slice zero_Tool dec_Tool))].

Definition dec_Response : Decoder mcpInitializeResponse := dec_struct [
  ("jsonrpc", dec_field rp_JSONRPC (λ x r, {| rp_JSONRPC := x; rp_ID := rp_ID r;
     rp_Result := rp_Result r; rp_Error := rp_Error r |}) dec_string);
  ("id", dec_field rp_ID (λ x r, {| rp_JSONRPC := rp_JSONRPC r; rp_ID := x;
     rp_Result := rp_Result r; rp_Error := rp_Error r |}) dec_int);
  ("result", dec_field rp_Result (λ x r, {| rp_JSONRPC := rp_JSONRPC r; rp_ID := rp_ID r;
     rp_Result := x; rp_Error := rp_Error r |}) (dec_pointer zero_Result dec_Result));
  ("error", dec_field rp_Error (λ x r, {| rp_JSONRPC := rp_JSONRPC r; rp_ID := rp_ID r;
     rp_Result := rp_Result r; rp_Error := x |}) (dec_pointer zero_Error dec_Error))].

(** Capabilities first, then the tool list without unnamed tools. *)
Definition extract_tools (res : mcpInitializeResult) : list string :=
  let listed := filter (λ n, n ≠ "") (td_Name <$> slice_list (mr_Tools res)) in
  match cp_Tools (mr_Capabilities res) with
  | Some cap => match slice_list (tc_Available cap) with [] => listed | available => available end
  | None => listed
  end.

Section mcp_client.
Context `{JSONErrors, HTTPClient W}.

Definition http_Initialize (c : httpMCPClient) (endpoint : string) : Proc W (list string) :=
  let url := initialize_url endpoint in
  httpReq ← (λ w, (NewRequest "POST" url (Marshal_Request initialize_request), w))
    <?> "creating MCP initialize request";
  let httpReq := Header_Set "Content-Type" "application/json" httpReq in
  let httpReq := Header_Set "Accept" "application/json" httpReq in
  resp ← Do (hc_Timeout c) httpReq <?> ("sending MCP initialize to " +:+ url);
  if negb (ht_StatusCode resp =? 200) then
    let '(respBody, _) := ReadAll_limited 4096 resp in
    fail (PlainError ("MCP initialize returned HTTP " +:+ fmt_d (ht_StatusCode resp) +:+ ": " +:+ respBody))
  else
  initResp ← (λ w, (Decode dec_Response (ht_Body resp) (ht_BodyError resp) zero_Response, w))
    <?> "decoding MCP initialize response";
  match rp_Error initResp with
  | Some e => fail (PlainError ("MCP initialize RPC error (code " +:+ fmt_d (me_Code e) +:+ "): " +:+
      me_Message e))
  | None =>
      match rp_Result initResp with
      | None => fail (PlainError "MCP initialize response missing result object")
      | Some res => mret (extract_tools res)
      end
  end.
End mcp_client.
