(* ===== verification/McpClientProps.v ===== *)
(** Properties of the MCP client of [McpClient.v], against agents that speak the
    initialize exchange of the Model Context Protocol over JSON-RPC 2.0. *)
From S2P Require Import Prelude Types Objects GoFloat Enforcer Cluster Json JsonProps Http McpClient.

(** ** What an agent may answer *)

(** A tool of the result's list: its name and further members, such as a
    description and an input schema. *)
Record tool := { tl_name : string; tl_more : list (string * json) }.

Record offer := {
  of_available : option (list string);   (** [capabilities.tools.available] *)
  of_listed : list tool;                 (** [tools] *)
}.

Inductive mcp_answer :=
  | Offers (o : offer)
  | RPCError (code : Z) (msg : string)
  | NoResult
  | Refuses (status : Z)
  | Replies (v : json)          (** any other JSON value *)
  | Garbled (body : string)     (** a body that is no JSON value *)
  | Breaks (err : error).       (** no response at all *)

Definition envelope (l : list (string * json)) : json :=
  JObject (("jsonrpc", JString "2.0") :: ("id", JNumber "1") :: l).

Definition render_tool (t : tool) : json := JObject (("name", JString (tl_name t)) :: tl_more t).

Definition render_capabilities (available : option (list string)) : json :=
  JObject match available with
    | Some l => [("tools", JObject [("available", JArray (JString <$> l))])]
    | None => []
    end.

Definition render_offer (o : offer) : json :=
  JObject [("protocolVersion", JString DefaultMCPProtocolVersion);
           ("capabilities", render_capabilities (of_available o));
           ("tools", JArray (render_tool <$> of_listed o))].

Definition render_answer (a : mcp_answer) : json :=
  match a with
  | Offers o => envelope [("result", render_offer o)]
  | RPCError c m =>
      envelope [("error", JObject [("code", JNumber (fmt_d c)); ("message", JString m)])]
  | NoResult => envelope [("result", JNull)]
  | Replies v => v
  | _ => JNull
  end.

(** The tools an offer advertises: the available ones if there are any,
    otherwise the named ones of the list. *)
Definition advertised (o : offer) : list string :=
  match of_available o with
  | Some (t :: l) => t :: l
  | _ => filter (λ n, n ≠ "") (tl_name <$> of_listed o)
  end.

(** No further member of a tool is read as its name. *)
Definition plain_tool (t : tool) : Prop := Forall (λ kv, foldName kv.1 ≠ "NAME") (tl_more t).

(** The request as the agent receives it. *)
Definition POST (url body : string) : HTTPRequest :=
  {| rq_Method := "POST"; rq_URL := url;
     rq_Header := [("Content-Type", "application/json"); ("Accept", "application/json")];
     rq_Body := body |}.

(** What the client gets of the network when the agent answers [a]. *)
Definition replies (a : mcp_answer) (out : error + HTTPResponse) : Prop :=
  match a, out with
  | Breaks e, inl e' => e' = e
  | Refuses status, inr resp => ht_StatusCode resp = status ∧ status ≠ 200
  | Garbled body, inr resp => ht_StatusCode resp = 200 ∧ ht_BodyError resp = None ∧ ht_Body resp = body
  | (Offers _ | RPCError _ _ | NoResult | Replies _), inr resp =>
      ht_StatusCode resp = 200 ∧ ht_BodyError resp = None ∧
      decode_json (ht_Body resp) = Parsed (render_answer a)
  | _, _ => False
  end.

(** An agent at [endpoint] that answers JSON-RPC requests by [answer]. *)
Class MCPAgent `{HTTPClient W} (endpoint : string) (answer : json → mcp_answer) : Prop := {
  endpoint_parses : ∃ u, url_Parse (initialize_url endpoint) = inr u;
  agent_answers timeout body req w : parse_json body = Parsed req →
    ∃ out w', Do timeout (POST (initialize_url endpoint) body) w = (out, w') ∧ replies (answer req) out;
}.

(** ** Decoding *)

(** Keys that are not a field are skipped. *)
Lemma dec_members_skip {A} (fields : list (string * Decoder A)) l a :
  Forall (λ kv, find_field fields kv.1 = None) l → dec_members fields l a = Some a.
Proof. induction 1 as [|[k v] l Hk _ IH]; [done|]. cbn. cbn in Hk. by rewrite Hk. Qed.

Lemma find_field_none {A} (d : Decoder A) k : foldName k ≠ "NAME" → find_field [("name", d)] k = None.
Proof.
  intros Hk. unfold find_field.
  assert (E1 : list_find (λ f : string * Decoder A, f.1 = k) [("name", d)] = None).
  { apply list_find_None. constructor; [|constructor]. by intros <-. }
  assert (E2 : list_find (λ f : string * Decoder A, foldName f.1 = foldName k) [("name", d)] = None).
  { apply list_find_None. constructor; [|constructor]. by intros E; apply Hk; rewrite <- E. }
  by rewrite E1, E2.
Qed.

Lemma dec_Tool_render t : plain_tool t → dec_Tool (render_tool t) zero_Tool = Some {| td_Name := tl_name t |}.
Proof.
  intros Hp. unfold dec_Tool, render_tool. cbn [dec_struct dec_members].
  set (fields := [("name", _)]).
  assert (F : find_field fields "name" = Some (dec_field td_Name (λ x _, {| td_Name := x |}) dec_string)) by done.
  rewrite F. cbn [dec_field dec_string mbind option_bind].
  apply dec_members_skip. eapply Forall_impl; [|exact Hp]. intros kv. apply find_field_none.
Qed.

Lemma dec_tools l : Forall plain_tool l →
  dec_elems zero_Tool dec_Tool (render_tool <$> l) [] = Some ((λ t, {| td_Name := tl_name t |}) <$> l).
Proof.
  induction 1 as [|t l Ht _ IH]; [done|]. rewrite !fmap_cons. cbn [dec_elems head default].
  rewrite dec_Tool_render by done. cbn [mbind option_bind List.tl]. by rewrite IH.
Qed.

Lemma dec_capabilities available : ∃ c,
  dec_Capabilities (render_capabilities available) {| cp_Tools := None |} = Some c ∧
  match available with
  | Some l => ∃ t, cp_Tools c = Some t ∧ slice_list (tc_Available t) = l
  | None => cp_Tools c = None
  end.
Proof.
  destruct available as [l|]; [|by eexists].
  destruct (dec_slice_fresh "" dec_string (JString <$> l) l) as (s & Hs & El);
    [apply dec_strings|by rewrite length_fmap|].
  exists {| cp_Tools := Some {| tc_Available := s; tc_List := false |} |}. split; [|by eexists].
  assert (Ht : dec_ToolsCapability (JObject [("available", JArray (JString <$> l))]) zero_ToolsCapability =
    Some {| tc_Available := s; tc_List := false |}).
  { unfold dec_ToolsCapability. cbn [dec_struct]. by member ltac:(exact Hs). }
  unfold dec_Capabilities, render_capabilities. cbn [dec_struct].
  by member ltac:(apply dec_pointer_Some; exact Ht).
Qed.

Lemma dec_offer o : Forall plain_tool (of_listed o) → ∃ r,
  dec_Result (render_offer o) zero_Result = Some r ∧ extract_tools r = advertised o.
Proof.
  intros Hp. destruct (dec_capabilities (of_available o)) as (c & Hc & Ec).
  destruct (dec_slice_fresh zero_Tool dec_Tool (render_tool <$> of_listed o)
    ((λ t, {| td_Name := tl_name t |}) <$> of_listed o)) as (s & Hs & El);
    [by apply dec_tools|by rewrite !length_fmap|].
  exists {| mr_ProtocolVersion := DefaultMCPProtocolVersion; mr_Capabilities := c;
    mr_ServerInfo := None; mr_Tools := s |}. split.
  - unfold dec_Result, render_offer. cbn [dec_struct].
    member ltac:(reflexivity). member ltac:(exact Hc). by member ltac:(exact Hs).
  - unfold extract_tools, advertised. cbn [mr_Capabilities mr_Tools].
    rewrite El, <- list_fmap_compose. change (td_Name ∘ _) with tl_name.
    destruct (of_available o) as [l|]; [|by rewrite Ec]. destruct Ec as (t & -> & El').
    by rewrite El'; destruct l.
Qed.

(** Whatever the agent answers decodes to an error, to no result, or to the
    advertised tools. *)
Lemma dec_answer a : (match a with Offers o => Forall plain_tool (of_listed o) | _ => True end) →
  match a with
  | Offers o => ∃ r res, dec_Response (render_answer a) zero_Response = Some r ∧
      rp_Error r = None ∧ rp_Result r = Some res ∧ extract_tools res = advertised o
  | RPCError c m => is_int64 c → ∃ r, dec_Response (render_answer a) zero_Response = Some r ∧
      rp_Error r = Some {| me_Code := c; me_Message := m |}
  | NoResult => ∃ r, dec_Response (render_answer a) zero_Response = Some r ∧
      rp_Error r = None ∧ rp_Result r = None
  | _ => True
  end.
Proof.
  intros Hp. destruct a as [o|c m| |st|v|body|e]; [| |by eexists|done..].
  - destruct (dec_offer o Hp) as (res & Hr & Ht).
    exists {| rp_JSONRPC := "2.0"; rp_ID := 1; rp_Result := Some res; rp_Error := None |}, res.
    split; [|done]. unfold dec_Response, render_answer, envelope. cbn [dec_struct].
    do 2 member ltac:(reflexivity). by member ltac:(apply dec_pointer_Some; exact Hr).
  - intros Hc. exists {| rp_JSONRPC := "2.0"; rp_ID := 1; rp_Result := None;
      rp_Error := Some {| me_Code := c; me_Message := m |} |}.
    split; [|done].
    assert (He : dec_Error (JObject [("code", JNumber (fmt_d c)); ("message", JString m)]) zero_Error =
      Some {| me_Code := c; me_Message := m |}).
    { unfold dec_Error. cbn [dec_struct]. by member ltac:(by apply ParseInt_fmt_d). }
    unfold dec_Response, render_answer, envelope. cbn [dec_struct].
    do 2 member ltac:(reflexivity). by member ltac:(apply dec_pointer_Some; exact He).
Qed.

(** What the client makes of a decoded response. *)
Definition response_result (rsp : mcpInitializeResponse) : error + list string :=
  match rp_Error rsp, rp_Result rsp with
  | Some e, _ => inl (PlainError ("MCP initialize RPC error (code " +:+ fmt_d (me_Code e) +:+ "): " +:+ me_Message e))
  | None, None => inl (PlainError "MCP initialize response missing result object")
  | None, Some res => inr (extract_tools res)
  end.

(** What a handshake with an agent that gives the answer [a] returns. *)
Definition handshake_result (a : mcp_answer) (r : error + list string) : Prop :=
  match a with
  | Offers o => r = inr (advertised o)
  | RPCError c m =>
      r = inl (PlainError ("MCP initialize RPC error (code " +:+ fmt_d c +:+ "): " +:+ m))
  | NoResult => r = inl (PlainError "MCP initialize response missing result object")
  | Refuses status => ∃ body,
      r = inl (PlainError ("MCP initialize returned HTTP " +:+ fmt_d status +:+ ": " +:+ body))
  | Replies v =>
      match dec_Response v zero_Response with
      | Some rsp => r = response_result rsp
      | None => ∃ e, r = inl (Errorf "decoding MCP initialize response" e)
      end
  | Garbled _ => ∃ e, r = inl (Errorf "decoding MCP initialize response" e)
  | Breaks err => ∃ ctx, r = inl (Errorf ctx err)
  end.

(** Answers within the protocol have tools without a second name and [int64]
    codes; a garbled one is no JSON. *)
Definition answer_ok (a : mcp_answer) : Prop :=
  match a with
  | Offers o => Forall plain_tool (of_listed o)
  | RPCError c _ => is_int64 c
  | Garbled body => ∀ v, decode_json body ≠ Parsed v
  | _ => True
  end.

(** The tools a client learns of an answer, if any. *)
Definition learned (a : mcp_answer) : option (list string) :=
  match a with
  | Offers o => Some (advertised o)
  | Replies v =>
      match dec_Response v zero_Response with
      | Some rsp => match response_result rsp with inr l => Some l | inl _ => None end
      | None => None
      end
  | _ => None
  end.

Lemma handshake_learned a r : handshake_result a r →
  match learned a with Some l => r = inr l | None => ∃ e, r = inl e end.
Proof.
  destruct a as [o|c m| |st|v|body|e]; simpl; [done|by eexists|by eexists|naive_solver| |naive_solver|naive_solver].
  destruct (dec_Response _ _) as [rsp|]; [|naive_solver]. intros ->. destruct (response_result rsp); by eexists || done.
Qed.

Lemma request_received : parse_json (Marshal_Request initialize_request) = Parsed (json_of_Request initialize_request).
Proof. apply print_parse_json; by vm_compute. Qed.

(** A body that was read to its end. *)
Lemma Decode_body `{JSONErrors} {A} (d : Decoder A) body v a :
  decode_json body = Parsed v → Decode d body None a = unmarshal_value d v a.
Proof. intros Hb. unfold Decode. rewrite Hb. by destruct v. Qed.

(** The client decodes a body that renders a response. *)
Ltac decoded Hbody Hbe Hd :=
  erewrite bind_step by (apply wrap_err_inr; rewrite Hbe, (Decode_body _ _ _ _ Hbody);
    unfold unmarshal_value; by rewrite Hd); cbv beta.

Section handshake.
Context `{JSONErrors} `{MCPAgent W endpoint answer}.

Lemma http_Initialize_run c w :
  let a := answer (json_of_Request initialize_request) in
  answer_ok a → ∃ r w', http_Initialize c endpoint w = (r, w') ∧ handshake_result a r.
Proof.
  intros a Hok. unfold http_Initialize. cbv zeta.
  destruct endpoint_parses as [u Hu].
  erewrite bind_step by (apply wrap_err_inr; unfold NewRequest; by rewrite Hu). cbv beta.
  destruct (agent_answers (hc_Timeout c) _ _ w request_received) as (out & w' & Hdo & Hout).
  fold a in Hout. destruct out as [err|resp].
  { destruct a; try done. simpl in Hout. subst err. eexists _, w'.
    split; [apply bind_fail, wrap_err_fail; exact Hdo|]. by eexists. }
  erewrite bind_step by (apply wrap_err_inr; exact Hdo). cbv beta.
  pose proof (dec_answer a) as Hd. destruct a as [o|code msg| |status|v|body|err] eqn:Ea; [..|done]; cbn [replies] in Hout.
  4: { destruct Hout as [-> Hne]. replace (status =? 200) with false by lia. cbn [negb].
       destruct (ReadAll_limited 4096 resp) as [body e]. eexists _, _. split; [done|]. by exists body. }
  all: destruct Hout as (Hst & Hbe & Hbody); rewrite Hst; cbn [Z.eqb Pos.eqb negb].
  - destruct Hd as (r & res & Hd & He & Hr & Ht); [done|]. decoded Hbody Hbe Hd. rewrite He, Hr.
    eexists _, _. split; [done|]. simpl. by rewrite Ht.
  - destruct Hd as (r & Hd & He); [done|done|]. decoded Hbody Hbe Hd. rewrite He. by eexists _, _.
  - destruct Hd as (r & Hd & He & Hr); [done|]. decoded Hbody Hbe Hd. rewrite He, Hr. by eexists _, _.
  - cbn [handshake_result]. cbn [render_answer] in Hbody. destruct (dec_Response v zero_Response) as [rsp|] eqn:Hv.
    + decoded Hbody Hbe Hv. unfold response_result. destruct (rp_Error rsp); [by eexists _, _|].
      destruct (rp_Result rsp); by eexists _, _.
    + eexists _, w'. split; [|by eexists]. apply bind_fail, wrap_err_fail.
      rewrite Hbe, (Decode_body _ _ _ _ Hbody). unfold unmarshal_value. by rewrite Hv.
  - eexists _, w'. split; [|by eexists]. apply bind_fail. unfold wrap_err, Decode. rewrite Hbody.
    destruct (decode_json body) as [v| |] eqn:Hj; [by destruct (Hok v)|done|done].
Qed.
End handshake.

Lemma initialize_url_slashes endpoint n : initialize_url (endpoint +:+ slashes n) = initialize_url endpoint.
Proof. unfold initialize_url. by rewrite TrimRight_app. Qed.

(** C27: a handshake returns what the agent advertises.  Whatever slashes end the
    endpoint, the agent receives the JSON-RPC request the client built, and the
    client returns the available tools of its capabilities, or else the named
    tools of its list; an RPC error, a missing result and a status other than
    200 are reported as errors with the agent's code and message.  Any other
    JSON value is read as its struct decodes, and one that does not decode, a
    body that is no JSON and a failed request are errors. *)
Theorem handshake_correct `{JSONErrors, MCPAgent W endpoint answer} c n w :
  let a := answer (json_of_Request initialize_request) in
  answer_ok a →
  ∃ r w', http_Initialize c (endpoint +:+ slashes n) w = (r, w') ∧ handshake_result a r.
Proof.
  intros a Hok. unfold http_Initialize. rewrite initialize_url_slashes. by apply http_Initialize_run.
Qed.

(** ** Witness: an agent that rejects the protocol version *)

Definition strict_agent : HTTPClient unit := {|
  url_Parse s := inr {| u_Prefix := s; u_RawQuery := ""; u_Fragment := "" |};
  Do _ req w := (inr {| ht_StatusCode := 200;
    ht_Body := print_json (render_answer (RPCError (-32602) "unsupported protocol version"));
    ht_BodyError := None |}, w);
|}.

Lemma strict_agent_speaks ep :
  MCPAgent (H := strict_agent) ep (λ _, RPCError (-32602) "unsupported protocol version").
Proof.
  split; [by eexists|]. intros timeout body req w _. eexists (inr _), w. split; [done|].
  split; [done|]. split; [done|].
  pose proof (print_parse_json (render_answer (RPCError (-32602) "unsupported protocol version"))
    eq_refl) as [_ Hd]; [by vm_compute|].
  specialize (Hd "" eq_refl). by rewrite app_nil_string in Hd.
Qed.

Lemma handshake_correct_witness :
  ∃ w', http_Initialize (H := plain_errors) (H0 := strict_agent) NewHTTPMCPClient "http://agent.ns.svc:8080/" tt =
    (inl (PlainError "MCP initialize RPC error (code -32602): unsupported protocol version"), w').
Proof.
  destruct (handshake_correct (H := plain_errors) (H1 := strict_agent_speaks "http://agent.ns.svc:8080")
    NewHTTPMCPClient 1 tt) as (r & w' & Hr & Hv); [vm_compute; split; discriminate|].
  exists w'. cbn [handshake_result] in Hv. refine (eq_trans Hr _). rewrite Hv. vm_compute. reflexivity.
Defined.
