(* ===== verification/Registrar.v ===== *)
(** The MCP registrar, [src/internal/registry/mcp_registrar.go].

    The registrar ties the discovery registry of [Registry.v] to live agents: it
    registers an agent after a successful handshake, refreshes it with
    heartbeats and removes it after three failed probes in a row.  The rest of
    the operator sees it through the interface [AgentRegistrar]. *)
From S2P Require Import Prelude Types Objects GoFloat Enforcer Cluster Json Http Registry McpClient.

(** ** The interface the reconciler and the canary controller use *)

Class AgentRegistrar `{CoreTypes} (W : Type) := {
  Register : AgentDeployment → Proc W unit;
  Deregister : AgentDeployment → Proc W unit;
  Heartbeat : AgentDeployment → Proc W unit;
}.

(** Whatever a registrar does to the cluster, it does to ConfigMaps. *)
Definition only_configmaps `{KubeClient W} (w w' : W) : Prop :=
  ∀ k, k.1 ≠ KConfigMap → store w' !! k = store w !! k.

Class AgentRegistrarLaws `{KubeClient W, !AgentRegistrar W} : Prop := {
  Register_frame ad w r w' : Register ad w = (r, w') → only_configmaps w w';
  Deregister_frame ad w r w' : Deregister ad w = (r, w') → only_configmaps w w';
  Heartbeat_frame ad w r w' : Heartbeat ad w = (r, w') → only_configmaps w w';
}.

(** ** The registrar *)

Definition MaxConsecutiveHeartbeatFailures : Z := 3.

(** [rr_has_registry] is [Registry != nil]. *)
Record Registrar := {
  rr_has_registry : bool;
  rr_failures : gmap string Z;
}.

Definition with_failures (m : gmap string Z) (r : Registrar) : Registrar :=
  {| rr_has_registry := rr_has_registry r; rr_failures := m |}.

Definition NewRegistrar (has_registry : bool) : Registrar :=
  {| rr_has_registry := has_registry; rr_failures := ∅ |}.

Definition EndpointForAgent `{CoreTypes} (ad : AgentDeployment) : string :=
  "http://" +:+ ad_Name ad +:+ "." +:+ ad_Namespace ad +:+ ".svc:" +:+
  fmt_d (port_or_default (spec_Port (ad_Spec ad))).

(** The loop that appends the declared tools not [seen] yet. *)
Fixpoint append_declared (seen : gset string) (tools declared : list string) : list string :=
  match declared with
  | [] => tools
  | t :: declared' =>
      if decide (t ∈ seen) then append_declared seen tools declared'
      else append_declared ({[t]} ∪ seen) (tools ++ [t]) declared'
  end.

Definition merge_tools (tools declared : list string) : list string :=
  match declared with
  | [] => tools
  | _ => append_declared (list_to_set tools) tools declared
  end.

(** The MCP client, and the registrar's own cell of the world. *)
Class MCPClient (W : Type) := {
  Initialize : string → Proc W (list string);
}.

(** The HTTP client of [McpClient.v] implements it. *)
Definition HTTP_MCPClient `{JSONErrors, HTTPClient W} (c : httpMCPClient) : MCPClient W := {|
  Initialize := http_Initialize c;
|}.

Class SharedRegistrar (W : Type) := {
  registrar : W → Registrar;
  set_registrar : Registrar → W → W;
}.

Class SharedRegistrarLaws `{KubeClient W, !SharedRegistry W, !SharedRegistrar W} : Prop := {
  registrar_set r w : registrar (set_registrar r w) = r;
  store_set_registrar r w : store (set_registrar r w) = store w;
  clock_set_registrar r w : clock (set_registrar r w) = clock w;
  registry_set_registrar r w : registry (set_registrar r w) = registry w;
  registrar_set_registry r w : registrar (set_registry r w) = registrar w;
  kube_create_or_update_registrar o f w r w' :
    kube_create_or_update o f w = (r, w') → registrar w' = registrar w;
}.

(** A handshake is a network call: it leaves cluster and registry alone. *)
Class MCPClientLaws `{KubeClient W, !SharedRegistry W, !SharedRegistrar W, !MCPClient W} : Prop := {
  Initialize_store ep w r w' : Initialize ep w = (r, w') → store w' = store w;
  Initialize_registry ep w r w' : Initialize ep w = (r, w') → registry w' = registry w;
  Initialize_registrar ep w r w' : Initialize ep w = (r, w') → registrar w' = registrar w;
}.

Section registrar.
Context `{CoreTypes, !KubeClient W, !SharedRegistry W, !RegistryJSON, !SharedRegistrar W, !MCPClient W}.
Implicit Types (ad : AgentDeployment).

Definition read_registrar : Proc W Registrar := λ w, (inr (registrar w), w).

Definition incrementFailures (namespace name : string) : Proc W Z := λ w,
  let r := registrar w in
  let k := key namespace name in
  let n := int64 (default 0 (rr_failures r !! k) + 1) in
  (inr n, set_registrar (with_failures (<[k := n]> (rr_failures r)) r) w).

Definition resetFailures (namespace name : string) : Proc W unit := λ w,
  let r := registrar w in
  (inr tt, set_registrar (with_failures (delete (key namespace name) (rr_failures r)) r) w).

Definition registrar_Register ad : Proc W unit :=
  rr ← read_registrar;
  if negb (rr_has_registry rr) then fail (PlainError "registry not initialized") else
  let endpoint := EndpointForAgent ad in
  tools ← Initialize endpoint <?> ("MCP handshake with " +:+ endpoint +:+ " failed");
  let entry := {|
    en_Namespace := ad_Namespace ad; en_Name := ad_Name ad; en_Endpoint := endpoint;
    en_Tools := merge_tools tools (mcp_Tools (spec_MCP (ad_Spec ad)));
    en_RegisteredAt := 0; en_HeartbeatAt := 0; en_TTL := 0 |} in
  registry_Register entry <?> "registering agent in store";;
  resetFailures (ad_Namespace ad) (ad_Name ad).

Definition registrar_Deregister ad : Proc W unit :=
  rr ← read_registrar;
  if negb (rr_has_registry rr) then mret tt else
  resetFailures (ad_Namespace ad) (ad_Name ad);;
  registry_Deregister (ad_Namespace ad) (ad_Name ad).

(** The probe failed with [err]. *)
Definition heartbeat_failed ad (err : error) : Proc W unit :=
  failCount ← incrementFailures (ad_Namespace ad) (ad_Name ad);
  if MaxConsecutiveHeartbeatFailures <=? failCount then
    deregErr ← try (registry_Deregister (ad_Namespace ad) (ad_Name ad));
    match deregErr with
    | inl de => fail (Wrapped ("failed to deregister after " +:+ fmt_d failCount +:+
        " consecutive heartbeat failures: " +:+ Error de +:+ " (latest probe error: " +:+
        Error err +:+ ")") [de])
    | inr _ => fail (Wrapped (Error ErrHeartbeatDeregistered +:+ ": deregistered after " +:+
        fmt_d failCount +:+ " consecutive heartbeat failures (latest error: " +:+ Error err +:+ ")")
        [ErrHeartbeatDeregistered; err])
    end
  else fail (Errorf ("heartbeat probe failed (" +:+ fmt_d failCount +:+ "/" +:+
      fmt_d MaxConsecutiveHeartbeatFailures +:+ ")") err).

Definition registrar_Heartbeat ad : Proc W unit :=
  rr ← read_registrar;
  if negb (rr_has_registry rr) then mret tt else
  probe ← try (Initialize (EndpointForAgent ad));
  match probe with
  | inl err => heartbeat_failed ad err
  | inr _ =>
      resetFailures (ad_Namespace ad) (ad_Name ad);;
      hb ← try (registry_Heartbeat (ad_Namespace ad) (ad_Name ad));
      match hb with
      | inl hbErr =>
          if strings_Contains (Error hbErr) "not found in registry" then registrar_Register ad
          else fail hbErr
      | inr _ => mret tt
      end
  end.

(** The registrar implements the interface. *)
#[export] Instance Registrar_instance : AgentRegistrar W := {|
  Register := registrar_Register;
  Deregister := registrar_Deregister;
  Heartbeat := registrar_Heartbeat;
|}.
End registrar.
