(* ===== verification/RefWorld.v ===== *)
(** An executable world: an API server over a finite map, a fixed clock, the
    enforcer, registry and registrar cells, scripted metrics and handshakes.

    It satisfies every law the components assume of the outside world, so the
    theorems proved against the interfaces apply to it, and it runs the modelled
    handlers on concrete clusters. *)
From S2P Require Import Prelude Types Objects GoFloat Enforcer Cluster PromQL Json JsonProps RegistryJson Registry Registrar.

#[local] Existing Instance Ref.core.

(** With concrete quantities, objects can be compared as the client library
    does before it sends an update. *)
#[local] Instance Quantity_eq_dec : EqDecision Quantity := Z.eq_dec.
#[local] Instance EnvVar_eq_dec : EqDecision EnvVar.
Proof. change (EqDecision string). apply _. Defined.
#[local] Instance ResourceClaim_eq_dec : EqDecision ResourceClaim.
Proof. change (EqDecision string). apply _. Defined.
#[local] Instance ObjectMeta_eq_dec : EqDecision ObjectMeta.
Proof. solve_decision. Defined.
#[local] Instance ScalingPolicy_eq_dec : EqDecision ScalingPolicy.
Proof. solve_decision. Defined.
#[local] Instance CanaryStep_eq_dec : EqDecision CanaryStep.
Proof. solve_decision. Defined.
#[local] Instance RollbackPolicy_eq_dec : EqDecision RollbackPolicy.
Proof. solve_decision. Defined.
#[local] Instance RolloutPolicy_eq_dec : EqDecision RolloutPolicy.
Proof. solve_decision. Defined.
#[local] Instance MCPConfig_eq_dec : EqDecision MCPConfig.
Proof. solve_decision. Defined.
#[local] Instance ResourceRequirements_eq_dec : EqDecision ResourceRequirements.
Proof. solve_decision. Defined.
#[local] Instance AgentDeploymentSpec_eq_dec : EqDecision AgentDeploymentSpec.
Proof. solve_decision. Defined.
#[local] Instance AgentDeployment_eq_dec : EqDecision AgentDeployment.
Proof. solve_decision. Defined.
#[local] Instance TenantQuotaSpec_eq_dec : EqDecision TenantQuotaSpec.
Proof. solve_decision. Defined.
#[local] Instance TenantQuota_eq_dec : EqDecision TenantQuota.
Proof. solve_decision. Defined.
#[local] Instance ContainerPort_eq_dec : EqDecision ContainerPort.
Proof. solve_decision. Defined.
#[local] Instance Container_eq_dec : EqDecision Container.
Proof. solve_decision. Defined.
#[local] Instance DeploymentStatus_eq_dec : EqDecision DeploymentStatus.
Proof. solve_decision. Defined.
#[local] Instance Deployment_eq_dec : EqDecision Deployment.
Proof. solve_decision. Defined.
#[local] Instance ServicePort_eq_dec : EqDecision ServicePort.
Proof. solve_decision. Defined.
#[local] Instance Service_eq_dec : EqDecision Service.
Proof. solve_decision. Defined.
#[local] Instance CrossVersionObjectReference_eq_dec : EqDecision CrossVersionObjectReference.
Proof. solve_decision. Defined.
#[local] Instance HPAScalingRules_eq_dec : EqDecision HPAScalingRules.
Proof. solve_decision. Defined.
#[local] Instance HPABehavior_eq_dec : EqDecision HPABehavior.
Proof. solve_decision. Defined.
#[local] Instance MetricSpec_eq_dec : EqDecision MetricSpec.
Proof. solve_decision. Defined.
#[local] Instance HPA_eq_dec : EqDecision HorizontalPodAutoscaler.
Proof. solve_decision. Defined.
#[local] Instance HTTPRoute_eq_dec : EqDecision HTTPRoute.
Proof. solve_decision. Defined.
#[local] Instance ServiceMonitorSpec_eq_dec : EqDecision ServiceMonitorSpec.
Proof. solve_decision. Defined.
#[local] Instance ServiceMonitor_eq_dec : EqDecision ServiceMonitor.
Proof. solve_decision. Defined.
#[local] Instance ConfigMap_eq_dec : EqDecision ConfigMap.
Proof. solve_decision. Defined.
#[local] Instance Pod_eq_dec : EqDecision Pod.
Proof. solve_decision. Defined.
#[local] Instance Object_eq_dec : EqDecision Object.
Proof. solve_decision. Defined.

(** The API server's objects, the clock, the shared cells, and the scripted answers of
    Prometheus and of the agents. *)
Record world := {
  rw_objects : gmap ObjKey Object;
  rw_writes : Z;
  rw_clock : Z;
  rw_enforcer : Enforcer;
  rw_registry : Registry;
  rw_registrar : Registrar;
  rw_metrics : option PromRef.metrics;
  rw_handshake : error + list string;
  rw_gauge : gmap string float64;
}.

Definition rw_set_objects (m : gmap ObjKey Object) (w : world) : world :=
  {| rw_objects := m; rw_writes := rw_writes w + 1; rw_clock := rw_clock w;
     rw_enforcer := rw_enforcer w; rw_registry := rw_registry w;
     rw_registrar := rw_registrar w; rw_metrics := rw_metrics w;
     rw_handshake := rw_handshake w; rw_gauge := rw_gauge w |}.
Definition rw_set_clock (t : Z) (w : world) : world :=
  {| rw_objects := rw_objects w; rw_writes := rw_writes w; rw_clock := t;
     rw_enforcer := rw_enforcer w; rw_registry := rw_registry w;
     rw_registrar := rw_registrar w; rw_metrics := rw_metrics w;
     rw_handshake := rw_handshake w; rw_gauge := rw_gauge w |}.
Definition rw_set_enforcer (e : Enforcer) (w : world) : world :=
  {| rw_objects := rw_objects w; rw_writes := rw_writes w; rw_clock := rw_clock w;
     rw_enforcer := e; rw_registry := rw_registry w;
     rw_registrar := rw_registrar w; rw_metrics := rw_metrics w;
     rw_handshake := rw_handshake w; rw_gauge := rw_gauge w |}.
Definition rw_set_registry (r : Registry) (w : world) : world :=
  {| rw_objects := rw_objects w; rw_writes := rw_writes w; rw_clock := rw_clock w;
     rw_enforcer := rw_enforcer w; rw_registry := r;
     rw_registrar := rw_registrar w; rw_metrics := rw_metrics w;
     rw_handshake := rw_handshake w; rw_gauge := rw_gauge w |}.
Definition rw_set_registrar (r : Registrar) (w : world) : world :=
  {| rw_objects := rw_objects w; rw_writes := rw_writes w; rw_clock := rw_clock w;
     rw_enforcer := rw_enforcer w; rw_registry := rw_registry w;
     rw_registrar := r; rw_metrics := rw_metrics w;
     rw_handshake := rw_handshake w; rw_gauge := rw_gauge w |}.
Definition rw_set_gauge (g : gmap string float64) (w : world) : world :=
  {| rw_objects := rw_objects w; rw_writes := rw_writes w; rw_clock := rw_clock w;
     rw_enforcer := rw_enforcer w; rw_registry := rw_registry w;
     rw_registrar := rw_registrar w; rw_metrics := rw_metrics w;
     rw_handshake := rw_handshake w; rw_gauge := g |}.

(** ** The API server *)

(** The objects a server can hold: filed under their key, stamped with a
    resource version, not garbage. *)
Definition storable (kv : ObjKey * Object) : bool :=
  bool_decide (obj_key kv.2 = kv.1) &&
  negb (om_ResourceVersion (obj_meta kv.2) =s? "") && negb (collectable kv.2).

Definition rw_store (w : world) : gmap ObjKey Object :=
  filter (λ kv, storable kv = true) (rw_objects w).

Definition notFound : error := ApiError ReasonNotFound "not found".
Definition conflict : error := ApiError ReasonConflict "the object has been modified".

Definition new_rv (w : world) : string := "v" +:+ fmt_d (rw_writes w).

(** A write with a resource version must name the current one. *)
Definition rv_current (old o : Object) : bool :=
  (om_ResourceVersion (obj_meta o) =s? "") ||
  (om_ResourceVersion (obj_meta o) =s? om_ResourceVersion (obj_meta old)).

Definition put (o : Object) (w : world) : world :=
  rw_set_objects (<[obj_key o := o]> (rw_objects w)) w.
Definition remove (k : ObjKey) (w : world) : world :=
  rw_set_objects (delete k (rw_objects w)) w.

Definition rw_get (k : ObjKey) : Proc world Object := λ w,
  match rw_store w !! k with Some o => (inr o, w) | None => (inl notFound, w) end.

Definition in_list (kd : Kind) (ns : string) (o : Object) : Prop :=
  obj_kind o = kd ∧ om_Namespace (obj_meta o) = ns.
#[local] Instance in_list_dec kd ns o : Decision (in_list kd ns o).
Proof. unfold in_list. apply _. Defined.

Definition rw_list (kd : Kind) (ns : string) : Proc world (list Object) := λ w,
  (inr (filter (in_list kd ns) ((map_to_list (rw_store w)).*2)), w).

Definition rw_create (o : Object) : Proc world Object := λ w,
  match rw_store w !! obj_key o with
  | Some _ => (inl (ApiError ReasonAlreadyExists "already exists"), w)
  | None =>
      let o' := stamp (new_rv w) 1 o in
      if collectable o' then (inl (ApiError ReasonInvalid "deletionTimestamp set"), w)
      else (inr o', put o' w)
  end.

Definition rw_update (o : Object) : Proc world Object := λ w,
  match rw_store w !! obj_key o with
  | None => (inl notFound, w)
  | Some old =>
      if negb (rv_current old o) then (inl conflict, w) else
      let o' := stamp (new_rv w) (om_Generation (obj_meta old) + 1) (keep_status old o) in
      if collectable o' then (inr o', remove (obj_key o) w) else (inr o', put o' w)
  end.

Definition rw_status_update (o : Object) : Proc world Object := λ w,
  match rw_store w !! obj_key o with
  | None => (inl notFound, w)
  | Some old =>
      if negb (rv_current old o) then (inl conflict, w) else
      let o' := stamp (new_rv w) (om_Generation (obj_meta old)) (take_status old o) in
      (inr o', put o' w)
  end.

Definition mark_deleted (t : Z) (o : Object) : Object :=
  let m := obj_meta o in
  obj_set_meta {| om_Name := om_Name m; om_Namespace := om_Namespace m; om_Labels := om_Labels m;
     om_Finalizers := om_Finalizers m; om_DeletionTimestamp := Some t;
     om_Generation := om_Generation m; om_ResourceVersion := om_ResourceVersion m;
     om_Controller := om_Controller m |} o.

Definition rw_delete (o : Object) : Proc world unit := λ w,
  match rw_store w !! obj_key o with
  | None => (inl notFound, w)
  | Some old =>
      match om_Finalizers (obj_meta old) with
      | [] => (inr tt, remove (obj_key o) w)
      | _ => (inr tt, put (mark_deleted (rw_clock w) old) w)
      end
  end.

Definition rw_create_or_update (o : Object) (f : Object → error + Object) : Proc world unit := λ w,
  match f (default o (rw_store w !! obj_key o)) with
  | inl e => (inl e, w)
  | inr o1 =>
      if bool_decide (rw_store w !! obj_key o = Some o1) then (inr tt, w) else
      let o' := stamp (new_rv w) (om_Generation (obj_meta o1) + 1) o1 in
      if bool_decide (obj_key o1 = obj_key o) && negb (collectable o') then (inr tt, put o' w)
      else (inl (ApiError ReasonInvalid "object identity changed"), w)
  end.

#[export] Instance rw_client : KubeClient world := {|
  store := rw_store;
  kube_get := rw_get;
  kube_list := rw_list;
  kube_create := rw_create;
  kube_update := rw_update;
  kube_status_update := rw_status_update;
  kube_delete := rw_delete;
  kube_create_or_update := rw_create_or_update;
  set_controller_reference := λ ad m, inr (om_set_controller (Some (ad_Name ad)) m);
  clock := rw_clock;
|}.

(** ** The other cells *)

#[export] Instance rw_enforcer_cell : SharedEnforcer world :=
  {| enforcer := rw_enforcer; set_enforcer := rw_set_enforcer |}.
#[export] Instance rw_gauge_cell : UsageGauge world :=
  {| gauge := rw_gauge; set_gauge := rw_set_gauge |}.
#[export] Instance rw_registry_cell : SharedRegistry world :=
  {| registry := rw_registry; set_registry := rw_set_registry |}.
#[export] Instance rw_registrar_cell : SharedRegistrar world :=
  {| registrar := rw_registrar; set_registrar := rw_set_registrar |}.
#[export] Instance rw_prometheus : Prometheus world := {|
  QueryScalar q w :=
    match rw_metrics w with
    | None => (inl (PlainError "querying Prometheus: connection refused"), w)
    | Some m => ((QueryScalar q m).1, w)
    end |}.
#[export] Instance rw_mcp : MCPClient world :=
  {| Initialize := λ _ w, (rw_handshake w, w) |}.

(** ** The laws hold *)

Lemma new_rv_nonempty w : new_rv w ≠ "".
Proof. done. Qed.

Lemma meta_set_meta m o : obj_meta (obj_set_meta m o) = m.
Proof. by destruct o. Qed.
Lemma kind_set_meta m o : obj_kind (obj_set_meta m o) = obj_kind o.
Proof. by destruct o. Qed.
Lemma key_stamp rv gen o : obj_key (stamp rv gen o) = obj_key o.
Proof. by destruct o. Qed.
Lemma key_keep old o : obj_key (keep_status old o) = obj_key o.
Proof. by destruct old, o. Qed.
Lemma take_meta old o : obj_key old = obj_key o → obj_key (take_status old o) = obj_key o ∧
  obj_meta (take_status old o) = obj_meta old.
Proof.
  intros <-. assert (obj_meta (take_status old o) = obj_meta old) as Hm by by destruct old, o.
  assert (obj_kind (take_status old o) = obj_kind old) as Hk by by destruct old, o.
  unfold obj_key. by rewrite Hm, Hk.
Qed.
Lemma rv_stamp rv gen o : om_ResourceVersion (obj_meta (stamp rv gen o)) = rv.
Proof. unfold stamp. by rewrite meta_set_meta. Qed.
Lemma collectable_stamp rv gen o : collectable (stamp rv gen o) = collectable o.
Proof. unfold collectable, stamp. by rewrite meta_set_meta. Qed.

Lemma storable_spec k o :
  storable (k, o) = true ↔
  obj_key o = k ∧ om_ResourceVersion (obj_meta o) ≠ "" ∧ collectable o = false.
Proof.
  unfold storable; simpl. rewrite !andb_true_iff, bool_decide_eq_true, !negb_true_iff, str_eqb_false.
  tauto.
Qed.

Lemma rw_store_lookup w k o :
  rw_store w !! k = Some o ↔ rw_objects w !! k = Some o ∧ obj_key o = k ∧
    om_ResourceVersion (obj_meta o) ≠ "" ∧ collectable o = false.
Proof. unfold rw_store. rewrite map_lookup_filter_Some. by rewrite storable_spec. Qed.

Lemma rw_store_put o w :
  om_ResourceVersion (obj_meta o) ≠ "" → collectable o = false →
  rw_store (put o w) = <[obj_key o := o]> (rw_store w).
Proof.
  intros Hrv Hc. unfold rw_store, put; simpl. apply map_filter_insert_True.
  by apply storable_spec.
Qed.

Lemma rw_store_remove k w : rw_store (remove k w) = delete k (rw_store w).
Proof. unfold rw_store, remove; simpl. apply map_filter_delete. Qed.

Lemma rw_list_ok kd ns w :
  let l := filter (in_list kd ns) ((map_to_list (rw_store w)).*2) in
  NoDup (obj_key <$> l) ∧ ∀ o, o ∈ l ↔ rw_store w !! obj_key o = Some o ∧ in_list kd ns o.
Proof.
  simpl.
  assert (Hin : ∀ o, o ∈ (map_to_list (rw_store w)).*2 ↔ rw_store w !! obj_key o = Some o).
  { intros o. rewrite list_elem_of_fmap. split.
    - intros ([k o'] & -> & Hm%elem_of_map_to_list). simpl.
      pose proof Hm as (_ & <- & _)%rw_store_lookup. done.
    - intros Hm. exists (obj_key o, o). by rewrite elem_of_map_to_list. }
  split.
  - assert (Hkeys : NoDup (obj_key <$> (map_to_list (rw_store w)).*2)).
    { replace (obj_key <$> (map_to_list (rw_store w)).*2) with ((map_to_list (rw_store w)).*1);
        [apply NoDup_fst_map_to_list|].
      rewrite <- list_fmap_compose. apply list_fmap_ext. intros i [k o] Hi; simpl.
      apply list_elem_of_lookup_2, elem_of_map_to_list in Hi.
      by pose proof Hi as (_ & <- & _)%rw_store_lookup. }
    by apply NoDup_fmap_filter.
  - intros o. rewrite list_elem_of_filter, Hin. tauto.
Qed.

Lemma rw_create_ok o w r w' :
  rw_create o w = (r, w') →
  match r with
  | inr o' => rw_store w !! obj_key o = None ∧
      ∃ rv gen, rv ≠ "" ∧ o' = stamp rv gen o ∧ rw_store w' = <[obj_key o := o']> (rw_store w)
  | inl _ => rw_store w' = rw_store w
  end.
Proof.
  unfold rw_create. destruct (rw_store w !! obj_key o) eqn:E; [by intros [= <- <-]|].
  destruct (collectable _) eqn:Hc; intros [= <- <-]; [done|]. split; [done|].
  eexists _, _. split; [apply (new_rv_nonempty w)|]. split; [done|].
  rewrite rw_store_put, key_stamp; [done|by rewrite rv_stamp|done].
Qed.

Lemma rw_update_ok o w r w' :
  rw_update o w = (r, w') →
  match r with
  | inr o' => ∃ old rv gen, rw_store w !! obj_key o = Some old ∧ rv ≠ "" ∧
      o' = stamp rv gen (keep_status old o) ∧
      rw_store w' = (if collectable o' then delete (obj_key o) (rw_store w)
                     else <[obj_key o := o']> (rw_store w))
  | inl _ => rw_store w' = rw_store w
  end.
Proof.
  unfold rw_update. destruct (rw_store w !! obj_key o) as [old|] eqn:E; [|by intros [= <- <-]].
  destruct (rv_current old o); simpl; [|by intros [= <- <-]].
  destruct (collectable _) eqn:Hc; intros [= <- <-]; eexists _, _, _;
    (split; [done|]); (split; [apply (new_rv_nonempty w)|]); (split; [done|]); rewrite Hc.
  - by rewrite rw_store_remove.
  - rewrite rw_store_put, key_stamp, key_keep; [done|by rewrite rv_stamp|done].
Qed.

Lemma rw_status_update_ok o w r w' :
  rw_status_update o w = (r, w') →
  match r with
  | inr o' => ∃ old rv, rw_store w !! obj_key o = Some old ∧ rv ≠ "" ∧
      o' = stamp rv (om_Generation (obj_meta old)) (take_status old o) ∧
      rw_store w' = <[obj_key o := o']> (rw_store w)
  | inl _ => rw_store w' = rw_store w
  end.
Proof.
  unfold rw_status_update. destruct (rw_store w !! obj_key o) as [old|] eqn:E; [|by intros [= <- <-]].
  destruct (rv_current old o); simpl; intros [= <- <-]; [|done].
  pose proof E as (_ & Hk & _ & Hlive)%rw_store_lookup.
  destruct (take_meta old o Hk) as [Ht Hm].
  eexists _, _. split; [done|]. split; [apply (new_rv_nonempty w)|]. split; [done|].
  rewrite rw_store_put, key_stamp, Ht; [done|by rewrite rv_stamp|].
  rewrite collectable_stamp. unfold collectable in *. by rewrite Hm.
Qed.

Lemma rw_delete_ok o w r w' :
  rw_delete o w = (r, w') →
  match r with
  | inr _ =>
      (∀ k, k ≠ obj_key o → rw_store w' !! k = rw_store w !! k) ∧
      ((∀ o0, rw_store w !! obj_key o = Some o0 → om_Finalizers (obj_meta o0) = []) →
        rw_store w' = delete (obj_key o) (rw_store w))
  | inl e => rw_store w' = rw_store w ∧ (IsNotFound e = true → rw_store w !! obj_key o = None)
  end.
Proof.
  unfold rw_delete. destruct (rw_store w !! obj_key o) as [old|] eqn:E; [|by intros [= <- <-]].
  pose proof E as (_ & Hk & Hrv & Hlive)%rw_store_lookup.
  destruct (om_Finalizers (obj_meta old)) as [|x l] eqn:Hf; intros [= <- <-].
  - rewrite rw_store_remove. split; [|done]. intros k Hne. by rewrite lookup_delete_ne.
  - assert (Hk' : obj_key (mark_deleted (rw_clock w) old) = obj_key o)
      by (rewrite <- Hk; by destruct old).
    split; [|by intros Hx; specialize (Hx _ eq_refl); rewrite Hf in Hx].
    intros k Hne. rewrite rw_store_put; [by rewrite Hk', lookup_insert_ne| |];
      unfold mark_deleted, collectable; rewrite meta_set_meta; simpl; [done|]. by rewrite Hf.
Qed.

Lemma stamp_same o : stamp (om_ResourceVersion (obj_meta o)) (om_Generation (obj_meta o)) o = o.
Proof. by destruct o as [[[]]|[[]]|[[]]|[[]]|[[]]|[[]]|[[]]|[[]]|[[]]|[]]. Qed.

Lemma rw_create_or_update_ok o f w r w' :
  rw_create_or_update o f w = (r, w') →
  match r with
  | inr _ => ∃ o1 rv gen, f (default o (rw_store w !! obj_key o)) = inr o1 ∧
      obj_key o1 = obj_key o ∧ rv ≠ "" ∧
      rw_store w' = <[obj_key o := stamp rv gen o1]> (rw_store w)
  | inl _ => rw_store w' = rw_store w
  end.
Proof.
  unfold rw_create_or_update. destruct (f _) as [e|o1] eqn:Ef; [by intros [= <- <-]|].
  case_bool_decide as Hsame.
  - intros [= <- <-]. pose proof Hsame as (_ & Hk & Hrv & _)%rw_store_lookup.
    exists o1, (om_ResourceVersion (obj_meta o1)), (om_Generation (obj_meta o1)).
    split_and!; try done. by rewrite stamp_same, insert_id.
  - case_match eqn:Hc; intros [= <- <-]; [|done]. apply andb_true_iff in Hc as [Hk Hc]. zbool.
    eexists o1, _, _. split_and!; [done|done|apply (new_rv_nonempty w)|].
    rewrite rw_store_put, key_stamp, Hk; [done|by rewrite rv_stamp|done].
Qed.

#[export] Instance rw_laws : KubeLaws (W := world).
Proof.
  split; simpl.
  - by intros w k o (_ & ? & _)%rw_store_lookup.
  - by intros w k o (_ & _ & ? & _)%rw_store_lookup.
  - by intros w k o (_ & _ & _ & ?)%rw_store_lookup.
  - intros k w r w'. unfold rw_get. destruct (rw_store w !! k) eqn:E; intros [= <- <-]; done.
  - intros kd ns w r w' [= <- <-]. split; [done|]. apply rw_list_ok.
  - apply rw_create_ok.
  - apply rw_update_ok.
  - apply rw_status_update_ok.
  - apply rw_delete_ok.
  - apply rw_create_or_update_ok.
  - by intros ad m m' [= <-].
Qed.

(** The cells are independent: an API call leaves them alone. *)
Ltac cell_law f :=
  intros; unfold f, put, remove in *; repeat case_match; simplify_eq/=; done.

#[export] Instance rw_enforcer_laws : SharedEnforcerLaws (W := world).
Proof.
  split; try done; simpl; [|intros ????? [= <- <-]; done|].
  - cell_law rw_get.
  - cell_law rw_status_update.
Qed.

#[export] Instance rw_gauge_laws : UsageGaugeLaws (W := world).
Proof.
  split; try done; simpl; [|intros ????? [= <- <-]; done|].
  - cell_law rw_get.
  - cell_law rw_status_update.
Qed.

#[export] Instance rw_registry_laws : SharedRegistryLaws (W := world).
Proof.
  split; try done; simpl.
  - cell_law rw_get.
  - cell_law rw_create_or_update.
Qed.

#[export] Instance rw_registrar_laws : SharedRegistrarLaws (W := world).
Proof. split; try done; simpl. cell_law rw_create_or_update. Qed.

#[export] Instance rw_prometheus_laws : PrometheusLaws (W := world).
Proof. split; simpl. intros q w r w'. case_match; by intros [= <- <-]. Qed.

#[export] Instance rw_mcp_laws : MCPClientLaws (W := world).
Proof. split; simpl; by intros ? ? ? ? [= <- <-]. Qed.

(** The JSON of the registry, in a process whose local time is UTC. *)
#[export] Instance rw_json : RegistryJSON := codec (H := plain_errors) (λ _, 0) (λ _, None).
#[export] Instance rw_json_laws : RegistryJSONLaws := codec_laws (λ _, 0) (λ _, None).

(** ** Building clusters *)

Definition empty_world : world :=
  {| rw_objects := ∅; rw_writes := 0; rw_clock := 0; rw_enforcer := NewEnforcer "";
     rw_registry := NewRegistry true "" 0; rw_registrar := NewRegistrar true;
     rw_metrics := None; rw_handshake := inr []; rw_gauge := ∅ |}.

(** Objects as the server would hold them. *)
Definition with_objects (l : list Object) (w : world) : world :=
  foldr (λ o w, put (stamp (new_rv w) 1 o) w) w l.

(** Did a run succeed?  Decided by evaluation. *)
Definition ok {W A} (r : (error + A) * W) : bool :=
  match r.1 with inr _ => true | inl _ => false end.

Lemma ok_run {W A} (m : Proc W A) w : ok (m w) = true → ∃ a, m w = (inr a, (m w).2).
Proof. unfold ok. destruct (m w) as [[e|a] w']; [done|]. by exists a. Qed.

Lemma not_ok_run {W A} (m : Proc W A) w : ok (m w) = false → ∃ e, m w = (inl e, (m w).2).
Proof. unfold ok. destruct (m w) as [[e|a] w']; [|done]. by exists e. Qed.
