(* ===== verification/RegistryProps.v ===== *)
(** Theorems about the registry: visibility for exactly the time-to-live, the
    invisibility of sweeping, the REST requests, recovery after a restart, and
    the agreement of its views in all replicas that share the ConfigMap. *)
From S2P Require Import Prelude Types Objects GoFloat Enforcer Cluster PromQL Registry Registrar RefWorld.

(** ** Keys *)

Definition no_slash (s : string) : Prop := strings_Contains s "/" = false.

Lemma key_cons c ns n : key (String c ns) n = String c (key ns n).
Proof. done. Qed.

Lemma key_inj ns ns' n n' :
  no_slash ns → no_slash ns' → key ns n = key ns' n' → ns = ns' ∧ n = n'.
Proof.
  assert (Hhd : ∀ c s, no_slash (String c s) → c ≠ Ascii.ascii_of_nat 47 ∧ no_slash s).
  { intros c s. unfold no_slash. cbn [strings_Contains has_prefix]. rewrite andb_true_r.
    intros [Hc Hs]%orb_false_iff. zbool. split; [by intros ->|done]. }
  revert ns'. induction ns as [|c ns IH]; intros [|c' ns'] Hs Hs' E.
  - split; [done|]. by injection E.
  - rewrite key_cons in E. injection E as E _. by apply Hhd in Hs' as [? _].
  - rewrite key_cons in E. injection E as E _. by apply Hhd in Hs as [? _].
  - rewrite !key_cons in E. injection E as -> E.
    apply Hhd in Hs as [_ Hs]. apply Hhd in Hs' as [_ Hs'].
    by destruct (IH ns' Hs Hs' E) as [-> ->].
Qed.

(** ** The registry over time *)

(** Every entry is filed under its own key, was registered before its last sign
    of life, which is not in the future, and has a positive time-to-live. *)
Definition entry_inv (now : Z) (k : string) (e : Entry) : Prop :=
  k = key (en_Namespace e) (en_Name e) ∧
  en_RegisteredAt e ≤ en_HeartbeatAt e ≤ now ∧ 0 < en_TTL e.

Definition reg_inv (now : Z) (r : Registry) : Prop :=
  0 < rg_defaultTTL r ∧ map_Forall (entry_inv now) (rg_entries r).

Lemma entries_later now now' (m : gmap string Entry) : now ≤ now' →
  map_Forall (entry_inv now) m → map_Forall (entry_inv now') m.
Proof. intros Hle Hm k e He. apply Hm in He as (? & ? & ?). split_and!; try done; lia. Qed.

Lemma reg_inv_later now now' r : now ≤ now' → reg_inv now r → reg_inv now' r.
Proof. intros Hle [Hd Hm]. split; [done|]. by eapply entries_later. Qed.

Lemma reg_inv_new now hc ns ttl : reg_inv now (NewRegistry hc ns ttl).
Proof.
  split; simpl; [|by intros k e; rewrite lookup_empty].
  destruct (ttl <=? 0) eqn:E; zbool; [unfold DefaultTTL, Second; lia|lia].
Qed.

Lemma reg_inv_register now e r : reg_inv now r → reg_inv now (register_entry e now r).
Proof.
  intros [Hd Hinv]. split; [done|]. simpl. apply map_Forall_insert_2; [|done]. repeat split; simpl; try done.
  - destruct (rg_entries r !! _) as [e0|] eqn:E; [|done]. apply Hinv in E as (_ & ? & _). lia.
  - destruct (en_TTL e <=? 0) eqn:Ht; zbool; lia.
Qed.

Lemma reg_inv_delete now k r : reg_inv now r → reg_inv now (with_entries (delete k (rg_entries r)) r).
Proof. intros [Hd Hinv]. split; [done|]. by apply map_Forall_delete. Qed.

Lemma reg_inv_heartbeat now k e r : reg_inv now r → rg_entries r !! k = Some e →
  reg_inv now (with_entries (<[k := set_heartbeat now e]> (rg_entries r)) r).
Proof.
  intros [Hd Hinv] He. split; [done|]. simpl. apply map_Forall_insert_2; [|done].
  apply Hinv in He as (-> & Ht & Httl). repeat split; simpl; try done; lia.
Qed.

Lemma reg_inv_sweep now r : reg_inv now r → reg_inv now (Registry.sweepExpired now r).2.
Proof. intros [Hd Hinv]. split; [done|]. intros k e (He & _)%map_lookup_filter_Some. by apply Hinv. Qed.

(** Loaded entries replace those under the same key. *)
Lemma reg_inv_load now m r : reg_inv now r → map_Forall (entry_inv now) m →
  reg_inv now (with_entries (m ∪ rg_entries r) r).
Proof.
  intros [Hd Hinv] Hm. split; [done|]. simpl. intros k e [He|[_ He]]%lookup_union_Some_raw; [by apply Hm|by apply Hinv].
Qed.

(** ** Views *)

Lemma registry_List_elem now r e :
  e ∈ registry_List now r ↔ stale r now e = false ∧ ∃ k, rg_entries r !! k = Some e.
Proof.
  unfold registry_List. rewrite list_elem_of_filter, list_elem_of_fmap.
  split; intros [Hs Hx]; (split; [done|]).
  - destruct Hx as ([k e'] & -> & Hk%elem_of_map_to_list). eauto.
  - destruct Hx as [k Hk]. exists (k, e). by rewrite elem_of_map_to_list.
Qed.

Lemma registry_views_agree now r e :
  map_Forall (λ k e, k = key (en_Namespace e) (en_Name e)) (rg_entries r) →
  e ∈ registry_List now r ↔ registry_Get (en_Namespace e) (en_Name e) now r = Some e.
Proof.
  intros Hinv. rewrite registry_List_elem. unfold registry_Get. split.
  - intros [Hs [k Hk]]. pose proof (Hinv _ _ Hk) as Hkey. simpl in Hkey. subst k.
    by rewrite Hk, Hs.
  - destruct (rg_entries r !! _) as [e'|] eqn:E; [|done].
    destruct (stale r now e') eqn:Hs; [done|]. intros [= ->]. eauto.
Qed.

Lemma stale_mono r now now' e :
  now ≤ now' → stale r now e = true → stale r now' e = true.
Proof. unfold stale, time_Sub. intros ? ?. zbool. apply Z.ltb_lt. lia. Qed.

Lemma sweep_get now now' r ns n :
  now ≤ now' →
  registry_Get ns n now' (Registry.sweepExpired now r).2 = registry_Get ns n now' r.
Proof.
  intros Hle. unfold registry_Get, Registry.sweepExpired; simpl.
  set (k := key ns n). destruct (rg_entries r !! k) as [e|] eqn:E.
  - destruct (stale r now e) eqn:Hs.
    + rewrite (map_lookup_filter_None_2 _ (rg_entries r)); [|right; intros e' He' Hf; simpl in Hf; congruence].
      by rewrite (stale_mono r now now' e).
    + rewrite (map_lookup_filter_Some_2 _ (rg_entries r) k e); [done|done|done].
  - by rewrite (map_lookup_filter_None_2 _ (rg_entries r)); [|left].
Qed.

Lemma sweep_list now now' r :
  now ≤ now' →
  ∀ e, e ∈ registry_List now' (Registry.sweepExpired now r).2 ↔ e ∈ registry_List now' r.
Proof.
  intros Hle e. rewrite !registry_List_elem. unfold Registry.sweepExpired; simpl.
  change (stale (with_entries _ r) now' e) with (stale r now' e).
  split; intros [Hs [k Hk]]; (split; [done|]); exists k.
  - by apply map_lookup_filter_Some in Hk as [? _].
  - apply map_lookup_filter_Some. split; [done|]. simpl.
    destruct (stale r now e) eqn:E; [|done]. eapply stale_mono in E; [|exact Hle]. congruence.
Qed.

(** ** Persistence *)
Section persistence.
Context `{CoreTypes} {W : Type} {KC : KubeClient W} {KL : KubeLaws} {SR : SharedRegistry W}
  {SL : SharedRegistryLaws} {RJ : RegistryJSON} {JL : RegistryJSONLaws}.
Implicit Types (w : W) (r : Registry).

(** The key of the ConfigMap that holds the state of [r]. *)
Definition state_key r : ObjKey := (KConfigMap, NN (rg_namespace r) (rg_configMapName r)).

(** The persisted state denotes the entries [m]. *)
Definition persisted r (m : gmap string Entry) w : Prop :=
  ∃ cm s, store w !! state_key r = Some (OConfigMap cm) ∧ cm_Data cm !! configMapKey = Some s ∧
    s ≠ "" ∧ Unmarshal_entries s = inr m.

(** An attempt changes at most the state ConfigMap, and never the registry. *)
Definition state_frame r w w' : Prop :=
  registry w' = registry w ∧ ∀ k, k ≠ state_key r → store w' !! k = store w !! k.

Lemma state_frame_refl r w : state_frame r w w.
Proof. done. Qed.
Lemma state_frame_trans r w1 w2 w3 :
  state_frame r w1 w2 → state_frame r w2 w3 → state_frame r w1 w3.
Proof. intros [E1 F1] [E2 F2]. split; [congruence|]. intros k Hk. by rewrite F2, F1. Qed.

Lemma state_config r :
  rkey {| cm_Meta := new_meta (rg_configMapName r) (rg_namespace r) ∅; cm_Data := ∅ |} = state_key r.
Proof. done. Qed.

Lemma persist_once_run w res w' :
  persist_once w = (res, w') →
  state_frame (registry w) w w' ∧
  match res with
  | inr _ => json_ok (rg_entries (registry w)) →
      persisted (registry w) (rg_entries (registry w)) w'
  | inl _ => True
  end.
Proof.
  unfold persist_once. intros Hrun.
  rewrite (bind_step read_registry _ w (registry w) w) in Hrun by done.
  destruct (Marshal_entries (rg_entries (registry w))) as [e|data] eqn:Hm.
  { unfold mbind, Proc_bind, wrap_err, lift_sum in Hrun. simplify_eq. split; [apply state_frame_refl|done]. }
  erewrite bind_step in Hrun by (by apply wrap_err_inr). cbv beta in Hrun.
  destruct res as [e|[]].
  - apply wrap_err_inl in Hrun as (e0 & Hc & _). split; [|done].
    split; [by eapply kube_create_or_update_registry|].
    apply CreateOrUpdate_inl in Hc. intros k _. by rewrite Hc.
  - apply wrap_err_inr in Hrun as Hc. pose proof Hc as Hreg.
    apply CreateOrUpdate_inr in Hc as (base & b & rv & gen & Hbase & [= <-] & Hk & Hrv & Hs).
    rewrite state_config in *. split.
    + split; [by eapply kube_create_or_update_registry|].
      intros k Hne. by rewrite Hs, lookup_insert_ne.
    + intros (s & Hms & Hne & Hum)%json_roundtrip.
      rewrite Hm in Hms. injection Hms as <-.
      eexists _, data. rewrite Hs, lookup_insert_eq. split; [done|]. split; [|done].
      apply lookup_insert_eq.
Qed.

Lemma persist_run n w res w' :
  retry_on_conflict n persist_once w = (res, w') →
  state_frame (registry w) w w' ∧
  match res with
  | inr _ => json_ok (rg_entries (registry w)) →
      persisted (registry w) (rg_entries (registry w)) w'
  | inl _ => True
  end.
Proof.
  revert w. induction n as [|n IH]; intros w; simpl;
    destruct (persist_once w) as [[e|u] w1] eqn:E; apply persist_once_run in E as [Hf Hp];
    try (intros [= <- <-]; by split).
  destruct (IsConflict e); [|intros [= <- <-]; by split].
  intros Hr. apply IH in Hr as [Hf' Hp']. pose proof Hf as [Er _]. rewrite Er in Hf', Hp'.
  split; [by eapply state_frame_trans|done].
Qed.

Lemma persist_if_client_run w res w' :
  persist_if_client w = (res, w') →
  state_frame (registry w) w w' ∧
  match res with
  | inr _ => rg_has_client (registry w) = true → json_ok (rg_entries (registry w)) →
      persisted (registry w) (rg_entries (registry w)) w'
  | inl _ => True
  end.
Proof.
  unfold persist_if_client. rewrite (bind_step read_registry _ w (registry w) w) by done.
  destruct (rg_has_client (registry w)).
  - intros [Hf Hp]%persist_run. split; [done|]. destruct res; auto.
  - intros [= <- <-]. split; [apply state_frame_refl|done].
Qed.

Lemma state_key_with_entries m r : state_key (with_entries m r) = state_key r.
Proof. done. Qed.

(** Changing the entries and persisting them. *)
Lemma modify_persist_run (f : Registry → Registry) w res w' :
  (modify_registry f;; persist_if_client) w = (res, w') →
  registry w' = f (registry w) ∧
  (∀ k, k ≠ state_key (f (registry w)) → store w' !! k = store w !! k) ∧
  match res with
  | inr _ => rg_has_client (f (registry w)) = true → json_ok (rg_entries (f (registry w))) →
      persisted (f (registry w)) (rg_entries (f (registry w))) w'
  | inl _ => True
  end.
Proof.
  rewrite (bind_step (modify_registry f) _ w tt (set_registry (f (registry w)) w)) by done.
  intros [[Hr Hs] Hp]%persist_if_client_run. rewrite registry_set in *.
  split; [done|]. split; [|done]. intros k Hk. rewrite Hs by done. by rewrite store_set_registry.
Qed.

(** Reading the state back into an empty registry. *)
Lemma load_run m r w u w' :
  persisted r m w → registry w = with_entries ∅ r →
  loadFromConfigMap w = (inr u, w') → registry w' = with_entries m r.
Proof.
  intros (cm & s & Hcm & Hd & Hne & Hum) Hreg. unfold loadFromConfigMap.
  rewrite (bind_step read_registry _ w (registry w) w) by done. rewrite Hreg. intros Hrun.
  apply bind_inr in Hrun as (x & w1 & Ht & Hrun). apply try_inv in Ht as (y & [= ->] & Hg).
  assert (Hreg1 : registry w1 = registry w).
  { revert Hg. unfold Get, mbind, Proc_bind. destruct (kube_get _ w) as [[e|o] w2] eqn:E;
      apply kube_get_registry in E; [by intros [= _ <-]|]. unfold of_object.
    destruct (prj o); by intros [= _ <-]. }
  destruct y as [e|cm'].
  { apply Get_inl in Hg as [_ Hnf]. destruct (IsNotFound e); [|by run].
    unfold state_key in Hcm. change (kind (A := ConfigMap)) with KConfigMap in Hnf.
    simpl in Hnf. rewrite Hcm in Hnf. by specialize (Hnf eq_refl). }
  apply Get_inr in Hg as [_ Hg]. change (kind (A := ConfigMap)) with KConfigMap in Hg.
  simpl in Hg. unfold state_key in Hcm. rewrite Hcm in Hg. injection Hg as <-.
  rewrite Hd in Hrun. apply str_eqb_false in Hne as Hne'. rewrite Hne' in Hrun.
  erewrite bind_step in Hrun by (apply wrap_err_inr; unfold lift_sum; by rewrite Hum).
  cbv beta in Hrun. unfold modify_registry in Hrun. injection Hrun as <- <-.
  rewrite registry_set, Hreg1, Hreg. unfold with_entries; simpl. by rewrite map_union_empty.
Qed.

(** ** The operations *)

Definition registrable (e : Entry) : bool :=
  negb ((en_Namespace e =s? "") || (en_Name e =s? "") || (en_Endpoint e =s? "")).

Lemma registry_Register_run e w res w' :
  registry_Register e w = (res, w') →
  if registrable e then
    registry w' = register_entry e (clock w) (registry w) ∧
    (∀ k, k ≠ state_key (registry w) → store w' !! k = store w !! k) ∧
    match res with
    | inr _ => rg_has_client (registry w) = true → json_ok (rg_entries (registry w')) →
        persisted (registry w) (rg_entries (registry w')) w'
    | inl _ => True
    end
  else w' = w ∧ is_Some (match res with inl e => Some e | inr _ => None end).
Proof.
  unfold registry_Register, registrable. case_match eqn:Hv; simpl.
  { intros [= <- <-]. eauto. }
  rewrite (bind_step Now _ w (clock w) w) by done.
  intros (Hr & Hs & Hp)%modify_persist_run. by rewrite Hr.
Qed.

Lemma registry_Deregister_run ns n w res w' :
  registry_Deregister ns n w = (res, w') →
  registry w' = with_entries (delete (key ns n) (rg_entries (registry w))) (registry w) ∧
  (∀ k, k ≠ state_key (registry w) → store w' !! k = store w !! k) ∧
  match rg_entries (registry w) !! key ns n with
  | None => res = inr tt ∧ w' = w
  | Some _ =>
      match res with
      | inr _ => rg_has_client (registry w) = true → json_ok (rg_entries (registry w')) →
          persisted (registry w) (rg_entries (registry w')) w'
      | inl _ => True
      end
  end.
Proof.
  unfold registry_Deregister. rewrite (bind_step read_registry _ w (registry w) w) by done.
  destruct (rg_entries (registry w) !! key ns n) as [e|] eqn:E.
  - intros (Hr & Hs & Hp)%modify_persist_run. by rewrite Hr.
  - intros [= <- <-]. split; [|done]. rewrite delete_id by done. by destruct (registry w).
Qed.

Lemma registry_Heartbeat_run ns n w res w' :
  registry_Heartbeat ns n w = (res, w') →
  match rg_entries (registry w) !! key ns n with
  | None => res = inl (PlainError ("agent " +:+ key ns n +:+ " not found in registry")) ∧ w' = w
  | Some e => res = inr tt ∧ store w' = store w ∧
      registry w' = with_entries (<[key ns n := set_heartbeat (clock w) e]> (rg_entries (registry w)))
                      (registry w)
  end.
Proof.
  unfold registry_Heartbeat. rewrite (bind_step read_registry _ w (registry w) w) by done.
  destruct (rg_entries (registry w) !! key ns n) as [e|]; [|by intros [= <- <-]].
  rewrite (bind_step Now _ w (clock w) w) by done. unfold modify_registry. intros [= <- <-].
  by rewrite registry_set, store_set_registry.
Qed.

Lemma try_run {A} (m : Proc W A) w : try m w = (inr (m w).1, (m w).2).
Proof. unfold try. by destruct (m w). Qed.

(** *** What a REST request does to the registry, and what it answers *)

Definition rest_effect (req : Route) (now : Z) r : Registry :=
  match req with
  | POST_agents (inr e) => if registrable e then register_entry e now r else r
  | DELETE_agent ns n =>
      if (ns =s? "") || (n =s? "") then r else with_entries (delete (key ns n) (rg_entries r)) r
  | _ => r
  end.

Definition rest_answer (req : Route) (now : Z) r (resp : Response) : Prop :=
  match req with
  | GET_agents => resp = {| rs_Code := 200; rs_Body := BodyAgents (registry_List now r) |}
  | GET_agent ns n =>
      if (ns =s? "") || (n =s? "") then rs_Code resp = 400 else
      match registry_Get ns n now r with
      | Some e => resp = {| rs_Code := 200; rs_Body := BodyAgent e |}
      | None => rs_Code resp = 404
      end
  | POST_agents (inr e) =>
      registrable e = true ∧ resp = {| rs_Code := 200; rs_Body := BodyStatus "registered" |} ∨
      rs_Code resp = 400
  | POST_agents (inl _) => rs_Code resp = 400
  | DELETE_agent ns n =>
      if (ns =s? "") || (n =s? "") then rs_Code resp = 400 else
      resp = {| rs_Code := 200; rs_Body := BodyStatus "deregistered" |} ∨
      rs_Code resp = 500 ∧ is_Some (rg_entries r !! key ns n)
  end.

(** A request whose success means that the state was written. *)
Definition rest_writes (req : Route) r : bool :=
  match req with
  | POST_agents (inr e) => registrable e
  | DELETE_agent ns n =>
      negb ((ns =s? "") || (n =s? "")) && bool_decide (is_Some (rg_entries r !! key ns n))
  | _ => false
  end.

(** [Handler] as a whole. *)
Definition handled req w (resp : Response) w' : Prop :=
  registry w' = rest_effect req (clock w) (registry w) ∧
  rest_answer req (clock w) (registry w) resp ∧
  (if rest_writes req (registry w) then
     (∀ k, k ≠ state_key (registry w) → store w' !! k = store w !! k) ∧
     (rs_Code resp = 200 → rg_has_client (registry w) = true → json_ok (rg_entries (registry w')) →
       persisted (registry w) (rg_entries (registry w')) w')
   else w' = w).

Lemma handled_post e w x w' : registry_Register e w = (x, w') →
  handled (POST_agents (inr e)) w
    (match x with
     | inl err => {| rs_Code := StatusBadRequest; rs_Body := BodyText ("registration failed: " +:+ Error err) |}
     | inr _ => {| rs_Code := StatusOK; rs_Body := BodyStatus "registered" |}
     end) w'.
Proof.
  intros Hr. apply registry_Register_run in Hr. unfold handled, rest_effect, rest_answer, rest_writes.
  destruct (registrable e).
  - destruct Hr as (Hr & Hs & Hp). split; [done|]. destruct x; (split; [by auto|]); split; done.
  - destruct Hr as [-> [err Hx]]. destruct x; [|done]. split; [done|]. split; [by right|done].
Qed.

Lemma handled_delete ns n w x w' : (ns =s? "") || (n =s? "") = false →
  registry_Deregister ns n w = (x, w') →
  handled (DELETE_agent ns n) w
    (match x with
     | inl err => {| rs_Code := StatusInternalServerError; rs_Body := BodyText ("deregistration failed: " +:+ Error err) |}
     | inr _ => {| rs_Code := StatusOK; rs_Body := BodyStatus "deregistered" |}
     end) w'.
Proof.
  intros Hne Hr. apply registry_Deregister_run in Hr as (Hr & Hs & Hp).
  unfold handled, rest_effect, rest_answer, rest_writes. rewrite Hne. split; [done|].
  destruct (rg_entries (registry w) !! key ns n) as [e|] eqn:Ek.
  - rewrite bool_decide_true by eauto. simpl. destruct x; (split; [by eauto|]); split; done.
  - destruct Hp as [-> ->]. rewrite bool_decide_false by by intros [??]. split; [by left|done].
Qed.

Lemma Handler_run req w res w' :
  Handler req w = (res, w') → ∃ resp, res = inr resp ∧ handled req w resp w'.
Proof.
  destruct req as [|[err|e]|ns n|ns n]; cbn [Handler].
  - intros [= <- <-]. by eexists.
  - intros [= <- <-]. by eexists.
  - cbn [handleRegister].
    rewrite (bind_step _ _ w (registry_Register e w).1 (registry_Register e w).2) by apply try_run.
    destruct (registry_Register e w) as [x w1] eqn:E. intros [= <- <-]. eexists. split; [done|]. by apply handled_post.
  - unfold handleGetAgent. destruct (_ || _) eqn:Hne.
    + intros [= <- <-]. eexists. split; [done|]. unfold handled, rest_answer. cbn. by rewrite Hne.
    + intros [= <- <-]. eexists. split; [done|]. unfold handled, rest_answer. cbn. rewrite Hne.
      by destruct (registry_Get ns n (clock w) (registry w)).
  - unfold handleDeregisterAgentPath. destruct (_ || _) eqn:Hne.
    + intros [= <- <-]. eexists. split; [done|].
      unfold handled, rest_answer, rest_effect, rest_writes. by rewrite Hne.
    + rewrite (bind_step _ _ w (registry_Deregister ns n w).1 (registry_Deregister ns n w).2) by apply try_run.
      destruct (registry_Deregister ns n w) as [x w1] eqn:E. intros [= <- <-]. eexists. split; [done|].
      by apply handled_delete.
Qed.
End persistence.

(** ** Theorems *)

Definition demo_entry : Entry :=
  {| en_Namespace := "ns"; en_Name := "a"; en_Endpoint := "http://a.ns.svc:8080";
     en_Tools := ["t"]; en_RegisteredAt := 0; en_HeartbeatAt := 0; en_TTL := 0 |}.

(** A registration is visible for exactly its time-to-live: the lookup
    right after it returns the registered endpoint and tools, first-seen time
    kept from an earlier registration, as long as no more than the TTL has
    passed without a heartbeat, and nothing afterwards.  Other agents are not
    affected. *)
Theorem registration_visible_for_ttl e now now' r :
  is_int64 (now' - now) →
  let ttl := if en_TTL e <=? 0 then rg_defaultTTL r else en_TTL e in
  0 < ttl →
  registry_Get (en_Namespace e) (en_Name e) now' (register_entry e now r) =
    (if now' - now <=? ttl then Some {|
       en_Namespace := en_Namespace e; en_Name := en_Name e; en_Endpoint := en_Endpoint e;
       en_Tools := en_Tools e;
       en_RegisteredAt := match rg_entries r !! key (en_Namespace e) (en_Name e) with
         | Some old => en_RegisteredAt old | None => now end;
       en_HeartbeatAt := now; en_TTL := ttl |} else None) ∧
  ∀ ns n, no_slash ns → no_slash (en_Namespace e) → NN ns n ≠ NN (en_Namespace e) (en_Name e) →
    registry_Get ns n now' (register_entry e now r) = registry_Get ns n now' r.
Proof.
  intros Hsub ttl Httl. split.
  - unfold registry_Get, register_entry; simpl. rewrite lookup_insert_eq.
    fold ttl. unfold stale, effective_ttl; simpl.
    replace (ttl <=? 0) with false by (symmetry; apply Z.leb_gt; lia).
    assert (time_Sub now' now = now' - now) as -> by (unfold time_Sub; ints).
    rewrite Z.leb_antisym. by destruct (ttl <? now' - now); destruct (rg_entries r !! _).
  - intros ns n Hns Hnse Hne. unfold registry_Get, register_entry; simpl.
    rewrite lookup_insert_ne; [done|]. intros E. apply Hne.
    by destruct (key_inj _ _ _ _ Hnse Hns E) as [-> ->].
Qed.

(** The sweeper is invisible: it removes exactly the entries that
    lookups and listings already hide, now and at any later time. *)
Theorem sweep_invisible now now' r :
  now ≤ now' →
  (∀ ns n, registry_Get ns n now' (Registry.sweepExpired now r).2 = registry_Get ns n now' r) ∧
  (∀ e, e ∈ registry_List now' (Registry.sweepExpired now r).2 ↔ e ∈ registry_List now' r) ∧
  ∀ k e, rg_entries (Registry.sweepExpired now r).2 !! k = Some e ↔
    rg_entries r !! k = Some e ∧ stale r now e = false.
Proof.
  intros Hle. split; [|split].
  - intros ns n. by apply sweep_get.
  - by apply sweep_list.
  - intros k e. unfold Registry.sweepExpired; simpl. by rewrite map_lookup_filter_Some.
Qed.

(** C29: every REST request does exactly what its route says.  It is answered;
    a GET changes nothing at all and shows the live entries; a POST stores the
    posted entry under its own key with the time of the request, unless it names
    no namespace, name or endpoint or is no JSON; a DELETE removes exactly the
    agent named in its path.  The status is 200 for a success, 400 for a bad
    request or a registration that could not be persisted, 404 for an agent that
    is not live, 500 for a removal that could not be persisted; a write that is
    answered with 200 is in the state ConfigMap, and nothing else is written. *)
Theorem Handler_refines_registry `{KubeLaws} `{!SharedRegistry W, !SharedRegistryLaws, !RegistryJSON,
    !RegistryJSONLaws} req (w : W) res w' :
  Handler req w = (res, w') → ∃ resp, res = inr resp ∧ handled req w resp w'.
Proof. apply Handler_run. Qed.

(** C30: a registration survives a restart: once [Register] has returned
    without error on a registry with a client, a new process whose empty
    registry loads the ConfigMap recovers exactly the entries, and an
    intermediate conflict on the ConfigMap is retried, never lost. *)
Theorem registration_survives_restart `{KubeLaws} `{!SharedRegistry W, !SharedRegistryLaws,
    !RegistryJSON, !RegistryJSONLaws} e (w w1 w2 : W) u u' :
  rg_has_client (registry w) = true →
  registry_Register e w = (inr u, w1) →
  json_ok (rg_entries (registry w1)) →
  loadFromConfigMap (set_registry (with_entries ∅ (registry w)) w1) = (inr u', w2) →
  rg_entries (registry w2) = rg_entries (registry w1) ∧
  rg_entries (registry w1) !! key (en_Namespace e) (en_Name e) ≠ None.
Proof.
  intros Hc Hreg Hj Hload. apply registry_Register_run in Hreg.
  destruct (registrable e); [|by destruct Hreg as [_ []]].
  destruct Hreg as (Hr & _ & Hp). specialize (Hp Hc Hj). split.
  - eapply (load_run (rg_entries (registry w1)) (registry w)) in Hload as ->;
      [done| |by rewrite registry_set].
    destruct Hp as (cm & s & ? & ? & ? & ?). exists cm, s. by rewrite store_set_registry.
  - rewrite Hr. unfold register_entry; simpl. by rewrite lookup_insert_eq.
Qed.

(** ** Replicas

    Registries run in any number of processes, each with entries of its own, and
    meet in the state ConfigMap: every one loads it when it starts and writes it
    when it changes.  [fl_world] is the cluster, [fl_procs] the registries of
    the processes, by an identifier. *)
Section fleet.
Context `{KubeLaws} `{!SharedRegistry W, !SharedRegistryLaws, !RegistryJSON, !RegistryJSONLaws} (ns : string).
Implicit Types (w : W) (r : Registry).

Record fleet := { fl_world : W; fl_procs : gmap nat Registry }.

Definition fleet_state : ObjKey := state_key (NewRegistry true ns 0).

(** The process [i] runs [m]. *)
Inductive runs {A} (i : nat) (m : Proc W A) : fleet → fleet → Prop :=
  | run_in w ps r res w' :
      ps !! i = Some r → m (set_registry r w) = (res, w') →
      runs i m {| fl_world := w; fl_procs := ps |} {| fl_world := w'; fl_procs := <[i := registry w']> ps |}.

Inductive event : fleet → fleet → Prop :=
  (** a process is launched and creates its registry, or ends *)
  | ev_launch w ps i has_client ttl :
      event {| fl_world := w; fl_procs := ps |}
            {| fl_world := w; fl_procs := <[i := NewRegistry has_client ns ttl]> ps |}
  | ev_exit w ps i :
      event {| fl_world := w; fl_procs := ps |} {| fl_world := w; fl_procs := delete i ps |}
  (** the operations *)
  | ev_start i f f' : runs i Start f f' → event f f'
  | ev_register i e f f' : runs i (registry_Register e) f f' → event f f'
  | ev_deregister i n1 n2 f f' : runs i (registry_Deregister n1 n2) f f' → event f f'
  | ev_heartbeat i n1 n2 f f' : runs i (registry_Heartbeat n1 n2) f f' → event f f'
  | ev_sweep i f f' : runs i sweep_tick f f' → event f f'
  | ev_request i req f f' : runs i (Handler req) f f' → event f f'
  (** time passes and the cluster changes, but nobody else writes the state:
      the ConfigMap is as it was or gone *)
  | ev_cluster w w' ps :
      store w' !! fleet_state = store w !! fleet_state ∨ store w' !! fleet_state = None →
      event {| fl_world := w; fl_procs := ps |} {| fl_world := w'; fl_procs := ps |}.

(** The clock does not go back, and entries have a JSON form. *)
Definition fleet_step (f f' : fleet) : Prop :=
  event f f' ∧ clock (fl_world f) ≤ clock (fl_world f') ∧
  map_Forall (λ _ r, json_ok (rg_entries r)) (fl_procs f').

(** *** What the ConfigMap holds *)

(** Whatever can be loaded from it is in order. *)
Definition state_inv (now : Z) w : Prop :=
  ∀ cm s m, store w !! fleet_state = Some (OConfigMap cm) → cm_Data cm !! configMapKey = Some s →
    Unmarshal_entries s = inr m → map_Forall (entry_inv now) m.

(** The state was written, or left alone. *)
Definition state_kept r w w' : Prop :=
  store w' !! state_key r = store w !! state_key r ∨ persisted r (rg_entries r) w'.

Lemma persist_once_kept w res w' : persist_once w = (res, w') → json_ok (rg_entries (registry w)) →
  match res with inl _ => store w' = store w | inr _ => persisted (registry w) (rg_entries (registry w)) w' end.
Proof.
  intros Hr Hj. pose proof (persist_once_run _ _ _ Hr) as [_ Hp]. destruct res as [e|u]; [|by apply Hp].
  clear Hp. revert Hr. unfold persist_once. rewrite (bind_step read_registry _ w (registry w) w) by done.
  destruct (Marshal_entries _) as [e'|data].
  - unfold mbind, Proc_bind, wrap_err, lift_sum. by intros [= _ <-].
  - erewrite bind_step by (by apply wrap_err_inr). cbv beta.
    intros (e0 & Hc & _)%wrap_err_inl. by apply CreateOrUpdate_inl in Hc.
Qed.

Lemma persist_kept n w res w' : retry_on_conflict n persist_once w = (res, w') →
  json_ok (rg_entries (registry w)) → state_kept (registry w) w w'.
Proof.
  revert w. induction n as [|n IH]; intros w; simpl; destruct (persist_once w) as [[e|u] w1] eqn:E;
    pose proof (persist_once_run _ _ _ E) as [[Hr _] _]; intros Hrun Hj;
    pose proof (persist_once_kept _ _ _ E Hj) as Hk.
  1-2, 4: injection Hrun as <- <-; first [right; exact Hk|left; by rewrite Hk].
  destruct (IsConflict e); [|injection Hrun as <- <-; left; by rewrite Hk].
  apply IH in Hrun; rewrite Hr in *; [|done]. unfold state_kept in *. by rewrite <- Hk.
Qed.

Lemma persist_if_client_kept w res w' : persist_if_client w = (res, w') →
  json_ok (rg_entries (registry w)) → state_kept (registry w) w w'.
Proof.
  unfold persist_if_client. rewrite (bind_step read_registry _ w (registry w) w) by done.
  destruct (rg_has_client (registry w)); [by apply persist_kept|]. intros [= _ <-] _. by left.
Qed.

Lemma modify_persist_kept (f : Registry → Registry) w res w' :
  (modify_registry f;; persist_if_client) w = (res, w') → json_ok (rg_entries (f (registry w))) →
  state_key (f (registry w)) = state_key (registry w) → state_kept (f (registry w)) w w'.
Proof.
  rewrite (bind_step (modify_registry f) _ w tt (set_registry (f (registry w)) w)) by done.
  intros Hp Hj Hk. apply persist_if_client_kept in Hp; rewrite registry_set in *; [|done].
  unfold state_kept in *. by rewrite store_set_registry in Hp.
Qed.

Lemma state_inv_kept now r w w' : state_key r = fleet_state → state_kept r w w' →
  map_Forall (entry_inv now) (rg_entries r) → state_inv now w → state_inv now w'.
Proof.
  intros Hk [Hs|(cm & s & Hcm & Hd & _ & Hu)] Hm Hinv cm' s' m' Hcm' Hd' Hu'; rewrite Hk in *.
  - rewrite Hs in Hcm'. by eapply Hinv.
  - rewrite Hcm in Hcm'. injection Hcm' as <-. rewrite Hd in Hd'. injection Hd' as <-.
    rewrite Hu in Hu'. by injection Hu' as <-.
Qed.

Lemma state_inv_store now w w' : store w' = store w → state_inv now w → state_inv now w'.
Proof. intros Hs Hinv cm s m. rewrite Hs. apply Hinv. Qed.

(** *** Every operation keeps the entries and the state in order *)

Definition in_order (now : Z) w : Prop :=
  state_key (registry w) = fleet_state ∧ reg_inv now (registry w) ∧ state_inv now w.

Definition keeps {A} (m : Proc W A) : Prop := ∀ w res w',
  m w = (res, w') → json_ok (rg_entries (registry w')) → in_order (clock w) w → in_order (clock w) w'.

Lemma modify_persist_keeps now (f : Registry → Registry) w res w' :
  (modify_registry f;; persist_if_client) w = (res, w') → json_ok (rg_entries (registry w')) →
  state_key (f (registry w)) = state_key (registry w) → reg_inv now (f (registry w)) →
  in_order now w → in_order now w'.
Proof.
  intros Hr Hj Hk Hf (Hsk & _ & Hst). pose proof (modify_persist_run _ _ _ _ Hr) as (Hreg & _).
  rewrite Hreg in Hj. pose proof (modify_persist_kept _ _ _ _ Hr Hj Hk) as Hkept.
  unfold in_order. rewrite Hreg, Hk. split; [done|]. split; [done|].
  eapply state_inv_kept; [by rewrite Hk|done|apply Hf|done].
Qed.

Lemma Register_keeps e : keeps (registry_Register e).
Proof.
  intros w res w' Hr Hj Ho. revert Hr. unfold registry_Register. case_match; [by intros [= _ <-]|].
  rewrite (bind_step Now _ w (clock w) w) by done. intros Hr.
  eapply modify_persist_keeps; [exact Hr|done|done|apply reg_inv_register, Ho|done].
Qed.

Lemma Deregister_keeps n1 n2 : keeps (registry_Deregister n1 n2).
Proof.
  intros w res w' Hr Hj Ho. revert Hr. unfold registry_Deregister.
  rewrite (bind_step read_registry _ w (registry w) w) by done.
  case_match; [|by intros [= _ <-]]. intros Hr.
  eapply modify_persist_keeps; [exact Hr|done|done|apply reg_inv_delete, Ho|done].
Qed.

Lemma Heartbeat_keeps n1 n2 : keeps (registry_Heartbeat n1 n2).
Proof.
  intros w res w' Hr _ (Hk & Hinv & Hst). apply registry_Heartbeat_run in Hr.
  destruct (rg_entries (registry w) !! key n1 n2) as [e|] eqn:E; [|by destruct Hr as [_ ->]].
  destruct Hr as (_ & Hs & Hr). unfold in_order. rewrite Hr. split; [done|].
  split; [by apply reg_inv_heartbeat|]. by eapply state_inv_store.
Qed.

Lemma sweep_tick_keeps : keeps sweep_tick.
Proof.
  intros w res w' Hr Hj (Hk & Hinv & Hst). revert Hr. unfold sweep_tick.
  rewrite (bind_step Now _ w (clock w) w) by done. rewrite (bind_step read_registry _ w (registry w) w) by done.
  pose proof (reg_inv_sweep _ _ Hinv) as Hsw. destruct (Registry.sweepExpired (clock w) (registry w)) as [n r'] eqn:E.
  assert (Hk' : state_key r' = fleet_state) by (rewrite <- Hk; unfold Registry.sweepExpired in E; by injection E as _ <-).
  rewrite (bind_step (modify_registry _) _ w tt (set_registry r' w)) by done. cbn [snd] in Hsw.
  assert (Ho : in_order (clock w) (set_registry r' w)).
  { unfold in_order. rewrite registry_set. split; [done|]. split; [done|].
    by apply (state_inv_store _ w); [apply store_set_registry|]. }
  destruct (0 <? n); [|by intros [= _ <-]]. destruct (rg_has_client (registry w)); [|by intros [= _ <-]].
  rewrite (bind_step _ _ _ (persistToConfigMap (set_registry r' w)).1 (persistToConfigMap (set_registry r' w)).2)
    by apply try_run.
  destruct (persistToConfigMap (set_registry r' w)) as [x w1] eqn:Ep. intros [= _ <-]. cbn [snd] in *.
  pose proof (persist_run _ _ _ _ Ep) as [[Hr1 _] _]. rewrite registry_set in Hr1. rewrite Hr1 in Hj.
  pose proof (persist_kept _ _ _ _ Ep) as Hkept. rewrite registry_set in Hkept. specialize (Hkept Hj).
  unfold in_order. rewrite Hr1. split; [done|]. split; [done|].
  eapply state_inv_kept; [exact Hk'|exact Hkept|apply Hsw|apply Ho].
Qed.

(** Loading brings in what the ConfigMap holds, unchecked. *)
Lemma load_keeps : keeps loadFromConfigMap.
Proof.
  intros w res w' Hr _ (Hk & Hinv & Hst). revert Hr. unfold loadFromConfigMap.
  rewrite (bind_step read_registry _ w (registry w) w) by done.
  set (m := Get _). rewrite (bind_step _ _ w (m w).1 (m w).2) by apply try_run. subst m.
  destruct (Get (A := ConfigMap) _ w) as [x w1] eqn:Hg. cbn [fst snd].
  assert (Hr1 : registry w1 = registry w).
  { revert Hg. unfold Get, mbind, Proc_bind. destruct (kube_get _ w) as [[e|o] w2] eqn:E;
      apply kube_get_registry in E; [by intros [= _ <-]|]. unfold of_object.
    destruct (prj o); by intros [= _ <-]. }
  pose proof (Get_store _ _ _ _ Hg) as Hs1.
  assert (Ho : in_order (clock w) w1).
  { unfold in_order. rewrite Hr1. split; [done|]. split; [done|]. by eapply state_inv_store. }
  destruct x as [e|cm]; [destruct (IsNotFound e); by intros [= _ <-]|].
  apply Get_inr in Hg as [_ Hg]. destruct (cm_Data cm !! configMapKey) as [raw|] eqn:Hd; [|by intros [= _ <-]].
  destruct (raw =s? ""); [by intros [= _ <-]|]. unfold lift_sum.
  destruct (Unmarshal_entries raw) as [e|m] eqn:Hu.
  { unfold mbind, Proc_bind, wrap_err. by intros [= _ <-]. }
  erewrite bind_step by (by apply wrap_err_inr). cbv beta. intros [= _ <-].
  unfold in_order. rewrite registry_set, Hr1. split; [done|]. split.
  - apply reg_inv_load; [done|]. eapply Hst; [|exact Hd|exact Hu]. rewrite <- Hk. exact Hg.
  - apply (state_inv_store _ w1); [apply store_set_registry|apply Ho].
Qed.

Lemma try_keeps {A B} (m : Proc W A) (g : error + A → B) : keeps m → keeps (x ← try m; mret (g x)).
Proof.
  intros Hm w res w'. rewrite (bind_step _ _ w (m w).1 (m w).2) by apply try_run.
  destruct (m w) as [x w1] eqn:E. intros [= _ <-]. by eapply Hm.
Qed.

Lemma Start_keeps : keeps Start.
Proof.
  intros w res w' Hr Hj Ho. revert Hr. unfold Start. rewrite (bind_step read_registry _ w (registry w) w) by done.
  destruct (rg_has_client (registry w)); [|by intros [= _ <-]]. intros Hr.
  by eapply (try_keeps _ (λ _, tt) load_keeps).
Qed.

Lemma Handler_keeps req : keeps (Handler req).
Proof.
  destruct req as [|[err|e]|n1 n2|n1 n2]; cbn [Handler].
  - by intros w res w' [= _ <-].
  - by intros w res w' [= _ <-].
  - apply try_keeps, Register_keeps.
  - intros w res w'. unfold handleGetAgent. case_match; by intros [= _ <-].
  - unfold handleDeregisterAgentPath. case_match; [by intros w res w' [= _ <-]|]. apply try_keeps, Deregister_keeps.
Qed.

(** *** The invariant of the fleet *)

Definition fleet_inv (f : fleet) : Prop :=
  map_Forall (λ _ r, state_key r = fleet_state ∧ reg_inv (clock (fl_world f)) r) (fl_procs f) ∧
  state_inv (clock (fl_world f)) (fl_world f).

Lemma fleet_inv_later f w' ps : clock (fl_world f) ≤ clock w' →
  map_Forall (λ _ r, state_key r = fleet_state ∧ reg_inv (clock (fl_world f)) r) ps →
  state_inv (clock (fl_world f)) w' → fleet_inv {| fl_world := w'; fl_procs := ps |}.
Proof.
  intros Hc Hps Hst. split; simpl.
  - intros i r Hr. apply Hps in Hr as [? ?]. split; [done|]. by eapply reg_inv_later.
  - intros cm s m Hcm Hd Hu. eapply entries_later; [exact Hc|]. by eapply Hst.
Qed.

Lemma fleet_inv_runs {A} i (m : Proc W A) f f' : keeps m → runs i m f f' →
  clock (fl_world f) ≤ clock (fl_world f') → map_Forall (λ _ r, json_ok (rg_entries r)) (fl_procs f') →
  fleet_inv f → fleet_inv f'.
Proof.
  intros Hm [w ps r res w' Hi Hr] Hc Hj [Hps Hst]. simpl in *.
  assert (Ho : in_order (clock w) (set_registry r w)).
  { unfold in_order. rewrite registry_set. destruct (Hps i r Hi). split; [done|]. split; [done|].
    by apply (state_inv_store _ w); [apply store_set_registry|]. }
  pose proof (Hj i (registry w') (lookup_insert_eq _ _ _)) as Hj'.
  pose proof (Hm _ _ _ Hr Hj') as Hk. rewrite clock_set_registry in Hk. specialize (Hk Ho).
  apply (fleet_inv_later {| fl_world := w; fl_procs := ps |}); [done| |apply Hk].
  simpl. apply map_Forall_insert_2; [|done]. split; apply Hk.
Qed.

Lemma fleet_inv_step f f' : fleet_step f f' → fleet_inv f → fleet_inv f'.
Proof.
  intros (Hev & Hc & Hj) Hinv.
  destruct Hev as [w ps i hc ttl|w ps i|i f f'|i e f f'|i n1 n2 f f'|i n1 n2 f f'|i f f'|i req f f'|w w' ps Hs].
  - destruct Hinv as [Hps Hst]. split; [|done]. simpl. apply map_Forall_insert_2; [|done]. split; [done|apply reg_inv_new].
  - destruct Hinv as [Hps Hst]. split; [|done]. simpl. by apply map_Forall_delete.
  - by apply (fleet_inv_runs i Start f f' Start_keeps).
  - by apply (fleet_inv_runs i _ f f' (Register_keeps e)).
  - by apply (fleet_inv_runs i _ f f' (Deregister_keeps n1 n2)).
  - by apply (fleet_inv_runs i _ f f' (Heartbeat_keeps n1 n2)).
  - by apply (fleet_inv_runs i _ f f' sweep_tick_keeps).
  - by apply (fleet_inv_runs i _ f f' (Handler_keeps req)).
  - destruct Hinv as [Hps Hst]. apply (fleet_inv_later {| fl_world := w; fl_procs := ps |}); [done|done|].
    intros cm s m Hcm. destruct Hs as [Hs|Hs]; rewrite Hs in Hcm; [|done]. by eapply Hst.
Qed.
End fleet.

(** C28: the views of a registry agree.  Let any number of processes run
    registries that share one state ConfigMap, which nobody else writes, from
    the time it does not exist.  After any sequence of launches, starts (which
    load the ConfigMap), registrations, departures, heartbeats, sweeps and REST
    requests in any of them, ends of processes and passing time, each entry of
    each registry is filed under the key of its own agent, with consistent
    timestamps and a positive TTL, and listing shows an entry exactly when
    looking its agent up returns it.  (Entries are such that they have a JSON
    form.) *)
Theorem registry_views_coherent `{KubeLaws} `{!SharedRegistry W, !SharedRegistryLaws, !RegistryJSON,
    !RegistryJSONLaws} ns (w0 : W) f i r :
  store w0 !! fleet_state ns = None →
  rtc (fleet_step ns) {| fl_world := w0; fl_procs := ∅ |} f → fl_procs f !! i = Some r →
  map_Forall (entry_inv (clock (fl_world f))) (rg_entries r) ∧
  ∀ e t, e ∈ registry_List t r ↔ registry_Get (en_Namespace e) (en_Name e) t r = Some e.
Proof.
  intros Hw0 Hr Hi. assert (Hinv : fleet_inv ns f).
  { assert (Hinv : fleet_inv ns {| fl_world := w0; fl_procs := ∅ |}).
    { split; simpl; [by intros j x; rewrite lookup_empty|]. intros cm s m Hcm. congruence. }
    revert Hinv. clear Hi. induction Hr; eauto using fleet_inv_step. }
  destruct Hinv as [Hps _]. apply Hps in Hi as [_ [_ Hm]]. split; [done|].
  intros e t. apply registry_views_agree. intros k x Hx. by apply Hm in Hx as [? _].
Qed.

(** ** Witnesses: the theorems applied to concrete inputs *)
Section witnesses.
#[local] Existing Instance Ref.core.

Lemma registration_visible_for_ttl_witness :
  let r := register_entry demo_entry 10 (NewRegistry true "" 0) in
  en_Endpoint <$> registry_Get "ns" "a" (10 + 90 * Second) r = Some "http://a.ns.svc:8080" ∧
  registry_Get "ns" "a" (11 + 90 * Second) r = None.
Proof.
  assert (Hg := λ t H, proj1 (registration_visible_for_ttl demo_entry 10 t
    (NewRegistry true "" 0) H ltac:(vm_compute; reflexivity))).
  change (registry_Get (en_Namespace demo_entry) (en_Name demo_entry))
    with (registry_Get "ns" "a") in Hg.
  split; rewrite Hg; try (vm_compute; split; discriminate); vm_compute; reflexivity.
Defined.

Lemma sweep_invisible_witness :
  let r := register_entry {| en_Namespace := "ns"; en_Name := "a"; en_Endpoint := "x";
    en_Tools := []; en_RegisteredAt := 0; en_HeartbeatAt := 0; en_TTL := 5 |} 0
    (NewRegistry true "" 0) in
  registry_Get "ns" "a" 7 (Registry.sweepExpired 6 r).2 = None ∧
  (Registry.sweepExpired 6 r).1 = 1.
Proof.
  split; [|by vm_compute].
  destruct (sweep_invisible 6 7 (register_entry {| en_Namespace := "ns"; en_Name := "a";
    en_Endpoint := "x"; en_Tools := []; en_RegisteredAt := 0; en_HeartbeatAt := 0; en_TTL := 5 |} 0
    (NewRegistry true "" 0)) ltac:(lia)) as [Hg _].
  refine (eq_trans (Hg "ns" "a") _). by vm_compute.
Defined.

Lemma Handler_refines_registry_witness :
  ∃ resp w', Handler (POST_agents (inr demo_entry)) empty_world = (inr resp, w') ∧
    registry w' = register_entry demo_entry 0 (NewRegistry true "" 0) ∧ rs_Code resp = 200 ∧
    persisted (registry empty_world) (rg_entries (registry w')) w'.
Proof.
  destruct (Handler (POST_agents (inr demo_entry)) empty_world) as [res w'] eqn:E.
  destruct (Handler_refines_registry (POST_agents (inr demo_entry)) empty_world res w' E) as (resp & -> & Hr & _ & Hw).
  assert (Hc : rs_Code resp = 200).
  { assert (match (Handler (POST_agents (inr demo_entry)) empty_world).1 with
      inr x => rs_Code x | inl _ => 0 end = 200) as Hc by (vm_compute; reflexivity). by rewrite E in Hc. }
  exists resp, w'. split; [reflexivity|]. split; [exact Hr|]. split; [exact Hc|]. apply (proj2 Hw Hc); [reflexivity|].
  rewrite Hr. apply (bool_decide_unpack _). vm_compute. exact I.
Defined.

Lemma registration_survives_restart_witness :
  ∃ w1 w2, registry_Register demo_entry empty_world = (inr tt, w1) ∧
    rg_entries (registry w2) = rg_entries (registry w1).
Proof.
  destruct (ok_run (registry_Register demo_entry) empty_world) as [[] E]; [vm_compute; reflexivity|].
  set (w1 := (registry_Register demo_entry empty_world).2) in E.
  destruct (ok_run loadFromConfigMap (set_registry (with_entries ∅ (registry empty_world)) w1))
    as [u' E2]; [vm_compute; reflexivity|].
  eexists w1, _. split; [exact E|].
  refine (proj1 (registration_survives_restart demo_entry _ _ _ _ _ _ E _ E2)); [vm_compute; reflexivity|].
  apply (bool_decide_unpack _). vm_compute. exact I.
Defined.
(** An agent registers with the process 0; the process 1 starts, and shows it. *)
Definition fleet0 : @fleet world := {| fl_world := empty_world; fl_procs := ∅ |}.
Definition launch (i : nat) (f : @fleet world) : @fleet world :=
  {| fl_world := fl_world f; fl_procs := <[i := NewRegistry true "" 0]> (fl_procs f) |}.
Definition act {A} (i : nat) (m : Proc world A) (f : @fleet world) : @fleet world :=
  let w' := (m (set_registry (default (NewRegistry true "" 0) (fl_procs f !! i)) (fl_world f))).2 in
  {| fl_world := w'; fl_procs := <[i := registry w']> (fl_procs f) |}.
Definition fleet1 : @fleet world := launch 0 fleet0.
Definition fleet2 : @fleet world := act 0 (registry_Register demo_entry) fleet1.
Definition fleet3 : @fleet world := launch 1 fleet2.
Definition fleet4 : @fleet world := act 1 Start fleet3.
Definition demo_live : Entry := {| en_Namespace := "ns"; en_Name := "a"; en_Endpoint := "http://a.ns.svc:8080";
  en_Tools := ["t"]; en_RegisteredAt := 0; en_HeartbeatAt := 0; en_TTL := DefaultTTL |}.

Lemma act_runs {A} i (m : Proc world A) f : is_Some (fl_procs f !! i) → runs i m f (act i m f).
Proof.
  intros [r Hr]. destruct f as [w ps]. unfold act. cbn [fl_world fl_procs] in *. rewrite Hr.
  apply (run_in i m w ps r (m (set_registry r w)).1 (m (set_registry r w)).2); [done|apply surjective_pairing].
Qed.

Lemma registry_views_coherent_witness :
  ∃ r, fl_procs fleet4 !! 1%nat = Some r ∧ demo_live ∈ registry_List 5 r.
Proof.
  destruct (fl_procs fleet4 !! 1%nat) as [r|] eqn:Hr; [|vm_compute in Hr; discriminate Hr].
  exists r. split; [reflexivity|].
  apply (registry_views_coherent "" empty_world fleet4 1 r); [| |exact Hr|].
  - change store with rw_store. unfold rw_store, empty_world. simpl. by rewrite map_filter_empty.
  - apply (rtc_l _ _ fleet1); [split; [apply (ev_launch "" empty_world ∅ 0 true 0)|]|].
    { split; [done|apply (bool_decide_unpack _); vm_compute; exact I]. }
    apply (rtc_l _ _ fleet2); [split; [apply (ev_register _ 0 demo_entry), act_runs; eexists; reflexivity|]|].
    { split; [done|apply (bool_decide_unpack _); vm_compute; exact I]. }
    apply (rtc_l _ _ fleet3); [split; [apply (ev_launch "" _ _ 1 true 0)|]|].
    { split; [done|apply (bool_decide_unpack _); vm_compute; exact I]. }
    apply rtc_once. split; [apply (ev_start _ 1), act_runs; eexists; reflexivity|].
    split; [apply Z.leb_le; vm_compute; reflexivity|apply (bool_decide_unpack _); vm_compute; exact I].
  - assert (registry_Get "ns" "a" 5 <$> (fl_procs fleet4 !! 1%nat) = Some (Some demo_live)) as Hg
      by (vm_compute; reflexivity). rewrite Hr in Hg. by injection Hg.
Defined.
End witnesses.
