(* ===== verification/RegistryRest.v ===== *)
(** The REST interface of the registry as text: how the handlers of
    [src/internal/registry/registry.go] decode the body of a request and encode
    their answers, and that an agent registered through it is discovered
    through it. *)
From S2P Require Import Prelude Types Objects GoFloat Json JsonProps GoTime Enforcer Cluster Registry.
From S2P Require Import RegistryJson RefWorld RegistryProps.

Definition newline : string := String (chr 10) "".

(** A response as it is sent. *)
Record wireResponse := { wr_StatusCode : Z; wr_Body : string }.

Section rest.
Context (utc_offset : Z → Z) (Parse_lenient : string → option Z) `{JSONErrors}.

(** [json.NewDecoder(req.Body).Decode(&entry)]. *)
Definition post_agents (body : string) (readErr : option error) : Route :=
  POST_agents (Decode (dec_Entry Parse_lenient) body readErr zero_Entry).

(** [http.Error], or [json.NewEncoder(w).Encode] of the body, which writes
    nothing when it fails. *)
Definition json_of_Body (b : Body) : option json :=
  match b with
  | BodyText _ => None
  | BodyStatus s => Some (JObject [("status", JString s)])
  | BodyAgents l => JArray <$> mapM (json_of_Entry utc_offset) l
  | BodyAgent e => json_of_Entry utc_offset e
  end.

Definition write_body (b : Body) : string :=
  match b with
  | BodyText s => s +:+ newline
  | _ => match json_of_Body b with Some v => print_json v +:+ newline | None => "" end
  end.

Context `{CoreTypes, !KubeClient W, !SharedRegistry W, !RegistryJSON}.

Definition serve (req : Route) : Proc W wireResponse :=
  resp ← Handler req;
  mret {| wr_StatusCode := rs_Code resp; wr_Body := write_body (rs_Body resp) |}.
End rest.

Section texts.
Context (utc_offset : Z → Z) (Parse_lenient : string → option Z) `{JSONErrors}.

Definition decode_entry (body : string) : error + Entry :=
  Decode (dec_Entry Parse_lenient) body None zero_Entry.

(** An entry is decoded from its JSON, whatever line breaks follow it. *)
Lemma decode_entry_json e v rest readErr :
  entry_ok utc_offset e = true → json_of_Entry utc_offset e = Some v → delimited rest = true →
  Decode (dec_Entry Parse_lenient) (print_json v +:+ rest) readErr zero_Entry = inr e.
Proof.
  intros He Hv Hr. destruct (Entry_roundtrip utc_offset Parse_lenient e He) as (l & Hl & Hd & Hwf & Hh).
  rewrite Hv in Hl. injection Hl as ->.
  destruct (print_parse_json (JObject l) Hwf) as [_ Hp]; [unfold maxNestingDepth; lia|].
  unfold Decode, unmarshal_value. rewrite (Hp rest Hr), Hd. by destruct readErr.
Qed.

Lemma json_of_Entry_ok e : entry_ok utc_offset e = true → ∃ v, json_of_Entry utc_offset e = Some v.
Proof. intros He. destruct (Entry_roundtrip utc_offset Parse_lenient e He) as (l & Hl & _). eauto. Qed.
End texts.

(** The entry a registration leaves. *)
Definition registered (e : Entry) (now : Z) (r : Registry) : Entry :=
  {| en_Namespace := en_Namespace e; en_Name := en_Name e; en_Endpoint := en_Endpoint e;
     en_Tools := en_Tools e;
     en_RegisteredAt := match rg_entries r !! key (en_Namespace e) (en_Name e) with
       | Some old => en_RegisteredAt old | None => now end;
     en_HeartbeatAt := now; en_TTL := if en_TTL e <=? 0 then rg_defaultTTL r else en_TTL e |}.

Lemma registered_get e now now' r :
  0 < en_TTL (registered e now r) → 0 ≤ now' - now ≤ en_TTL (registered e now r) →
  registry_Get (en_Namespace e) (en_Name e) now' (register_entry e now r) = Some (registered e now r).
Proof.
  intros Httl Hnow. unfold registry_Get, register_entry. cbn [rg_entries with_entries].
  rewrite lookup_insert_eq. unfold stale, effective_ttl, registered in *; simpl in *.
  set (ttl := if en_TTL e <=? 0 then rg_defaultTTL r else en_TTL e) in *.
  replace (ttl <=? 0) with false by lia.
  replace (ttl <? time_Sub now' now) with false; [by destruct (rg_entries r !! _)|].
  symmetry. apply Z.ltb_ge. unfold time_Sub, MaxInt64, MinInt64. lia.
Qed.

Section discovery.
Context (utc_offset : Z → Z) (Parse_lenient : string → option Z) `{JSONErrors}.
Context {CT : CoreTypes} {W : Type} {KC : KubeClient W} {KL : KubeLaws} {SR : SharedRegistry W}
  {SL : SharedRegistryLaws} {RJ : RegistryJSON} {JL : RegistryJSONLaws}.

Lemma serve_post e v rest readErr (w : W) :
  entry_ok utc_offset e = true → json_of_Entry utc_offset e = Some v → delimited rest = true →
  registrable e = true →
  ∃ r w', serve utc_offset (post_agents Parse_lenient (print_json v +:+ rest) readErr) w = (inr r, w') ∧
    registry w' = register_entry e (clock w) (registry w).
Proof.
  intros He Hv Hrest Hreg. unfold post_agents. erewrite decode_entry_json by done.
  destruct (registry_Register e w) as [x w1] eqn:E.
  assert (Hh : ∃ resp, Handler (POST_agents (inr e)) w = (inr resp, w1)).
  { cbn [Handler handleRegister]. erewrite bind_step by (apply try_run). rewrite E. by eexists. }
  destruct Hh as [resp Hh]. eexists _, w1. unfold serve. erewrite bind_step by exact Hh. split; [done|].
  apply registry_Register_run in E. rewrite Hreg in E. by destruct E.
Qed.

Lemma serve_get ns n e (w : W) :
  ns ≠ "" → n ≠ "" → registry_Get ns n (clock w) (registry w) = Some e → entry_ok utc_offset e = true →
  ∃ v, json_of_Entry utc_offset e = Some v ∧
    serve utc_offset (GET_agent ns n) w =
      (inr {| wr_StatusCode := StatusOK; wr_Body := print_json v +:+ newline |}, w).
Proof.
  intros Hns Hn Hg He. destruct (json_of_Entry_ok utc_offset Parse_lenient e He) as [v Hv].
  exists v. split; [done|]. unfold serve. cbn [Handler]. unfold handleGetAgent.
  apply str_eqb_false in Hns, Hn. rewrite Hns, Hn. cbn [orb].
  unfold mbind, Proc_bind, Now, read_registry, mret, Proc_ret. rewrite Hg. cbn [rs_Code rs_Body write_body].
  cbn [json_of_Body]. by rewrite Hv.
Qed.

(** An agent posted to the registry is found by a later lookup within its TTL. *)
Lemma registered_agent_discovered e v readErr (w w1 w2 : W) r1 :
  let stored := registered e (clock w) (registry w) in
  entry_ok utc_offset e = true → json_of_Entry utc_offset e = Some v →
  registrable e = true → entry_ok utc_offset stored = true → 0 < en_TTL stored →
  serve utc_offset (post_agents Parse_lenient (print_json v) readErr) w = (inr r1, w1) →
  registry w2 = registry w1 → 0 ≤ clock w2 - clock w ≤ en_TTL stored →
  ∃ r2, serve utc_offset (GET_agent (en_Namespace e) (en_Name e)) w2 = (inr r2, w2) ∧
    wr_StatusCode r2 = 200 ∧ decode_entry Parse_lenient (wr_Body r2) = inr stored ∧
    en_Endpoint stored = en_Endpoint e ∧ en_Tools stored = en_Tools e.
Proof.
  intros stored He Hv Hreg Hok Httl Hpost Hw2 Hnow.
  destruct (serve_post e v "" readErr w He Hv eq_refl Hreg) as (r & w' & Hp & Hr).
  rewrite app_nil_string, Hpost in Hp. injection Hp as <- <-.
  unfold registrable in Hreg. zbool.
  destruct (serve_get (en_Namespace e) (en_Name e) stored w2) as (v' & Hv' & Hget); [..|done|].
  - intros E. by rewrite E in *.
  - intros E. by rewrite E in *.
  - rewrite Hw2, Hr. by apply registered_get.
  - eexists. split; [exact Hget|]. split; [done|]. split; [|done].
    by eapply decode_entry_json.
Qed.
End discovery.
