(* ===== verification/Mux.v ===== *)
(** The HTTP server of the registry: [Registry.Handler] of
    [src/internal/registry/registry.go] on the [http.ServeMux] of the Go
    standard library, from the method and path of a request to the handler.

    The mux matches the escaped path of the request after cleaning it; a path
    that is not clean is redirected, a path that only other methods match is
    answered 405, and the wildcards of a pattern match one segment each, which
    the handler sees unescaped. *)
From S2P Require Import Prelude Types Objects GoFloat Json JsonProps GoTime Enforcer Cluster Registry.
From S2P Require Import RegistryJson RefWorld RegistryProps RegistryRest.

Definition slash : Ascii.ascii := chr 47.

(** ** Paths *)

(** [strings.Split(s, "/")]. *)
Fixpoint split_slash (s : string) : list string :=
  match s with
  | EmptyString => [""]
  | String c s' =>
      if bool_decide (c = slash) then "" :: split_slash s'
      else match split_slash s' with
        | x :: l => String c x :: l
        | [] => [String c ""]
        end
  end.

(** [strings.Join(l, "/")] after a leading slash. *)
Fixpoint join_slash (l : list string) : string :=
  match l with
  | [] => ""
  | x :: l' => "/" +:+ x +:+ join_slash l'
  end.

(** The elements [path.Clean] keeps of a rooted path, last first. *)
Fixpoint clean_segments (kept : list string) (l : list string) : list string :=
  match l with
  | [] => kept
  | x :: l' =>
      if (x =s? "") || (x =s? ".") then clean_segments kept l'
      else if x =s? ".." then clean_segments (tail kept) l'
      else clean_segments (x :: kept) l'
  end.

Definition path_Clean (p : string) : string :=
  match reverse (clean_segments [] (split_slash p)) with
  | [] => "/"
  | l => join_slash l
  end.

Definition ends_with_slash (p : string) : bool :=
  match split_last p with Some (_, c) => bool_decide (c = slash) | None => false end.

(** [cleanPath]: a trailing slash stays. *)
Definition cleanPath (p : string) : string :=
  let p := match p with
    | EmptyString => "/"
    | String c _ => if bool_decide (c = slash) then p else "/" +:+ p
    end in
  let np := path_Clean p in
  if ends_with_slash p && negb (np =s? "/") then np +:+ "/" else np.

(** [url.PathUnescape]; [None] is an invalid escape. *)
Fixpoint PathUnescape (s : string) : option string :=
  match s with
  | EmptyString => Some ""
  | String c s1 =>
      if code c =? 37 then
        match s1 with
        | String a (String b s2) =>
            x ← hex_val a; y ← hex_val b; String (chr (16 * x + y)) <$> PathUnescape s2
        | _ => None
        end
      else String c <$> PathUnescape s1
  end.

(** [pathUnescape] of the mux leaves a segment with an invalid escape alone. *)
Definition pathUnescape (s : string) : string := default s (PathUnescape s).

(** ** The mux *)

(** The patterns [Handler] registers. *)
Inductive Pattern := PatGetAgents | PatPostAgents | PatGetAgent | PatDeleteAgent.

Definition pattern_method (p : Pattern) : string :=
  match p with
  | PatGetAgents => "GET" | PatPostAgents => "POST" | PatGetAgent => "GET" | PatDeleteAgent => "DELETE"
  end.

(** A wildcard matches one segment, but not the one that reads "/" unescaped,
    which is how the routing tree writes a trailing slash. *)
Definition wildcard (seg : string) : bool := negb (pathUnescape seg =s? "/").

(** The values of the wildcards when the pattern matches the path. *)
Definition pattern_match (p : Pattern) (path : string) : option (list string) :=
  match p, split_slash path with
  | (PatGetAgents | PatPostAgents), [""; seg] =>
      if pathUnescape seg =s? "agents" then Some [] else None
  | (PatGetAgent | PatDeleteAgent), [""; seg; ns; name] =>
      if (pathUnescape seg =s? "agents") && wildcard ns && (wildcard name && negb (name =s? ""))
      then Some [pathUnescape ns; pathUnescape name] else None
  | _, _ => None
  end.

Definition patterns : list Pattern := [PatGetAgents; PatPostAgents; PatGetAgent; PatDeleteAgent].

(** The methods a pattern serves: a GET pattern also serves HEAD. *)
Definition serves (p : Pattern) (method : string) : bool :=
  (method =s? pattern_method p) || ((method =s? "HEAD") && (pattern_method p =s? "GET")).

Inductive Routing :=
  | Dispatch (p : Pattern) (values : list string)
  | RedirectTo (location : string)
  | MethodNotAllowed
  | NoRoute
  | BadRequestURI.

Definition dispatch (method path : string) (p : Pattern) : option (Pattern * list string) :=
  if serves p method then (λ v, (p, v)) <$> pattern_match p path else None.

(** [ServeMux.ServeHTTP] and [findHandler] for the escaped path of a request. *)
Definition route (method path : string) : Routing :=
  if path =s? "*" then BadRequestURI else
  let cpath := if method =s? "CONNECT" then path else cleanPath path in
  if negb (cpath =s? path) then RedirectTo cpath else
  match head (omap (dispatch method path) patterns) with
  | Some (p, values) => Dispatch p values
  | None => if existsb (λ p, bool_decide (is_Some (pattern_match p path))) patterns
            then MethodNotAllowed else NoRoute
  end.

(** ** Serving *)

Record httpRequest := {
  hq_Method : string;
  hq_Path : string;
  hq_Body : string;
  hq_readErr : option error;
}.

(** The response of a handler, or the answer the mux gives itself. *)
Inductive Answer := Handled (r : wireResponse) | Unrouted (r : Routing).

Section server.
Context (utc_offset : Z → Z) (Parse_lenient : string → option Z) `{JSONErrors}.

(** The handler of the pattern on the request: [PathValue] of its wildcards and
    the body. *)
Definition to_route (req : httpRequest) (p : Pattern) (values : list string) : Route :=
  let value i := default "" (values !! i) in
  match p with
  | PatGetAgents => GET_agents
  | PatPostAgents => post_agents Parse_lenient (hq_Body req) (hq_readErr req)
  | PatGetAgent => GET_agent (value 0%nat) (value 1%nat)
  | PatDeleteAgent => DELETE_agent (value 0%nat) (value 1%nat)
  end.

Context `{CoreTypes, !KubeClient W, !SharedRegistry W, !RegistryJSON}.

Definition ServeHTTP (req : httpRequest) : Proc W Answer :=
  match route (hq_Method req) (hq_Path req) with
  | Dispatch p values => resp ← serve utc_offset (to_route req p values); mret (Handled resp)
  | r => mret (Unrouted r)
  end.
End server.

(** ** Splitting and cleaning *)

Definition no_slash (s : string) : Prop := split_slash s = [s].

Lemma split_slash_ne s : split_slash s ≠ [].
Proof. destruct s as [|c s]; simpl; [done|]. case_decide; [done|]. by destruct (split_slash s). Qed.

Lemma split_slash_app x s : no_slash x → split_slash (x +:+ String slash s) = x :: split_slash s.
Proof.
  unfold no_slash. induction x as [|c x IH]; intros Hx; [done|].
  rewrite app_cons_string. cbn [split_slash] in Hx |- *. case_decide; [done|].
  destruct (split_slash x) as [|y l] eqn:E; [by apply split_slash_ne in E|].
  injection Hx as -> ->. by rewrite IH.
Qed.

Lemma no_slash_cons c x : c ≠ slash → no_slash x → no_slash (String c x).
Proof. unfold no_slash. intros Hc Hx. cbn [split_slash]. by rewrite bool_decide_eq_false_2, Hx. Qed.

Lemma split_slash_no_slash s : Forall no_slash (split_slash s).
Proof.
  induction s as [|c s IH]; cbn [split_slash]; [by repeat constructor|].
  case_bool_decide as Hc; [by constructor|].
  destruct (split_slash s) as [|x l].
  - apply list.Forall_singleton. by apply no_slash_cons.
  - apply Forall_cons_1 in IH as [Hx IH]. apply Forall_cons_2; [|done]. by apply no_slash_cons.
Qed.

Lemma split_join l : l ≠ [] → Forall no_slash l → split_slash (join_slash l) = "" :: l.
Proof.
  induction l as [|x l IH]; intros Hne Hl; [done|]. apply Forall_cons_1 in Hl as [Hx Hl].
  change (split_slash (join_slash (x :: l))) with ("" :: split_slash (x +:+ join_slash l)).
  f_equal. destruct l as [|y l]; [cbn [join_slash]; by rewrite app_nil_string|].
  specialize (IH ltac:(done) Hl).
  change (join_slash (y :: l)) with (String slash (y +:+ join_slash l)) in *.
  rewrite split_slash_app by done. cbn [split_slash] in IH. rewrite bool_decide_eq_true_2 in IH by done.
  by injection IH as ->.
Qed.

Lemma split_join_slash l : l ≠ [] → Forall no_slash l → split_slash (join_slash l +:+ "/") = "" :: l ++ [""].
Proof.
  intros Hne Hl. rewrite <- (split_join (l ++ [""])); [|by destruct l|].
  - f_equal. clear. induction l as [|x l IH]; [done|]. cbn [join_slash app].
    by rewrite !app_assoc_string, IH.
  - apply Forall_app. by repeat constructor.
Qed.

(** What [path.Clean] keeps. *)
Definition kept_segment (x : string) : Prop := no_slash x ∧ x ≠ "" ∧ x ≠ "." ∧ x ≠ "..".

Lemma clean_segments_kept l kept :
  Forall no_slash l → Forall kept_segment kept → Forall kept_segment (clean_segments kept l).
Proof.
  revert kept. induction l as [|x l IH]; intros kept Hl Hk; [done|].
  apply Forall_cons_1 in Hl as [Hx Hl]. cbn [clean_segments].
  destruct (x =s? "") eqn:E1; [by apply IH|]. destruct (x =s? ".") eqn:E2; [by apply IH|].
  destruct (x =s? "..") eqn:E3; cbn [orb].
  - apply IH; [done|]. destruct kept; [done|]. by apply Forall_cons_1 in Hk as [_ ?].
  - apply IH; [done|]. constructor; [|done]. by apply str_eqb_false in E1, E2, E3.
Qed.

Lemma clean_segments_id l kept :
  Forall kept_segment l → clean_segments kept l = reverse l ++ kept.
Proof.
  revert kept. induction l as [|x l IH]; intros kept Hl; [done|].
  apply Forall_cons_1 in Hl as [(_ & H1 & H2 & H3) Hl]. cbn [clean_segments].
  apply str_eqb_false in H1 as ->, H2 as ->, H3 as ->. cbn [orb].
  rewrite IH by done. by rewrite reverse_cons, <- app_assoc.
Qed.

Lemma kept_no_slash l : Forall kept_segment l → Forall no_slash l.
Proof. apply Forall_impl. by intros x []. Qed.

Lemma ends_with_slash_app s c : ends_with_slash (s +:+ String c "") = bool_decide (c = slash).
Proof. unfold ends_with_slash. by rewrite split_last_app. Qed.

Lemma slash_app_length b : (2 ≤ length (split_slash (b +:+ String slash "")))%nat.
Proof.
  induction b as [|a b IH]; [simpl; lia|]. rewrite app_cons_string. cbn [split_slash].
  case_bool_decide; simpl; [lia|]. destruct (split_slash (b +:+ String slash "")); simpl in *; lia.
Qed.

Lemma kept_last x : kept_segment x → ends_with_slash x = false.
Proof.
  intros (Hx & _). unfold ends_with_slash.
  destruct (split_last x) as [[b c]|] eqn:E; [|done]. apply split_last_inv in E as ->.
  case_bool_decide as Hc; [|done]. subst c. pose proof (slash_app_length b) as Hlen.
  rewrite Hx in Hlen. simpl in Hlen. lia.
Qed.

Lemma ends_with_slash_join l : l ≠ [] → Forall kept_segment l → ends_with_slash (join_slash l) = false.
Proof.
  intros Hne Hl. induction Hl as [|x l Hx Hl IH]; [done|].
  assert (Hs : ∀ s t, t ≠ "" → ends_with_slash (s +:+ t) = ends_with_slash t).
  { clear. intros s t Ht. destruct (split_last t) as [[b c]|] eqn:E.
    - apply split_last_inv in E as ->. by rewrite <- app_assoc_string, !ends_with_slash_app.
    - destruct t as [|c t]; [done|]. simpl in E. by destruct (split_last t) as [[]|]. }
  cbn [join_slash]. destruct l as [|y l].
  - cbn [join_slash]. rewrite app_nil_string, Hs by apply Hx. by apply kept_last.
  - rewrite <- app_assoc_string, Hs; [by apply IH|]. done.
Qed.

(** A clean path reads as kept segments, with at most a trailing slash. *)
Lemma cleanPath_clean p :
  cleanPath p = p → p = "/" ∨ ∃ l, l ≠ [] ∧ Forall kept_segment l ∧ (p = join_slash l ∨ p = join_slash l +:+ "/").
Proof.
  unfold cleanPath. set (q := match p with "" => _ | _ => _ end).
  unfold path_Clean. set (ks := reverse (clean_segments [] (split_slash q))).
  assert (Hk : Forall kept_segment ks).
  { apply Forall_reverse, clean_segments_kept; [apply split_slash_no_slash|done]. }
  destruct ks as [|x l] eqn:E; [rewrite andb_false_r; auto|].
  destruct (ends_with_slash q && _); intros <-; right; exists (x :: l); auto.
Qed.

Lemma cleanPath_join l : l ≠ [] → Forall kept_segment l → cleanPath (join_slash l) = join_slash l.
Proof.
  intros Hne Hl. unfold cleanPath.
  replace (match join_slash l with "" => "/" | String c _ => if bool_decide (c = slash) then join_slash l
    else "/" +:+ join_slash l end) with (join_slash l) by (by destruct l).
  rewrite ends_with_slash_join by done. cbn [andb]. unfold path_Clean.
  rewrite split_join by (done || by apply kept_no_slash). cbn [clean_segments].
  change (("" =s? "") || ("" =s? ".")) with true. cbn iota.
  rewrite clean_segments_id, app_nil_r, reverse_involutive by done. by destruct l.
Qed.

(** ** Routes *)

(** A name that is written in a path as it is. *)
Fixpoint unescaped (s : string) : bool :=
  match s with
  | EmptyString => true
  | String c s' => negb (code c =? 37) && negb (code c =? 47) && unescaped s'
  end.

Definition path_name (s : string) : bool :=
  unescaped s && negb (s =s? "") && negb (s =s? ".") && negb (s =s? "..").

Definition agent_path (ns name : string) : string := "/agents/" +:+ ns +:+ "/" +:+ name.

Lemma unescaped_no_slash s : unescaped s = true → no_slash s.
Proof.
  induction s as [|c s IH]; [done|]. cbn [unescaped]. intros Hs. zbool.
  apply no_slash_cons; [|by apply IH]. intros ->. by vm_compute in H1.
Qed.

Lemma PathUnescape_id s : unescaped s = true → PathUnescape s = Some s.
Proof.
  induction s as [|c s IH]; [done|]. cbn [unescaped PathUnescape]. intros Hs. zbool.
  replace (code c =? 37) with false by lia. by rewrite IH.
Qed.

Lemma pathUnescape_ne s : s ≠ "" → pathUnescape s ≠ "".
Proof.
  intros Hs. unfold pathUnescape. destruct (PathUnescape s) as [t|] eqn:E; [|done]. simpl. intros ->.
  destruct s as [|c s]; [done|]. cbn [PathUnescape] in E. destruct (code c =? 37).
  - destruct s as [|a [|b s]]; [done..|]. destruct (hex_val a), (hex_val b); try done.
    simpl in E. by destruct (PathUnescape s).
  - by destruct (PathUnescape s).
Qed.

Lemma path_name_kept s : path_name s = true → kept_segment s.
Proof.
  unfold path_name. intros Hs. zbool. split; [by apply unescaped_no_slash|].
  repeat split; by apply str_eqb_false.
Qed.

Lemma path_name_wild s : path_name s = true → pathUnescape s = s ∧ wildcard s = true ∧ (s =s? "") = false.
Proof.
  intros Hs. pose proof (path_name_kept s Hs) as (Hn & Hne & _). unfold path_name in Hs. zbool.
  assert (E : pathUnescape s = s) by (unfold pathUnescape; by rewrite PathUnescape_id).
  split; [done|]. split; [|by apply str_eqb_false]. unfold wildcard. rewrite E.
  destruct (s =s? "/") eqn:Es; [|done]. apply str_eqb_true in Es. by subst.
Qed.

Lemma agent_path_join ns name : agent_path ns name = join_slash ["agents"; ns; name].
Proof. cbn [join_slash]. rewrite app_nil_string. reflexivity. Qed.

Lemma agent_path_split ns name :
  path_name ns = true → path_name name = true →
  split_slash (agent_path ns name) = [""; "agents"; ns; name] ∧
  cleanPath (agent_path ns name) = agent_path ns name.
Proof.
  intros Hns Hn. assert (Hk : Forall kept_segment ["agents"; ns; name]).
  { repeat constructor; try (by apply path_name_kept); by vm_compute. }
  rewrite agent_path_join. split; [by apply split_join, kept_no_slash|by apply cleanPath_join].
Qed.

Lemma agent_path_match ns name p :
  path_name ns = true → path_name name = true →
  pattern_match p (agent_path ns name) =
    match p with PatGetAgent | PatDeleteAgent => Some [ns; name] | _ => None end.
Proof.
  intros Hns Hn. unfold pattern_match. destruct (agent_path_split ns name Hns Hn) as [-> _].
  destruct (path_name_wild _ Hns) as (-> & -> & _), (path_name_wild _ Hn) as (-> & -> & ->).
  by destruct p.
Qed.

Lemma dispatch_inv method path p values :
  route method path = Dispatch p values →
  serves p method = true ∧ pattern_match p path = Some values ∧ cleanPath path = path.
Proof.
  unfold route. destruct (path =s? "*"); [done|].
  destruct (method =s? "CONNECT") eqn:Ec; case_match eqn:Hc; try done;
  (destruct (head _) as [[p' v']|] eqn:Eh; [|by case_match]); intros [= -> ->];
  apply head_Some_elem_of, list_elem_of_omap in Eh as (q & _ & Hq);
  unfold dispatch in Hq; destruct (serves q method) eqn:Hs; try done;
  apply fmap_Some in Hq as (v & Hv & [= -> ->]).
  - apply str_eqb_true in Ec as ->. by destruct q.
  - split; [done|]. split; [done|]. apply str_eqb_true. by apply negb_false_iff.
Qed.

(** A pattern with wildcards sees their values, never empty ones. *)
Lemma dispatch_named method path p values :
  route method path = Dispatch p values →
  match p with
  | PatGetAgent | PatDeleteAgent => ∃ ns name, values = [ns; name] ∧ ns ≠ "" ∧ name ≠ ""
  | _ => values = []
  end.
Proof.
  intros (_ & Hm & Hc)%dispatch_inv. apply cleanPath_clean in Hc.
  assert (Hne : ∀ a ns name, split_slash path = [""; a; ns; name] → ns ≠ "").
  { intros a ns name E. destruct Hc as [->|(l & Hl & Hk & [->| ->])]; [done|..].
    - rewrite split_join in E by (done || by apply kept_no_slash). injection E as ->.
      by apply Forall_cons_1 in Hk as [_ [(_ & ? & _) _]%Forall_cons_1].
    - rewrite split_join_slash in E by (done || by apply kept_no_slash).
      destruct l as [|b [|c l]]; [done|done|]. injection E as -> -> _.
      by apply Forall_cons_1 in Hk as [_ [(_ & ? & _) _]%Forall_cons_1]. }
  unfold pattern_match in Hm.
  destruct p, (split_slash path) as [|[|] [|a [|ns [|name [|]]]]] eqn:E; try done; case_match eqn:Hw; try done;
    injection Hm as <-; [done..| |]; zbool; eexists _, _;
    (split; [done|split; apply pathUnescape_ne; [by eapply Hne|by apply str_eqb_false]]).
Qed.

Definition agent_routing (method ns name : string) : Routing :=
  if (method =s? "GET") || (method =s? "HEAD") then Dispatch PatGetAgent [ns; name]
  else if method =s? "DELETE" then Dispatch PatDeleteAgent [ns; name] else MethodNotAllowed.

Lemma route_agent_path method ns name :
  path_name ns = true → path_name name = true →
  route method (agent_path ns name) = agent_routing method ns name.
Proof.
  intros Hns Hn. unfold route. destruct (agent_path_split ns name Hns Hn) as [_ ->].
  assert (Hstar : (agent_path ns name =s? "*") = false) by (apply str_eqb_false; by rewrite agent_path_join).
  rewrite Hstar. replace (if method =s? "CONNECT" then _ else _) with (agent_path ns name) by (by case_match).
  rewrite str_eqb_refl. cbn [negb]. pose proof (λ p, agent_path_match ns name p Hns Hn) as Hm.
  change (omap (dispatch method (agent_path ns name)) patterns) with
    (omap id ((λ p, dispatch method (agent_path ns name) p) <$> patterns)).
  unfold dispatch, patterns. cbn [fmap list_fmap existsb]. rewrite !Hm.
  unfold serves, agent_routing. cbn [pattern_method].
  change ("GET" =s? "GET") with true. change ("DELETE" =s? "GET") with false. change ("POST" =s? "GET") with false.
  destruct (method =s? "GET"), (method =s? "HEAD"), (method =s? "POST"), (method =s? "DELETE"); reflexivity.
Qed.

(** Requests reach the handler their path names.  The path of an agent whose
    namespace and name are written without escapes is served by the lookup for
    GET and HEAD and by the deregistration for DELETE, with exactly that
    namespace and name, and any other method is answered 405; and no request at
    all reaches those two handlers with an empty namespace or name, so their own
    check of it never refuses one. *)
Theorem routing_correct ns name :
  path_name ns = true → path_name name = true →
  (∀ method, route method (agent_path ns name) = agent_routing method ns name) ∧
  (∀ method path p values, route method path = Dispatch p values →
    p = PatGetAgent ∨ p = PatDeleteAgent → ∃ x y, values = [x; y] ∧ x ≠ "" ∧ y ≠ "").
Proof.
  intros Hns Hn. split; [intros method; by apply route_agent_path|].
  intros method path p values Hr Hp. apply dispatch_named in Hr. by destruct Hp as [-> | ->].
Qed.

Lemma routing_correct_witness :
  route "DELETE" "/agents/prod/chat-agent" = Dispatch PatDeleteAgent ["prod"; "chat-agent"].
Proof. exact (proj1 (routing_correct "prod" "chat-agent" eq_refl eq_refl) "DELETE"). Defined.

(** Lookups, listings and refusals by the mux. *)
Example routes_of_paths :
  route "GET" "/agents" = Dispatch PatGetAgents [] ∧
  route "POST" "/agents" = Dispatch PatPostAgents [] ∧
  route "GET" "/agents/" = NoRoute ∧
  route "GET" "//agents/x/../a/b" = RedirectTo "/agents/a/b" ∧
  route "GET" "/agents/a%2Fb/c" = Dispatch PatGetAgent ["a/b"; "c"] ∧
  route "PUT" "/agents/a/b" = MethodNotAllowed.
Proof. by vm_compute. Qed.

Section discovery.
Context (utc_offset : Z → Z) (Parse_lenient : string → option Z) `{JSONErrors}.
Context {CT : CoreTypes} {W : Type} {KC : KubeClient W} {KL : KubeLaws} {SR : SharedRegistry W}
  {SL : SharedRegistryLaws} {RJ : RegistryJSON} {JL : RegistryJSONLaws}.

(** C32: agents are discovered over HTTP as they registered.  When the JSON of an
    entry is posted to [/agents], a client that gets
    [/agents/<namespace>/<name>] later, within the TTL and with no other change
    to the registry, is answered 200 with a body that decodes to the posted
    namespace, name, endpoint and tools, with the time of the registration as
    heartbeat and the effective TTL; whatever status the registration itself
    was answered with. *)
Theorem discovered_over_http e v readErr (w w1 w2 : W) a :
  let stored := registered e (clock w) (registry w) in
  entry_ok utc_offset e = true → json_of_Entry utc_offset e = Some v →
  registrable e = true → path_name (en_Namespace e) = true → path_name (en_Name e) = true →
  entry_ok utc_offset stored = true → 0 < en_TTL stored →
  ServeHTTP utc_offset Parse_lenient {| hq_Method := "POST"; hq_Path := "/agents";
    hq_Body := print_json v; hq_readErr := readErr |} w = (inr a, w1) →
  registry w2 = registry w1 → 0 ≤ clock w2 - clock w ≤ en_TTL stored →
  ∃ r, ServeHTTP utc_offset Parse_lenient {| hq_Method := "GET";
      hq_Path := agent_path (en_Namespace e) (en_Name e); hq_Body := ""; hq_readErr := None |} w2 =
      (inr (Handled r), w2) ∧
    wr_StatusCode r = 200 ∧ decode_entry Parse_lenient (wr_Body r) = inr stored ∧
    en_Namespace stored = en_Namespace e ∧ en_Name stored = en_Name e ∧
    en_Endpoint stored = en_Endpoint e ∧ en_Tools stored = en_Tools e.
Proof.
  intros stored He Hv Hreg Hns Hn Hok Httl Hpost Hw2 Hnow. unfold ServeHTTP in *. cbn [hq_Method hq_Path] in *.
  rewrite (route_agent_path "GET") by done.
  change (route "POST" "/agents") with (Dispatch PatPostAgents []) in Hpost.
  cbn [to_route hq_Body hq_readErr] in Hpost.
  apply bind_inr in Hpost as (r1 & wp & Hserve & [= _ <-]).
  destruct (registered_agent_discovered utc_offset Parse_lenient e v readErr w wp w2 r1)
    as (r2 & Hget & Hcode & Hbody & _); try done.
  exists r2. split; [|done]. change (agent_routing "GET" (en_Namespace e) (en_Name e)) with
    (Dispatch PatGetAgent [en_Namespace e; en_Name e]). cbn [to_route lookup list_lookup default].
  by erewrite bind_step by exact Hget.
Qed.
End discovery.

Section witness.
#[local] Existing Instance Ref.core.
#[local] Existing Instance plain_errors.

(** An agent registered at the epoch and looked up a minute later. *)
Lemma discovered_over_http_witness :
  ∃ w1 r2, ServeHTTP (λ _, 0) (λ _, None) {| hq_Method := "GET"; hq_Path := "/agents/ns/a"; hq_Body := "";
      hq_readErr := None |} (rw_set_clock Minute w1) = (inr (Handled r2), rw_set_clock Minute w1) ∧
    wr_StatusCode r2 = 200.
Proof.
  destruct (json_of_Entry (λ _, 0) demo_entry) as [v|] eqn:Ev; [|vm_compute in Ev; discriminate Ev].
  pose (post := ServeHTTP (W := world) (λ _, 0) (λ _, None) {| hq_Method := "POST"; hq_Path := "/agents";
    hq_Body := print_json v; hq_readErr := None |}).
  destruct (ok_run post empty_world) as [a E1].
  { vm_compute in Ev. injection Ev as <-. vm_compute. reflexivity. }
  set (w1 := (post empty_world).2) in E1.
  destruct (discovered_over_http (λ _, 0) (λ _, None) demo_entry v None empty_world w1
    (rw_set_clock Minute w1) a) as (r2 & Hget & Hcode & _).
  - vm_compute. reflexivity.
  - exact Ev.
  - vm_compute. reflexivity.
  - vm_compute. reflexivity.
  - vm_compute. reflexivity.
  - vm_compute. reflexivity.
  - vm_compute. reflexivity.
  - exact E1.
  - reflexivity.
  - vm_compute. split; discriminate.
  - exists w1, r2. split; [exact Hget|exact Hcode].
Defined.
End witness.
