(* ===== verification/RegistrarProps.v ===== *)
(** Theorems about the registrar: its frame (it implements the interface the
    reconciler relies on), the merge of declared and discovered tools, and the
    three-strikes rule for unresponsive agents. *)
From S2P Require Import Prelude Types Objects GoFloat Enforcer Cluster PromQL Registry Registrar RefWorld.
From S2P Require Import RegistryProps.

(** ** Tools *)

Lemma append_declared_spec seen tools declared :
  (∀ t, t ∈ seen ↔ t ∈ tools) → NoDup tools →
  NoDup (append_declared seen tools declared) ∧
  tools `prefix_of` append_declared seen tools declared ∧
  ∀ t, t ∈ append_declared seen tools declared ↔ t ∈ tools ∨ t ∈ declared.
Proof.
  revert seen tools. induction declared as [|x declared IH]; intros seen tools Hseen Hnd; simpl.
  { split; [done|]. split; [done|]. set_solver. }
  case_decide as Hx.
  - destruct (IH seen tools Hseen Hnd) as (? & ? & Hin). split_and!; try done.
    intros t. rewrite Hin. apply Hseen in Hx. set_solver.
  - destruct (IH ({[x]} ∪ seen) (tools ++ [x])) as (? & Hp & Hin).
    + set_solver.
    + apply list.NoDup_app. split; [done|]. split; [set_solver|apply NoDup_singleton].
    + split_and!; [done|by eapply prefix_app_l|]. set_solver.
Qed.

Lemma merge_tools_spec tools declared :
  NoDup tools →
  NoDup (merge_tools tools declared) ∧ tools `prefix_of` merge_tools tools declared ∧
  ∀ t, t ∈ merge_tools tools declared ↔ t ∈ tools ∨ t ∈ declared.
Proof.
  intros Hnd. unfold merge_tools. destruct declared as [|x d].
  - split; [done|]. split; [done|]. set_solver.
  - apply append_declared_spec; [|done]. intros t. by rewrite elem_of_list_to_set.
Qed.

Section registrar_laws.
Context `{CoreTypes} {W : Type} {KC : KubeClient W} {KL : KubeLaws} {SR : SharedRegistry W}
  {SL : SharedRegistryLaws} {RJ : RegistryJSON} {JL : RegistryJSONLaws}
  {SG : SharedRegistrar W} {GL : SharedRegistrarLaws} {MC : MCPClient W} {ML : MCPClientLaws}.
Implicit Types (w : W) (ad : AgentDeployment).

Definition agent_key ad : string := key (ad_Namespace ad) (ad_Name ad).
Definition strikes ad w : Z := default 0 (rr_failures (registrar w) !! agent_key ad).

(** *** The registry operations leave the registrar alone *)

Lemma persist_once_registrar w r w' : persist_once w = (r, w') → registrar w' = registrar w.
Proof.
  unfold persist_once. rewrite (bind_step read_registry _ w (registry w) w) by done.
  unfold mbind, Proc_bind, wrap_err, lift_sum, CreateOrUpdate.
  destruct (Marshal_entries _); [by intros [= _ <-]|].
  destruct (kube_create_or_update _ _ w) as [[e|u] w1] eqn:E;
    apply kube_create_or_update_registrar in E; by intros [= _ <-].
Qed.

Lemma persist_registrar n w r w' :
  retry_on_conflict n persist_once w = (r, w') → registrar w' = registrar w.
Proof.
  revert w. induction n as [|n IH]; intros w; simpl;
    destruct (persist_once w) as [[e|u] w1] eqn:E; apply persist_once_registrar in E;
    try (by intros [= _ <-]). destruct (IsConflict e); [|by intros [= _ <-]].
  intros ->%IH. done.
Qed.

Lemma modify_persist_registrar f w r w' :
  (modify_registry f;; persist_if_client) w = (r, w') → registrar w' = registrar w.
Proof.
  rewrite (bind_step (modify_registry f) _ w tt (set_registry (f (registry w)) w)) by done.
  unfold persist_if_client. rewrite (bind_step read_registry _ _ _ _ eq_refl).
  case_match; [intros ->%persist_registrar|intros [= _ <-]]; apply registrar_set_registry.
Qed.

Lemma registry_Deregister_registrar ns n w r w' :
  registry_Deregister ns n w = (r, w') → registrar w' = registrar w.
Proof.
  unfold registry_Deregister. rewrite (bind_step read_registry _ w (registry w) w) by done.
  case_match; [apply modify_persist_registrar|by intros [= _ <-]].
Qed.

Lemma registry_Register_registrar e w r w' :
  registry_Register e w = (r, w') → registrar w' = registrar w.
Proof.
  unfold registry_Register. case_match; [by intros [= _ <-]|].
  rewrite (bind_step Now _ w (clock w) w) by done. apply modify_persist_registrar.
Qed.

(** *** The state ConfigMap is the only object written *)

Definition state_only w w' : Prop :=
  state_key (registry w') = state_key (registry w) ∧
  ∀ k, k ≠ state_key (registry w) → store w' !! k = store w !! k.

Lemma state_only_refl w : state_only w w.
Proof. done. Qed.
Lemma state_only_trans w1 w2 w3 : state_only w1 w2 → state_only w2 w3 → state_only w1 w3.
Proof.
  intros [E1 F1] [E2 F2]. split; [congruence|]. intros k Hk. rewrite F2, F1; congruence.
Qed.
Lemma state_only_frame w w' : state_only w w' → only_configmaps w w'.
Proof. intros [_ F] k Hk. apply F. by intros ->. Qed.
Lemma state_only_eq w w' : store w' = store w → registry w' = registry w → state_only w w'.
Proof. intros Es Er. split; [by rewrite Er|]. intros; by rewrite Es. Qed.

Lemma registry_Register_state e w r w' : registry_Register e w = (r, w') → state_only w w'.
Proof.
  intros Hr%registry_Register_run. destruct (registrable e).
  - destruct Hr as (Hr & Hs & _). split; [by rewrite Hr|done].
  - destruct Hr as [-> _]. apply state_only_refl.
Qed.

Lemma registry_Deregister_state ns n w r w' :
  registry_Deregister ns n w = (r, w') → state_only w w'.
Proof. intros (Hr & ? & _)%registry_Deregister_run. split; [by rewrite Hr|done]. Qed.

Lemma registry_Heartbeat_state ns n w r w' :
  registry_Heartbeat ns n w = (r, w') → state_only w w'.
Proof.
  intros Hr%registry_Heartbeat_run. case_match.
  - destruct Hr as (_ & Hs & Hr). split; [by rewrite Hr|]. intros; by rewrite Hs.
  - destruct Hr as [_ ->]. apply state_only_refl.
Qed.

Lemma set_registrar_state r w : state_only w (set_registrar r w).
Proof. apply state_only_eq; [apply store_set_registrar|apply registry_set_registrar]. Qed.

Lemma Initialize_state ep w r w' : Initialize ep w = (r, w') → state_only w w'.
Proof. intros E. apply state_only_eq; [by eapply Initialize_store|by eapply Initialize_registry]. Qed.

Lemma resetFailures_run ns n w r w' :
  resetFailures ns n w = (r, w') →
  r = inr tt ∧ store w' = store w ∧ registry w' = registry w ∧ clock w' = clock w ∧
  registrar w' = with_failures (delete (key ns n) (rr_failures (registrar w))) (registrar w).
Proof.
  unfold resetFailures. intros [= <- <-].
  by rewrite store_set_registrar, registry_set_registrar, clock_set_registrar, registrar_set.
Qed.

Lemma resetFailures_state ns n w r w' : resetFailures ns n w = (r, w') → state_only w w'.
Proof. intros (_ & ? & ? & _)%resetFailures_run. by apply state_only_eq. Qed.

Lemma registrar_Register_state ad w r w' : registrar_Register ad w = (r, w') → state_only w w'.
Proof.
  unfold registrar_Register. rewrite (bind_step read_registrar _ w (registrar w) w) by done.
  case_match; [intros [= _ <-]; apply state_only_refl|].
  apply bind_rel; [apply state_only_trans|intros x w1; apply wrap_err_rel; apply Initialize_state|].
  intros a w1 y w2 _. apply bind_rel; [apply state_only_trans| |].
  - intros x w3. apply wrap_err_rel. apply registry_Register_state.
  - intros [] w3 z w4 _. apply resetFailures_state.
Qed.

Lemma registrar_Deregister_state ad w r w' : registrar_Deregister ad w = (r, w') → state_only w w'.
Proof.
  unfold registrar_Deregister. rewrite (bind_step read_registrar _ w (registrar w) w) by done.
  case_match; [intros [= _ <-]; apply state_only_refl|].
  apply bind_rel; [apply state_only_trans|intros x w1; apply resetFailures_state|].
  intros [] w1 y w2 _. apply registry_Deregister_state.
Qed.

(** *** Heartbeats *)

(** A failed probe: one more strike, and removal at the third. *)
Lemma heartbeat_failed_run ad err w r w' :
  let n := int64 (strikes ad w + 1) in
  heartbeat_failed ad err w = (r, w') →
  state_only w w' ∧ (∃ e, r = inl e) ∧
  rr_failures (registrar w') = <[agent_key ad := n]> (rr_failures (registrar w)) ∧
  rr_has_registry (registrar w') = rr_has_registry (registrar w) ∧
  if MaxConsecutiveHeartbeatFailures <=? n
  then rg_entries (registry w') = delete (agent_key ad) (rg_entries (registry w))
  else registry w' = registry w ∧ store w' = store w.
Proof.
  intros n. unfold heartbeat_failed.
  set (w1 := set_registrar (with_failures (<[agent_key ad := n]> (rr_failures (registrar w)))
    (registrar w)) w).
  rewrite (bind_step _ _ w n w1) by done.
  assert (state_only w w1) as Hw1 by apply set_registrar_state.
  destruct (MaxConsecutiveHeartbeatFailures <=? n).
  - rewrite (bind_step _ _ w1 (registry_Deregister (ad_Namespace ad) (ad_Name ad) w1).1
      (registry_Deregister (ad_Namespace ad) (ad_Name ad) w1).2) by apply try_run.
    destruct (registry_Deregister (ad_Namespace ad) (ad_Name ad) w1) as [x w2] eqn:E; simpl.
    pose proof (registry_Deregister_state _ _ _ _ _ E) as Hst.
    pose proof (registry_Deregister_registrar _ _ _ _ _ E) as Hrr.
    apply registry_Deregister_run in E as (Hrg & _).
    intros Hx. assert (w' = w2 ∧ ∃ e, r = inl e) as [-> He] by (destruct x; unfold fail in Hx; simplify_eq; eauto).
    split; [by eapply state_only_trans|]. split; [done|]. rewrite Hrr, Hrg. subst w1; simpl.
    by rewrite !registrar_set, registry_set_registrar.
  - intros [= <- <-]. split; [done|]. split; [eauto|]. subst w1.
    by rewrite !registrar_set, registry_set_registrar, store_set_registrar.
Qed.

Lemma registrar_Heartbeat_probe_failed ad w err w1 r w' :
  rr_has_registry (registrar w) = true →
  Initialize (EndpointForAgent ad) w = (inl err, w1) →
  registrar_Heartbeat ad w = (r, w') → heartbeat_failed ad err w1 = (r, w').
Proof.
  intros Hh Hi. unfold registrar_Heartbeat, mbind, Proc_bind, read_registrar, try.
  rewrite Hh. cbn [negb]. by rewrite Hi.
Qed.

(** A registration does not touch the counters of other agents, and leaves the
    own one as it was or at zero. *)
Lemma registrar_Register_failures ad w r w' : registrar_Register ad w = (r, w') →
  rr_has_registry (registrar w') = rr_has_registry (registrar w) ∧
  (strikes ad w = 0 → strikes ad w' = 0) ∧
  (r = inr tt → is_Some (rg_entries (registry w') !! agent_key ad)).
Proof.
  unfold registrar_Register, strikes. rewrite (bind_step read_registrar _ w (registrar w) w) by done.
  destruct (rr_has_registry (registrar w)) eqn:Hh; cbn [negb]; [|intros [= <- <-]; by rewrite Hh].
  unfold mbind, Proc_bind, wrap_err. destruct (Initialize _ w) as [[err|tools] w1] eqn:Hi;
    apply Initialize_registrar in Hi; [intros [= <- <-]; by rewrite Hi|].
  set (en := Build_Entry _ _ _ _ _ _ _).
  destruct (registry_Register en w1) as [[err|[]] w2] eqn:Er;
    pose proof (registry_Register_registrar _ _ _ _ Er) as Hr2; [intros [= <- <-]; by rewrite Hr2, Hi|].
  intros (_ & _ & Hreg & _ & Hr3)%resetFailures_run. rewrite Hr3, Hr2, Hi. simpl.
  split; [done|]. split; [by rewrite lookup_delete_eq|]. intros _.
  apply registry_Register_run in Er. destruct (registrable en); [|by destruct Er as [_ []]].
  destruct Er as (Er & _). rewrite Hreg, Er. simpl. rewrite lookup_insert_eq. by eexists.
Qed.

Lemma not_found_text k :
  strings_Contains ("agent " +:+ k +:+ " not found in registry") "not found in registry" = true.
Proof.
  pose proof (strings_Contains_app ("agent " +:+ k +:+ " ") "not found in registry" "") as Hc.
  by rewrite app_nil_string, !app_assoc_string in Hc.
Qed.

(** A probe that succeeds clears the record and refreshes the entry, or brings
    a missing one back. *)
Lemma registrar_Heartbeat_probe_ok ad w tools w1 r w' :
  rr_has_registry (registrar w) = true →
  Initialize (EndpointForAgent ad) w = (inr tools, w1) → registrar_Heartbeat ad w = (r, w') →
  rr_has_registry (registrar w') = true ∧ strikes ad w' = 0 ∧
  match rg_entries (registry w) !! agent_key ad with
  | Some e => r = inr tt ∧ registry w' =
      with_entries (<[agent_key ad := set_heartbeat (clock w1) e]> (rg_entries (registry w))) (registry w)
  | None => r = inr tt → is_Some (rg_entries (registry w') !! agent_key ad)
  end.
Proof.
  intros Hh Hi. unfold registrar_Heartbeat, mbind, Proc_bind, read_registrar, try. rewrite Hh. cbn [negb].
  rewrite Hi. pose proof (Initialize_registry _ _ _ _ Hi) as Eg. pose proof (Initialize_registrar _ _ _ _ Hi) as Er.
  destruct (resetFailures _ _ w1) as [x w2] eqn:E2. apply resetFailures_run in E2 as (-> & _ & Eg2 & Ec & Er2).
  assert (Hs2 : rr_has_registry (registrar w2) = true ∧ strikes ad w2 = 0).
  { unfold strikes. rewrite Er2, Er. simpl. by rewrite lookup_delete_eq. }
  destruct (registry_Heartbeat _ _ w2) as [y w3] eqn:E3.
  assert (Hr3 : registrar w3 = registrar w2).
  { revert E3. unfold registry_Heartbeat. rewrite (bind_step read_registry _ w2 (registry w2) w2) by done.
    case_match; [|by intros [= _ <-]]. rewrite (bind_step Now _ w2 (clock w2) w2) by done.
    intros [= _ <-]. apply registrar_set_registry. }
  apply registry_Heartbeat_run in E3. fold (agent_key ad) in E3. rewrite Eg2, Eg in E3.
  destruct (rg_entries (registry w) !! agent_key ad) as [e|].
  - destruct E3 as (-> & _ & Hr). intros [= <- <-]. unfold strikes in *. rewrite Hr3, <- Ec. by destruct Hs2.
  - destruct E3 as (-> & ->). cbn [Error].
    rewrite not_found_text.
    intros (H1 & H2 & H3)%registrar_Register_failures. destruct Hs2 as [Ha Hb]. rewrite H1. auto.
Qed.

Lemma heartbeat_failed_state ad err w r w' : heartbeat_failed ad err w = (r, w') → state_only w w'.
Proof. by intros [? _]%heartbeat_failed_run. Qed.

Lemma registrar_Heartbeat_state ad w r w' : registrar_Heartbeat ad w = (r, w') → state_only w w'.
Proof.
  unfold registrar_Heartbeat. rewrite (bind_step read_registrar _ w (registrar w) w) by done.
  case_match; [intros [= _ <-]; apply state_only_refl|].
  apply bind_rel; [apply state_only_trans|intros x w1; apply try_rel; apply Initialize_state|].
  intros [err|tools] w1 y w2 _; [apply heartbeat_failed_state|].
  apply bind_rel; [apply state_only_trans|intros x w3; apply resetFailures_state|].
  intros [] w3 z w4 _.
  apply bind_rel; [apply state_only_trans|intros x w5; apply try_rel; apply registry_Heartbeat_state|].
  intros [hb|u] w5 v w6 _; [|intros [= _ <-]; apply state_only_refl].
  case_match; [apply registrar_Register_state|intros [= _ <-]; apply state_only_refl].
Qed.

(** The registrar satisfies the laws its clients rely on. *)
#[export] Instance Registrar_laws : AgentRegistrarLaws (W := W).
Proof.
  split; simpl; intros ad w r w' Hr; apply state_only_frame.
  - by eapply registrar_Register_state.
  - by eapply registrar_Deregister_state.
  - by eapply registrar_Heartbeat_state.
Qed.
End registrar_laws.

(** ** Theorems *)

(** The tools registered for an agent are those discovered by the
    handshake, in their order, followed by the declared ones that were not
    discovered, with no tool lost and, when the handshake names each tool once,
    none repeated. *)
Theorem merge_tools_union tools declared :
  NoDup tools →
  NoDup (merge_tools tools declared) ∧ tools `prefix_of` merge_tools tools declared ∧
  ∀ t, t ∈ merge_tools tools declared ↔ t ∈ tools ∨ t ∈ declared.
Proof. apply merge_tools_spec. Qed.

(** *** Runs of heartbeats *)

(** Heartbeats of [ad] one after the other, with the outcome of each probe, and
    anything in between that leaves registrar and registry alone. *)
Inductive beats `{CoreTypes, !KubeClient W, !SharedRegistry W, !RegistryJSON, !SharedRegistrar W, !MCPClient W}
    (ad : AgentDeployment) : W → list bool → W → Prop :=
  | beats_none w : beats ad w [] w
  | beats_world w0 l w w' :
      beats ad w0 l w → registrar w' = registrar w → registry w' = registry w → beats ad w0 l w'
  | beats_more w0 l w x w1 r w' :
      beats ad w0 l w → Initialize (EndpointForAgent ad) w = (x, w1) → registrar_Heartbeat ad w = (r, w') →
      beats ad w0 (l ++ [match x with inr _ => true | inl _ => false end]) w'.

(** The failures at the end of a run. *)
Definition misses (l : list bool) : Z := foldl (λ n ok, if ok : bool then 0 else n + 1) 0 l.

Lemma misses_snoc l b : misses (l ++ [b]) = if b then 0 else misses l + 1.
Proof. unfold misses. by rewrite foldl_app. Qed.

Lemma misses_bound l : 0 ≤ misses l ≤ Z.of_nat (length l).
Proof.
  induction l as [|b l IH] using rev_ind; [done|]. rewrite misses_snoc, length_app. destruct b; simpl length; lia.
Qed.

Section strikes.
Context `{KubeLaws} `{!SharedRegistry W, !SharedRegistryLaws, !RegistryJSON, !RegistryJSONLaws,
  !SharedRegistrar W, !SharedRegistrarLaws, !MCPClient W, !MCPClientLaws}.
Implicit Types (ad : AgentDeployment) (w : W).

Lemma heartbeat_missed ad w e w1 r w' :
  rr_has_registry (registrar w) = true → Initialize (EndpointForAgent ad) w = (inl e, w1) →
  registrar_Heartbeat ad w = (r, w') →
  rr_has_registry (registrar w') = true ∧ (∃ e, r = inl e) ∧ strikes ad w' = int64 (strikes ad w + 1) ∧
  if MaxConsecutiveHeartbeatFailures <=? int64 (strikes ad w + 1)
  then rg_entries (registry w') = delete (agent_key ad) (rg_entries (registry w))
  else registry w' = registry w.
Proof.
  intros Hh Hi Hb. pose proof (Initialize_registrar _ _ _ _ Hi) as Er.
  pose proof (Initialize_registry _ _ _ _ Hi) as Eg.
  eapply registrar_Heartbeat_probe_failed in Hb; [|done|exact Hi].
  apply heartbeat_failed_run in Hb as (_ & He & Hf & Hhas & Hreg').
  unfold strikes in *. rewrite Er, Eg in *. split; [by rewrite Hhas|]. split; [done|].
  rewrite Hf, lookup_insert_eq. split; [done|]. destruct (_ <=? _); [done|by destruct Hreg'].
Qed.

(** The counter is the number of failures in a row. *)
Lemma beats_strikes ad w0 l w : beats ad w0 l w → Z.of_nat (length l) < MaxInt64 →
  rr_has_registry (registrar w0) = true → rr_failures (registrar w0) !! agent_key ad = None →
  rr_has_registry (registrar w) = true ∧ strikes ad w = misses l.
Proof.
  induction 1 as [w|w0 l w w' _ IH Hr _|w0 l w x w1 r w' _ IH Hi Hb]; intros Hl Hh Hc.
  - split; [done|]. unfold strikes. by rewrite Hc.
  - unfold strikes in *. rewrite Hr. by apply IH.
  - rewrite length_app in Hl. simpl in Hl. destruct (IH ltac:(lia) Hh Hc) as [Hw Hs]. rewrite misses_snoc.
    destruct x as [e|tools].
    + destruct (heartbeat_missed _ _ _ _ _ _ Hw Hi Hb) as (? & _ & -> & _). split; [done|]. rewrite Hs.
      pose proof (misses_bound l). apply int64_id. unfold is_int64, MinInt64. lia.
    + by destruct (registrar_Heartbeat_probe_ok _ _ _ _ _ _ Hw Hi Hb) as (? & ? & _).
Qed.
End strikes.

(** C33: three strikes.  Take an agent with a clean record and any run of
    heartbeats, of which the last [misses l] probes failed.  A probe that fails
    now makes the heartbeat an error; it removes the agent from the registry
    when the two before it failed too, and otherwise leaves the registry alone,
    whatever the persistence of the ConfigMap does.  A probe that succeeds
    refreshes the entry of the agent, or registers it again when it was removed,
    and starts the count anew.  So an agent is removed by a heartbeat exactly
    when three probes in a row have failed, and not before. *)
Theorem three_strikes `{KubeLaws} `{!SharedRegistry W, !SharedRegistryLaws, !RegistryJSON,
    !RegistryJSONLaws, !SharedRegistrar W, !SharedRegistrarLaws, !MCPClient W, !MCPClientLaws}
    ad (w0 w w1 w' : W) l x r :
  rr_has_registry (registrar w0) = true → rr_failures (registrar w0) !! agent_key ad = None →
  beats ad w0 l w → Z.of_nat (length l) < MaxInt64 - 1 →
  Initialize (EndpointForAgent ad) w = (x, w1) → registrar_Heartbeat ad w = (r, w') →
  match x with
  | inl _ => (∃ e, r = inl e) ∧
      if 2 <=? misses l then rg_entries (registry w') = delete (agent_key ad) (rg_entries (registry w))
      else registry w' = registry w
  | inr _ =>
      match rg_entries (registry w) !! agent_key ad with
      | Some e => r = inr tt ∧ registry w' =
          with_entries (<[agent_key ad := set_heartbeat (clock w1) e]> (rg_entries (registry w))) (registry w)
      | None => r = inr tt → is_Some (rg_entries (registry w') !! agent_key ad)
      end
  end ∧
  (is_Some (rg_entries (registry w) !! agent_key ad) →
    rg_entries (registry w') !! agent_key ad = None ↔ (∃ e, x = inl e) ∧ 2 ≤ misses l).
Proof.
  intros Hh Hc Hbeats Hl Hi Hb. destruct (beats_strikes ad w0 l w Hbeats ltac:(lia) Hh Hc) as [Hw Hs].
  pose proof (misses_bound l). destruct x as [e|tools].
  - destruct (heartbeat_missed _ _ _ _ _ _ Hw Hi Hb) as (_ & He & _ & Hr).
    rewrite Hs, int64_id in Hr by (unfold is_int64, MinInt64; lia).
    replace (MaxConsecutiveHeartbeatFailures <=? misses l + 1) with (2 <=? misses l) in Hr
      by (unfold MaxConsecutiveHeartbeatFailures; lia).
    split; [by split|]. intros [en Hen]. destruct (2 <=? misses l) eqn:E; zbool; rewrite Hr.
    + rewrite lookup_delete_eq. split; [|done]. split; [by eexists|done].
    + rewrite Hen. split; [done|]. lia.
  - destruct (registrar_Heartbeat_probe_ok _ _ _ _ _ _ Hw Hi Hb) as (_ & _ & Hr). split; [exact Hr|].
    intros [en Hen]. rewrite Hen in Hr. destruct Hr as [_ ->]. simpl. rewrite lookup_insert_eq.
    split; [done|]. by intros [[e ?] _].
Qed.

(** A registrar never writes any object of the cluster other than the
    ConfigMap that holds the registry state: registering, deregistering and
    heartbeats cannot disturb Deployments, routes or statuses. *)
Theorem registrar_writes_state_only `{KubeLaws} `{!SharedRegistry W, !SharedRegistryLaws,
    !RegistryJSON, !RegistryJSONLaws, !SharedRegistrar W, !SharedRegistrarLaws, !MCPClient W,
    !MCPClientLaws} ad (w w' : W) r :
  registrar_Register ad w = (r, w') ∨ registrar_Deregister ad w = (r, w') ∨
  registrar_Heartbeat ad w = (r, w') →
  ∀ k, k ≠ state_key (registry w) → store w' !! k = store w !! k.
Proof.
  intros [Hr|[Hr|Hr]].
  - by apply registrar_Register_state in Hr as [_ ?].
  - by apply registrar_Deregister_state in Hr as [_ ?].
  - by apply registrar_Heartbeat_state in Hr as [_ ?].
Qed.

(** ** Witnesses: the theorems applied to concrete inputs *)
Section witnesses.
#[local] Existing Instance Ref.core.

Lemma merge_tools_union_witness :
  merge_tools ["a"; "b"] ["b"; "c"; "c"] = ["a"; "b"; "c"] ∧
  NoDup (merge_tools ["a"; "b"] ["b"; "c"; "c"]).
Proof.
  split; [by vm_compute|].
  apply merge_tools_union. apply (bool_decide_unpack _). vm_compute. exact I.
Defined.

(** A world where the agent of [PromRef.ad] is registered and unreachable. *)
Definition silent_agent : world :=
  {| rw_objects := ∅; rw_writes := 0; rw_clock := 50; rw_enforcer := NewEnforcer "";
     rw_registry := register_entry {| en_Namespace := "ns"; en_Name := "agent"; en_Endpoint := "x";
       en_Tools := []; en_RegisteredAt := 0; en_HeartbeatAt := 0; en_TTL := 0 |} 50
       (NewRegistry false "" 0);
     rw_registrar := NewRegistrar true; rw_metrics := None;
     rw_handshake := inl (PlainError "connection refused"); rw_gauge := ∅ |}.

(** Failures do not add up across a success. *)
Definition beat (w : world) : world := (registrar_Heartbeat PromRef.ad w).2.
Definition answering (ok : bool) (w : world) : world :=
  {| rw_objects := rw_objects w; rw_writes := rw_writes w; rw_clock := rw_clock w; rw_enforcer := rw_enforcer w;
     rw_registry := rw_registry w; rw_registrar := rw_registrar w; rw_metrics := rw_metrics w;
     rw_handshake := if ok then inr [] else inl (PlainError "connection refused"); rw_gauge := rw_gauge w |}.
Definition outcomes : list bool := [false; false; true; false; false].
Definition beaten (l : list bool) : world := foldl (λ w ok, beat (answering ok w)) silent_agent l.

Lemma beaten_beats l : beats PromRef.ad silent_agent l (beaten l).
Proof.
  induction l as [|ok l IH] using rev_ind; [constructor|]. unfold beaten. rewrite foldl_app. cbn [foldl].
  fold (beaten l). pose proof (beats_world _ _ _ _ (answering ok (beaten l)) IH eq_refl eq_refl) as Hw.
  pose proof (beats_more _ _ _ _ _ _ _ _ Hw (surjective_pairing _) (surjective_pairing _)) as Hm.
  by destruct ok.
Qed.

Lemma three_strikes_witness :
  let w := answering false (beaten outcomes) in
  is_Some (rg_entries (registry (beaten outcomes)) !! "ns/agent") ∧
  rg_entries (registry (beat w)) !! "ns/agent" = None.
Proof.
  intros w. assert (Hs : is_Some (rg_entries (registry w) !! "ns/agent")) by (vm_compute; eexists; reflexivity).
  split; [exact Hs|].
  pose proof (three_strikes PromRef.ad silent_agent w _ (beat w) outcomes _ _ eq_refl ltac:(vm_compute; reflexivity)
    (beats_world _ _ _ _ w (beaten_beats outcomes) eq_refl eq_refl) ltac:(vm_compute; reflexivity)
    (surjective_pairing _) (surjective_pairing _)) as [_ Hx].
  apply (Hx Hs). split; [eexists; reflexivity|vm_compute; discriminate].
Defined.

Lemma registrar_writes_state_only_witness :
  store (registrar_Register PromRef.ad (with_objects [ODeployment (Build_Deployment
    (new_meta "agent" "ns" ∅) None ∅ ∅ [] empty_dep_status)] empty_world)).2
    !! (KDeployment, NN "ns" "agent") =
  store (with_objects [ODeployment (Build_Deployment
    (new_meta "agent" "ns" ∅) None ∅ ∅ [] empty_dep_status)] empty_world)
    !! (KDeployment, NN "ns" "agent").
Proof.
  eapply registrar_writes_state_only; [left; apply surjective_pairing|].
  vm_compute. discriminate.
Defined.
End witnesses.
