(* ===== verification/Clients.v ===== *)
(** The HTTP clients in their places: the Prometheus client under the canary
    evaluation and the MCP client under the registrar satisfy the laws those
    components were verified against, and a registration over HTTP stores what
    the agent offered. *)
From S2P Require Import Prelude Types Objects GoFloat Enforcer Cluster Json JsonProps Http PromQL Metrics.
From S2P Require Import Registry McpClient McpClientProps Registrar RefWorld RegistryProps RegistrarProps.

(** Network traffic leaves the cluster and the process's own state alone. *)
Class HTTPClientLaws `{KubeClient W, !SharedRegistry W, !SharedRegistrar W, !HTTPClient W} : Prop := {
  Do_store timeout req w r w' : Do timeout req w = (r, w') → store w' = store w;
  Do_registry timeout req w r w' : Do timeout req w = (r, w') → registry w' = registry w;
  Do_registrar timeout req w r w' : Do timeout req w = (r, w') → registrar w' = registrar w;
}.

Section laws.
Context `{CoreTypes, !KubeClient W, !SharedRegistry W, !SharedRegistrar W, !HTTPClient W,
  !HTTPClientLaws, !JSONErrors}.
Implicit Types (w : W).

(** A call that only sends requests preserves what requests preserve. *)
Section frame.
Context (R : W → W → Prop) (Hrefl : ∀ w, R w w) (Htrans : ∀ w1 w2 w3, R w1 w2 → R w2 w3 → R w1 w3)
  (Hdo : ∀ timeout req w r w', Do timeout req w = (r, w') → R w w').

Ltac step := cbv beta zeta; apply bind_rel;
  [exact Htrans
  |intros ? ?; apply wrap_err_rel; intros ? ?; first [apply Hdo|unfold lift; intros [= _ <-]; apply Hrefl]
  |intros ? ? ? ? _].

Lemma QueryScalar_frame c q w r w' : Client_QueryScalar c q w = (r, w') → R w w'.
Proof using All.
  unfold Client_QueryScalar.
  repeat step.
  cbv beta zeta. destruct (negb _); by intros [= _ <-].
Qed.

Lemma http_Initialize_frame c ep w r w' : http_Initialize c ep w = (r, w') → R w w'.
Proof using All.
  unfold http_Initialize.
  repeat step.
  cbv beta zeta. destruct (negb _); [destruct (ReadAll_limited 4096 _); by intros [= _ <-]|].
  step. repeat case_match; by intros [= _ <-].
Qed.
End frame.

Lemma Client_Prometheus_laws c : PrometheusLaws (Prometheus0 := Client_Prometheus c).
Proof.
  split. intros q w r w'. apply (QueryScalar_frame (λ w w', store w' = store w)); [done|congruence|].
  apply Do_store.
Qed.

Lemma HTTP_MCPClient_laws c : MCPClientLaws (MCPClient0 := HTTP_MCPClient c).
Proof.
  split; intros ep w r w'.
  - apply (http_Initialize_frame (λ w w', store w' = store w)); [done|congruence|]. apply Do_store.
  - apply (http_Initialize_frame (λ w w', registry w' = registry w)); [done|congruence|]. apply Do_registry.
  - apply (http_Initialize_frame (λ w w', registrar w' = registrar w)); [done|congruence|]. apply Do_registrar.
Qed.
End laws.

(** The entry an agent is registered with when its handshake teaches [tools]. *)
Definition offered_entry `{CoreTypes} (ad : AgentDeployment) (tools : list string) : Entry :=
  {| en_Namespace := ad_Namespace ad; en_Name := ad_Name ad; en_Endpoint := EndpointForAgent ad;
     en_Tools := merge_tools tools (mcp_Tools (spec_MCP (ad_Spec ad)));
     en_RegisteredAt := 0; en_HeartbeatAt := 0; en_TTL := 0 |}.

Lemma offered_registrable `{CoreTypes} ad tools :
  ad_Namespace ad ≠ "" → ad_Name ad ≠ "" → registrable (offered_entry ad tools) = true.
Proof.
  intros Hns Hn. unfold registrable, offered_entry. cbn.
  rewrite <- str_eqb_false in Hns, Hn. by rewrite Hns, Hn.
Qed.

(** A registration over HTTP ends as the agent answered the handshake.  When it
    offers tools, the registry holds the agent under its service address with
    exactly those tools and the declared ones, whatever becomes of the
    persisted copy; when it reports an error, has no result, refuses the
    request, answers something else or nothing, the registration fails and the
    registry is unchanged. *)
Theorem registration_over_http `{CoreTypes, !KubeClient W, !KubeLaws, !SharedRegistry W,
    !SharedRegistryLaws, !SharedRegistrar W, !SharedRegistrarLaws, !HTTPClient W, !HTTPClientLaws,
    !RegistryJSON, !RegistryJSONLaws, !JSONErrors} c ad answer (w w' : W) r :
  let client := HTTP_MCPClient c in
  let a := answer (json_of_Request initialize_request) in
  MCPAgent (EndpointForAgent ad) answer → answer_ok a →
  rr_has_registry (registrar w) = true → ad_Namespace ad ≠ "" → ad_Name ad ≠ "" →
  registrar_Register (MCPClient0 := client) ad w = (r, w') →
  match learned a with
  | Some tools => ∃ now, registry w' = register_entry (offered_entry ad tools) now (registry w)
  | None => registry w' = registry w ∧ ∃ e, r = inl e
  end.
Proof.
  intros client a Hagent Hok Hreg Hns Hn Hr.
  pose proof (HTTP_MCPClient_laws c) as Hlaws.
  unfold registrar_Register in Hr. rewrite (bind_step read_registrar _ w (registrar w) w) in Hr by done.
  rewrite Hreg in Hr. cbn [negb] in Hr. cbv zeta in Hr.
  destruct (http_Initialize_run c w Hok) as (x & w1 & Hi & Hx). fold a in Hx.
  assert (Eg : registry w1 = registry w) by (by eapply (Initialize_registry (MCPClient0 := client))).
  apply handshake_learned in Hx. destruct (learned a) as [tools|].
  2: { destruct Hx as [e ->]. erewrite bind_fail in Hr by (unfold wrap_err; cbn; by rewrite Hi).
       injection Hr as <- <-; eauto. }
  subst x. erewrite bind_step in Hr by (apply wrap_err_inr; exact Hi). cbv beta in Hr.
  change {| en_Namespace := ad_Namespace ad; en_Name := _; en_Endpoint := _; en_Tools := _;
    en_RegisteredAt := 0; en_HeartbeatAt := 0; en_TTL := 0 |} with (offered_entry ad tools) in Hr.
  destruct (registry_Register (offered_entry ad tools) w1) as [y w2] eqn:Ey.
  apply registry_Register_run in Ey as Hrun. rewrite offered_registrable in Hrun by done.
  destruct Hrun as [Hrun _]. rewrite Eg in Hrun. exists (clock w1).
  destruct y as [e|u].
  - erewrite bind_fail in Hr by (unfold wrap_err; by rewrite Ey). by injection Hr as <- <-.
  - erewrite bind_step in Hr by (apply wrap_err_inr; exact Ey).
    apply resetFailures_run in Hr as (_ & _ & Hr & _). by rewrite Hr.
Qed.

(** ** Witness: an agent that offers two tools *)
Section witnesses.
#[local] Existing Instance Ref.core.

Definition demo_offer : offer :=
  {| of_available := Some [];
     of_listed := [{| tl_name := "search"; tl_more := [("description", JString "web search")] |};
                   {| tl_name := ""; tl_more := [] |};
                   {| tl_name := "fetch"; tl_more := [("inputSchema", JObject [])] |}] |}.

(** A network where every request gets that answer. *)
Definition demo_http : HTTPClient world := {|
  url_Parse s := inr {| u_Prefix := s; u_RawQuery := ""; u_Fragment := "" |};
  Do _ _ w := (inr {| ht_StatusCode := 200; ht_Body := print_json (render_answer (Offers demo_offer));
    ht_BodyError := None |}, w);
|}.

#[local] Existing Instance demo_http.

#[local] Existing Instance plain_errors.

#[local] Instance demo_http_laws : HTTPClientLaws (W := world).
Proof. split; by intros ? ? ? ? ? [= _ <-]. Qed.

Lemma demo_agent ep : MCPAgent (W := world) ep (λ _, Offers demo_offer).
Proof.
  split; [by eexists|]. intros timeout body req w _. eexists (inr _), w. split; [done|].
  split; [done|]. split; [done|].
  pose proof (print_parse_json (render_answer (Offers demo_offer)) eq_refl) as [_ Hd];
    [by vm_compute|]. specialize (Hd "" eq_refl). by rewrite app_nil_string in Hd.
Qed.

Lemma registration_over_http_witness :
  let w' := (registrar_Register (MCPClient0 := HTTP_MCPClient NewHTTPMCPClient) PromRef.ad empty_world).2 in
  ∃ now, registry w' = register_entry (offered_entry PromRef.ad (advertised demo_offer)) now (registry empty_world) ∧
    en_Tools (offered_entry PromRef.ad (advertised demo_offer)) = ["search"; "fetch"].
Proof.
  intros w'.
  assert (Hok : answer_ok (Offers demo_offer)).
  { repeat constructor; by apply (bool_decide_unpack _); vm_compute. }
  destruct (registration_over_http NewHTTPMCPClient PromRef.ad (λ _, Offers demo_offer) empty_world w'
    (registrar_Register (MCPClient0 := HTTP_MCPClient NewHTTPMCPClient) PromRef.ad empty_world).1
    (demo_agent _) Hok) as [now Hnow];
    [reflexivity|discriminate|discriminate|apply surjective_pairing|].
  exists now. split; [exact Hnow|]. vm_compute. reflexivity.
Defined.
End witnesses.
