(* ===== verification/Webhook.v ===== *)
(** The admission webhook, [src/internal/webhook/agentdeployment_webhook.go]:
    the defaulter and the validator of AgentDeployments, over the API client
    and the shared quota enforcer.

    A handler is a procedure that fails with the error it answers the API
    server with.  Whether the request is a server-side dry run comes with the
    request context and is an argument. *)
From S2P Require Import Prelude Types Objects GoFloat Enforcer EnforcerProps Cluster.
From S2P Require Import PromQL Registry Registrar RefWorld.

Definition reservationTTL : Z := 5 * Second.

(** ** Field errors (package [field]), without the offending value *)

Inductive FieldErrorType := ErrorTypeInvalid | ErrorTypeRequired | ErrorTypeForbidden | ErrorTypeInternal.

Record FieldError := { fe_Type : FieldErrorType; fe_Field : string; fe_Detail : string }.

Definition Invalid (path detail : string) : FieldError :=
  {| fe_Type := ErrorTypeInvalid; fe_Field := path; fe_Detail := detail |}.
Definition Required (path detail : string) : FieldError :=
  {| fe_Type := ErrorTypeRequired; fe_Field := path; fe_Detail := detail |}.
Definition Forbidden (path detail : string) : FieldError :=
  {| fe_Type := ErrorTypeForbidden; fe_Field := path; fe_Detail := detail |}.
Definition InternalError (path : string) (err : error) : FieldError :=
  {| fe_Type := ErrorTypeInternal; fe_Field := path; fe_Detail := Error err |}.

Definition path_index (p : string) (i : nat) : string := p +:+ "[" +:+ fmt_d (Z.of_nat i) +:+ "]".

(** [apierrors.NewInvalid] and [apierrors.NewForbidden] for an AgentDeployment. *)
Class StatusErrors := {
  NewInvalid : string → list FieldError → error;
  NewForbidden : string → error → error;
}.

(** ** strings.TrimSpace(t) == ""

    Every rune is white space: ASCII blanks and the UTF-8 encodings of U+0085,
    U+00A0, U+1680, U+2000-200A, U+2028, U+2029, U+202F, U+205F and U+3000. *)
Fixpoint all_space (s : string) : bool :=
  match s with
  | EmptyString => true
  | String c s1 =>
      let n := code c in
      if ((9 <=? n) && (n <=? 13)) || (n =? 32) then all_space s1
      else match s1 with
      | EmptyString => false
      | String c1 s2 =>
          let n1 := code c1 in
          if (n =? 194) && ((n1 =? 133) || (n1 =? 160)) then all_space s2
          else match s2 with
          | EmptyString => false
          | String c2 s3 =>
              let n2 := code c2 in
              if ((n =? 225) && (n1 =? 154) && (n2 =? 128))
                 || ((n =? 226) && (n1 =? 128) &&
                     (((128 <=? n2) && (n2 <=? 138)) || (n2 =? 168) || (n2 =? 169) || (n2 =? 175)))
                 || ((n =? 226) && (n1 =? 129) && (n2 =? 159))
                 || ((n =? 227) && (n1 =? 128) && (n2 =? 128))
              then all_space s3 else false
          end
      end
  end.

(** ** Spec rules *)

(** The loop of [validateMCPTools] from index [i] with the names [seen]. *)
Fixpoint tools_loop (fldPath : string) (i : nat) (seen : gset string) (tools : list string)
    : list FieldError :=
  match tools with
  | [] => []
  | t :: tools' =>
      (if all_space t then [Invalid (path_index fldPath i) "tool name must not be empty"] else []) ++
      (if decide (t ∈ seen) then
         [Invalid (path_index fldPath i) ("duplicate tool name " +:+ Quote t)] else []) ++
      tools_loop fldPath (S i) ({[t]} ∪ seen) tools'
  end.

Definition validateMCPTools (fldPath : string) (tools : list string) : list FieldError :=
  tools_loop fldPath 0 ∅ tools.

Definition is_some_b {A} (o : option A) : bool := match o with Some _ => true | None => false end.

(** The loop over the steps. *)
Fixpoint steps_loop (path : string) (i : nat) (steps : list CanaryStep) : list FieldError :=
  match steps with
  | [] => []
  | step :: steps' =>
      let setBoth := is_some_b (cs_SetWeight step) && is_some_b (cs_Pause step) in
      let setNeither := negb (is_some_b (cs_SetWeight step)) && negb (is_some_b (cs_Pause step)) in
      (if setBoth || setNeither then
         [Invalid (path_index path i) "exactly one of setWeight or pause must be set per step"]
       else []) ++ steps_loop path (S i) steps'
  end.

Definition full_weight (step : CanaryStep) : bool :=
  match cs_SetWeight step with Some w => w =? 100 | None => false end.

Section webhook.
Context `{CoreTypes}.

Definition validateCanarySpec (ad : AgentDeployment) : list FieldError :=
  let rollout := spec_Rollout (ad_Spec ad) in
  let rb := ro_Rollback rollout in
  (match ro_Steps rollout with
   | [] => [Required "spec.rollout.steps" "at least one step is required when strategy is Canary"]
   | steps =>
       steps_loop "spec.rollout.steps" 0 steps ++
       (if existsb full_weight steps then [] else
        [Invalid "spec.rollout.steps"
          "canary steps must include at least one setWeight: 100 for full promotion"])
   end) ++
  (if rb_MaxErrorRate rb =s? "" then
     [Required "spec.rollout.rollback.maxErrorRate" "required when strategy is Canary"]
   else match ParseErrorRate (rb_MaxErrorRate rb) with
     | inl err => [Invalid "spec.rollout.rollback.maxErrorRate" (Error err)]
     | inr _ => []
     end) ++
  (if rb_MaxP99LatencyMs rb =? 0 then
     [Required "spec.rollout.rollback.maxP99LatencyMs" "required when strategy is Canary"]
   else []) ++
  (if rb_MinRequestSample rb =? 0 then
     [Required "spec.rollout.rollback.minRequestSample"
       "required when strategy is Canary; must be > 0 to prevent false positives at low traffic"]
   else []).

(** ** Mutating webhook *)

Definition isZeroResources (r : ResourceRequirements) : bool :=
  bool_decide (rr_Requests r = ∅) && bool_decide (rr_Limits r = ∅).

Definition default_resources : ResourceRequirements :=
  {| rr_Requests := {[ "cpu" := MustParse "100m"; "memory" := MustParse "128Mi" ]};
     rr_Limits := {[ "cpu" := MustParse "500m"; "memory" := MustParse "512Mi" ]};
     rr_Claims := [] |}.

Definition Default (ad : AgentDeployment) : AgentDeployment :=
  let s := ad_Spec ad in
  let ro := spec_Rollout s in
  with_spec {|
    spec_Image := spec_Image s;
    spec_Port := if spec_Port s =? 0 then 8080 else spec_Port s;
    spec_TenantRef := spec_TenantRef s;
    spec_Replicas := spec_Replicas s;
    spec_Rollout :=
      {| ro_Strategy := if ro_Strategy ro =s? "" then "Recreate" else ro_Strategy ro;
         ro_Steps := ro_Steps ro; ro_Rollback := ro_Rollback ro; ro_Abort := ro_Abort ro |};
    spec_MCP := spec_MCP s;
    spec_Resources := if isZeroResources (spec_Resources s) then default_resources
                      else spec_Resources s;
    spec_Env := spec_Env s;
    spec_Args := spec_Args s |} ad.

(** ** Validating webhook *)

Context `{!StatusErrors} `{!KubeClient W} `{!SharedEnforcer W}.

(** The key of a reservation, shared with the TenantQuota reconciler. *)
Definition admissionKey (ad : AgentDeployment) : string :=
  ad_Namespace ad +:+ "/" +:+ ad_Name ad.

(** [v.Enforcer.CanAdmit(...)] and [v.Enforcer.AdmitAndReserve(...)]. *)
Definition enforcer_CanAdmit (key : string) (tq : TenantQuota) (spec : AgentDeploymentSpec)
    (oldSpec : option AgentDeploymentSpec) : Proc W (bool * string) := λ w,
  (inr (CanAdmit key (tq_Spec tq) (tq_Status tq) spec oldSpec (clock w) (enforcer w)), w).

Definition enforcer_AdmitAndReserve (key : string) (tq : TenantQuota) (spec : AgentDeploymentSpec)
    (oldSpec : option AgentDeploymentSpec) (ttl : Z) : Proc W (bool * string) := λ w,
  let '(r, e') :=
    AdmitAndReserve key (tq_Spec tq) (tq_Status tq) spec oldSpec ttl (clock w) (enforcer w) in
  (inr r, set_enforcer e' w).

(** Rules 2 to 4: everything that needs neither the quota nor the enforcer. *)
Definition spec_rules (ad : AgentDeployment) : list FieldError :=
  let spec := ad_Spec ad in
  (if sp_Max (spec_Replicas spec) <? sp_Min (spec_Replicas spec) then
     [Invalid "spec.replicas.min" ("must be ≤ spec.replicas.max (" +:+
        fmt_d (sp_Max (spec_Replicas spec)) +:+ ")")] else []) ++
  (if ro_Strategy (spec_Rollout spec) =s? "Canary" then validateCanarySpec ad else []) ++
  (match mcp_Tools (spec_MCP spec) with
   | [] => []
   | tools => validateMCPTools "spec.mcp.tools" tools
   end).

Definition validateSpec (isDryRun : bool) (ad : AgentDeployment)
    (oldSpec : option AgentDeploymentSpec) : Proc W (list FieldError) :=
  let spec := ad_Spec ad in
  tqr ← try (Get (A := TenantQuota) (NN (ad_Namespace ad) (spec_TenantRef spec)));
  match tqr with
  | inl err =>
      if IsNotFound err then
        mret [Invalid "spec.tenantRef" ("TenantQuota " +:+ Quote (spec_TenantRef spec) +:+
                " not found in namespace " +:+ Quote (ad_Namespace ad))]
      else mret [InternalError "spec.tenantRef" err]
  | inr tq =>
      match spec_rules ad with
      | [] =>
          '(ok, reason) ←
            (if isDryRun then enforcer_CanAdmit (admissionKey ad) tq spec oldSpec
             else enforcer_AdmitAndReserve (admissionKey ad) tq spec oldSpec reservationTTL);
          if negb ok then mret [Forbidden "spec" ("quota exceeded: " +:+ reason)] else mret []
      | allErrs => mret allErrs
      end
  end.

Definition ValidateCreate (isDryRun : bool) (ad : AgentDeployment) : Proc W unit :=
  allErrs ← validateSpec isDryRun ad None;
  match allErrs with
  | [] => mret tt
  | _ => fail (NewInvalid (ad_Name ad) allErrs)
  end.

Definition ValidateUpdate (isDryRun : bool) (oldAD ad : AgentDeployment) : Proc W unit :=
  match om_DeletionTimestamp (ad_Meta ad) with
  | Some _ => mret tt
  | None =>
      if negb (spec_Image (ad_Spec oldAD) =s? spec_Image (ad_Spec ad)) &&
         (st_Phase (ad_Status oldAD) =s? PhaseRolloutInProgress) then
        fail (NewForbidden (ad_Name ad) (PlainError
          ("image update rejected: a rollout is already in progress (status.phase=" +:+
           PhaseRolloutInProgress +:+ ")")))
      else
        allErrs ← validateSpec isDryRun ad (Some (ad_Spec oldAD));
        match allErrs with
        | [] => mret tt
        | _ => fail (NewInvalid (ad_Name ad) allErrs)
        end
  end.

Definition ValidateDelete (ad : AgentDeployment) : Proc W unit := mret tt.
End webhook.

(** ** What the rules demand *)

(** Exactly one of [setWeight] and [pause]. *)
Definition step_wf (step : CanaryStep) : Prop :=
  (is_Some (cs_SetWeight step) ∧ cs_Pause step = None) ∨
  (cs_SetWeight step = None ∧ is_Some (cs_Pause step)).

Definition canary_wf (ro : RolloutPolicy) : Prop :=
  ro_Steps ro ≠ [] ∧ Forall step_wf (ro_Steps ro) ∧
  Exists (λ step, cs_SetWeight step = Some 100) (ro_Steps ro) ∧
  (∃ rate, ParseErrorRate (rb_MaxErrorRate (ro_Rollback ro)) = inr rate) ∧
  rb_MaxP99LatencyMs (ro_Rollback ro) ≠ 0 ∧ rb_MinRequestSample (ro_Rollback ro) ≠ 0.

Definition tools_wf (tools : list string) : Prop :=
  NoDup tools ∧ Forall (λ t, all_space t = false) tools.

Definition spec_wf `{CoreTypes} (spec : AgentDeploymentSpec) : Prop :=
  sp_Min (spec_Replicas spec) ≤ sp_Max (spec_Replicas spec) ∧
  (ro_Strategy (spec_Rollout spec) = "Canary" → canary_wf (spec_Rollout spec)) ∧
  tools_wf (mcp_Tools (spec_MCP spec)).

Lemma app_nil_iff {A} (l k : list A) : l ++ k = [] ↔ l = [] ∧ k = [].
Proof. split; [apply app_eq_nil|]. by intros [-> ->]. Qed.

(** A rule that contributes at most one error is silent iff its condition fails. *)
Lemma rule_nil (b : bool) (e : FieldError) : (if b then [e] else []) = [] ↔ b = false.
Proof. by destruct b. Qed.
Lemma rule_nil' (b : bool) (e : FieldError) : (if b then [] else [e]) = [] ↔ b = true.
Proof. by destruct b. Qed.

Lemma tools_loop_nil p i seen tools :
  tools_loop p i seen tools = [] ↔ tools_wf tools ∧ (∀ t, t ∈ tools → t ∉ seen).
Proof.
  unfold tools_wf. revert i seen. induction tools as [|t tools IH]; intros i seen; simpl.
  { split; [|done]. split; [split; constructor|]. by intros t ?%not_elem_of_nil. }
  rewrite !app_nil_iff, rule_nil, IH, list.NoDup_cons, Forall_cons_iff. case_decide; set_solver.
Qed.

Lemma validateMCPTools_nil p tools : validateMCPTools p tools = [] ↔ tools_wf tools.
Proof. unfold validateMCPTools. rewrite tools_loop_nil. set_solver. Qed.

Lemma steps_loop_nil p i steps : steps_loop p i steps = [] ↔ Forall step_wf steps.
Proof.
  revert i. induction steps as [|[sw pa] steps IH]; intros i; simpl; [done|].
  rewrite app_nil_iff, rule_nil, IH, Forall_cons_iff. unfold step_wf; simpl.
  destruct sw, pa; simpl; naive_solver.
Qed.

Lemma full_weight_exists steps :
  existsb full_weight steps = true ↔ Exists (λ step, cs_SetWeight step = Some 100) steps.
Proof.
  induction steps as [|[sw pa] steps IH]; simpl.
  - split; [done|]. by intros ?%Exists_nil.
  - rewrite orb_true_iff, IH, Exists_cons. unfold full_weight; simpl.
    destruct sw; rewrite ?Z.eqb_eq; naive_solver.
Qed.

Section rules.
Context `{CoreTypes}.

Lemma validateCanarySpec_nil ad :
  validateCanarySpec ad = [] ↔ canary_wf (spec_Rollout (ad_Spec ad)).
Proof.
  unfold validateCanarySpec, canary_wf. set (ro := spec_Rollout (ad_Spec ad)).
  rewrite !app_nil_iff, !rule_nil, !Z.eqb_neq.
  assert (Hrate : (if rb_MaxErrorRate (ro_Rollback ro) =s? "" then
     [Required "spec.rollout.rollback.maxErrorRate" "required when strategy is Canary"]
   else match ParseErrorRate (rb_MaxErrorRate (ro_Rollback ro)) with
     | inl err => [Invalid "spec.rollout.rollback.maxErrorRate" (Error err)]
     | inr _ => []
     end) = [] ↔ ∃ rate, ParseErrorRate (rb_MaxErrorRate (ro_Rollback ro)) = inr rate).
  { destruct (_ =s? "") eqn:E; [apply str_eqb_true in E; rewrite E; simpl; naive_solver|].
    destruct (ParseErrorRate _); naive_solver. }
  rewrite Hrate. destruct (ro_Steps ro) as [|s steps]; [naive_solver|].
  rewrite app_nil_iff, steps_loop_nil, rule_nil', full_weight_exists. naive_solver.
Qed.

Lemma spec_rules_nil ad : spec_rules ad = [] ↔ spec_wf (ad_Spec ad).
Proof.
  unfold spec_rules, spec_wf. rewrite !app_nil_iff, rule_nil, Z.ltb_ge.
  assert (Hc : (if ro_Strategy (spec_Rollout (ad_Spec ad)) =s? "Canary"
    then validateCanarySpec ad else []) = [] ↔
    (ro_Strategy (spec_Rollout (ad_Spec ad)) = "Canary" → canary_wf (spec_Rollout (ad_Spec ad)))).
  { destruct (_ =s? "Canary") eqn:E.
    - apply str_eqb_true in E. rewrite validateCanarySpec_nil. naive_solver.
    - apply str_eqb_false in E. naive_solver. }
  rewrite Hc. destruct (mcp_Tools (spec_MCP (ad_Spec ad))) as [|t tools].
  - assert (tools_wf []) by (split; constructor). naive_solver.
  - rewrite validateMCPTools_nil. done.
Qed.
End rules.

(** ** The admission decision *)
Section admission.
Context `{CoreTypes} {W : Type} {KC : KubeClient W} {KL : KubeLaws} {SE : StatusErrors}
  {EN : SharedEnforcer W} {EL : SharedEnforcerLaws}.
Implicit Types (ad : AgentDeployment) (w : W) (tq : TenantQuota).

(** The tenant's quota as the API server holds it. *)
Definition tenant_quota w ad : option TenantQuota :=
  store w !! (KTenantQuota, NN (ad_Namespace ad) (spec_TenantRef (ad_Spec ad))) ≫= prj.

(** The policy: the quota exists, the spec is well formed, and the enforcer has
    room for the request at time [now]. *)
Definition admissible (now : Z) w ad (old : option AgentDeploymentSpec) : Prop :=
  ∃ tq, tenant_quota w ad = Some tq ∧ spec_wf (ad_Spec ad) ∧
    (CanAdmit (admissionKey ad) (tq_Spec tq) (tq_Status tq) (ad_Spec ad) old now
      (enforcer w)).1 = true.

(** What an admission that is not a dry run leaves in the enforcer. *)
Definition reserved (now : Z) ad (old : option AgentDeploymentSpec) (e : Enforcer) : Enforcer :=
  reserve (admissionKey ad) (ad_Spec ad) old reservationTTL now e.

Lemma enforcer_AdmitAndReserve_run key tq spec old ttl w :
  enforcer_AdmitAndReserve key tq spec old ttl w =
    let v := CanAdmit key (tq_Spec tq) (tq_Status tq) spec old (clock w) (enforcer w) in
    (inr v, set_enforcer
      (if v.1 then reserve key spec old ttl (clock w) (enforcer w) else enforcer w) w).
Proof. unfold enforcer_AdmitAndReserve. by rewrite AdmitAndReserve_spec. Qed.

Lemma validateSpec_total dry ad old w : ∃ errs w', validateSpec dry ad old w = (inr errs, w').
Proof.
  unfold validateSpec, mbind, Proc_bind, try.
  destruct (Get _ w) as [[err|tq] w1]; [by case_match; eexists _, _|].
  destruct (spec_rules ad); [|by eexists _, _].
  destruct dry; simpl.
  - destruct (CanAdmit _ _ _ _ _ _ _) as [[] ?]; by eexists _, _.
  - rewrite enforcer_AdmitAndReserve_run; simpl.
    destruct (CanAdmit _ _ _ _ _ _ _) as [[] ?]; by eexists _, _.
Qed.

(** The verdict and the effect of [validateSpec]. *)
Lemma validateSpec_run dry ad old w errs w' :
  validateSpec dry ad old w = (inr errs, w') →
  store w' = store w ∧
  (errs ≠ [] → enforcer w' = enforcer w) ∧
  ∃ now, (errs = [] → admissible now w ad old ∧
            enforcer w' = if dry then enforcer w else reserved now ad old (enforcer w)) ∧
    (errs ≠ [] → admissible now w ad old →
      ∃ e w1, Get (A := TenantQuota) (NN (ad_Namespace ad) (spec_TenantRef (ad_Spec ad))) w = (inl e, w1)).
Proof.
  unfold validateSpec. intros Hrun. apply bind_inr in Hrun as (r & w1 & Htry & Hrun).
  apply try_inv in Htry as (x & [= ->] & Hg).
  pose proof (Get_store _ _ _ _ Hg) as Hst. pose proof (Get_enforcer _ _ _ _ Hg) as Hen.
  destruct x as [err|tq].
  { assert (errs ≠ [] ∧ w' = w1) as [Hne ->] by (case_match; run; done).
    split_and!; [done|done|]. exists 0. split; [done|]. eauto. }
  apply Get_inr in Hg as [_ Hg]. change (kind (A := TenantQuota)) with KTenantQuota in Hg.
  assert (Htq : tenant_quota w ad = Some tq) by (unfold tenant_quota; by rewrite Hg).
  pose proof (spec_rules_nil ad) as Hwf.
  destruct (spec_rules ad) as [|fe fes]; cycle 1.
  { run. split_and!; [done|done|]. exists 0. split; [done|].
    intros _ (? & _ & Hs & _). by apply Hwf in Hs. }
  apply proj1 in Hwf. specialize (Hwf eq_refl).
  set (v := CanAdmit (admissionKey ad) (tq_Spec tq) (tq_Status tq) (ad_Spec ad) old (clock w1)
    (enforcer w1)) in *.
  assert (errs = (if v.1 then [] else [Forbidden "spec" ("quota exceeded: " +:+ v.2)]) ∧
    store w' = store w1 ∧
    enforcer w' = if v.1 && negb dry then reserved (clock w1) ad old (enforcer w1)
                  else enforcer w1) as (-> & Hst' & Hen').
  { apply bind_inr in Hrun as ([ok reason] & w2 & Hv & Hrun). destruct dry.
    - unfold enforcer_CanAdmit in Hv. fold v in Hv. destruct v as [[] ?]; simplify_eq/=; by run.
    - rewrite enforcer_AdmitAndReserve_run in Hv. fold v in Hv. simpl in Hv.
      destruct v as [[] ?]; simplify_eq/=; run; by rewrite enforcer_set, store_set_enforcer. }
  rewrite Hst', Hen', Hst. split; [done|].
  rewrite <- Hen. split; [destruct v as [[] ?]; simpl; by intros|].
  exists (clock w1). unfold admissible. rewrite <- Hen. fold v.
  destruct v as [[] reason] eqn:Ev; simpl; split; try done.
  - intros _. split; [|by destruct dry]. exists tq. split_and!; try done.
    change (v.1 = true). by rewrite Ev.
  - intros _ (tq' & Htq' & _ & Hv'). rewrite Htq in Htq'. injection Htq' as <-.
    change (v.1 = true) in Hv'.
    by rewrite Ev in Hv'.
Qed.

End admission.

(** ** Theorems *)

Section theorems.
Context `{CoreTypes} {W : Type} {KC : KubeClient W} {KL : KubeLaws} {SE : StatusErrors}
  {EN : SharedEnforcer W} {EL : SharedEnforcerLaws}.
Implicit Types (ad : AgentDeployment) (w : W).

(** What an admission handler answers and does for a request with old spec [old]. *)
Definition admission_outcome (dry : bool) ad (old : option AgentDeploymentSpec) w
    (r : error + unit) w' : Prop :=
  store w' = store w ∧ ∃ now,
  match r with
  | inr _ => admissible now w ad old ∧
      enforcer w' = if dry then enforcer w else reserved now ad old (enforcer w)
  | inl _ => enforcer w' = enforcer w ∧
      (admissible now w ad old →
        ∃ e w1, Get (A := TenantQuota) (NN (ad_Namespace ad) (spec_TenantRef (ad_Spec ad))) w
          = (inl e, w1))
  end.

Lemma admission_outcome_intro dry ad old w r w' :
  (validateSpec dry ad old ≫= λ allErrs,
    match allErrs with
    | [] => mret tt
    | _ => fail (NewInvalid (ad_Name ad) allErrs)
    end) w = (r, w') → admission_outcome dry ad old w r w'.
Proof.
  destruct (validateSpec_total dry ad old w) as (errs & w1 & Hv).
  erewrite bind_step by exact Hv. apply validateSpec_run in Hv as (Hs & Hne & now & He & Hf).
  destruct errs; intros [= <- <-]; split; try done; exists now; [by apply He|].
  split; [by apply Hne|by apply Hf].
Qed.

(** C8: a create request is admitted exactly when its tenant quota exists, its
    spec is well formed and the enforcer has room for it; an admission that is
    not a dry run leaves exactly its reservation behind, a dry run or a
    rejection leaves the enforcer untouched, and the webhook never writes to
    the cluster.  (A request that satisfies the policy is turned away only when
    the quota could not be read.) *)
Theorem ValidateCreate_correct dry ad w r w' :
  ValidateCreate dry ad w = (r, w') → admission_outcome dry ad None w r w'.
Proof. apply admission_outcome_intro. Qed.

(** C9: an update of an object being deleted is always let through, without
    touching anything; an image change during a rollout is always refused,
    without touching anything; any other update is decided like a create, on
    the difference to the old spec. *)
Theorem ValidateUpdate_correct dry oldAD ad w r w' :
  ValidateUpdate dry oldAD ad w = (r, w') →
  match om_DeletionTimestamp (ad_Meta ad) with
  | Some _ => r = inr tt ∧ w' = w
  | None =>
      if decide (spec_Image (ad_Spec oldAD) ≠ spec_Image (ad_Spec ad) ∧
                 st_Phase (ad_Status oldAD) = PhaseRolloutInProgress)
      then (∃ e, r = inl e) ∧ w' = w
      else admission_outcome dry ad (Some (ad_Spec oldAD)) w r w'
  end.
Proof.
  unfold ValidateUpdate. destruct (om_DeletionTimestamp (ad_Meta ad)); [by intros [= <- <-]|].
  destruct (negb _ && _) eqn:Hb.
  - intros [= <- <-]. zbool. rewrite decide_True; [eauto|].
    split; [by apply str_eqb_false|by apply str_eqb_true].
  - intros Hv%admission_outcome_intro. rewrite decide_False; [done|]. intros [Hi Hp].
    apply str_eqb_false in Hi. apply str_eqb_true in Hp. by rewrite Hi, Hp in Hb.
Qed.

(** The defaulter is idempotent, fills exactly the documented fields (port
    8080, strategy Recreate, the baseline resources) and only where they were
    missing, and leaves status, metadata and every other field alone. *)
Theorem Default_fills_and_is_idempotent ad :
  Default (Default ad) = Default ad ∧
  ad_Meta (Default ad) = ad_Meta ad ∧ ad_Status (Default ad) = ad_Status ad ∧
  spec_Port (ad_Spec (Default ad)) = port_or_default (spec_Port (ad_Spec ad)) ∧
  ro_Strategy (spec_Rollout (ad_Spec (Default ad))) ≠ "" ∧
  (ro_Strategy (spec_Rollout (ad_Spec ad)) ≠ "" →
    spec_Rollout (ad_Spec (Default ad)) = spec_Rollout (ad_Spec ad)) ∧
  isZeroResources (spec_Resources (ad_Spec (Default ad))) = false ∧
  (isZeroResources (spec_Resources (ad_Spec ad)) = false →
    spec_Resources (ad_Spec (Default ad)) = spec_Resources (ad_Spec ad)) ∧
  spec_Replicas (ad_Spec (Default ad)) = spec_Replicas (ad_Spec ad) ∧
  spec_TenantRef (ad_Spec (Default ad)) = spec_TenantRef (ad_Spec ad) ∧
  spec_Image (ad_Spec (Default ad)) = spec_Image (ad_Spec ad).
Proof.
  assert (Hz : isZeroResources default_resources = false).
  { unfold isZeroResources. rewrite bool_decide_false; [done|]. apply insert_non_empty. }
  destruct ad as [me [im po te re [st steps rb ab] mcp res env args] s].
  unfold Default, with_spec, port_or_default. cbn [ad_Meta ad_Spec ad_Status spec_Port spec_Rollout
    ro_Strategy spec_Resources spec_Replicas spec_TenantRef spec_Image spec_MCP spec_Env spec_Args
    ro_Steps ro_Rollback ro_Abort].
  revert Hz. generalize default_resources as d. intros d Hz.
  assert (Hp : (if (if po =? 0 then 8080 else po) =? 0 then 8080 else if po =? 0 then 8080 else po) =
    if po =? 0 then 8080 else po) by (destruct (po =? 0) eqn:E; [done|by rewrite E]).
  rewrite Hp. clear Hp.
  destruct (st =s? "") eqn:Hs; destruct (isZeroResources res) eqn:Hr;
    change ("Recreate" =s? "") with false; cbv iota; rewrite ?Hs, ?Hr, ?Hz;
    split_and!; try reflexivity; try assumption; try discriminate;
    try (by apply str_eqb_false); by apply str_eqb_true in Hs.
Qed.

(** Resources that consist of claims only count as missing: the defaulter
    replaces them by the baseline and the claims are gone. *)
Theorem Default_drops_resource_claims ad :
  rr_Requests (spec_Resources (ad_Spec ad)) = ∅ → rr_Limits (spec_Resources (ad_Spec ad)) = ∅ →
  rr_Claims (spec_Resources (ad_Spec (Default ad))) = [].
Proof.
  intros Hq Hl. unfold Default, isZeroResources; simpl. by rewrite Hq, Hl.
Qed.
End theorems.

(** ** Witnesses: the theorems applied to concrete inputs *)
Section witnesses.
#[local] Existing Instance Ref.core.

#[local] Instance status_errors : StatusErrors := {|
  NewInvalid := λ name _, ApiError ReasonInvalid name;
  NewForbidden := λ name err, ApiError ReasonForbidden (Error err) |}.

(** A cluster that holds the quota of the tenant of [PromRef.ad]. *)
Definition tenant_world : world :=
  with_objects [OTenantQuota {| tq_Meta := new_meta "team" "ns" ∅; tq_Spec := Ref.quota;
    tq_Status := zero_usage |}] empty_world.

Lemma ValidateCreate_correct_witness :
  ∃ w', ValidateCreate false PromRef.ad tenant_world = (inr tt, w') ∧
    ∃ now, enforcer w' = reserved now PromRef.ad None (enforcer tenant_world).
Proof.
  destruct (ok_run (ValidateCreate false PromRef.ad) tenant_world) as [[] E];
    [vm_compute; reflexivity|].
  eexists. split; [exact E|].
  destruct (ValidateCreate_correct _ _ _ _ _ E) as (_ & now & _ & He). by exists now.
Defined.

Lemma ValidateUpdate_correct_witness :
  let new := with_spec (Ref.agent 2 1000) PromRef.ad in
  ∃ w', ValidateUpdate true PromRef.ad new tenant_world = (inr tt, w') ∧
    enforcer w' = enforcer tenant_world.
Proof.
  intros new.
  destruct (ok_run (ValidateUpdate true PromRef.ad new) tenant_world) as [[] E];
    [vm_compute; reflexivity|].
  eexists. split; [exact E|].
  assert (Ho : admission_outcome true new (Some (ad_Spec PromRef.ad)) tenant_world (inr tt)
    (ValidateUpdate true PromRef.ad new tenant_world).2)
    by exact (ValidateUpdate_correct _ _ _ _ _ _ E).
  by destruct Ho as (_ & now & _ & He).
Defined.

Lemma Default_drops_resource_claims_witness :
  let ad := with_spec (Build_AgentDeploymentSpec "img" 0 "team"
    {| sp_Min := 1; sp_Max := 1; sp_Metric := "queueDepth"; sp_Target := 1 |} Ref.recreate Ref.no_mcp
    (@Build_ResourceRequirements Ref.core ∅ ∅ ["shared-gpu"]) [] []) PromRef.ad in
  rr_Claims (spec_Resources (ad_Spec (Default ad))) = [].
Proof. apply Default_drops_resource_claims; reflexivity. Defined.
End witnesses.
