(* ===== verification/Canary.v ===== *)
(** The canary rollout state machine, [src/internal/rollout/canary.go].

    The controller keeps no state of its own: everything it knows is in the
    status of the AgentDeployment and in the objects of the cluster.  Each
    method is a procedure over the API client, Prometheus and the registrar;
    logging is left out.  An AgentDeployment that the source re-reads into
    [latest] is re-read here too, and a status update returns the object the
    server answered with. *)
From S2P Require Import Prelude Types Objects Scaling GoFloat GoTime Enforcer Cluster PromQL Registry Registrar.

Definition canaryVariantLabel : string := "agentrax.io/variant".
Definition canaryVariantValue : string := "canary".
Definition maxPauseExtensionMultiplier : Z := 3.
Definition canaryDeploymentSuffix : string := "-canary".

(** [cc_has_registrar] is [Registrar != nil]. *)
Record Controller := {
  cc_has_registrar : bool;
  cc_GatewayName : string;
  cc_GatewayNamespace : string;
  cc_FailSafeTimeout : Z;
}.

(** [ctrl.Result]; a zero [RequeueAfter] asks for no requeue. *)
Record Result := { RequeueAfter : Z }.
Definition no_requeue : Result := {| RequeueAfter := 0 |}.
Definition requeue_after (d : Z) : Result := {| RequeueAfter := d |}.

(** A Go panic ends the call; the manager turns it into an error. *)
Definition panic {W A} (msg : string) : Proc W A := fail (PlainError ("panic: " +:+ msg)).

Section canary.
Context `{CoreTypes, ConditionsAPI, KubeClient W, !Prometheus W, !AgentRegistrar W}.
Implicit Types (c : Controller) (ad latest : AgentDeployment).

Definition nn ad : NamespacedName := NN (ad_Namespace ad) (ad_Name ad).
Definition canaryName ad : string := ad_Name ad +:+ canaryDeploymentSuffix.
Definition canary_nn ad : NamespacedName := NN (ad_Namespace ad) (canaryName ad).

(** [Get], not-found tolerated: "[if apierrors.IsNotFound(err) { return nil }]". *)
Definition get_opt {A} `{!Resource A} (k : NamespacedName) (ctx : string) : Proc W (option A) :=
  r ← try (Get k);
  match r with
  | inr a => mret (Some a)
  | inl e => if IsNotFound e then mret None else fail (Errorf ctx e)
  end.

(** [Delete], not-found tolerated. *)
Definition delete_tolerant {A} `{!Resource A} (a : A) (ctx : string) : Proc W unit :=
  r ← try (Delete a);
  match r with
  | inr _ => mret tt
  | inl e => if IsNotFound e then mret tt else fail (Errorf ctx e)
  end.

(** The shape of the four delete methods. *)
Definition get_and_delete A `{!Resource A} (k : NamespacedName) (getctx delctx : string)
    : Proc W unit :=
  o ← get_opt (A := A) k getctx;
  match o with
  | None => mret tt
  | Some a => delete_tolerant a delctx
  end.

(** ** Canary Deployment *)

Definition canary_labels ad : gmap string string :=
  {[ "app.kubernetes.io/name" := ad_Name ad;
     "app.kubernetes.io/managed-by" := "agentrax";
     "agentrax.io/tenant" := spec_TenantRef (ad_Spec ad);
     canaryVariantLabel := canaryVariantValue ]}.

Definition desiredCanaryDeployment ad (name : string) : Deployment :=
  let port := port_or_default (spec_Port (ad_Spec ad)) in
  {| dep_Meta := new_meta name (ad_Namespace ad) (canary_labels ad);
     dep_Replicas := Some 1;
     dep_Selector := canary_labels ad;
     dep_TemplateLabels := canary_labels ad;
     dep_Containers := [
       {| ct_Name := "agent"; ct_Image := st_CanaryVersion (ad_Status ad);
          ct_Ports := [{| cp_Name := ""; cp_ContainerPort := port; cp_Protocol := "TCP" |}];
          ct_Resources := spec_Resources (ad_Spec ad);
          ct_Env := spec_Env (ad_Spec ad);
          ct_Args := spec_Args (ad_Spec ad) |} ];
     dep_Status := empty_dep_status |}.

(** A Deployment of which only the name is set. *)
Definition named_deployment (name ns : string) : Deployment :=
  {| dep_Meta := new_meta name ns ∅; dep_Replicas := None; dep_Selector := ∅;
     dep_TemplateLabels := ∅; dep_Containers := []; dep_Status := empty_dep_status |}.

(** [controllerutil.SetControllerReference] inside a mutate function. *)
Definition own {A} `{!Resource A} ad (a : A) : error + A :=
  match SetControllerReference ad a with
  | inl e => inl (Errorf "setting controller reference" e)
  | inr a' => inr a'
  end.

Definition mutate_deployment ad (desired existing : Deployment) : error + Deployment :=
  own ad {|
    dep_Meta := om_set_labels (om_Labels (dep_Meta desired)) (dep_Meta existing);
    dep_Replicas := dep_Replicas desired;
    dep_Selector := if om_ResourceVersion (dep_Meta existing) =s? "" then dep_Selector desired
                    else dep_Selector existing;
    dep_TemplateLabels := dep_TemplateLabels desired;
    dep_Containers := dep_Containers desired;
    dep_Status := dep_Status existing |}.

Definition ensureCanaryDeployment ad : Proc W unit :=
  let desired := desiredCanaryDeployment ad (canaryName ad) in
  CreateOrUpdate (named_deployment (canaryName ad) (ad_Namespace ad))
    (mutate_deployment ad desired) <?> "reconciling canary deployment".

Definition deleteCanaryDeployment ad : Proc W unit :=
  get_and_delete Deployment (canary_nn ad) "getting canary deployment for deletion"
    "deleting canary deployment".

(** ** Canary Service *)

Definition agent_port ad : list ServicePort :=
  let port := port_or_default (spec_Port (ad_Spec ad)) in
  [{| svp_Name := "agent"; svp_Port := port; svp_TargetPort := port; svp_Protocol := "TCP" |}].

Definition desiredCanaryService ad (name : string) : Service :=
  {| svc_Meta := new_meta name (ad_Namespace ad) (canary_labels ad);
     svc_Selector := canary_labels ad; svc_Ports := agent_port ad; svc_Type := "ClusterIP" |}.

Definition named_service (name ns : string) : Service :=
  {| svc_Meta := new_meta name ns ∅; svc_Selector := ∅; svc_Ports := []; svc_Type := "" |}.

Definition mutate_service ad (desired existing : Service) : error + Service :=
  own ad {|
    svc_Meta := om_set_labels (om_Labels (svc_Meta desired)) (svc_Meta existing);
    svc_Selector := svc_Selector desired; svc_Ports := svc_Ports desired;
    svc_Type := svc_Type desired |}.

Definition ensureCanaryService ad : Proc W unit :=
  let desired := desiredCanaryService ad (canaryName ad) in
  CreateOrUpdate (named_service (canaryName ad) (ad_Namespace ad))
    (mutate_service ad desired) <?> "reconciling canary service".

Definition deleteCanaryService ad : Proc W unit :=
  get_and_delete Service (canary_nn ad) "getting canary service for deletion"
    "deleting canary service".

(** ** HTTPRoute *)

Definition backend_ref ad (name : string) (weight : Z) : BackendRef :=
  {| br_Kind := "Service"; br_Group := ""; br_Name := name;
     br_Port := port_or_default (spec_Port (ad_Spec ad)); br_Weight := weight |}.

Definition desiredHTTPRoute c ad (stableWeight canaryWeight : Z) : HTTPRoute :=
  {| hr_Meta := new_meta (ad_Name ad) (ad_Namespace ad)
       {[ "app.kubernetes.io/name" := ad_Name ad; "app.kubernetes.io/managed-by" := "agentrax" ]};
     hr_Spec := {|
       hr_ParentRefs :=
         [{| pr_Name := cc_GatewayName c; pr_Namespace := Some (cc_GatewayNamespace c) |}];
       hr_Rules := [{|
         hr_Matches := [("PathPrefix", "/")];
         hr_BackendRefs := [backend_ref ad (ad_Name ad) stableWeight;
                            backend_ref ad (canaryName ad) canaryWeight] |}] |} |}.

Definition hr_set_spec (s : HTTPRouteSpec) (r : HTTPRoute) : HTTPRoute :=
  {| hr_Meta := hr_Meta r; hr_Spec := s |}.

Definition ensureHTTPRoute c ad (stableWeight canaryWeight : Z) : Proc W unit :=
  let desired := desiredHTTPRoute c ad stableWeight canaryWeight in
  r ← get_opt (A := HTTPRoute) (nn ad) "getting httproute";
  match r with
  | None =>
      owned ← lift_sum (SetControllerReference ad desired) <?> "setting owner ref on httproute";
      Create owned <?> "creating httproute";;
      mret tt
  | Some existing =>
      existing ← lift_sum (SetControllerReference ad existing)
        <?> "setting controller reference on existing httproute";
      if bool_decide (hr_Spec existing = hr_Spec desired) then mret tt else
      Update (hr_set_spec (hr_Spec desired) existing) <?> "updating httproute weights";;
      mret tt
  end.

Definition deleteHTTPRoute ad : Proc W unit :=
  get_and_delete HTTPRoute (nn ad) "getting httproute for deletion" "deleting httproute".

(** ** HPA management *)

Definition PauseHPA ad : Proc W unit :=
  get_and_delete HorizontalPodAutoscaler (nn ad) "getting HPA for pause" "pausing HPA".

Definition mutate_hpa ad (desired existing : HorizontalPodAutoscaler)
    : error + HorizontalPodAutoscaler :=
  own ad {|
    hpa_Meta := om_set_labels (om_Labels (hpa_Meta desired)) (hpa_Meta existing);
    hpa_ScaleTargetRef := hpa_ScaleTargetRef desired;
    hpa_MinReplicas := hpa_MinReplicas desired;
    hpa_MaxReplicas := hpa_MaxReplicas desired;
    hpa_Metrics := hpa_Metrics desired;
    hpa_Behavior := hpa_Behavior desired |}.

(** An HPA of which only the name is set. *)
Definition named_hpa (name ns : string) : HorizontalPodAutoscaler :=
  let none := {| sr_StabilizationWindowSeconds := 0; sr_SelectPolicy := ""; sr_Policies := [] |} in
  {| hpa_Meta := new_meta name ns ∅;
     hpa_ScaleTargetRef := {| ref_APIVersion := ""; ref_Kind := ""; ref_Name := "" |};
     hpa_MinReplicas := 0; hpa_MaxReplicas := 0; hpa_Metrics := [];
     hpa_Behavior := {| hb_ScaleUp := none; hb_ScaleDown := none |} |}.

Definition restoreHPA ad : Proc W unit :=
  let desired := BuildHPA ad 0 in
  CreateOrUpdate (named_hpa (om_Name (hpa_Meta desired)) (om_Namespace (hpa_Meta desired)))
    (mutate_hpa ad desired) <?> "restoring HPA".

(** ** Rollback *)

Definition set_status_condition (cond : Condition) (s : AgentDeploymentStatus) : AgentDeploymentStatus :=
  set_Conditions (SetStatusCondition (st_Conditions s) cond) s.
Definition remove_status_condition (t : string) (s : AgentDeploymentStatus) : AgentDeploymentStatus :=
  set_Conditions (RemoveStatusCondition (st_Conditions s) t) s.

(** The status written by a rollback of [ad] on top of [latest]. *)
Definition rollback_status ad latest (reason message : string) : AgentDeploymentStatus :=
  let s := set_Phase PhaseRolloutFailed (ad_Status latest) in
  let s := if st_CanaryVersion s =s? "" then set_CanaryVersion (spec_Image (ad_Spec ad)) s else s in
  let s := set_CanaryWeight 0 s in
  let s := set_CanaryStepIndex 0 s in
  let s := set_PauseStartedAt None s in
  let s := set_PromUnreachableSince None s in
  let s := set_status_condition
    {| c_Type := ConditionRolloutFailed; c_Status := ConditionTrue; c_Reason := reason;
       c_Message := message; c_ObservedGeneration := om_Generation (ad_Meta latest) |} s in
  remove_status_condition ConditionSampleInsufficient s.

(** Step 1: put the stable image back, if there is one to put back. *)
Definition restore_stable ad : Proc W unit :=
  if st_StableVersion (ad_Status ad) =s? "" then mret tt else
  dep ← get_opt (A := Deployment) (nn ad) "fetching stable deployment for rollback";
  match dep with
  | None => mret tt
  | Some dep =>
      match dep_Containers dep with
      | [] => mret tt
      | _ => Update (dep_set_image (st_StableVersion (ad_Status ad)) dep)
               <?> "restoring stable deployment image during rollback";; mret tt
      end
  end.

Definition Rollback ad (reason message : string) : Proc W unit :=
  restore_stable ad;;
  deleteCanaryDeployment ad <?> "deleting canary deployment during rollback";;
  deleteCanaryService ad <?> "deleting canary service during rollback";;
  deleteHTTPRoute ad <?> "deleting httproute during rollback";;
  restoreHPA ad <?> "restoring HPA during rollback";;
  latest ← Get (A := AgentDeployment) (nn ad) <?> "re-fetching AD for rollback status update";
  StatusUpdate (with_status (rollback_status ad latest reason message) latest)
    <?> "updating status after rollback";;
  mret tt.

(** ** Promotion *)

Definition promote_status ad latest : AgentDeploymentStatus :=
  let s := set_StableVersion (st_CanaryVersion (ad_Status ad)) (ad_Status latest) in
  let s := set_CanaryVersion "" s in
  let s := set_CanaryWeight 0 s in
  let s := set_CanaryStepIndex 0 s in
  let s := set_PauseStartedAt None s in
  let s := set_PromUnreachableSince None s in
  let s := set_Phase PhaseRunning s in
  let s := remove_status_condition ConditionRolloutFailed s in
  remove_status_condition ConditionSampleInsufficient s.

(** The re-registration after promotion; its errors are only logged. *)
Definition reregister c latest : Proc W unit :=
  if cc_has_registrar c && mcp_Expose (spec_MCP (ad_Spec latest)) then
    r ← try (Register latest);
    match r with
    | inl _ => mret tt
    | inr _ =>
        if st_Registered (ad_Status latest) then mret tt else
        try (StatusUpdate (with_status (set_Registered true (ad_Status latest)) latest));; mret tt
    end
  else mret tt.

Definition promote c ad : Proc W unit :=
  if st_CanaryVersion (ad_Status ad) =s? "" then
    fail (PlainError "cannot promote: canaryVersion is empty") else
  dep ← Get (A := Deployment) (nn ad) <?> "fetching stable deployment for promotion";
  Update (dep_set_image (st_CanaryVersion (ad_Status ad)) dep)
    <?> "updating stable deployment image during promotion";;
  deleteCanaryDeployment ad <?> "deleting canary deployment during promotion";;
  deleteCanaryService ad <?> "deleting canary service during promotion";;
  deleteHTTPRoute ad <?> "deleting httproute during promotion";;
  restoreHPA ad <?> "restoring HPA during promotion";;
  latest ← Get (A := AgentDeployment) (nn ad) <?> "re-fetching AD for promotion status update";
  latest ← StatusUpdate (with_status (promote_status ad latest) latest)
    <?> "updating status after promotion";
  reregister c latest.

(** ** SetWeight step *)

Definition executeSetWeight c ad (idx weight : Z) : Proc W Result :=
  let step := "(step " +:+ fmt_d idx +:+ ")" in
  ensureCanaryDeployment ad <?> ("ensuring canary deployment " +:+ step);;
  ensureCanaryService ad <?> ("ensuring canary service " +:+ step);;
  let stableWeight := int32 (100 - weight) in
  ensureHTTPRoute c ad stableWeight weight <?> ("ensuring httproute " +:+ step);;
  latest ← Get (A := AgentDeployment) (nn ad) <?> "re-fetching AD after setWeight";
  StatusUpdate (with_status (set_PauseStartedAt None
      (set_CanaryStepIndex (idx + 1) (set_CanaryWeight weight (ad_Status latest)))) latest)
    <?> "updating status after setWeight";;
  mret (requeue_after Second).

(** ** Pause step *)

Definition maxWait (duration : Z) : Z :=
  let m := int64 (maxPauseExtensionMultiplier * duration) in
  if 15 * Minute <? m then 15 * Minute else m.

(** Prometheus could not be asked.  The first time this is recorded; the
    response of that update is decoded into [latest], whose timestamp is the
    local [now], so [now] is afterwards what the server stored. *)
Definition prom_unreachable c latest (now : Z) : Proc W Result :=
  '(latest, now) ←
    match st_PromUnreachableSince (ad_Status latest) with
    | Some _ => mret (latest, now)
    | None =>
        latest' ← StatusUpdate (with_status (set_PromUnreachableSince (Some now)
          (ad_Status latest)) latest) <?> "recording prom unreachable time";
        mret (latest', default now (st_PromUnreachableSince (ad_Status latest')))
    end;
  match st_PromUnreachableSince (ad_Status latest) with
  | None => panic "nil pointer dereference"
  | Some since =>
      let unreachableDuration := time_Sub now since in
      if cc_FailSafeTimeout c <=? unreachableDuration then
        Rollback latest "PrometheusUnavailable"
          ("Prometheus unreachable for " +:+ Duration_String unreachableDuration +:+
           " (fail-safe timeout: " +:+ Duration_String (cc_FailSafeTimeout c) +:+ ")");;
        mret no_requeue
      else mret (requeue_after (10 * Second))
  end.

(** Prometheus answered: forget an earlier outage. *)
Definition clear_unreachable latest : Proc W AgentDeployment :=
  match st_PromUnreachableSince (ad_Status latest) with
  | None => mret latest
  | Some _ =>
      StatusUpdate (with_status (set_PromUnreachableSince None (ad_Status latest)) latest)
        <?> "clearing prom unreachable time"
  end.

Definition sample_insufficient latest (result : EvaluationResult) : Condition :=
  {| c_Type := ConditionSampleInsufficient; c_Status := ConditionTrue;
     c_Reason := "InsufficientSample";
     c_Message := "request count " +:+ fmt_f 0 (ev_SampleCount result) +:+ " below minimum " +:+
       fmt_f 0 (f64_of_Z (rb_MinRequestSample (ro_Rollback (spec_Rollout (ad_Spec latest))))) +:+
       "; extending pause";
     c_ObservedGeneration := om_Generation (ad_Meta latest) |}.

(** The pause is over, or has time left. *)
Definition finish_pause latest (idx elapsed duration : Z) : Proc W Result :=
  if elapsed <? duration then mret (requeue_after (int64 (duration - elapsed))) else
  StatusUpdate (with_status (set_PauseStartedAt None (set_CanaryStepIndex (idx + 1)
      (remove_status_condition ConditionSampleInsufficient (ad_Status latest)))) latest)
    <?> "advancing step index after pause";;
  mret (requeue_after Second).

Definition executePause c ad (idx duration : Z) : Proc W Result :=
  now ← Now;
  latest ← Get (A := AgentDeployment) (nn ad) <?> "fetching AD in pause step";
  match st_PauseStartedAt (ad_Status latest) with
  | None =>
      StatusUpdate (with_status (set_PauseStartedAt (Some now) (ad_Status latest)) latest)
        <?> "recording pause start time";;
      mret (requeue_after duration)
  | Some started =>
      let elapsed := time_Sub now started in
      eval ← try (Evaluate latest duration);
      match eval with
      | inl _ => prom_unreachable c latest now
      | inr result =>
          latest ← clear_unreachable latest;
          if ev_ThresholdBreached result then
            Rollback latest "ThresholdBreached" (ev_BreachReason result);; mret no_requeue
          else if ev_SampleTooSmall result then
            latest ← StatusUpdate (with_status (set_status_condition
                (sample_insufficient latest result) (ad_Status latest)) latest)
              <?> "setting SampleInsufficient condition";
            if elapsed <? maxWait duration then
              if duration =? 0 then panic "integer divide by zero" else
              mret (requeue_after (int64 (duration - go_rem elapsed duration)))
            else finish_pause latest idx elapsed duration
          else finish_pause latest idx elapsed duration
      end
  end.

(** ** The state machine *)

(** Self-healing before the step itself. *)
Definition self_heal c ad : Proc W unit :=
  (if st_CanaryVersion (ad_Status ad) =s? "" then mret tt else
     ensureCanaryDeployment ad <?> "self-healing canary deployment";;
     ensureCanaryService ad <?> "self-healing canary service");;
  if 0 <? st_CanaryWeight (ad_Status ad) then
    ensureHTTPRoute c ad (int32 (100 - st_CanaryWeight (ad_Status ad)))
      (st_CanaryWeight (ad_Status ad)) <?> "self-healing httproute"
  else mret tt.

Definition Step c ad : Proc W Result :=
  self_heal c ad;;
  let steps := ro_Steps (spec_Rollout (ad_Spec ad)) in
  let idx := st_CanaryStepIndex (ad_Status ad) in
  if Z.of_nat (length steps) <=? idx then promote c ad;; mret no_requeue else
  if idx <? 0 then panic "index out of range" else
  match steps !! Z.to_nat idx with
  | None => panic "index out of range"
  | Some step =>
      match cs_SetWeight step, cs_Pause step with
      | Some weight, _ => executeSetWeight c ad idx weight
      | None, Some pause => executePause c ad idx pause
      | None, None =>
          Rollback ad "InvalidStep"
            ("step " +:+ fmt_d idx +:+ " has neither setWeight nor pause");;
          mret no_requeue
      end
  end.
End canary.
