(* ===== verification/CanaryProps.v ===== *)
(** Theorems about the canary state machine of [Canary.v]: what rollback,
    promotion and the steps leave in the cluster, when a pause may advance, and
    that a rollout makes progress. *)
From S2P Require Import Prelude Types Objects Scaling GoFloat Enforcer Cluster PromQL Registry Registrar.
From S2P Require Import RefWorld RegistryProps RegistrarProps Canary.

(** ** The objects of a rollout *)

Lemma suffix_ne s : s ≠ s +:+ canaryDeploymentSuffix.
Proof.
  intros E. apply (f_equal String.length) in E.
  rewrite length_app_string in E. simpl in E. lia.
Qed.

Section keys.
Context `{CoreTypes}.
Implicit Types (ad : AgentDeployment).

Definition k_ad ad : ObjKey := (KAgentDeployment, nn ad).
Definition k_dep ad : ObjKey := (KDeployment, nn ad).
Definition k_canary_dep ad : ObjKey := (KDeployment, canary_nn ad).
Definition k_canary_svc ad : ObjKey := (KService, canary_nn ad).
Definition k_route ad : ObjKey := (KHTTPRoute, nn ad).
Definition k_hpa ad : ObjKey := (KHPA, nn ad).

(** What a rollout of [ad] may write. *)
Definition rollout_keys ad : list ObjKey :=
  [k_ad ad; k_dep ad; k_canary_dep ad; k_canary_svc ad; k_route ad; k_hpa ad].

Lemma dep_keys_ne ad : k_dep ad ≠ k_canary_dep ad.
Proof. intros [= E]. by apply suffix_ne in E. Qed.
End keys.

#[export] Hint Resolve dep_keys_ne : agentrax.

(** Look a key up in a store built from insertions and deletions. *)
Ltac keys :=
  repeat first
    [ rewrite lookup_insert_eq | rewrite lookup_delete_eq
    | rewrite lookup_insert_ne by
        (first [discriminate | solve [eauto using dep_keys_ne] | solve [apply not_eq_sym; apply dep_keys_ne] | congruence])
    | rewrite lookup_delete_ne by
        (first [discriminate | solve [eauto using dep_keys_ne] | solve [apply not_eq_sym; apply dep_keys_ne] | congruence]) ].

(** ** Specifications of the building blocks *)
Section blocks.
Context `{CoreTypes, ConditionsAPI} {W : Type} {KC : KubeClient W} {KL : KubeLaws}.
Implicit Types (ad : AgentDeployment) (w : W).

(** Nothing blocks the deletion of the object at [k]. *)
Definition deletable w (k : ObjKey) : Prop :=
  ∀ o, store w !! k = Some o → om_Finalizers (obj_meta o) = [].

Lemma get_opt_run {A} `{!Resource A} k ctx w o w' :
  get_opt (A := A) k ctx w = (inr o, w') →
  store w' = store w ∧ store w !! (kind (A := A), k) = inj <$> o ∧
  (∀ a, o = Some a → om_key (res_meta a) = k).
Proof.
  unfold get_opt. intros (x & w1 & (y & [= ->] & Hg)%try_inv & Hr)%bind_inr.
  destruct y as [e|a].
  - apply Get_inl in Hg as [Hs Hn]. destruct (IsNotFound e); [|by run].
    run. rewrite Hn by done. split_and!; done.
  - pose proof (Get_key _ _ _ _ Hg) as Hk. apply Get_inr in Hg as [Hs Ha]. run.
    split_and!; [done|done|]. by intros a' [= <-].
Qed.

Lemma delete_tolerant_run {A} `{!Resource A} (a : A) ctx w u w' :
  delete_tolerant a ctx w = (inr u, w') → deletable w (rkey a) →
  store w' = delete (rkey a) (store w).
Proof.
  unfold delete_tolerant. intros (x & w1 & (y & [= ->] & Hd)%try_inv & Hr)%bind_inr Hf.
  destruct y as [e|[]].
  - apply Delete_inl in Hd as [Hs Hn]. destruct (IsNotFound e); [|by run].
    run. rewrite Hs, delete_id; [done|]. by apply Hn.
  - run. by eapply Delete_inr.
Qed.

Lemma get_and_delete_run A `{!Resource A} k c1 c2 w u w' :
  get_and_delete A k c1 c2 w = (inr u, w') → deletable w (kind (A := A), k) →
  store w' = delete (kind (A := A), k) (store w).
Proof.
  unfold get_and_delete.
  intros (o & w1 & (Hs & Ho & Hk)%get_opt_run & Hr)%bind_inr Hf.
  destruct o as [a|]; simpl in Ho.
  - assert (rkey a = (kind (A := A), k)) as Hra by (rewrite rkey_eq; by rewrite (Hk a)).
    apply delete_tolerant_run in Hr; [by rewrite Hr, Hra, Hs|].
    rewrite Hra. intros o. rewrite Hs. apply Hf.
  - run. by rewrite Hs, delete_id.
Qed.

Lemma own_inr {A} `{!Resource A} ad (a b : A) :
  own ad a = inr b → b = res_set_meta (om_set_controller (Some (ad_Name ad)) (res_meta a)) a.
Proof.
  unfold own, SetControllerReference.
  destruct (set_controller_reference ad (res_meta a)) as [e|m] eqn:E; intros [= <-].
  by apply set_controller_reference_spec in E as ->.
Qed.

(** The canary Deployment of [ad]: one replica of the canary image. *)
Definition is_canary_dep ad (d : Deployment) : Prop :=
  dep_Replicas d = Some 1 ∧ dep_image d = Some (st_CanaryVersion (ad_Status ad)) ∧
  dep_TemplateLabels d = canary_labels ad ∧ om_Controller (dep_Meta d) = Some (ad_Name ad).

Lemma ensureCanaryDeployment_run ad w u w' :
  ensureCanaryDeployment ad w = (inr u, w') →
  ∃ d, is_canary_dep ad d ∧ store w' = <[k_canary_dep ad := ODeployment d]> (store w).
Proof.
  unfold ensureCanaryDeployment. intros Hc%wrap_err_inr.
  apply CreateOrUpdate_inr in Hc as (base & b & rv & gen & Hb & Hm & _ & _ & Hs).
  unfold mutate_deployment in Hm. apply own_inr in Hm as ->. eexists. split; [|exact Hs].
  done.
Qed.

Definition is_canary_svc ad (s : Service) : Prop :=
  svc_Selector s = canary_labels ad ∧ svc_Ports s = agent_port ad ∧
  om_Controller (svc_Meta s) = Some (ad_Name ad).

Lemma ensureCanaryService_run ad w u w' :
  ensureCanaryService ad w = (inr u, w') →
  ∃ s, is_canary_svc ad s ∧ store w' = <[k_canary_svc ad := OService s]> (store w).
Proof.
  unfold ensureCanaryService. intros Hc%wrap_err_inr.
  apply CreateOrUpdate_inr in Hc as (base & b & rv & gen & Hb & Hm & _ & _ & Hs).
  unfold mutate_service in Hm. apply own_inr in Hm as ->. eexists. split; [|exact Hs]. done.
Qed.

(** The HPA [restoreHPA] leaves: the one of [BuildHPA] with no headroom. *)
Definition is_restored_hpa ad (h : HorizontalPodAutoscaler) : Prop :=
  hpa_MinReplicas h = hpa_MinReplicas (BuildHPA ad 0) ∧
  hpa_MaxReplicas h = hpa_MaxReplicas (BuildHPA ad 0) ∧
  hpa_ScaleTargetRef h = hpa_ScaleTargetRef (BuildHPA ad 0) ∧
  hpa_Metrics h = hpa_Metrics (BuildHPA ad 0) ∧
  hpa_Behavior h = hpa_Behavior (BuildHPA ad 0) ∧
  om_Controller (hpa_Meta h) = Some (ad_Name ad).

Lemma restoreHPA_run ad w u w' :
  restoreHPA ad w = (inr u, w') →
  ∃ h, is_restored_hpa ad h ∧ store w' = <[k_hpa ad := OHPA h]> (store w).
Proof.
  unfold restoreHPA. intros Hc%wrap_err_inr.
  apply CreateOrUpdate_inr in Hc as (base & b & rv & gen & Hb & Hm & _ & _ & Hs).
  unfold mutate_hpa in Hm. apply own_inr in Hm as ->. eexists. split; [|exact Hs]. done.
Qed.

Lemma ensureHTTPRoute_run c ad sw cw w u w' :
  ensureHTTPRoute c ad sw cw w = (inr u, w') →
  ∃ r, hr_Spec r = hr_Spec (desiredHTTPRoute c ad sw cw) ∧
    store w' !! k_route ad = Some (OHTTPRoute r) ∧
    ∀ k, k ≠ k_route ad → store w' !! k = store w !! k.
Proof.
  unfold ensureHTTPRoute. intros (o & w1 & (Hs & Ho & Hk)%get_opt_run & Hr)%bind_inr.
  change (kind (A := HTTPRoute), nn ad) with (k_route ad) in Ho.
  destruct o as [r|]; simpl in Ho.
  - apply bind_inr in Hr as (r1 & w2 & Hown%wrap_err_inr & Hr).
    unfold lift_sum, SetControllerReference in Hown.
    destruct (set_controller_reference ad (res_meta r)) as [e|m] eqn:E; [done|].
    injection Hown as <- <-. apply set_controller_reference_spec in E as ->.
    specialize (Hk r eq_refl). case_bool_decide as Hd.
    + run. rewrite Hs. exists r. done.
    + apply bind_inr in Hr as (r2 & w3 & Hu%wrap_err_inr & Hr). run.
      apply Update_inr in Hu as (old & rv & gen & Hold & Hrv & -> & Hst).
      match type of Hold with store _ !! rkey ?x = _ =>
        assert (Hrk : rkey x = k_route ad) by (rewrite rkey_eq; unfold k_route; by rewrite <- Hk)
      end.
      rewrite Hrk in Hold, Hst.
      pose proof (store_live _ _ _ Ho) as Hlive.
      unfold collectable in Hst, Hlive; simpl in Hst, Hlive. rewrite Hlive in Hst.
      eexists. rewrite Hst. split; cycle 1.
      { split; [apply lookup_insert_eq|]. intros k Hne. by rewrite lookup_insert_ne, Hs. }
      done.
  - apply bind_inr in Hr as (r1 & w2 & Hown%wrap_err_inr & Hr).
    unfold lift_sum, SetControllerReference in Hown.
    destruct (set_controller_reference ad _) as [e|m] eqn:E; [done|].
    injection Hown as <- <-. apply set_controller_reference_spec in E as ->.
    apply bind_inr in Hr as (r2 & w3 & Hu%wrap_err_inr & Hr). run.
    apply Create_inr in Hu as (_ & rv & gen & Hrv & -> & Hst).
    change (rkey _) with (k_route ad) in Hst.
    eexists. rewrite Hst. split; cycle 1.
    { split; [apply lookup_insert_eq|]. intros k Hne. by rewrite lookup_insert_ne, Hs. }
    done.
Qed.
End blocks.

(** ** Rollback and promotion *)

(** [d'] is [d] with its first container on image [img]. *)
Definition image_set `{CoreTypes} (img : string) (d d' : Deployment) : Prop :=
  dep_Containers d' = dep_Containers (dep_set_image img d) ∧
  dep_Replicas d' = dep_Replicas d ∧ dep_Selector d' = dep_Selector d ∧
  dep_TemplateLabels d' = dep_TemplateLabels d.

Lemma image_set_image `{CoreTypes} img d d' :
  image_set img d d' → dep_Containers d ≠ [] → dep_image d' = Some img.
Proof.
  intros (Hc & _) Hne. unfold dep_image. rewrite Hc. unfold dep_set_image.
  by destruct (dep_Containers d).
Qed.

Section rollback.
Context {CT : CoreTypes} {CA : ConditionsAPI} {CL : ConditionsLaws} {W : Type}
  {KC : KubeClient W} {KL : KubeLaws}.
Implicit Types (ad latest : AgentDeployment) (w : W).

Lemma update_image_run img k d w d' w' :
  store w !! (KDeployment, k) = Some (ODeployment d) →
  Update (dep_set_image img d) w = (inr d', w') →
  image_set img d d' ∧ store w' = <[(KDeployment, k) := ODeployment d']> (store w).
Proof.
  intros Hd Hu. apply Update_inr in Hu as (old & rv & gen & Hold & Hrv & -> & Hs).
  assert (Hm : dep_Meta (dep_set_image img d) = dep_Meta d)
    by (unfold dep_set_image; by destruct (dep_Containers d)).
  assert (Hk : rkey (dep_set_image img d) = (KDeployment, k)).
  { pose proof (store_key _ _ _ Hd) as Hkey. rewrite rkey_eq; simpl. by rewrite Hm. }
  rewrite Hk in Hold, Hs. pose proof (store_live _ _ _ Hd) as Hlive.
  unfold collectable in Hlive, Hs; simpl in Hlive, Hs. rewrite Hm, Hlive in Hs.
  split; [|rewrite Hs; unfold res_stamp; simpl; by rewrite Hm].
  unfold image_set, dep_set_image; simpl.
  by destruct (dep_Containers d).
Qed.

Lemma restore_stable_run ad w u w' :
  restore_stable ad w = (inr u, w') →
  (∀ k, k ≠ k_dep ad → store w' !! k = store w !! k) ∧
  ∀ d, store w !! k_dep ad = Some (ODeployment d) →
    ∃ d', store w' !! k_dep ad = Some (ODeployment d') ∧
      if st_StableVersion (ad_Status ad) =s? "" then d' = d
      else image_set (st_StableVersion (ad_Status ad)) d d'.
Proof.
  unfold restore_stable. case_match eqn:Hv; [intros Hr; run; by eauto|].
  intros (o & w1 & (Hs & Ho & Hk)%get_opt_run & Hr)%bind_inr.
  change (kind (A := Deployment), nn ad) with (k_dep ad) in Ho.
  destruct o as [d|]; simpl in Ho; cycle 1.
  { run. rewrite Hs. split; [done|]. intros d Hd. by rewrite Ho in Hd. }
  destruct (dep_Containers d) as [|c cs] eqn:Hc.
  { run. rewrite Hs. split; [done|]. intros d0 Hd0. rewrite Ho in Hd0. injection Hd0 as <-.
    exists d. split; [done|]. unfold image_set, dep_set_image. by rewrite Hc. }
  apply bind_inr in Hr as (d1 & w2 & Hu%wrap_err_inr & Hr). run.
  eapply (update_image_run _ (nn ad)) in Hu as [Hi Hst]; [|by rewrite Hs].
  rewrite Hst, Hs. split.
  - intros k Hne. by rewrite lookup_insert_ne.
  - intros d0 Hd0. rewrite Ho in Hd0. injection Hd0 as <-. exists d1.
    by rewrite lookup_insert_eq.
Qed.

(** The canary side of the cluster is gone, the HPA is back, the stable side is
    as [R] says, and nothing else has changed. *)
Definition canary_cleared ad w w' : Prop :=
  store w' !! k_canary_dep ad = None ∧ store w' !! k_canary_svc ad = None ∧
  store w' !! k_route ad = None ∧
  (∃ h, store w' !! k_hpa ad = Some (OHPA h) ∧ is_restored_hpa ad h) ∧
  ∀ k, k ∉ rollout_keys ad → k.1 ≠ KConfigMap → store w' !! k = store w !! k.

(** The four cleanup calls both operations share. *)
Lemma cleanup_run ad c1 c2 c3 c4 {B} (rest : Proc W B) w b w' :
  deletable w (k_canary_dep ad) → deletable w (k_canary_svc ad) → deletable w (k_route ad) →
  (deleteCanaryDeployment ad <?> c1;; deleteCanaryService ad <?> c2;;
   deleteHTTPRoute ad <?> c3;; restoreHPA ad <?> c4;; rest) w = (inr b, w') →
  ∃ w1 h, rest w1 = (inr b, w') ∧ is_restored_hpa ad h ∧
    store w1 = <[k_hpa ad := OHPA h]> (delete (k_route ad)
      (delete (k_canary_svc ad) (delete (k_canary_dep ad) (store w)))).
Proof.
  intros Fd Fs Fr (?&w1&H1%wrap_err_inr&(?&w2&H2%wrap_err_inr&
    (?&w3&H3%wrap_err_inr&(?&w4&H4%wrap_err_inr&Hrest)%bind_inr)%bind_inr)%bind_inr)%bind_inr.
  apply get_and_delete_run in H1; [|done].
  change (kind (A := Deployment), canary_nn ad) with (k_canary_dep ad) in H1.
  apply get_and_delete_run in H2; cycle 1.
  { change (kind (A := Service), canary_nn ad) with (k_canary_svc ad). intros o.
    rewrite H1. keys. apply Fs. }
  change (kind (A := Service), canary_nn ad) with (k_canary_svc ad) in H2.
  apply get_and_delete_run in H3; cycle 1.
  { change (kind (A := HTTPRoute), nn ad) with (k_route ad). intros o.
    rewrite H2, H1. keys. apply Fr. }
  change (kind (A := HTTPRoute), nn ad) with (k_route ad) in H3.
  apply restoreHPA_run in H4 as (h & Hh & H4). rewrite H3, H2, H1 in H4. eauto.
Qed.

Lemma Rollback_run ad reason message w u w' :
  deletable w (k_canary_dep ad) → deletable w (k_canary_svc ad) → deletable w (k_route ad) →
  Rollback ad reason message w = (inr u, w') →
  canary_cleared ad w w' ∧
  (∀ d, store w !! k_dep ad = Some (ODeployment d) →
    ∃ d', store w' !! k_dep ad = Some (ODeployment d') ∧
      if st_StableVersion (ad_Status ad) =s? "" then d' = d
      else image_set (st_StableVersion (ad_Status ad)) d d') ∧
  ∃ latest ad', store w !! k_ad ad = Some (OAgentDeployment latest) ∧
    store w' !! k_ad ad = Some (OAgentDeployment ad') ∧ ad_Spec ad' = ad_Spec latest ∧
    ad_Status ad' = wire_status (rollback_status ad latest reason message).
Proof.
  intros Fd Fs Fr. unfold Rollback. intros ([]&w1&(Hk1&Hd1)%restore_stable_run&Hr)%bind_inr.
  eapply cleanup_run in Hr as (w2 & h & Hr & Hh & Hs2).
  2: { intros o. rewrite Hk1 by (apply not_eq_sym, dep_keys_ne). apply Fd. }
  2: { intros o. rewrite Hk1 by discriminate. apply Fs. }
  2: { intros o. rewrite Hk1 by discriminate. apply Fr. }
  apply bind_inr in Hr as (latest & w3 & [Hs3 Hl]%wrap_err_inr%Get_inr & Hr).
  change (kind (A := AgentDeployment), nn ad) with (k_ad ad) in Hl.
  apply bind_inr in Hr as (ad' & w4 & Hu%wrap_err_inr & Hr). run.
  apply StatusUpdate_inr in Hu as (old & rv & Hold & Hrv & -> & Hs).
  assert (Hrk : ∀ s, rkey (with_status s latest) = k_ad ad).
  { intros s. pose proof (store_key _ _ _ Hl) as Hkey. done. }
  rewrite Hrk in Hold, Hs. rewrite Hs3, Hl in Hold. injection Hold as <-.
  rewrite Hs, Hs3, Hs2. split; [|split].
  - unfold canary_cleared. rewrite Hs, Hs3, Hs2. split_and!; keys; try done; [by exists h|].
    intros k Hk _. unfold rollout_keys in Hk. rewrite !not_elem_of_cons in Hk.
    destruct Hk as (?&?&?&?&?&?&_). rewrite !lookup_insert_ne, !lookup_delete_ne by done.
    by apply Hk1.
  - intros d Hd. destruct (Hd1 d Hd) as (d' & Hd' & Hi). exists d'. split; [|done].
    by keys.
  - exists latest. eexists. split_and!.
    + rewrite Hs2 in Hl. revert Hl. keys. rewrite Hk1 by discriminate. done.
    + by rewrite lookup_insert_eq.
    + done.
    + done.
Qed.

(** The status after a promotion to [ver]. *)
Definition promoted (ver : string) (s : AgentDeploymentStatus) : Prop :=
  st_Phase s = PhaseRunning ∧ st_StableVersion s = ver ∧ st_CanaryVersion s = "" ∧
  st_CanaryWeight s = 0 ∧ st_CanaryStepIndex s = 0 ∧ st_PauseStartedAt s = None ∧
  st_PromUnreachableSince s = None ∧
  FindStatusCondition (st_Conditions s) ConditionRolloutFailed = None ∧
  FindStatusCondition (st_Conditions s) ConditionSampleInsufficient = None.

Lemma promote_status_promoted ad latest :
  promoted (st_CanaryVersion (ad_Status ad)) (wire_status (promote_status ad latest)).
Proof.
  unfold promoted, promote_status, remove_status_condition, wire_status; simpl.
  rewrite find_remove_ne by done. by rewrite !find_remove_eq.
Qed.

Context {AR : AgentRegistrar W} {AL : AgentRegistrarLaws}.

Lemma reregister_run c latest ver w u w' :
  store w !! (KAgentDeployment, om_key (ad_Meta latest)) = Some (OAgentDeployment latest) →
  promoted ver (ad_Status latest) →
  reregister c latest w = (inr u, w') →
  (∀ k, k.1 ≠ KConfigMap → k ≠ (KAgentDeployment, om_key (ad_Meta latest)) →
    store w' !! k = store w !! k) ∧
  ∃ ad', store w' !! (KAgentDeployment, om_key (ad_Meta latest)) = Some (OAgentDeployment ad') ∧
    ad_Spec ad' = ad_Spec latest ∧ promoted ver (ad_Status ad').
Proof.
  intros Hl Hp. unfold reregister. case_match; [|intros Hr; run; by eauto].
  intros (x & w1 & (y & [= ->] & Hreg)%try_inv & Hr)%bind_inr.
  apply Register_frame in Hreg. assert (Hl1 := Hreg (KAgentDeployment, om_key (ad_Meta latest))
    ltac:(discriminate)). rewrite Hl in Hl1.
  destruct y as [e|[]]; [run; split; [|by eauto]; intros k ? _; by apply Hreg|].
  destruct (st_Registered (ad_Status latest)); [run; split; [|by eauto]; intros k ? _; by apply Hreg|].
  apply bind_inr in Hr as (x & w2 & (y & [= ->] & Hu)%try_inv & Hr). run.
  destruct y as [e|ad'].
  { apply StatusUpdate_inl in Hu. rewrite Hu. split; [|by eauto]. intros k ? _. by apply Hreg. }
  apply StatusUpdate_inr in Hu as (old & rv & Hold & Hrv & -> & Hs).
  change (rkey _) with (KAgentDeployment, om_key (ad_Meta latest)) in Hold, Hs.
  rewrite Hl1 in Hold. injection Hold as <-. rewrite Hs. split.
  - intros k Hk Hne. rewrite lookup_insert_ne by done. by apply Hreg.
  - eexists. rewrite lookup_insert_eq. split; [done|]. split; [done|]. simpl.
    destruct Hp as (?&?&?&?&?&Hpa&Hpu&?&?). unfold promoted; simpl. rewrite Hpa, Hpu. done.
Qed.

Lemma promote_run c ad w u w' :
  deletable w (k_canary_dep ad) → deletable w (k_canary_svc ad) → deletable w (k_route ad) →
  promote c ad w = (inr u, w') →
  st_CanaryVersion (ad_Status ad) ≠ "" ∧
  canary_cleared ad w w' ∧
  (∃ d d', store w !! k_dep ad = Some (ODeployment d) ∧
    store w' !! k_dep ad = Some (ODeployment d') ∧
    image_set (st_CanaryVersion (ad_Status ad)) d d') ∧
  ∃ latest ad', store w !! k_ad ad = Some (OAgentDeployment latest) ∧
    store w' !! k_ad ad = Some (OAgentDeployment ad') ∧ ad_Spec ad' = ad_Spec latest ∧
    promoted (st_CanaryVersion (ad_Status ad)) (ad_Status ad').
Proof.
  intros Fd Fs Fr. unfold promote. case_match eqn:Hv; [intros Hr; by run|].
  apply str_eqb_false in Hv.
  intros (d & w0 & [Hs0 Hd0]%wrap_err_inr%Get_inr & Hr)%bind_inr.
  change (kind (A := Deployment), nn ad) with (k_dep ad) in Hd0.
  apply bind_inr in Hr as (d1 & w1 & Hu%wrap_err_inr & Hr).
  eapply (update_image_run _ (nn ad)) in Hu as [Hi Hs1]; [|by rewrite Hs0].
  change (KDeployment, nn ad) with (k_dep ad) in Hs1. rewrite Hs0 in Hs1.
  eapply cleanup_run in Hr as (w2 & h & Hr & Hh & Hs2).
  2: { intros o. rewrite Hs1. keys. apply Fd. }
  2: { intros o. rewrite Hs1. keys. apply Fs. }
  2: { intros o. rewrite Hs1. keys. apply Fr. }
  apply bind_inr in Hr as (latest & w3 & [Hs3 Hl]%wrap_err_inr%Get_inr & Hr).
  change (kind (A := AgentDeployment), nn ad) with (k_ad ad) in Hl.
  apply bind_inr in Hr as (ad' & w4 & Hu%wrap_err_inr & Hr).
  apply StatusUpdate_inr in Hu as (old & rv & Hold & Hrv & -> & Hs).
  assert (Hrk : ∀ s, rkey (with_status s latest) = k_ad ad).
  { intros s. pose proof (store_key _ _ _ Hl) as Hkey. done. }
  rewrite Hrk in Hold, Hs. rewrite Hs3, Hl in Hold. injection Hold as <-.
  rewrite Hs3, Hs2, Hs1 in Hs.
  assert (Hmeta : om_key (ad_Meta latest) = nn ad).
  { exact (f_equal snd (store_key _ _ _ Hl)). }
  eapply (reregister_run c _ (st_CanaryVersion (ad_Status ad))) in Hr as [Hf (ad' & Ha & Hsp & Hp)].
  2: { simpl. change (om_key (om_set_server rv _ (ad_Meta latest))) with (om_key (ad_Meta latest)).
       rewrite Hs, Hmeta. apply lookup_insert_eq. }
  2: { apply promote_status_promoted. }
  simpl in Hf, Ha.
  change (om_key (om_set_server rv _ (ad_Meta latest))) with (om_key (ad_Meta latest)) in Hf, Ha.
  rewrite Hmeta in Hf, Ha. change (KAgentDeployment, nn ad) with (k_ad ad) in Hf, Ha.
  split; [done|]. split; [|split].
  - unfold canary_cleared. rewrite !Hf by discriminate. rewrite !Hs.
    split_and!; keys; try done; [by exists h|].
    intros k Hk Hcm. unfold rollout_keys in Hk. rewrite !not_elem_of_cons in Hk.
    destruct Hk as (?&?&?&?&?&?&_). rewrite Hf by done.
    rewrite Hs, !lookup_insert_ne, !lookup_delete_ne, lookup_insert_ne by done. done.
  - exists d, d1. split; [done|]. rewrite Hf by discriminate. rewrite Hs. split; [by keys|done].
  - exists latest, ad'. rewrite Hs2, Hs1 in Hl. revert Hl. keys. done.
Qed.
End rollback.

(** ** Steps *)
Section steps.
Context {CT : CoreTypes} {CA : ConditionsAPI} {CL : ConditionsLaws} {W : Type}
  {KC : KubeClient W} {KL : KubeLaws} {PR : Prometheus W} {PL : PrometheusLaws}
  {AR : AgentRegistrar W} {AL : AgentRegistrarLaws}.
Implicit Types (ad latest : AgentDeployment) (w : W) (c : Controller).

(** The AgentDeployment as stored. *)
Definition stored_ad ad w : option AgentDeployment := store w !! k_ad ad ≫= prj.

Lemma stored_ad_Some ad w x :
  stored_ad ad w = Some x ↔ store w !! k_ad ad = Some (OAgentDeployment x).
Proof.
  unfold stored_ad. destruct (store w !! k_ad ad) as [o|]; simpl; [|done].
  split; [destruct o; naive_solver|by intros [= ->]].
Qed.

Lemma stored_nn ad w x : store w !! k_ad ad = Some (OAgentDeployment x) → nn x = nn ad.
Proof. intros Hs. exact (f_equal snd (store_key _ _ _ Hs)). Qed.

Lemma nn_canary ad ad' : nn ad' = nn ad → canary_nn ad' = canary_nn ad.
Proof. unfold canary_nn, canaryName, nn. by intros [= -> ->]. Qed.

Lemma status_update_run ad s latest w x w' :
  store w !! k_ad ad = Some (OAgentDeployment latest) →
  StatusUpdate (with_status s latest) w = (inr x, w') →
  store w' = <[k_ad ad := OAgentDeployment x]> (store w) ∧
  ad_Spec x = ad_Spec latest ∧ ad_Status x = wire_status s ∧ nn x = nn ad.
Proof.
  intros Hl Hu. apply StatusUpdate_inr in Hu as (old & rv & Hold & Hrv & -> & Hs).
  assert (Hrk : rkey (with_status s latest) = k_ad ad) by exact (store_key _ _ _ Hl).
  rewrite Hrk in Hold, Hs. rewrite Hl in Hold. injection Hold as <-.
  split; [done|]. split; [done|]. split; [done|]. by apply stored_nn in Hl.
Qed.

(** A step leaves the rollout where it is. *)
Definition keeps_step (a a' : AgentDeployment) : Prop :=
  let s := ad_Status a in
  let s' := ad_Status a' in
  ad_Spec a' = ad_Spec a ∧ st_Phase s' = st_Phase s ∧ st_StableVersion s' = st_StableVersion s ∧
  st_CanaryVersion s' = st_CanaryVersion s ∧ st_CanaryWeight s' = st_CanaryWeight s ∧
  st_CanaryStepIndex s' = st_CanaryStepIndex s ∧ is_Some (st_PauseStartedAt s').

Definition rolled_back ad (reason : string) w' : Prop :=
  store w' !! k_canary_dep ad = None ∧ store w' !! k_canary_svc ad = None ∧
  store w' !! k_route ad = None ∧
  ∃ x cond, stored_ad ad w' = Some x ∧ st_Phase (ad_Status x) = PhaseRolloutFailed ∧
    st_CanaryWeight (ad_Status x) = 0 ∧ st_CanaryStepIndex (ad_Status x) = 0 ∧
    st_PauseStartedAt (ad_Status x) = None ∧ st_PromUnreachableSince (ad_Status x) = None ∧
    FindStatusCondition (st_Conditions (ad_Status x)) ConditionRolloutFailed = Some cond ∧
    c_Status cond = ConditionTrue ∧ c_Reason cond = reason.

Definition canary_deletable ad w : Prop :=
  deletable w (k_canary_dep ad) ∧ deletable w (k_canary_svc ad) ∧ deletable w (k_route ad).

Lemma rollback_status_fields ad latest reason message :
  let s := wire_status (rollback_status ad latest reason message) in
  st_Phase s = PhaseRolloutFailed ∧ st_CanaryWeight s = 0 ∧ st_CanaryStepIndex s = 0 ∧
  st_PauseStartedAt s = None ∧ st_PromUnreachableSince s = None ∧
  FindStatusCondition (st_Conditions s) ConditionRolloutFailed = Some
    {| c_Type := ConditionRolloutFailed; c_Status := ConditionTrue; c_Reason := reason;
       c_Message := message; c_ObservedGeneration := om_Generation (ad_Meta latest) |} ∧
  FindStatusCondition (st_Conditions s) ConditionSampleInsufficient = None ∧
  st_StableVersion s = st_StableVersion (ad_Status latest) ∧
  st_CanaryVersion s = (if st_CanaryVersion (ad_Status latest) =s? "" then spec_Image (ad_Spec ad)
                        else st_CanaryVersion (ad_Status latest)).
Proof.
  unfold rollback_status, remove_status_condition, set_status_condition; simpl.
  set (cond := {| c_Type := _ |}).
  destruct (st_CanaryVersion (ad_Status latest) =s? "");
    rewrite find_remove_ne by done;
    change ConditionRolloutFailed with (c_Type cond); rewrite find_set_eq, find_remove_eq;
    split_and!; reflexivity.
Qed.

Lemma Rollback_rolled_back ad x reason message w u w' :
  nn x = nn ad → canary_deletable ad w →
  Rollback x reason message w = (inr u, w') → rolled_back ad reason w'.
Proof.
  intros Hn (Fd & Fs & Fr) Hr.
  assert (Hc := nn_canary _ _ Hn).
  assert (k_ad x = k_ad ad ∧ k_canary_dep x = k_canary_dep ad ∧ k_canary_svc x = k_canary_svc ad ∧
    k_route x = k_route ad) as (Ea & Ed & Es & Er)
    by (unfold k_ad, k_canary_dep, k_canary_svc, k_route; rewrite Hn, Hc; done).
  apply Rollback_run in Hr as ((H1 & H2 & H3 & _) & _ & latest & x' & Hl & Hx & _ & Hst);
    [|by rewrite ?Ed, ?Es, ?Er..].
  rewrite Ed in H1. rewrite Es in H2. rewrite Er in H3. rewrite Ea in Hx.
  unfold rolled_back. split_and!; try done.
  pose proof (rollback_status_fields x latest reason message) as (?&?&?&?&?&Hf&_).
  rewrite <- Hst in *. exists x'. eexists. split; [by apply stored_ad_Some|].
  do 5 (split; [done|]). split; [exact Hf|]. done.
Qed.

(** *** setWeight *)

(** The traffic split in a route: the weights of the stable and canary backends. *)
Definition splits (r : HTTPRoute) ad (stable canary : Z) : Prop :=
  hr_Rules (hr_Spec r) = [{| hr_Matches := [("PathPrefix", "/")];
    hr_BackendRefs := [backend_ref ad (ad_Name ad) stable; backend_ref ad (canaryName ad) canary] |}].

Lemma executeSetWeight_run c ad idx weight w res w' :
  executeSetWeight c ad idx weight w = (inr res, w') →
  res = requeue_after Second ∧
  (∃ d, store w' !! k_canary_dep ad = Some (ODeployment d) ∧ is_canary_dep ad d) ∧
  (∃ s, store w' !! k_canary_svc ad = Some (OService s) ∧ is_canary_svc ad s) ∧
  (∃ r, store w' !! k_route ad = Some (OHTTPRoute r) ∧ splits r ad (int32 (100 - weight)) weight) ∧
  (∃ latest x, stored_ad ad w = Some latest ∧ stored_ad ad w' = Some x ∧
    ad_Spec x = ad_Spec latest ∧
    ad_Status x = wire_status (set_PauseStartedAt None (set_CanaryStepIndex (idx + 1)
      (set_CanaryWeight weight (ad_Status latest))))) ∧
  ∀ k, k ∉ [k_ad ad; k_canary_dep ad; k_canary_svc ad; k_route ad] → store w' !! k = store w !! k.
Proof.
  unfold executeSetWeight. intros ([] & w1 & Hd%wrap_err_inr & Hr)%bind_inr.
  apply ensureCanaryDeployment_run in Hd as (d & Hd & Hs1).
  apply bind_inr in Hr as ([] & w2 & Hsv%wrap_err_inr & Hr).
  apply ensureCanaryService_run in Hsv as (sv & Hsv & Hs2). cbv zeta in Hr.
  apply bind_inr in Hr as ([] & w3 & Hrt%wrap_err_inr & Hr).
  apply ensureHTTPRoute_run in Hrt as (rt & Hrt & Hs3 & Hf3).
  apply bind_inr in Hr as (latest & w4 & [Hs4 Hl]%wrap_err_inr%Get_inr & Hr).
  change (kind (A := AgentDeployment), nn ad) with (k_ad ad) in Hl.
  apply bind_inr in Hr as (x & w5 & Hu%wrap_err_inr & Hr). run. rewrite <- Hs4 in Hl.
  eapply status_update_run in Hu as (Hs5 & Hsp & Hst & _); [|exact Hl].
  rewrite Hs5, Hs4. split_and!; try done.
  - exists d. keys. rewrite Hf3 by discriminate. rewrite Hs2, Hs1. by keys.
  - exists sv. keys. rewrite Hf3 by discriminate. rewrite Hs2. by keys.
  - exists rt. keys. split; [done|]. unfold splits. by rewrite Hrt.
  - exists latest, x. rewrite !stored_ad_Some, Hs5. keys. split_and!; try done.
    rewrite <- Hl, Hs4, Hf3 by discriminate. rewrite Hs2, Hs1. by keys.
  - intros k Hk. rewrite !not_elem_of_cons in Hk. destruct Hk as (?&?&?&?&_).
    rewrite lookup_insert_ne by done. rewrite Hf3 by done. rewrite Hs2, Hs1.
    by rewrite !lookup_insert_ne.
Qed.

(** *** Pause *)

Lemma maxWait_le dur : maxWait dur ≤ 15 * Minute.
Proof. unfold maxWait. case_match; zbool; lia. Qed.

(** How long Prometheus has been unreachable at [now], seen from [latest]. *)
Definition outage latest (now : Z) : Z :=
  match st_PromUnreachableSince (ad_Status latest) with
  | Some since => time_Sub now since
  | None => 0
  end.

Lemma time_Sub_self t : time_Sub t t = 0.
Proof. unfold time_Sub. rewrite Z.sub_diag. ints. Qed.

Lemma with_ad_deletable ad w w' x :
  store w' = <[k_ad ad := OAgentDeployment x]> (store w) → canary_deletable ad w →
  canary_deletable ad w'.
Proof.
  intros Hs (Fd & Fs & Fr). unfold canary_deletable, deletable. rewrite Hs.
  split_and!; intros o; keys; eauto.
Qed.

Lemma deletable_eq ad w w' : store w' = store w → canary_deletable ad w → canary_deletable ad w'.
Proof. intros Hs. unfold canary_deletable, deletable. by rewrite Hs. Qed.

Lemma prom_unreachable_run c ad latest now w res w' :
  canary_deletable ad w → store w !! k_ad ad = Some (OAgentDeployment latest) →
  is_Some (st_PauseStartedAt (ad_Status latest)) →
  prom_unreachable c latest now w = (inr res, w') →
  if cc_FailSafeTimeout c <=? outage latest now
  then rolled_back ad "PrometheusUnavailable" w' ∧ res = no_requeue
  else res = requeue_after (10 * Second) ∧
    ∃ x, stored_ad ad w' = Some x ∧ keeps_step latest x ∧
      is_Some (st_PromUnreachableSince (ad_Status x)).
Proof.
  intros Hdel Hl [t0 Hps]. unfold prom_unreachable, outage.
  destruct (st_PromUnreachableSince (ad_Status latest)) as [since|] eqn:Hu.
  - rewrite (bind_step (mret (latest, now)) _ w (latest, now) w) by done. rewrite Hu.
    case_match.
    + intros ([] & w1 & Hrb & Hr)%bind_inr. run. split; [|done].
      eapply Rollback_rolled_back; [exact (stored_nn _ _ _ Hl)|done|exact Hrb].
    + intros Hr. run. split; [done|]. exists latest. rewrite stored_ad_Some.
      split_and!; try done; eauto.
  - intros ([x now'] & w1 & (y & w2 & Hsu%wrap_err_inr & Hret)%bind_inr & Hr)%bind_inr. run.
    eapply (status_update_run ad) in Hsu as (Hs1 & Hsp & Hst & Hxn); [|exact Hl].
    rewrite Hst in Hr. simpl in Hr. rewrite time_Sub_self in Hr.
    case_match.
    + apply bind_inr in Hr as ([] & w3 & Hrb & Hr).
      eapply Rollback_rolled_back in Hrb; [|exact Hxn|by eapply with_ad_deletable]. by run.
    + run. split; [done|]. exists x. rewrite stored_ad_Some, Hs1, lookup_insert_eq.
      split; [done|]. unfold keeps_step. rewrite Hst; simpl. rewrite Hps. split_and!; done.
Qed.

(** [x] is the stored [ad] of [w'], at the same step as [s] was. *)
Definition at_step ad s x w w' : Prop :=
  store w' !! k_ad ad = Some (OAgentDeployment x) ∧ keeps_step s x ∧
  ∀ k, k ≠ k_ad ad → store w' !! k = store w !! k.

Lemma clear_unreachable_run ad latest w x w' :
  store w !! k_ad ad = Some (OAgentDeployment latest) →
  is_Some (st_PauseStartedAt (ad_Status latest)) →
  clear_unreachable latest w = (inr x, w') → at_step ad latest x w w'.
Proof.
  intros Hl Hps. unfold clear_unreachable. case_match.
  - intros Hu%wrap_err_inr. eapply (status_update_run ad) in Hu as (Hs & Hsp & Hst & _); [|exact Hl].
    unfold at_step, keeps_step. rewrite Hs, Hst, lookup_insert_eq; simpl.
    split_and!; try done; [by apply fmap_is_Some|]. intros k Hk. by rewrite lookup_insert_ne.
  - intros Hr. run. unfold at_step, keeps_step. split_and!; done.
Qed.

Lemma at_step_deletable ad s x w w' :
  at_step ad s x w w' → canary_deletable ad w → canary_deletable ad w'.
Proof.
  intros (_ & _ & Hf) (Fd & Fs & Fr).
  unfold canary_deletable, deletable. rewrite !Hf by discriminate. done.
Qed.

Lemma keeps_step_trans s1 s2 s3 : keeps_step s1 s2 → keeps_step s2 s3 → keeps_step s1 s3.
Proof. unfold keeps_step. intros (?&?&?&?&?&?&?) (?&?&?&?&?&?&?). split_and!; congruence || done. Qed.

(** The next step is on. *)
Definition advances (a : AgentDeployment) (idx : Z) (a' : AgentDeployment) : Prop :=
  let s := ad_Status a in
  let s' := ad_Status a' in
  ad_Spec a' = ad_Spec a ∧ st_Phase s' = st_Phase s ∧ st_StableVersion s' = st_StableVersion s ∧
  st_CanaryVersion s' = st_CanaryVersion s ∧ st_CanaryWeight s' = st_CanaryWeight s ∧
  st_CanaryStepIndex s' = idx + 1 ∧ st_PauseStartedAt s' = None ∧
  FindStatusCondition (st_Conditions s') ConditionSampleInsufficient = None.

Lemma finish_pause_run ad s latest idx elapsed dur w0 w res w' :
  at_step ad s latest w0 w →
  finish_pause latest idx elapsed dur w = (inr res, w') →
  if elapsed <? dur then res = requeue_after (int64 (dur - elapsed)) ∧ at_step ad s latest w0 w'
  else res = requeue_after Second ∧ ∃ x, stored_ad ad w' = Some x ∧ advances s idx x.
Proof.
  intros (Hl & (?&?&?&?&?&?&?) & Hf). unfold finish_pause. case_match.
  - intros Hr. run. split; [done|]. unfold at_step, keeps_step. split_and!; done.
  - intros (x & w1 & Hu%wrap_err_inr & Hr)%bind_inr. run.
    eapply (status_update_run ad) in Hu as (Hs & Hsp & Hst & _); [|exact Hl].
    split; [done|]. exists x. rewrite stored_ad_Some, Hs, lookup_insert_eq. split; [done|].
    unfold advances. rewrite Hst; simpl. rewrite find_remove_eq. split_and!; congruence || done.
Qed.

(** The decision table of a pause. *)
Definition pause_verdict c ad latest idx dur now (ev : error + EvaluationResult) res w' : Prop :=
  let started := default 0 (st_PauseStartedAt (ad_Status latest)) in
  let elapsed := time_Sub now started in
  let waits d := res = requeue_after d ∧
    ∃ x, stored_ad ad w' = Some x ∧ keeps_step latest x in
  match ev with
  | inl _ =>
      if cc_FailSafeTimeout c <=? outage latest now
      then rolled_back ad "PrometheusUnavailable" w' ∧ res = no_requeue
      else waits (10 * Second)
  | inr r =>
      if ev_ThresholdBreached r then rolled_back ad "ThresholdBreached" w' ∧ res = no_requeue
      else if ev_SampleTooSmall r && (elapsed <? maxWait dur)
      then waits (int64 (dur - go_rem elapsed dur))
      else if elapsed <? dur then waits (int64 (dur - elapsed))
      else res = requeue_after Second ∧
        ∃ x, stored_ad ad w' = Some x ∧ advances latest idx x
  end.

Lemma Evaluate_store ad window w r w' : Evaluate ad window w = (r, w') → store w' = store w.
Proof.
  set (R := λ w w' : W, store w' = store w).
  assert (Ht : ∀ w1 w2 w3, R w1 w2 → R w2 w3 → R w1 w3) by (unfold R; congruence).
  assert (Hb : ∀ q ctx w x w', build_query q ctx w = (x, w') → R w w').
  { intros q ctx w0 x w1. apply wrap_err_rel. by intros ? ? [= _ <-]. }
  assert (Hq : ∀ q ctx w x w', (QueryScalar q <?> ctx) w = (x, w') → R w w').
  { intros q ctx w0 x w1. apply wrap_err_rel. apply QueryScalar_store. }
  assert (Hm : ∀ A (a : A) w x w', mret (M := Proc W) a w = (x, w') → R w w')
    by by intros A a ? ? ? [= _ <-].
  intros Hrun. change (R w w'). revert Hrun. unfold Evaluate.
  repeat first
    [ apply bind_rel; [exact Ht|intros ? ?; first [apply Hb|apply Hq]|intros ? ? ? ? _]
    | apply Hm | case_match ].
Qed.

Lemma executePause_run c ad idx dur w res w' :
  canary_deletable ad w → executePause c ad idx dur w = (inr res, w') →
  ∃ latest, stored_ad ad w = Some latest ∧
  if st_PauseStartedAt (ad_Status latest) then
    ∃ w1 ev w2, Get (nn ad) w = (inr latest, w1) ∧ Evaluate latest dur w1 = (ev, w2) ∧
      pause_verdict c ad latest idx dur (clock w) ev res w'
  else res = requeue_after dur ∧ ∃ x, stored_ad ad w' = Some x ∧ ad_Spec x = ad_Spec latest ∧
    ad_Status x = wire_status (set_PauseStartedAt (Some (clock w)) (ad_Status latest)).
Proof.
  intros Hdel. unfold executePause. rewrite (bind_step Now _ w (clock w) w) by done.
  intros (latest & w1 & Hget%wrap_err_inr & Hr)%bind_inr.
  pose proof (Get_inr _ _ _ _ Hget) as [Hs1 Hl].
  change (kind (A := AgentDeployment), nn ad) with (k_ad ad) in Hl.
  exists latest. rewrite stored_ad_Some. split; [done|].
  destruct (st_PauseStartedAt (ad_Status latest)) as [started|] eqn:Hps; cycle 1.
  { apply bind_inr in Hr as (x & w2 & Hu%wrap_err_inr & Hr). run.
    eapply (status_update_run ad) in Hu as (Hs & Hsp & Hst & _); [|by rewrite Hs1].
    split; [done|]. exists x. by rewrite stored_ad_Some, Hs, lookup_insert_eq. }
  apply bind_inr in Hr as (ev & w2 & (y & [= ->] & Hev)%try_inv & Hr).
  exists w1, y, w2. split; [done|]. split; [done|].
  apply Evaluate_store in Hev as Hs2. rewrite Hs1 in Hs2.
  assert (Hl2 : store w2 !! k_ad ad = Some (OAgentDeployment latest)) by (by rewrite Hs2).
  assert (Hdel2 : canary_deletable ad w2) by (by eapply deletable_eq).
  unfold pause_verdict. rewrite Hps. simpl default. cbv zeta.
  destruct y as [e|r].
  { eapply prom_unreachable_run in Hr; [|done|done|by rewrite Hps].
    destruct (cc_FailSafeTimeout c <=? _); [done|].
    destruct Hr as (-> & x & Hx & Hk & _). eauto. }
  apply bind_inr in Hr as (latest' & w3 & Hc & Hr).
  eapply clear_unreachable_run in Hc; [|done|by rewrite Hps].
  pose proof Hc as (Hl3 & Hk3 & Hf3).
  destruct (ev_ThresholdBreached r).
  { apply bind_inr in Hr as ([] & w4 & Hrb & Hr). run. split; [|done].
    eapply Rollback_rolled_back; [exact (stored_nn _ _ _ Hl3)|by eapply at_step_deletable|exact Hrb]. }
  destruct (ev_SampleTooSmall r); simpl andb; cycle 1.
  { eapply finish_pause_run in Hr; [|exact Hc]. case_match; [|done].
    destruct Hr as [-> (? & ? & _)]. split; [done|]. exists latest'. by rewrite stored_ad_Some. }
  apply bind_inr in Hr as (x & w4 & Hu%wrap_err_inr & Hr).
  eapply (status_update_run ad) in Hu as (Hs4 & Hsp4 & Hst & _); [|exact Hl3].
  assert (Hat : at_step ad latest x w2 w4).
  { unfold at_step. rewrite Hs4, lookup_insert_eq. split; [done|]. split.
    - eapply keeps_step_trans; [exact Hk3|]. destruct Hk3 as (_&_&_&_&_&_&Hp).
      unfold keeps_step. rewrite Hst; simpl. split_and!; try done. by apply fmap_is_Some.
    - intros k Hk. rewrite lookup_insert_ne by done. by apply Hf3. }
  case_match eqn:Hw.
  - case_match; [by run|]. run. split; [done|]. exists x. rewrite stored_ad_Some.
    by destruct Hat as (? & ? & _).
  - eapply finish_pause_run in Hr; [|exact Hat]. case_match; [|done].
    destruct Hr as [-> (? & ? & _)]. split; [done|]. exists x. by rewrite stored_ad_Some.
Qed.
End steps.

(** ** The rollout as a state machine *)

(** The weight in force after the first steps of a rollout. *)
Definition last_weight (steps : list CanaryStep) : Z :=
  fold_left (λ acc step, default acc (cs_SetWeight step)) steps 0.

Lemma last_weight_snoc steps step :
  last_weight (steps ++ [step]) = default (last_weight steps) (cs_SetWeight step).
Proof. unfold last_weight. by rewrite fold_left_app. Qed.

(** A rollout in progress: the index is within the steps and the recorded
    weight is the one the executed steps leave. *)
Definition in_rollout `{CoreTypes} (x : AgentDeployment) : Prop :=
  let steps := ro_Steps (spec_Rollout (ad_Spec x)) in
  let s := ad_Status x in
  st_Phase s = PhaseRolloutInProgress ∧
  0 ≤ st_CanaryStepIndex s ≤ Z.of_nat (length steps) ∧
  st_CanaryWeight s = last_weight (take (Z.to_nat (st_CanaryStepIndex s)) steps).

Section machine.
Context {CT : CoreTypes} {CA : ConditionsAPI} {CL : ConditionsLaws} {W : Type}
  {KC : KubeClient W} {KL : KubeLaws} {PR : Prometheus W} {PL : PrometheusLaws}
  {AR : AgentRegistrar W} {AL : AgentRegistrarLaws}.
Implicit Types (ad latest x : AgentDeployment) (w : W) (c : Controller).

(** Self-healing touches the canary objects and the route only. *)
Lemma self_heal_run c ad w u w' :
  self_heal c ad w = (inr u, w') →
  ∀ k, k ∉ [k_canary_dep ad; k_canary_svc ad; k_route ad] → store w' !! k = store w !! k.
Proof.
  unfold self_heal. intros ([] & w1 & H1 & H2)%bind_inr k Hk.
  rewrite !not_elem_of_cons in Hk. destruct Hk as (?&?&?&_).
  assert (store w' !! k = store w1 !! k) as ->.
  { destruct (0 <? _); [|by run]. apply wrap_err_inr in H2.
    by apply ensureHTTPRoute_run in H2 as (_ & _ & _ & ->). }
  clear H2. destruct (_ =s? ""); [by run|]. apply bind_inr in H1 as ([] & w2 & Hd%wrap_err_inr & Hs%wrap_err_inr).
  apply ensureCanaryDeployment_run in Hd as (? & _ & Hd).
  apply ensureCanaryService_run in Hs as (? & _ & ->). rewrite Hd. by rewrite !lookup_insert_ne.
Qed.

(** The controllers never put a finalizer on a canary object. *)
Lemma CreateOrUpdate_meta {A} `{!Resource A} (a : A) (f : A → error + A) w u w' :
  (∀ base b, f base = inr b → om_Finalizers (res_meta b) = om_Finalizers (res_meta base)) →
  om_Finalizers (res_meta a) = [] →
  deletable w (rkey a) →
  CreateOrUpdate a f w = (inr u, w') → deletable w' (rkey a).
Proof.
  intros Hf Ha Hd Hc. apply CreateOrUpdate_inr in Hc as (base & b & rv & gen & Hb & Hfb & _ & _ & Hs).
  intros o. rewrite Hs, lookup_insert_eq. intros [= <-].
  rewrite meta_inj. unfold res_stamp.
  assert (Hm : ∀ m (y : A), res_meta (res_set_meta m y) = m).
  { intros m y. rewrite <- (meta_inj (res_set_meta m y)), <- set_meta_inj. by destruct (inj y). }
  rewrite Hm. simpl. rewrite (Hf _ _ Hfb). destruct Hb as [Hb|[_ ->]]; [|done].
  apply Hd in Hb. by rewrite meta_inj in Hb.
Qed.

Lemma deletable_frame w w' k : store w' !! k = store w !! k → deletable w k → deletable w' k.
Proof. unfold deletable. by intros ->. Qed.

Lemma ensureCanaryDeployment_deletable ad w u w' :
  ensureCanaryDeployment ad w = (inr u, w') → canary_deletable ad w → canary_deletable ad w'.
Proof.
  intros Hr (Fd & Fs & Fr). pose proof Hr as (d & _ & Hs)%ensureCanaryDeployment_run.
  split_and!; [|eapply deletable_frame; [rewrite Hs; by keys|done]..].
  apply wrap_err_inr in Hr. eapply CreateOrUpdate_meta in Hr; [exact Hr| |done|exact Fd].
  intros base b Hm. unfold mutate_deployment in Hm. by apply own_inr in Hm as ->.
Qed.

Lemma ensureCanaryService_deletable ad w u w' :
  ensureCanaryService ad w = (inr u, w') → canary_deletable ad w → canary_deletable ad w'.
Proof.
  intros Hr (Fd & Fs & Fr). pose proof Hr as (d & _ & Hs)%ensureCanaryService_run.
  split_and!; [eapply deletable_frame; [rewrite Hs; by keys|done]| |
    eapply deletable_frame; [rewrite Hs; by keys|done]].
  apply wrap_err_inr in Hr. eapply CreateOrUpdate_meta in Hr; [exact Hr| |done|exact Fs].
  intros base b Hm. unfold mutate_service in Hm. by apply own_inr in Hm as ->.
Qed.

Lemma ensureHTTPRoute_deletable c ad sw cw w u w' :
  ensureHTTPRoute c ad sw cw w = (inr u, w') → canary_deletable ad w → canary_deletable ad w'.
Proof.
  intros Hr (Fd & Fs & Fr). pose proof Hr as (r & _ & Hs & Hf)%ensureHTTPRoute_run.
  split_and!; [eapply deletable_frame; [by apply Hf|done]..|].
  clear Hs Hf. unfold ensureHTTPRoute in Hr.
  apply bind_inr in Hr as (o & w1 & (Hs & Ho & Hk)%get_opt_run & Hr).
  change (kind (A := HTTPRoute), nn ad) with (k_route ad) in Ho.
  assert (Hown : ∀ (y z : HTTPRoute) w0 w2 ctx,
    (lift_sum (SetControllerReference ad y) <?> ctx) w0 = (inr z, w2) →
    w2 = w0 ∧ hr_Meta z = om_set_controller (Some (ad_Name ad)) (hr_Meta y)).
  { intros y z w0 w2 ctx Hy%wrap_err_inr. unfold lift_sum, SetControllerReference in Hy.
    destruct (set_controller_reference ad _) as [e|m] eqn:E; [done|].
    apply set_controller_reference_spec in E as ->. by injection Hy as <- <-. }
  destruct o as [y|]; simpl in Ho;
    apply bind_inr in Hr as (z & w2 & [-> Hz]%Hown & Hr).
  - case_bool_decide; [run; unfold deletable; by rewrite Hs|].
    apply bind_inr in Hr as (r2 & w3 & Hu%wrap_err_inr & Hr). run.
    apply Update_inr in Hu as (old & rv & gen & Hold & _ & -> & Hst).
    intros o Hoo. rewrite Hst in Hoo.
    match type of Hoo with (if ?b then _ else _) !! _ = _ => destruct b end.
    + rewrite lookup_delete_Some in Hoo. destruct Hoo as [_ Hoo]. rewrite Hs in Hoo. by apply Fr.
    + rewrite lookup_insert_Some in Hoo. destruct Hoo as [[_ <-]|[_ Hoo]];
        [|rewrite Hs in Hoo; by apply Fr]. simpl. rewrite Hz; simpl. by apply (Fr _ Ho).
  - apply bind_inr in Hr as (r2 & w3 & Hu%wrap_err_inr & Hr). run.
    apply Create_inr in Hu as (_ & rv & gen & _ & -> & Hst).
    intros o Hoo. rewrite Hst, lookup_insert_Some in Hoo.
    destruct Hoo as [[_ <-]|[_ Hoo]]; [simpl; by rewrite Hz|]. rewrite Hs in Hoo. by apply Fr.
Qed.

Lemma self_heal_deletable c ad w u w' :
  self_heal c ad w = (inr u, w') → canary_deletable ad w → canary_deletable ad w'.
Proof.
  unfold self_heal. intros ([] & w1 & H1 & H2)%bind_inr Hd.
  assert (Hd1 : canary_deletable ad w1).
  { clear H2. destruct (_ =s? ""); [by run|].
    apply bind_inr in H1 as ([] & w2 & Ha%wrap_err_inr & Hb%wrap_err_inr).
    eauto using ensureCanaryDeployment_deletable, ensureCanaryService_deletable. }
  destruct (0 <? _); [|by run]. apply wrap_err_inr in H2.
  eauto using ensureHTTPRoute_deletable.
Qed.

(** Where a step can lead from [ad] to the stored [x]. *)
Inductive step_outcome ad x : Prop :=
  | outcome_in_rollout :
      in_rollout x →
      st_CanaryStepIndex (ad_Status x) = st_CanaryStepIndex (ad_Status ad) ∨
      st_CanaryStepIndex (ad_Status x) = st_CanaryStepIndex (ad_Status ad) + 1 →
      step_outcome ad x
  | outcome_promoted :
      st_CanaryStepIndex (ad_Status ad) = Z.of_nat (length (ro_Steps (spec_Rollout (ad_Spec ad)))) →
      promoted (st_CanaryVersion (ad_Status ad)) (ad_Status x) → step_outcome ad x
  | outcome_rolled_back :
      st_Phase (ad_Status x) = PhaseRolloutFailed → st_CanaryWeight (ad_Status x) = 0 →
      st_CanaryStepIndex (ad_Status x) = 0 → step_outcome ad x.

Lemma rolled_back_outcome ad reason w' :
  rolled_back ad reason w' → ∃ x, stored_ad ad w' = Some x ∧ step_outcome ad x.
Proof.
  intros (_ & _ & _ & x & cond & Hx & ? & ? & ? & _). exists x. split; [done|].
  by apply outcome_rolled_back.
Qed.

(** Staying at a step, and moving past a pause. *)
Lemma keeps_step_in_rollout ad x : in_rollout ad → keeps_step ad x → step_outcome ad x.
Proof.
  intros (Hp & Hi & Hw) (Hsp & Hp' & _ & _ & Hw' & Hi' & _).
  apply outcome_in_rollout; [|by left]. unfold in_rollout. by rewrite Hsp, Hp', Hw', Hi'.
Qed.

Lemma advances_in_rollout ad x step :
  in_rollout ad → st_CanaryStepIndex (ad_Status ad) < Z.of_nat (length (ro_Steps (spec_Rollout (ad_Spec ad)))) →
  ro_Steps (spec_Rollout (ad_Spec ad)) !! Z.to_nat (st_CanaryStepIndex (ad_Status ad)) = Some step →
  ad_Spec x = ad_Spec ad → st_Phase (ad_Status x) = st_Phase (ad_Status ad) →
  st_CanaryStepIndex (ad_Status x) = st_CanaryStepIndex (ad_Status ad) + 1 →
  st_CanaryWeight (ad_Status x) = default (st_CanaryWeight (ad_Status ad)) (cs_SetWeight step) →
  step_outcome ad x.
Proof.
  intros (Hp & Hi & Hw) Hlt Hstep Hsp Hp' Hi' Hw'. apply outcome_in_rollout; [|by right].
  unfold in_rollout. rewrite Hsp, Hp', Hi', Hw'. split; [done|]. split; [lia|].
  rewrite Z2Nat.inj_add by lia. change (Z.to_nat 1) with 1%nat. rewrite Nat.add_1_r.
  by rewrite (take_S_r _ _ step), last_weight_snoc, Hw.
Qed.

Lemma executePause_outcome c ad idx dur w res w' :
  canary_deletable ad w → stored_ad ad w = Some ad → in_rollout ad →
  idx = st_CanaryStepIndex (ad_Status ad) →
  (∃ step, ro_Steps (spec_Rollout (ad_Spec ad)) !! Z.to_nat idx = Some step ∧
    cs_SetWeight step = None) →
  idx < Z.of_nat (length (ro_Steps (spec_Rollout (ad_Spec ad)))) →
  executePause c ad idx dur w = (inr res, w') →
  ∃ x, stored_ad ad w' = Some x ∧ step_outcome ad x.
Proof.
  intros Hdel Hst Hin -> (step & Hstep & Hsw) Hlt Hrun.
  apply executePause_run in Hrun as (latest & Hl & Hv); [|done].
  rewrite Hst in Hl. injection Hl as <-.
  destruct (st_PauseStartedAt (ad_Status ad)) as [t|] eqn:Hps; cycle 1.
  { destruct Hv as (_ & x & Hx & Hsp & Hsx). exists x. split; [done|].
    apply keeps_step_in_rollout; [done|]. unfold keeps_step. rewrite Hsx; simpl. by eauto 10. }
  assert (Hadv : ∀ x, advances ad (st_CanaryStepIndex (ad_Status ad)) x → step_outcome ad x).
  { intros x (Hsp & Hp & _ & _ & Hw & Hi & _).
    eapply advances_in_rollout; try done. by rewrite Hsw. }
  destruct Hv as (w1 & ev & w2 & _ & _ & Hv). unfold pause_verdict in Hv.
  repeat case_match;
    repeat match goal with
    | H : _ ∧ _ |- _ => destruct H
    | H : ∃ _, _ |- _ => destruct H
    end; eauto using rolled_back_outcome, keeps_step_in_rollout.
Qed.

Lemma stored_ad_frame ad w w' :
  store w' !! k_ad ad = store w !! k_ad ad → stored_ad ad w' = stored_ad ad w.
Proof. unfold stored_ad. by intros ->. Qed.

Lemma Step_run c ad w res w' :
  canary_deletable ad w → stored_ad ad w = Some ad → in_rollout ad →
  Step c ad w = (inr res, w') →
  ∃ x, stored_ad ad w' = Some x ∧ step_outcome ad x.
Proof.
  intros Hdel Hst Hin. unfold Step. intros ([] & w1 & Hheal & Hr)%bind_inr.
  pose proof (self_heal_deletable _ _ _ _ _ Hheal Hdel) as Hdel1.
  assert (Hst1 : stored_ad ad w1 = Some ad).
  { rewrite <- Hst. apply stored_ad_frame. eapply self_heal_run; [exact Hheal|].
    rewrite !not_elem_of_cons. split_and!; try discriminate. apply not_elem_of_nil. }
  pose proof Hin as (_ & Hi & _). cbv zeta in Hr.
  destruct (Z.of_nat _ <=? st_CanaryStepIndex (ad_Status ad)) eqn:Hlen; zbool.
  { apply bind_inr in Hr as ([] & w2 & Hp & Hr). run. destruct Hdel1 as (?&?&?).
    apply promote_run in Hp as (_ & _ & _ & latest & x & _ & Hx & _ & Hpr); [|done..].
    exists x. rewrite stored_ad_Some. split; [done|]. apply outcome_promoted; [lia|done]. }
  destruct (st_CanaryStepIndex (ad_Status ad) <? 0) eqn:Hneg; zbool; [lia|].
  destruct (ro_Steps (spec_Rollout (ad_Spec ad)) !! _) as [step|] eqn:Hstep; [|by run].
  destruct (cs_SetWeight step) as [weight|] eqn:Hsw; [|destruct (cs_Pause step) as [dur|]].
  - apply executeSetWeight_run in Hr as (_ & _ & _ & _ & (latest & x & Hl & Hx & Hsp & Hsx) & _).
    rewrite Hst1 in Hl. injection Hl as <-. exists x. split; [done|].
    eapply advances_in_rollout; try done; rewrite ?Hsx, ?Hsw; done.
  - eapply executePause_outcome in Hr; try done. by exists step.
  - apply bind_inr in Hr as ([] & w2 & Hrb & Hr). run.
    eapply rolled_back_outcome, Rollback_rolled_back; [reflexivity|done|exact Hrb].
Qed.
End machine.

(** ** Theorems *)
Section theorems.
Context {CT : CoreTypes} {CA : ConditionsAPI} {CL : ConditionsLaws} {W : Type}
  {KC : KubeClient W} {KL : KubeLaws} {PR : Prometheus W} {PL : PrometheusLaws}
  {AR : AgentRegistrar W} {AL : AgentRegistrarLaws}.
Implicit Types (ad latest x : AgentDeployment) (w : W) (c : Controller).

(** C4: a rollback that returns without error leaves the cluster on the stable
    version: the stable Deployment runs the recorded stable image, the canary
    Deployment, Service and route are gone, the HPA is back, the status says
    RolloutFailed with the given reason, weight and step index are zero, both
    timers are cleared, and the failed image stays recorded.  No other object
    (the registry ConfigMap apart) is touched. *)
Theorem rollback_restores_stable ad reason message w u w' :
  canary_deletable ad w →
  Rollback ad reason message w = (inr u, w') →
  canary_cleared ad w w' ∧
  (∀ d, store w !! k_dep ad = Some (ODeployment d) → dep_Containers d ≠ [] →
    st_StableVersion (ad_Status ad) ≠ "" →
    ∃ d', store w' !! k_dep ad = Some (ODeployment d') ∧
      dep_image d' = Some (st_StableVersion (ad_Status ad))) ∧
  ∃ latest x, stored_ad ad w = Some latest ∧ stored_ad ad w' = Some x ∧
    ad_Spec x = ad_Spec latest ∧ st_Phase (ad_Status x) = PhaseRolloutFailed ∧
    st_CanaryWeight (ad_Status x) = 0 ∧ st_CanaryStepIndex (ad_Status x) = 0 ∧
    st_PauseStartedAt (ad_Status x) = None ∧ st_PromUnreachableSince (ad_Status x) = None ∧
    st_StableVersion (ad_Status x) = st_StableVersion (ad_Status latest) ∧
    (spec_Image (ad_Spec ad) ≠ "" → st_CanaryVersion (ad_Status x) ≠ "") ∧
    c_Reason <$> FindStatusCondition (st_Conditions (ad_Status x)) ConditionRolloutFailed = Some reason.
Proof.
  intros (Fd & Fs & Fr) Hr.
  apply Rollback_run in Hr as (Hc & Hd & latest & x & Hl & Hx & Hsp & Hst); [|done..].
  split; [done|]. split.
  - intros d Hd0 Hne Hv. destruct (Hd d Hd0) as (d' & Hd' & Hi). exists d'. split; [done|].
    apply str_eqb_false in Hv. rewrite Hv in Hi. by eapply image_set_image.
  - exists latest, x. rewrite !stored_ad_Some.
    pose proof (rollback_status_fields ad latest reason message) as (?&?&?&?&?&Hf&_&?&Hcv).
    rewrite <- Hst in *. split_and!; try done; [|by rewrite Hf].
    intros Hi. rewrite Hcv. case_match eqn:E; [done|]. by apply str_eqb_false.
Qed.

(** C5: a promotion that returns without error leaves the stable Deployment on
    the canary image, removes every canary object and the route, restores the
    HPA, and records the canary version as the stable one with a clean status
    in phase Running. *)
Theorem promotion_completes c ad w u w' :
  canary_deletable ad w → promote c ad w = (inr u, w') →
  canary_cleared ad w w' ∧
  (∃ d d', store w !! k_dep ad = Some (ODeployment d) ∧
    store w' !! k_dep ad = Some (ODeployment d') ∧
    dep_Containers d' = dep_Containers (dep_set_image (st_CanaryVersion (ad_Status ad)) d) ∧
    dep_Selector d' = dep_Selector d ∧ dep_Replicas d' = dep_Replicas d) ∧
  ∃ latest x, stored_ad ad w = Some latest ∧ stored_ad ad w' = Some x ∧
    ad_Spec x = ad_Spec latest ∧ promoted (st_CanaryVersion (ad_Status ad)) (ad_Status x).
Proof.
  intros (Fd & Fs & Fr) Hr.
  apply promote_run in Hr as (_ & Hc & (d & d' & Hd & Hd' & Hi) & latest & x & Hl & Hx & Hsp & Hp);
    [|done..].
  split; [done|]. split; [exists d, d'; by destruct Hi as (?&?&?&?)|].
  exists latest, x. by rewrite !stored_ad_Some.
Qed.

(** A setWeight step that returns without error leaves exactly one canary
    replica of the canary image behind its own Service and a route that splits
    all traffic between the two Services, with weights that add up to 100, and
    moves to the next step. *)
Theorem setWeight_splits_traffic c ad idx weight w res w' :
  0 ≤ weight ≤ 100 →
  executeSetWeight c ad idx weight w = (inr res, w') →
  (∃ d, store w' !! k_canary_dep ad = Some (ODeployment d) ∧ dep_Replicas d = Some 1 ∧
    dep_image d = Some (st_CanaryVersion (ad_Status ad)) ∧
    ∃ s, store w' !! k_canary_svc ad = Some (OService s) ∧
      selector_matches (svc_Selector s) (dep_TemplateLabels d) = true) ∧
  (∃ r stable, store w' !! k_route ad = Some (OHTTPRoute r) ∧ splits r ad stable weight ∧
    stable + weight = 100 ∧ 0 ≤ stable) ∧
  ∃ x, stored_ad ad w' = Some x ∧ st_CanaryWeight (ad_Status x) = weight ∧
    st_CanaryStepIndex (ad_Status x) = idx + 1 ∧ st_PauseStartedAt (ad_Status x) = None.
Proof.
  intros Hw Hr.
  apply executeSetWeight_run in Hr as
    (_ & (d & Hd & Hrep & Himg & Hlab & _) & (s & Hs & Hsel & _) & (r & Hrt & Hsp) &
     (latest & x & _ & Hx & _ & Hst) & _).
  split_and!.
  - exists d. split_and!; try done. exists s. split; [done|]. rewrite Hsel, Hlab.
    unfold selector_matches. apply bool_decide_eq_true. by intros k v Hk.
  - exists r, (100 - weight). rewrite int32_id in Hsp by ints. split_and!; try done; lia.
  - exists x. rewrite Hst. done.
Qed.

(** The decision table of a pause step.  The first visit records the start
    and waits.  Later visits roll back when Prometheus has been unreachable for
    the fail-safe timeout or a threshold is breached, wait when Prometheus is
    briefly unreachable, when the sample is too small (up to three times the
    pause, at most 15 minutes) or when the pause is not over, and advance
    otherwise; nothing else happens to the rollout. *)
Theorem pause_decision c ad idx dur w res w' :
  canary_deletable ad w → executePause c ad idx dur w = (inr res, w') →
  ∃ latest, stored_ad ad w = Some latest ∧
  if st_PauseStartedAt (ad_Status latest) then
    ∃ w1 ev w2, Get (nn ad) w = (inr latest, w1) ∧ Evaluate latest dur w1 = (ev, w2) ∧
      pause_verdict c ad latest idx dur (clock w) ev res w'
  else res = requeue_after dur ∧ ∃ x, stored_ad ad w' = Some x ∧ ad_Spec x = ad_Spec latest ∧
    ad_Status x = wire_status (set_PauseStartedAt (Some (clock w)) (ad_Status latest)).
Proof. apply executePause_run. Qed.

(** C3: a canary never moves past a pause unless it was measured there: if the
    step index of the stored object went up, an evaluation in that very visit
    found no breach, the pause had lasted its full duration, and the sample was
    large enough or the maximal extension had run out. *)
Theorem pause_advances_only_when_healthy c ad dur w res w' latest x :
  canary_deletable ad w → stored_ad ad w = Some latest →
  0 ≤ st_CanaryStepIndex (ad_Status latest) →
  executePause c ad (st_CanaryStepIndex (ad_Status latest)) dur w = (inr res, w') →
  stored_ad ad w' = Some x →
  st_CanaryStepIndex (ad_Status latest) < st_CanaryStepIndex (ad_Status x) →
  ∃ started result w1 w2, st_PauseStartedAt (ad_Status latest) = Some started ∧
    Evaluate latest dur w1 = (inr result, w2) ∧ ev_ThresholdBreached result = false ∧
    dur ≤ time_Sub (clock w) started ∧
    (ev_SampleTooSmall result = true → maxWait dur ≤ time_Sub (clock w) started).
Proof.
  intros Hdel Hl Hi Hr Hx Hlt. apply executePause_run in Hr as (latest' & Hl' & Hv); [|done].
  rewrite Hl in Hl'. injection Hl' as <-.
  destruct (st_PauseStartedAt (ad_Status latest)) as [t|] eqn:Hps; cycle 1.
  { destruct Hv as (_ & x' & Hx' & _ & Hst). rewrite Hx in Hx'. injection Hx' as <-.
    rewrite Hst in Hlt; simpl in Hlt. lia. }
  destruct Hv as (w1 & ev & w2 & _ & Hev & Hv). unfold pause_verdict in Hv. rewrite Hps in Hv.
  simpl default in Hv. cbv zeta in Hv.
  assert (Hno : ∀ d, (res = requeue_after d ∧ ∃ y, stored_ad ad w' = Some y ∧ keeps_step latest y) → False).
  { intros d (_ & y & Hy & _ & _ & _ & _ & _ & Hidx & _). rewrite Hx in Hy. injection Hy as <-. lia. }
  assert (Hnorb : ∀ reason, rolled_back ad reason w' → False).
  { intros reason (_ & _ & _ & y & cond & Hy & _ & _ & Hidx & _). rewrite Hx in Hy.
    injection Hy as <-. lia. }
  destruct ev as [e|r]; [case_match; [by destruct Hv as [?%Hnorb _]|by apply Hno in Hv]|].
  destruct (ev_ThresholdBreached r) eqn:Hb; [by destruct Hv as [?%Hnorb _]|].
  destruct (ev_SampleTooSmall r && _) eqn:Hsm; [by apply Hno in Hv|].
  destruct (_ <? dur) eqn:Hdur; [by apply Hno in Hv|]. zbool.
  exists t, r, w1, w2. split_and!; try done. intros Hs. rewrite Hs in Hsm. simpl in Hsm. by zbool.
Qed.

(** C2: the rollout is a state machine: from a stored object in a consistent
    rollout (index within the steps, weight as the executed steps left it), a
    step that returns without error leaves a consistent rollout at the same or
    the next index, or a promotion, which happens only after the last step, or
    a rollback. *)
Theorem Step_state_machine c ad w res w' :
  canary_deletable ad w → stored_ad ad w = Some ad → in_rollout ad →
  Step c ad w = (inr res, w') →
  ∃ x, stored_ad ad w' = Some x ∧ step_outcome ad x.
Proof. apply Step_run. Qed.

(** No pause lasts for ever: once the pause and its extensions (at most 15
    minutes) are over and Prometheus answers, the visit rolls back or advances;
    it cannot wait again. *)
Theorem pause_is_bounded c ad idx dur w res w' latest started :
  canary_deletable ad w → stored_ad ad w = Some latest →
  st_PauseStartedAt (ad_Status latest) = Some started →
  Z.max dur (15 * Minute) ≤ time_Sub (clock w) started →
  (∀ w1, Get (nn ad) w = (inr latest, w1) → ∃ r w2, Evaluate latest dur w1 = (inr r, w2)) →
  executePause c ad idx dur w = (inr res, w') →
  rolled_back ad "ThresholdBreached" w' ∨
  ∃ x, stored_ad ad w' = Some x ∧ advances latest idx x.
Proof.
  intros Hdel Hl Hps Hel Hev Hr. apply executePause_run in Hr as (latest' & Hl' & Hv); [|done].
  rewrite Hl in Hl'. injection Hl' as <-. rewrite Hps in Hv.
  destruct Hv as (w1 & ev & w2 & Hs1 & Hev1 & Hv).
  destruct (Hev w1 Hs1) as (r & w3 & Hev2). rewrite Hev1 in Hev2. simplify_eq.
  unfold pause_verdict in Hv. rewrite Hps in Hv. simpl default in Hv. cbv zeta in Hv.
  destruct (ev_ThresholdBreached r); [left; apply Hv|]. right.
  pose proof (maxWait_le dur).
  replace (time_Sub (clock w) started <? maxWait dur) with false in Hv
    by (symmetry; apply Z.ltb_ge; lia).
  replace (time_Sub (clock w) started <? dur) with false in Hv
    by (symmetry; apply Z.ltb_ge; lia).
  rewrite andb_false_r in Hv. by destruct Hv as [_ ?].
Qed.

(** A pause finer than a millisecond is never evaluated: the webhook
    accepts it, PromQL cannot express it, so every evaluation fails and the
    fail-safe condemns the canary although Prometheus is reachable. *)
Theorem subms_pause_always_unreachable c ad idx dur w res w' latest started :
  0 < dur → dur mod Millisecond ≠ 0 →
  canary_deletable ad w → stored_ad ad w = Some latest →
  st_PauseStartedAt (ad_Status latest) = Some started →
  cc_FailSafeTimeout c ≤ outage latest (clock w) →
  executePause c ad idx dur w = (inr res, w') →
  rolled_back ad "PrometheusUnavailable" w'.
Proof.
  intros Hpos Hms Hdel Hl Hps Hout Hr. apply executePause_run in Hr as (latest' & Hl' & Hv); [|done].
  rewrite Hl in Hl'. injection Hl' as <-. rewrite Hps in Hv.
  destruct Hv as (w1 & ev & w2 & _ & Hev & Hv).
  destruct ev as [e|r].
  - unfold pause_verdict in Hv. apply Z.leb_le in Hout. rewrite Hout in Hv. apply Hv.
  - apply Evaluate_run in Hev as (q & w3 & Hq & _). unfold requestCountQuery in Hq.
    pose proof (promDuration_spec dur) as Hd. destruct (promDuration dur) as [e|s] eqn:E; [done|].
    exfalso. unfold promDuration in E.
    replace (dur <=? 0) with false in E by (symmetry; apply Z.leb_gt; lia).
    unfold go_rem in E. rewrite !Z.rem_mod_nonneg in E by (unfold Second, Millisecond; lia).
    assert (dur mod Second ≠ 0) as Hsec.
    { intros H0. apply Hms. unfold Second, Millisecond in *.
      apply Z.mod_divide in H0 as [k ->]; [|lia]. apply Z.mod_divide; [lia|].
      exists (k * 1000). lia. }
    apply Z.eqb_neq in Hsec, Hms. by rewrite Hsec, Hms in E.
Qed.
End theorems.

(** ** Witnesses: the theorems applied to concrete inputs *)
Section witnesses.
#[local] Existing Instance Ref.core.
#[local] Existing Instance Ref.conditions.
#[local] Existing Instance Ref.conditions_laws.

Definition demo_steps : list CanaryStep :=
  [ {| cs_SetWeight := Some 20; cs_Pause := None |};
    {| cs_SetWeight := None; cs_Pause := Some (60 * Second) |};
    {| cs_SetWeight := Some 100; cs_Pause := None |} ].

Definition demo_rollout (idx weight : Z) (pause : option Z) (steps : list CanaryStep) : AgentDeployment :=
  Build_AgentDeployment (new_meta "agent" "ns" ∅)
    (Ref.spec "img:v1" "team" 1 3 1000
      {| ro_Strategy := "Canary"; ro_Steps := steps; ro_Rollback := Ref.rollback; ro_Abort := false |}
      Ref.no_mcp)
    {| st_Phase := PhaseRolloutInProgress; st_CurrentReplicas := 1; st_StableVersion := "img:v0";
       st_CanaryVersion := "img:v1"; st_CanaryWeight := weight; st_CanaryStepIndex := idx;
       st_PauseStartedAt := pause; st_PromUnreachableSince := None; st_Registered := false;
       st_Conditions := [] |}.

Definition demo_stable : Deployment :=
  {| dep_Meta := new_meta "agent" "ns" ∅; dep_Replicas := Some 2; dep_Selector := ∅;
     dep_TemplateLabels := ∅;
     dep_Containers := [{| ct_Name := "agent"; ct_Image := "img:v0"; ct_Ports := [];
       ct_Resources := spec_Resources (Ref.agent 3 1000); ct_Env := []; ct_Args := [] |}];
     dep_Status := empty_dep_status |}.

(** The cluster of a rollout at time [now], with healthy metrics. *)
Definition rollout_world (now : Z) (ad : AgentDeployment) : world :=
  let w := with_objects [OAgentDeployment ad; ODeployment demo_stable] empty_world in
  {| rw_objects := rw_objects w; rw_writes := rw_writes w; rw_clock := now;
     rw_enforcer := rw_enforcer w; rw_registry := rw_registry w; rw_registrar := rw_registrar w;
     rw_metrics := Some PromRef.healthy; rw_handshake := rw_handshake w; rw_gauge := rw_gauge w |}.

Definition demo_controller : Controller :=
  {| cc_has_registrar := true; cc_GatewayName := "gw"; cc_GatewayNamespace := "gw-ns";
     cc_FailSafeTimeout := 60 * Second |}.

Lemma rollout_world_deletable i wt p st now x :
  nn x = NN "ns" "agent" → canary_deletable x (rollout_world now (demo_rollout i wt p st)).
Proof.
  intros Hn. pose proof (nn_canary (demo_rollout i wt p st) x Hn) as Hc.
  unfold canary_deletable, deletable, k_canary_dep, k_canary_svc, k_route. rewrite Hn, Hc.
  split_and!; intros o Ho; apply rw_store_lookup in Ho as (Ho & _);
    unfold rollout_world, with_objects, put, rw_set_objects in Ho;
    cbn [rw_objects foldr empty_world] in Ho; rewrite !key_stamp in Ho;
    rewrite !lookup_insert_ne, lookup_empty in Ho by discriminate; discriminate.
Qed.

Lemma rollback_restores_stable_witness :
  let ad := demo_rollout 1 20 (Some 0) demo_steps in
  ∃ w' x, Rollback ad "Why" "m" (rollout_world 0 ad) = (inr tt, w') ∧
    stored_ad ad w' = Some x ∧ st_Phase (ad_Status x) = PhaseRolloutFailed.
Proof.
  intros ad. destruct (ok_run (Rollback ad "Why" "m") (rollout_world 0 ad)) as [[] E];
    [vm_compute; reflexivity|].
  destruct (rollback_restores_stable ad "Why" "m" _ _ _ (rollout_world_deletable _ _ _ _ _ ad eq_refl) E)
    as (_ & _ & latest & x & _ & Hx & _ & Hp & _).
  eexists _, x. split; [exact E|]. split; [exact Hx|exact Hp].
Defined.

Lemma promotion_completes_witness :
  let ad := demo_rollout 3 100 None demo_steps in
  ∃ w' x, promote demo_controller ad (rollout_world 0 ad) = (inr tt, w') ∧
    stored_ad ad w' = Some x ∧ st_StableVersion (ad_Status x) = "img:v1".
Proof.
  intros ad. destruct (ok_run (promote demo_controller ad) (rollout_world 0 ad)) as [[] E];
    [vm_compute; reflexivity|].
  destruct (promotion_completes demo_controller ad _ _ _ (rollout_world_deletable _ _ _ _ _ ad eq_refl) E)
    as (_ & _ & latest & x & _ & Hx & _ & _ & Hv & _).
  eexists _, x. split; [exact E|]. split; [exact Hx|exact Hv].
Defined.

Lemma setWeight_splits_traffic_witness :
  let ad := demo_rollout 0 0 None demo_steps in
  ∃ res w' r, executeSetWeight demo_controller ad 0 20 (rollout_world 0 ad) = (inr res, w') ∧
    store w' !! k_route ad = Some (OHTTPRoute r).
Proof.
  intros ad. destruct (ok_run (executeSetWeight demo_controller ad 0 20) (rollout_world 0 ad)) as [res E];
    [vm_compute; reflexivity|].
  destruct (setWeight_splits_traffic demo_controller ad 0 20 _ _ _ ltac:(lia) E)
    as (_ & (r & stable & Hr & _) & _).
  eexists res, _, r. split; [exact E|exact Hr].
Defined.

(** The object as stored, and the status it has there. *)
Definition stored_demo (now : Z) (ad : AgentDeployment) : AgentDeployment :=
  default ad (stored_ad ad (rollout_world now ad)).

Lemma stored_demo_spec now i wt p st :
  let ad := demo_rollout i wt p st in
  stored_ad ad (rollout_world now ad) = Some (stored_demo now ad) ∧
  ad_Status (stored_demo now ad) = ad_Status ad ∧ ad_Spec (stored_demo now ad) = ad_Spec ad ∧
  nn (stored_demo now ad) = nn ad.
Proof.
  intros ad. unfold stored_demo.
  assert (∃ m, stored_ad ad (rollout_world now ad) = Some (with_meta m ad) ∧ om_key m = nn ad)
    as (m & -> & Hm); [|by subst ad].
  eexists. rewrite stored_ad_Some. split; [apply rw_store_lookup; split|].
  - unfold rollout_world, with_objects, put, rw_set_objects. cbn [rw_objects foldr empty_world].
    rewrite !key_stamp. rewrite lookup_insert_eq. reflexivity.
  - by subst ad.
  - by subst ad.
Qed.

Lemma pause_decision_witness :
  let ad := demo_rollout 1 20 (Some 0) demo_steps in
  ∃ res w' latest, executePause demo_controller ad 1 (60 * Second) (rollout_world (60 * Second) ad)
    = (inr res, w') ∧ stored_ad ad (rollout_world (60 * Second) ad) = Some latest.
Proof.
  intros ad. destruct (ok_run (executePause demo_controller ad 1 (60 * Second))
    (rollout_world (60 * Second) ad)) as [res E]; [vm_compute; reflexivity|].
  destruct (pause_decision demo_controller ad 1 (60 * Second) _ _ _
    (rollout_world_deletable _ _ _ _ _ ad eq_refl) E) as (latest & Hl & Hv).
  eexists res, _, latest. split; [exact E|exact Hl].
Defined.

Lemma some_run {A} (o : option A) (P : A → bool) :
  match o with Some x => P x | None => false end = true → ∃ x, o = Some x ∧ P x = true.
Proof. destruct o as [x|]; [by exists x|done]. Qed.

Lemma pause_advances_only_when_healthy_witness :
  let ad := demo_rollout 1 20 (Some 0) demo_steps in
  let latest := stored_demo (60 * Second) ad in
  ∃ started result w1 w2, st_PauseStartedAt (ad_Status latest) = Some started ∧
    Evaluate latest (60 * Second) w1 = (inr result, w2) ∧ ev_ThresholdBreached result = false.
Proof.
  intros ad latest. set (w := rollout_world (60 * Second) ad).
  destruct (ok_run (executePause demo_controller ad 1 (60 * Second)) w) as [res E];
    [vm_compute; reflexivity|].
  destruct (some_run (stored_ad ad (executePause demo_controller ad 1 (60 * Second) w).2)
    (λ x, 1 <? st_CanaryStepIndex (ad_Status x))) as (x & Hx & Hlt); [vm_compute; reflexivity|].
  destruct (stored_demo_spec (60 * Second) 1 20 (Some 0) demo_steps) as (Hst & Hs & _).
  assert (Hs' : ad_Status latest = ad_Status ad) by exact Hs.
  destruct (pause_advances_only_when_healthy demo_controller ad (60 * Second) w res
    (executePause demo_controller ad 1 (60 * Second) w).2 latest x)
    as (started & result & w1 & w2 & Hp & Hev & Hb & _).
  - apply rollout_world_deletable. reflexivity.
  - exact Hst.
  - rewrite Hs'. discriminate.
  - rewrite Hs'. exact E.
  - exact Hx.
  - rewrite Hs'. apply Z.ltb_lt. exact Hlt.
  - exists started, result, w1, w2. split; [exact Hp|]. split; [exact Hev|exact Hb].
Defined.

Lemma Step_state_machine_witness :
  let ad := stored_demo 0 (demo_rollout 0 0 None demo_steps) in
  ∃ x w', stored_ad ad w' = Some x ∧ step_outcome ad x.
Proof.
  intros ad. set (w := rollout_world 0 (demo_rollout 0 0 None demo_steps)).
  destruct (stored_demo_spec 0 0 0 None demo_steps) as (Hst & Hs & Hsp & Hn).
  destruct (ok_run (Step demo_controller ad) w) as [res E]; [vm_compute; reflexivity|].
  destruct (λ H1 H2 H3, Step_state_machine demo_controller ad w res _ H1 H2 H3 E) as (x & Hx & Ho).
  - apply rollout_world_deletable. exact Hn.
  - unfold stored_ad, k_ad. change (nn ad) with (nn (stored_demo 0 (demo_rollout 0 0 None demo_steps))).
    rewrite Hn. exact Hst.
  - unfold in_rollout, ad. rewrite Hs, Hsp. split; [reflexivity|]. split; [|reflexivity].
    split; discriminate.
  - eexists x, _. split; [exact Hx|exact Ho].
Defined.

Lemma rw_Get_world {A} `{!Resource A} k (w : world) r w1 : Get (A := A) k w = (r, w1) → w1 = w.
Proof.
  unfold Get, mbind, Proc_bind, of_object; simpl. unfold rw_get.
  destruct (rw_store w !! _) as [o|]; [|by intros [= _ <-]].
  destruct (prj o); by intros [= _ <-].
Qed.

Lemma pause_is_bounded_witness :
  let ad := demo_rollout 1 20 (Some 0) demo_steps in
  ∃ w', rolled_back ad "ThresholdBreached" w' ∨
    ∃ x, stored_ad ad w' = Some x ∧ advances (stored_demo (15 * Minute) ad) 1 x.
Proof.
  intros ad. set (w := rollout_world (15 * Minute) ad).
  destruct (ok_run (executePause demo_controller ad 1 (60 * Second)) w) as [res E];
    [vm_compute; reflexivity|].
  destruct (stored_demo_spec (15 * Minute) 1 20 (Some 0) demo_steps) as (Hst & Hs & _).
  eexists. refine (pause_is_bounded demo_controller ad 1 (60 * Second) w res _ _ 0 _ _ _ _ _ E).
  - apply rollout_world_deletable. reflexivity.
  - exact Hst.
  - exact (f_equal st_PauseStartedAt Hs).
  - vm_compute. discriminate.
  - intros w1 ->%rw_Get_world.
    destruct (ok_run (Evaluate (stored_demo (15 * Minute) ad) (60 * Second)) w) as [r Hr];
      [vm_compute; reflexivity|]. eexists r, _. exact Hr.
Defined.

Lemma subms_pause_always_unreachable_witness :
  let ad := demo_rollout 1 20 (Some 0) demo_steps in
  ∃ w', rolled_back ad "PrometheusUnavailable" w'.
Proof.
  intros ad. set (w := rollout_world (60 * Second) ad).
  set (c := {| cc_has_registrar := true; cc_GatewayName := "gw"; cc_GatewayNamespace := "gw-ns";
     cc_FailSafeTimeout := 0 |}).
  destruct (ok_run (executePause c ad 1 (60 * Second + 500)) w) as [res E]; [vm_compute; reflexivity|].
  destruct (stored_demo_spec (60 * Second) 1 20 (Some 0) demo_steps) as (Hst & Hs & _).
  eexists.
  refine (subms_pause_always_unreachable c ad 1 (60 * Second + 500) w res _ _ 0 _ _ _ Hst _ _ E).
  - reflexivity.
  - vm_compute. discriminate.
  - apply rollout_world_deletable. reflexivity.
  - exact (f_equal st_PauseStartedAt Hs).
  - unfold outage. change (stored_demo (60 * Second) ad) with
      (stored_demo (60 * Second) (demo_rollout 1 20 (Some 0) demo_steps)). rewrite Hs. discriminate.
Defined.

(** *** A whole rollout

    The reconciler visits the rollout and waits as long as it was told to. *)
Fixpoint drive (visits : nat) (ad : AgentDeployment) (w : world) : world :=
  match visits with
  | O => w
  | S n =>
      match stored_ad ad w with
      | Some x =>
          if st_Phase (ad_Status x) =s? PhaseRolloutInProgress then
            match Step demo_controller x w with
            | (inr r, w') => drive n ad (rw_set_clock (rw_clock w' + RequeueAfter r) w')
            | (inl _, w') => w'
            end
          else w
      | None => w
      end
  end.

Definition set_metrics (m : option PromRef.metrics) (w : world) : world :=
  {| rw_objects := rw_objects w; rw_writes := rw_writes w; rw_clock := rw_clock w;
     rw_enforcer := rw_enforcer w; rw_registry := rw_registry w; rw_registrar := rw_registrar w;
     rw_metrics := m; rw_handshake := rw_handshake w; rw_gauge := rw_gauge w |}.

(** What the cluster looks like in the end: phase, stable version, image of the
    stable Deployment, and whether a canary Deployment is left. *)
Definition summary (ad : AgentDeployment) (w : world)
    : option (string * string) * option string * bool :=
  (match stored_ad ad w with
   | Some x => Some (st_Phase (ad_Status x), st_StableVersion (ad_Status x))
   | None => None
   end,
   match store w !! k_dep ad with Some (ODeployment d) => dep_image d | _ => None end,
   bool_decide (is_Some (store w !! k_canary_dep ad))).

(** End to end: five visits take a rollout of 20%, a one-minute pause and
    100% to promotion when the canary is healthy; when its error rate is 3%
    against a limit of 2%, or Prometheus stays silent for the fail-safe
    timeout, the rollout ends on the stable image. *)
Theorem rollout_end_to_end :
  let ad := demo_rollout 0 0 None demo_steps in
  let w := rollout_world 0 ad in
  let failing := {| PromRef.count := f64_of_Z 200; PromRef.errors := f64_of_decimal false 3 (-2);
                    PromRef.p99 := f64_of_Z 80 |} in
  summary ad (drive 5 ad w) = (Some (PhaseRunning, "img:v1"), Some "img:v1", false) ∧
  summary ad (drive 5 ad (set_metrics (Some failing) w)) =
    (Some (PhaseRolloutFailed, "img:v0"), Some "img:v0", false) ∧
  summary ad (drive 9 ad (set_metrics None w)) =
    (Some (PhaseRolloutFailed, "img:v0"), Some "img:v0", false).
Proof. vm_compute. split; [reflexivity|]. split; reflexivity. Qed.
End witnesses.
