(* ===== verification/CanaryLiveness.v ===== *)
(** Every rollout ends: the visits of the reconciler to a rollout in progress
    are bounded by a number that depends on the steps of the rollout, the
    fail-safe timeout and the time between visits only.

    The argument is a measure on the stored object and the clock: it counts the
    steps that are left, the time a pause may still be extended and the time an
    outage of Prometheus is still tolerated, and every visit that leaves the
    rollout in progress decreases it. *)
From S2P Require Import Prelude Types Objects Scaling GoFloat Enforcer Cluster PromQL Registry Registrar.
From S2P Require Import RefWorld RegistryProps RegistrarProps Canary CanaryProps.

Lemma wire_time_le t : wire_time t ≤ t.
Proof. unfold wire_time. pose proof (Z.mul_div_le t Second). unfold Second in *. lia. Qed.

(** ** The timers of a pause *)
Section timers.
Context {CT : CoreTypes} {CA : ConditionsAPI} {CL : ConditionsLaws} {W : Type}
  {KC : KubeClient W} {KL : KubeLaws} {PR : Prometheus W} {PL : PrometheusLaws}
  {AR : AgentRegistrar W} {AL : AgentRegistrarLaws}.
Implicit Types (ad latest x : AgentDeployment) (w : W) (c : Controller).

Definition started ad : option Z := st_PauseStartedAt (ad_Status ad).
Definition unreachable ad : option Z := st_PromUnreachableSince (ad_Status ad).

(** [a] is not later than [b], where both are set. *)
Definition not_later (a b : option Z) : Prop :=
  match a, b with Some s, Some t => s ≤ t | None, None => True | _, _ => False end.

Lemma not_later_refl a : not_later a a.
Proof. by destruct a; simpl. Qed.
Lemma not_later_trans a b d : not_later a b → not_later b d → not_later a d.
Proof. destruct a, b, d; simpl; lia || done. Qed.
Lemma not_later_wire a : not_later (wire_time <$> a) a.
Proof. destruct a; simpl; [apply wire_time_le|done]. Qed.

(** A pause goes on from [latest] to [x] at [now]: because it has started just
    now, because it had time left, or because Prometheus did not answer and the
    fail-safe has time left. *)
Definition pause_goes_on c dur now latest x : Prop :=
  match started latest with
  | None => not_later (started x) (Some now) ∧ not_later (unreachable x) (unreachable latest)
  | Some t => not_later (started x) (Some t) ∧
      ((unreachable x = None ∧ time_Sub now t < Z.max dur (15 * Minute)) ∨
       (outage latest now < cc_FailSafeTimeout c ∧
        not_later (unreachable x) (Some (default now (unreachable latest)))))
  end.

(** Same spec, same index. *)
Definition same_step latest x : Prop :=
  ad_Spec x = ad_Spec latest ∧
  st_CanaryStepIndex (ad_Status x) = st_CanaryStepIndex (ad_Status latest).

Lemma clear_unreachable_timers ad latest w x w' :
  store w !! k_ad ad = Some (OAgentDeployment latest) →
  clear_unreachable latest w = (inr x, w') →
  same_step latest x ∧ unreachable x = None ∧ not_later (started x) (started latest).
Proof.
  intros Hl. unfold clear_unreachable. case_match.
  - intros Hu%wrap_err_inr. eapply (status_update_run ad) in Hu as (_ & Hsp & Hst & _); [|exact Hl].
    unfold unreachable, started, same_step. rewrite Hst. split; [done|]. split; [done|].
    apply not_later_wire.
  - intros Hr. run. split; [done|]. split; [done|apply not_later_refl].
Qed.

(** An object in progress was not rolled back. *)
Lemma in_progress_not_rolled_back ad reason w x :
  store w !! k_ad ad = Some (OAgentDeployment x) →
  st_Phase (ad_Status x) = PhaseRolloutInProgress → ¬ rolled_back ad reason w.
Proof.
  intros Hx Hph (_ & _ & _ & z & cond & Hz & Hp & _). rewrite stored_ad_Some, Hx in Hz.
  injection Hz as <-. by rewrite Hph in Hp.
Qed.

(** Prometheus did not answer: the outage is recorded, or was before. *)
Lemma prom_unreachable_timers c ad latest now w res w' x :
  canary_deletable ad w → store w !! k_ad ad = Some (OAgentDeployment latest) →
  prom_unreachable c latest now w = (inr res, w') →
  store w' !! k_ad ad = Some (OAgentDeployment x) →
  st_Phase (ad_Status x) = PhaseRolloutInProgress →
  same_step latest x ∧ not_later (started x) (started latest) ∧
  outage latest now < cc_FailSafeTimeout c ∧
  not_later (unreachable x) (Some (default now (unreachable latest))).
Proof.
  intros Hdel Hl Hr Hx Hph. unfold prom_unreachable, outage, unreachable in *.
  pose proof (λ reason, in_progress_not_rolled_back ad reason w' x Hx Hph) as Hnorb.
  destruct (st_PromUnreachableSince (ad_Status latest)) as [since|] eqn:Hu.
  - rewrite (bind_step (mret (latest, now)) _ w (latest, now) w) in Hr by done. rewrite Hu in Hr.
    destruct (cc_FailSafeTimeout c <=? _) eqn:Hf.
    + apply bind_inr in Hr as ([] & w1 & Hrb & Hr). run. exfalso. eapply Hnorb, Rollback_rolled_back;
        [exact (stored_nn _ _ _ Hl)|done|exact Hrb].
    + run. zbool. rewrite Hu. split; [done|].
      split; [apply not_later_refl|]. split; [done|]. simpl. lia.
  - apply bind_inr in Hr as ([y now'] & w1 & (z & w2 & Hsu%wrap_err_inr & Hret)%bind_inr & Hr). run.
    eapply (status_update_run ad) in Hsu as (Hs1 & Hsp & Hst & Hxn); [|exact Hl].
    rewrite Hst in Hr. simpl in Hr. rewrite time_Sub_self in Hr.
    destruct (cc_FailSafeTimeout c <=? 0) eqn:Hf.
    + apply bind_inr in Hr as ([] & w3 & Hrb & Hr). injection Hr as <- <-. exfalso.
      eapply Hnorb, Rollback_rolled_back; [exact Hxn|by eapply with_ad_deletable|exact Hrb].
    + run. zbool. rewrite Hs1, lookup_insert_eq in Hx. injection Hx as <-.
      unfold started, same_step. rewrite Hst. split; [done|].
      split; [apply not_later_wire|]. split; [lia|apply wire_time_le].
Qed.

(** The end of a visit that may or may not end the pause. *)
Lemma finish_pause_timers ad latest idx elapsed dur w res w' x :
  store w !! k_ad ad = Some (OAgentDeployment latest) →
  finish_pause latest idx elapsed dur w = (inr res, w') →
  store w' !! k_ad ad = Some (OAgentDeployment x) →
  x = latest ∧ elapsed < dur ∨
  ad_Spec x = ad_Spec latest ∧ st_CanaryStepIndex (ad_Status x) = idx + 1 ∧ started x = None ∧
    unreachable x = wire_time <$> unreachable latest.
Proof.
  intros Hl. unfold finish_pause. case_match.
  - intros Hr Hx. run. zbool. by left.
  - intros (y & w1 & Hu%wrap_err_inr & Hr)%bind_inr Hx. injection Hr as <- <-.
    eapply (status_update_run ad) in Hu as (Hs & Hsp & Hst & _); [|exact Hl].
    rewrite Hs, lookup_insert_eq in Hx. injection Hx as <-. right.
    unfold started, unreachable. by rewrite Hst.
Qed.

(** What a visit to a pause leaves when the rollout goes on: the same step with
    its timers, or the next step without any. *)
Definition pause_left_at c dur idx now latest x : Prop :=
  ad_Spec x = ad_Spec latest ∧
  (st_CanaryStepIndex (ad_Status x) = st_CanaryStepIndex (ad_Status latest) ∧
     pause_goes_on c dur now latest x ∨
   st_CanaryStepIndex (ad_Status x) = idx + 1 ∧ started x = None ∧ unreachable x = None).

(** The evaluation passed. *)
Lemma evaluated_timers c ad dur idx now latest y w res w' x t (b : bool) :
  started latest = Some t → same_step latest y → unreachable y = None → not_later (started y) (Some t) →
  store w !! k_ad ad = Some (OAgentDeployment y) →
  (if b && (time_Sub now t <? maxWait dur) then
     if dur =? 0 then panic "integer divide by zero" else
     mret (requeue_after (int64 (dur - go_rem (time_Sub now t) dur)))
   else finish_pause y idx (time_Sub now t) dur) w = (inr res, w') →
  store w' !! k_ad ad = Some (OAgentDeployment x) →
  pause_left_at c dur idx now latest x.
Proof.
  intros Ht [Hsp Hi] Hu Hs Hy Hr Hx. pose proof (maxWait_le dur) as Hmw.
  unfold pause_left_at, pause_goes_on. rewrite Ht.
  destruct (b && (time_Sub now t <? maxWait dur)) eqn:Hb.
  - apply andb_true_iff in Hb as [_ Hw%Z.ltb_lt]. destruct (dur =? 0); [done|].
    injection Hr as <- <-. rewrite Hy in Hx. injection Hx as <-. split; [done|]. left. split; [done|].
    split; [done|]. left. split; [done|lia].
  - eapply finish_pause_timers in Hr as [[-> Hlt]|(E1 & E2 & E3 & E4)]; [| |exact Hy|exact Hx].
    + split; [done|]. left. split; [done|]. split; [done|]. left. split; [done|lia].
    + split; [congruence|]. right. rewrite Hu in E4. auto.
Qed.

Lemma executePause_timers c ad idx dur w res w' latest x :
  executePause c ad idx dur w = (inr res, w') → canary_deletable ad w →
  stored_ad ad w = Some latest → stored_ad ad w' = Some x →
  st_Phase (ad_Status x) = PhaseRolloutInProgress →
  pause_left_at c dur idx (clock w) latest x.
Proof.
  intros Hr Hdel Hl Hx Hph. rewrite stored_ad_Some in Hl, Hx.
  pose proof (λ reason, in_progress_not_rolled_back ad reason w' x Hx Hph) as Hnorb.
  unfold executePause in Hr. rewrite (bind_step Now _ w (clock w) w) in Hr by done.
  apply bind_inr in Hr as (y & w1 & [Hs1 Hy]%wrap_err_inr%Get_inr & Hr).
  change (kind (A := AgentDeployment), nn ad) with (k_ad ad) in Hy.
  rewrite Hl in Hy. injection Hy as <-.
  destruct (st_PauseStartedAt (ad_Status latest)) as [t|] eqn:Hps; cycle 1.
  { apply bind_inr in Hr as (z & w2 & Hu%wrap_err_inr & Hr). injection Hr as <- <-.
    eapply (status_update_run ad) in Hu as (Hs & Hsp & Hst & _); [|by rewrite Hs1].
    rewrite Hs, lookup_insert_eq in Hx. injection Hx as <-.
    unfold pause_left_at, pause_goes_on, started, unreachable. rewrite Hps, Hst.
    split; [done|]. left. split; [done|]. split; [apply wire_time_le|apply not_later_wire]. }
  apply bind_inr in Hr as (ev & w2 & (y & [= ->] & Hev)%try_inv & Hr).
  apply Evaluate_store in Hev as Hs2. rewrite Hs1 in Hs2.
  assert (Hl2 : store w2 !! k_ad ad = Some (OAgentDeployment latest)) by (by rewrite Hs2).
  assert (Hdel2 : canary_deletable ad w2) by (by eapply deletable_eq).
  destruct y as [e|r].
  { eapply prom_unreachable_timers in Hr as ([E1 E2] & H1 & H2 & H3); try done.
    unfold pause_left_at, pause_goes_on, started in *. rewrite Hps in *. auto 10. }
  apply bind_inr in Hr as (y & w3 & Hc & Hr).
  pose proof (clear_unreachable_timers _ _ _ _ _ Hl2 Hc) as (Hsy & Hu & Hst).
  eapply clear_unreachable_run in Hc; [|done|by rewrite Hps]. pose proof Hc as (Hl3 & _ & _).
  unfold started at 2 in Hst. rewrite Hps in Hst.
  destruct (ev_ThresholdBreached r).
  { apply bind_inr in Hr as ([] & w4 & Hrb & Hr). injection Hr as <- <-. exfalso.
    eapply Hnorb, Rollback_rolled_back;
      [exact (stored_nn _ _ _ Hl3)|by eapply at_step_deletable|exact Hrb]. }
  destruct (ev_SampleTooSmall r).
  - apply bind_inr in Hr as (z & w4 & Hup%wrap_err_inr & Hr).
    eapply (status_update_run ad) in Hup as (Hs4 & Hsp4 & Hst4 & _); [|exact Hl3].
    eapply (evaluated_timers c ad dur idx (clock w) latest z w4 res w' x t true); try done.
    + destruct Hsy as [E1 E2]. unfold same_step. rewrite Hst4. by rewrite Hsp4.
    + unfold unreachable in *. rewrite Hst4; simpl. by rewrite Hu.
    + unfold started in *. rewrite Hst4. eapply not_later_trans; [apply not_later_wire|exact Hst].
    + by rewrite Hs4, lookup_insert_eq.
  - by eapply (evaluated_timers c ad dur idx (clock w) latest y w3 res w' x t false).
Qed.
End timers.

(** ** The measure *)

(** The number of intervals of [d] that cover the time [t]. *)
Definition ticks (d t : Z) : Z := Z.max 0 ((t + d - 1) / d).

Lemma ticks_nonneg d t : 0 ≤ ticks d t.
Proof. unfold ticks. lia. Qed.

Lemma ticks_mono d t t' : 0 < d → t' ≤ t → ticks d t' ≤ ticks d t.
Proof.
  intros Hd Ht. unfold ticks. assert ((t' + d - 1) / d ≤ (t + d - 1) / d) by (apply Z.div_le_mono; lia). lia.
Qed.

(** Time that is left goes down by one interval when one has passed. *)
Lemma ticks_pass d t t' : 0 < d → 0 < t → t' ≤ t - d → ticks d t' + 1 ≤ ticks d t.
Proof.
  intros Hd Hp Ht. unfold ticks.
  assert ((t' + d - 1) / d ≤ (t - d + d - 1) / d) by (apply Z.div_le_mono; lia).
  replace (t + d - 1) with ((t - d + d - 1) + 1 * d) by lia. rewrite Z.div_add by lia.
  assert (0 ≤ (t - d + d - 1) / d); [|lia]. apply Z.div_pos; lia.
Qed.

Section measure.
Context `{CoreTypes} (c : Controller) (delta : Z) (Hdelta : 0 < delta).
Implicit Types (x y : AgentDeployment) (now : Z).

(** The longest a pause of this duration waits for Prometheus to answer. *)
Definition longest_pause (dur : Z) : Z := Z.max dur (15 * Minute).

(** Visits an outage is tolerated for. *)
Definition outage_visits : Z := ticks delta (cc_FailSafeTimeout c) + 1.

Definition outage_left x now : Z :=
  match unreachable x with
  | None => outage_visits
  | Some since => ticks delta (since + cc_FailSafeTimeout c - now)
  end.

Definition pause_visits (dur : Z) : Z :=
  ticks delta (longest_pause dur) * (outage_visits + 1) + outage_visits + 2.

Definition pause_left (dur : Z) x now : Z :=
  match started x with
  | None => pause_visits dur
  | Some t => ticks delta (t + longest_pause dur - now) * (outage_visits + 1) + outage_left x now + 1
  end.

Definition step_visits (step : CanaryStep) : Z :=
  match cs_SetWeight step, cs_Pause step with
  | None, Some dur => pause_visits dur
  | _, _ => 1
  end.

Definition step_left (step : CanaryStep) x now : Z :=
  match cs_SetWeight step, cs_Pause step with
  | None, Some dur => pause_left dur x now
  | _, _ => 1
  end.

Definition steps_of x : list CanaryStep := ro_Steps (spec_Rollout (ad_Spec x)).
Definition index_of x : nat := Z.to_nat (st_CanaryStepIndex (ad_Status x)).

(** The visits the rollout [x] can still have, promotion included. *)
Definition visits_left x now : Z :=
  match drop (index_of x) (steps_of x) with
  | [] => 1
  | step :: rest => step_left step x now + Zsum (step_visits <$> rest) + 1
  end.

(** A bound that does not look at the clock. *)
Definition visits_bound x : Z := Zsum (step_visits <$> drop (index_of x) (steps_of x)) + 1.

(** No timer was started in the future. *)
Definition timely x now : Prop :=
  (∀ t, started x = Some t → t ≤ now) ∧ (∀ t, unreachable x = Some t → t ≤ now).

Lemma outage_visits_pos : 1 ≤ outage_visits.
Proof. unfold outage_visits. pose proof (ticks_nonneg delta (cc_FailSafeTimeout c)). lia. Qed.

Lemma outage_left_bounds x now : timely x now → 0 ≤ outage_left x now ≤ outage_visits.
Proof using Hdelta.
  intros [_ Hu]. unfold outage_left. pose proof outage_visits_pos.
  destruct (unreachable x) as [s|]; [|lia]. specialize (Hu s eq_refl). split; [apply ticks_nonneg|].
  pose proof (ticks_mono delta (cc_FailSafeTimeout c) (s + cc_FailSafeTimeout c - now) Hdelta ltac:(lia)).
  unfold outage_visits. lia.
Qed.

Lemma pause_left_bounds dur x now : timely x now → 1 ≤ pause_left dur x now ≤ pause_visits dur.
Proof using Hdelta.
  intros Ht. pose proof (outage_left_bounds x now Ht). pose proof outage_visits_pos.
  unfold pause_left, pause_visits. pose proof (ticks_nonneg delta (longest_pause dur)).
  destruct (started x) as [t|] eqn:E; [|nia]. destruct Ht as [Ht _]. specialize (Ht t E).
  pose proof (ticks_nonneg delta (t + longest_pause dur - now)).
  pose proof (ticks_mono delta (longest_pause dur) (t + longest_pause dur - now) Hdelta ltac:(lia)). nia.
Qed.

Lemma step_left_bounds step x now : timely x now → 1 ≤ step_left step x now ≤ step_visits step.
Proof using Hdelta.
  intros Ht. unfold step_left, step_visits.
  destruct (cs_SetWeight step), (cs_Pause step) as [dur|]; try lia. by apply pause_left_bounds.
Qed.

Lemma visits_left_bound x now : timely x now → 1 ≤ visits_left x now ≤ visits_bound x.
Proof using Hdelta.
  intros Ht. unfold visits_left, visits_bound.
  destruct (drop (index_of x) (steps_of x)) as [|step rest]; [simpl; lia|].
  rewrite Zsum_fmap_cons. pose proof (step_left_bounds step x now Ht).
  assert (0 ≤ Zsum (step_visits <$> rest)); [|lia]. apply Zsum_fmap_nonneg. apply Forall_forall.
  intros s _. unfold step_visits, pause_visits. pose proof outage_visits_pos.
  repeat case_match; try lia. pose proof (ticks_nonneg delta (longest_pause z)). nia.
Qed.

Lemma time_Sub_lt a b k : k ≤ MaxInt64 → time_Sub a b < k → a - b < k.
Proof. unfold time_Sub. lia. Qed.

(** A pause that goes on has fewer visits left at the next one. *)
Lemma pause_left_decreases dur x x' now now' :
  dur ≤ MaxInt64 → cc_FailSafeTimeout c ≤ MaxInt64 →
  now + delta ≤ now' → timely x' now' → pause_goes_on c dur now x x' →
  pause_left dur x' now' + 1 ≤ pause_left dur x now.
Proof using Hdelta.
  intros Hdur HF Hnow Ht' Hg. pose proof (outage_left_bounds x' now' Ht') as Ho'.
  pose proof outage_visits_pos as HA. unfold pause_goes_on in Hg.
  destruct (started x) as [t|] eqn:Es.
  - destruct Hg as [Hst Hg]. unfold pause_left at 2. rewrite Es.
    destruct (started x') as [t'|] eqn:Es'; [|done]. simpl in Hst. unfold pause_left. rewrite Es'.
    destruct Hg as [[Hu Hlt]|[Hout Hu]].
    + apply time_Sub_lt in Hlt; [|unfold Minute, Second, MaxInt64 in *; lia]. fold (longest_pause dur) in Hlt.
      pose proof (ticks_pass delta (t + longest_pause dur - now) (t' + longest_pause dur - now')
        Hdelta ltac:(lia) ltac:(lia)).
      assert (0 ≤ outage_left x now).
      { unfold outage_left. case_match; [apply ticks_nonneg|lia]. } nia.
    + pose proof (ticks_mono delta (t + longest_pause dur - now) (t' + longest_pause dur - now')
        Hdelta ltac:(lia)).
      assert (outage_left x' now' + 1 ≤ outage_left x now); [|nia].
      unfold outage_left, outage in *. destruct (unreachable x') as [s'|]; [|done]. simpl in Hu.
      unfold unreachable in *. destruct (st_PromUnreachableSince (ad_Status x)) as [s|]; simpl in Hu.
      * apply time_Sub_lt in Hout; [|done]. apply ticks_pass; lia.
      * unfold outage_visits.
        pose proof (ticks_mono delta (cc_FailSafeTimeout c) (s' + cc_FailSafeTimeout c - now')
          Hdelta ltac:(lia)). lia.
  - destruct Hg as [Hst _]. unfold pause_left at 2. rewrite Es. unfold pause_left, pause_visits.
    destruct (started x') as [t'|] eqn:Es'; [|done]. simpl in Hst.
    pose proof (ticks_mono delta (longest_pause dur) (t' + longest_pause dur - now') Hdelta ltac:(lia)).
    nia.
Qed.
End measure.

(** ** Visits *)
Section visits.
Context {CT : CoreTypes} {CA : ConditionsAPI} {CL : ConditionsLaws} {W : Type}
  {KC : KubeClient W} {KL : KubeLaws} {PR : Prometheus W} {PL : PrometheusLaws}
  {AR : AgentRegistrar W} {AL : AgentRegistrarLaws}.
Context (c : Controller) (delta : Z).
Implicit Types (ad x y : AgentDeployment) (w : W).

(** The instant a visit reads the clock, after its self-healing. *)
Definition visit_time x w : Z := clock (self_heal c x w).2.

(** A visit that leaves the rollout in progress moves to the next step or goes
    on with a pause. *)
Lemma Step_goes_on x w res w' x' :
  canary_deletable x w → stored_ad x w = Some x → in_rollout x →
  Step c x w = (inr res, w') → stored_ad x w' = Some x' →
  st_Phase (ad_Status x') = PhaseRolloutInProgress →
  ∃ step, steps_of x !! index_of x = Some step ∧ ad_Spec x' = ad_Spec x ∧
    (st_CanaryStepIndex (ad_Status x') = st_CanaryStepIndex (ad_Status x) + 1 ∧
       started x' = None ∧ (unreachable x' = None ∨ not_later (unreachable x') (unreachable x)) ∨
     st_CanaryStepIndex (ad_Status x') = st_CanaryStepIndex (ad_Status x) ∧
       cs_SetWeight step = None ∧
       ∃ dur, cs_Pause step = Some dur ∧ pause_goes_on c dur (visit_time x w) x x').
Proof.
  intros Hdel Hst Hin Hr Hx' Hph. pose proof Hx' as Hsx. rewrite stored_ad_Some in Hsx.
  pose proof (λ reason, in_progress_not_rolled_back x reason w' x' Hsx Hph) as Hnorb.
  unfold Step in Hr. unfold visit_time.
  apply bind_inr in Hr as ([] & w1 & Hheal & Hr). rewrite Hheal. cbn [snd].
  pose proof (self_heal_deletable _ _ _ _ _ Hheal Hdel) as Hdel1.
  assert (Hst1 : stored_ad x w1 = Some x).
  { rewrite <- Hst. apply stored_ad_frame. eapply self_heal_run; [exact Hheal|].
    rewrite !not_elem_of_cons. split_and!; try discriminate. apply not_elem_of_nil. }
  pose proof Hin as (_ & Hi & _). cbv zeta in Hr.
  destruct (Z.of_nat _ <=? st_CanaryStepIndex (ad_Status x)) eqn:Hlen; zbool.
  { apply bind_inr in Hr as ([] & w2 & Hp & Hr). injection Hr as <- <-. destruct Hdel1 as (?&?&?).
    apply promote_run in Hp as (_ & _ & _ & latest & z & _ & Hz & _ & Hpr); [|done..].
    rewrite Hsx in Hz. injection Hz as <-. destruct Hpr as [Hp _]. by rewrite Hph in Hp. }
  destruct (st_CanaryStepIndex (ad_Status x) <? 0) eqn:Hneg; zbool; [lia|].
  destruct (ro_Steps (spec_Rollout (ad_Spec x)) !! _) as [step|] eqn:Hstep; [|by run].
  exists step. split; [done|].
  destruct (cs_SetWeight step) as [weight|] eqn:Hsw; [|destruct (cs_Pause step) as [dur|]].
  - apply executeSetWeight_run in Hr as (_ & _ & _ & _ & (latest & z & Hl & Hz & Hsp & Hsz) & _).
    rewrite Hst1 in Hl. injection Hl as <-. rewrite Hx' in Hz. injection Hz as <-.
    split; [done|]. left. unfold started, unreachable. rewrite Hsz. split; [done|]. split; [done|].
    right. apply not_later_wire.
  - eapply executePause_timers in Hr as [Hsp [[Hix Hg]|(Hix & Hs & Hu)]]; [| |done|exact Hst1|done|done].
    + split; [done|]. right. eauto.
    + split; [done|]. left. auto.
  - apply bind_inr in Hr as ([] & w2 & Hrb & Hr). injection Hr as <- <-. exfalso.
    eapply Hnorb, Rollback_rolled_back; [reflexivity|done|exact Hrb].
Qed.

(** Between two visits other controllers and the API server may write, but the
    rollout stays as the visit left it. *)
Definition same_rollout x y : Prop :=
  ad_Spec y = ad_Spec x ∧ st_Phase (ad_Status y) = st_Phase (ad_Status x) ∧
  st_CanaryStepIndex (ad_Status y) = st_CanaryStepIndex (ad_Status x) ∧
  st_CanaryWeight (ad_Status y) = st_CanaryWeight (ad_Status x) ∧
  started y = started x ∧ unreachable y = unreachable x.

(** A visit to the rollout of [ad] in progress at [w] that returns without
    error, and the time until the next one, at [w2]. *)
Inductive next_visit ad w w2 : Prop :=
  Next x res w1 x1 y :
    stored_ad ad w = Some x → st_Phase (ad_Status x) = PhaseRolloutInProgress →
    Step c x w = (inr res, w1) → stored_ad ad w1 = Some x1 →
    stored_ad ad w2 = Some y → same_rollout x1 y → canary_deletable ad w2 →
    visit_time x w + delta ≤ visit_time y w2 → next_visit ad w w2.

(** [n] visits in a row. *)
Inductive visited ad : W → nat → W → Prop :=
  | visited_none w : visited ad w 0 w
  | visited_next w w1 n w2 : next_visit ad w w1 → visited ad w1 n w2 → visited ad w (S n) w2.

(** The rollout of [ad] at [w]. *)
Definition rolling ad x w : Prop :=
  stored_ad ad w = Some x ∧ canary_deletable ad w ∧ in_rollout x ∧ timely x (visit_time x w) ∧
  Forall (λ s, default 0 (cs_Pause s) ≤ MaxInt64) (steps_of x).

Definition ended x : Prop :=
  st_Phase (ad_Status x) = PhaseRunning ∨ st_Phase (ad_Status x) = PhaseRolloutFailed.

(** Keys and deletability do not depend on which copy of the object is used. *)
Lemma stored_self ad x w : stored_ad ad w = Some x → k_ad x = k_ad ad ∧
  (canary_deletable ad w → canary_deletable x w).
Proof.
  rewrite stored_ad_Some. intros Hn%stored_nn. pose proof (nn_canary _ _ Hn) as Hc.
  unfold k_ad, canary_deletable, k_canary_dep, k_canary_svc, k_route. by rewrite Hn, Hc.
Qed.

Lemma stored_copy ad x w w' : stored_ad ad w = Some x → stored_ad x w' = stored_ad ad w'.
Proof. intros [Hk _]%stored_self. unfold stored_ad. by rewrite Hk. Qed.

(** The timers a visit leaves are in the past of the next one. *)
Lemma goes_on_timely x x1 now now' :
  timely x now → now ≤ now' →
  started x1 = None ∧ (unreachable x1 = None ∨ not_later (unreachable x1) (unreachable x)) ∨
    (∃ dur, pause_goes_on c dur now x x1) →
  timely x1 now'.
Proof.
  intros [Ht1 Ht2] Hle [[Hs Hu]|(dur & Hg)].
  - unfold timely. rewrite Hs. split; [done|]. intros t E. rewrite E in Hu.
    destruct Hu as [?|Hu]; [done|].
    destruct (unreachable x) as [t0|]; [|done]. specialize (Ht2 t0 eq_refl). simpl in Hu. lia.
  - unfold pause_goes_on in Hg. split; intros t E; rewrite E in Hg;
      destruct (started x) as [t0|]; try specialize (Ht1 t0 eq_refl);
      destruct (unreachable x) as [s0|]; try specialize (Ht2 s0 eq_refl); simpl in Hg;
      naive_solver lia.
Qed.

Context (Hdelta : 0 < delta) (HF : cc_FailSafeTimeout c ≤ MaxInt64).

(** One visit: the rollout is over, or it has fewer visits left. *)
Lemma next_visit_decreases ad x w w2 :
  rolling ad x w → next_visit ad w w2 →
  ∃ y, stored_ad ad w2 = Some y ∧
    (ended y ∨ rolling ad y w2 ∧
      visits_left c delta y (visit_time y w2) + 1 ≤ visits_left c delta x (visit_time x w)).
Proof using All.
  intros (Hx & Hdel & Hin & Ht & Hdur) [x' res w1 x1 y Hx' Hph Hr H1 H2 Hsame Hdel2 Htime].
  rewrite Hx in Hx'. injection Hx' as <-. exists y. split; [done|].
  destruct Hsame as (Es & Ep & Ei & Ew & Est & Eu).
  pose proof (proj2 (stored_self _ _ _ Hx) Hdel) as Hdelx.
  rewrite <- (stored_copy ad x w w1 Hx) in H1.
  assert (Hself : stored_ad x w = Some x) by (by rewrite (stored_copy _ _ _ _ Hx)).
  pose proof (Step_run _ _ _ _ _ Hdelx Hself Hin Hr) as (z & Hz & Ho). rewrite H1 in Hz.
  injection Hz as <-.
  destruct Ho as [Hin1 Hi1|_ [Hp _]|Hp _ _]; [|left; left; congruence|left; right; congruence].
  right. assert (Hph1 : st_Phase (ad_Status x1) = PhaseRolloutInProgress) by (by destruct Hin1).
  destruct (Step_goes_on _ _ _ _ _ Hdelx Hself Hin Hr H1 Hph1) as (step & Hstep & Hsp & Hcase).
  set (now := visit_time x w) in *. set (now' := visit_time y w2) in *.
  assert (Hty : timely y now').
  { assert (now ≤ now') by lia. unfold timely. rewrite Est, Eu. eapply goes_on_timely; [done..|].
    destruct Hcase as [(_ & ?)|(_ & _ & ?)]; [by left|]. right. naive_solver. }
  assert (Hiny : in_rollout y).
  { unfold in_rollout. rewrite Es, Ep, Ei, Ew. exact Hin1. }
  split.
  { unfold rolling, steps_of. rewrite Es, Hsp. by split_and!. }
  pose proof Hin as (_ & Hidx & _).
  assert (Hdrop : drop (index_of x) (steps_of x) = step :: drop (S (index_of x)) (steps_of x))
    by (by apply drop_S).
  assert (Hsteps : steps_of y = steps_of x) by (unfold steps_of; by rewrite Es, Hsp).
  unfold visits_left at 2. rewrite Hdrop.
  destruct Hcase as [(Hi & _)|(Hi & Hsw & dur & Hpa & Hg)].
  - pose proof (proj2 (visits_left_bound c delta Hdelta y now' Hty)) as Hb.
    assert (Hiy : index_of y = S (index_of x)) by (unfold index_of; rewrite Ei, Hi; lia).
    unfold visits_bound in Hb. rewrite Hiy, Hsteps in Hb.
    pose proof (step_left_bounds c delta Hdelta step x now Ht). lia.
  - assert (Hiy : index_of y = index_of x) by (unfold index_of; by rewrite Ei, Hi).
    unfold visits_left. rewrite Hiy, Hsteps, Hdrop. unfold step_left. rewrite Hsw, Hpa.
    assert (Hd : dur ≤ MaxInt64).
    { apply (Forall_lookup_1 _ _ _ _ Hdur) in Hstep. by rewrite Hpa in Hstep. }
    assert (Hg' : pause_goes_on c dur now x y).
    { unfold pause_goes_on in *. by rewrite Est, Eu. }
    pose proof (pause_left_decreases c delta Hdelta dur x y now now' Hd HF Htime Hty Hg'). lia.
Qed.

Lemma visited_bounded ad w n w2 x :
  visited ad w n w2 → rolling ad x w →
  ∃ y, stored_ad ad w2 = Some y ∧
    (ended y ∧ Z.of_nat n ≤ visits_left c delta x (visit_time x w) ∨
     rolling ad y w2 ∧ Z.of_nat n + visits_left c delta y (visit_time y w2) ≤
       visits_left c delta x (visit_time x w)).
Proof using All.
  intros Hv. revert x. induction Hv as [w|w w1 n w2 Hn Hv IH]; intros x Hx.
  - exists x. split; [by destruct Hx|]. right. split; [done|lia].
  - destruct (next_visit_decreases _ _ _ _ Hx Hn) as (y & Hy & [He|[Hr Hd]]).
    + destruct Hv as [w1|w1 w3 n w2 [z res w4 x1 y' Hz Hp _ _ _ _ _ _] _].
      * exists y. split; [done|]. left. split; [done|].
        destruct Hx as (_ & _ & _ & Ht & _).
        pose proof (visits_left_bound c delta Hdelta x _ Ht). lia.
      * rewrite Hy in Hz. injection Hz as <-. exfalso. unfold ended in He. rewrite Hp in He.
        by destruct He.
    + destruct (IH y Hr) as (z & Hz & [[He Hle]|[Hrz Hle]]).
      * exists z. split; [done|]. left. split; [done|lia].
      * exists z. split; [done|]. right. split; [done|lia].
Qed.
End visits.

(** ** Termination *)
Section termination.
Context {CT : CoreTypes} {CA : ConditionsAPI} {CL : ConditionsLaws} {W : Type}
  {KC : KubeClient W} {KL : KubeLaws} {PR : Prometheus W} {PL : PrometheusLaws}
  {AR : AgentRegistrar W} {AL : AgentRegistrarLaws}.
Context (c : Controller) (delta : Z) (Hdelta : 0 < delta) (HF : cc_FailSafeTimeout c ≤ MaxInt64).

(** C16: every rollout ends. Whatever Prometheus answers or fails to answer, a
    rollout that is visited at intervals of at least [delta], by visits that
    return without error, is promoted or rolled back after at most
    [visits_bound] of them: a number computed from its remaining steps, their
    pauses, the fail-safe timeout and [delta] alone. While it is still in
    progress after [n] visits, [n] is below that number. *)
Theorem rollout_terminates ad x w n w2 :
  rolling c ad x w → visited c delta ad w n w2 →
  Z.of_nat n ≤ visits_bound c delta x ∧
  ∃ y, stored_ad ad w2 = Some y ∧
    (ended y ∨ st_Phase (ad_Status y) = PhaseRolloutInProgress ∧ Z.of_nat n < visits_bound c delta x).
Proof using All.
  intros Hx Hv. destruct (visited_bounded c delta Hdelta HF _ _ _ _ _ Hv Hx) as (y & Hy & Ho).
  destruct Hx as (_ & _ & _ & Ht & _). pose proof (visits_left_bound c delta Hdelta x _ Ht) as Hb.
  destruct Ho as [[He Hn]|[(_ & _ & (Hp & _) & Hty & _) Hn]].
  - split; [lia|]. exists y. auto.
  - pose proof (visits_left_bound c delta Hdelta y _ Hty). split; [lia|].
    exists y. split; [done|]. right. split; [done|lia].
Qed.
End termination.

(** ** A run of the theorem *)
Definition deletable_b `{CoreTypes} {W} {KC : KubeClient W} (w : W) (k : ObjKey) : bool :=
  match store w !! k with Some o => bool_decide (om_Finalizers (obj_meta o) = []) | None => true end.

Lemma deletable_b_true `{CoreTypes} {W} {KC : KubeClient W} (w : W) k : deletable_b w k = true → deletable w k.
Proof. unfold deletable_b, deletable. intros Hb o Ho. rewrite Ho in Hb. by apply bool_decide_eq_true in Hb. Qed.

Section witness.
#[local] Existing Instance Ref.core.
#[local] Existing Instance Ref.conditions.
#[local] Existing Instance Ref.conditions_laws.

(** A rollout whose last step is done is visited once, and has ended. *)
Lemma rollout_terminates_witness :
  let ad := demo_rollout 3 100 None demo_steps in
  ∃ w2 y, visited demo_controller Minute ad (rollout_world 0 ad) 1 w2 ∧ stored_ad ad w2 = Some y ∧ ended y.
Proof.
  intros ad. set (w := rollout_world 0 ad). set (x := stored_demo 0 ad).
  destruct (stored_demo_spec 0 3 100 None demo_steps) as (Hst & Hs & Hsp & Hn).
  fold ad w x in Hst, Hs, Hsp, Hn.
  destruct (ok_run (Step demo_controller x) w) as [res E]; [vm_compute; reflexivity|].
  set (w1 := (Step demo_controller x w).2) in *. set (w2 := rw_set_clock Minute w1).
  assert (Hdel : canary_deletable ad w2).
  { split_and!; apply deletable_b_true; vm_compute; reflexivity. }
  destruct (some_run (stored_ad ad w2) (λ _, true)) as [y [Hy _]]; [vm_compute; reflexivity|].
  assert (Hv : visited demo_controller Minute ad w 1 w2).
  { eapply visited_next; [|apply visited_none].
    apply (Next _ _ ad w w2 x res w1 y y Hst); [by rewrite Hs|exact E|exact Hy|exact Hy|
      by split_and!|exact Hdel|].
    replace y with (default ad (stored_ad ad w2)) by (by rewrite Hy).
    vm_compute. discriminate. }
  destruct (rollout_terminates demo_controller Minute ltac:(done) ltac:(done) ad x w 1 w2) as (_ & z & Hz & Ho).
  - split_and!; [exact Hst|apply rollout_world_deletable; reflexivity| | |].
    + split; [by rewrite Hs|]. rewrite Hs, Hsp. split; [split; discriminate|reflexivity].
    + unfold timely, started, unreachable. rewrite Hs. split; discriminate.
    + unfold steps_of. rewrite Hsp. by repeat constructor.
  - exact Hv.
  - exists w2, z. split; [exact Hv|]. split; [exact Hz|]. destruct Ho as [Ho|[_ Hb]]; [exact Ho|].
    unfold visits_bound, index_of, steps_of in Hb. rewrite Hs, Hsp in Hb. discriminate Hb.
Defined.
End witness.
