(* ===== verification/QuotaController.v ===== *)
(** The TenantQuota reconciler, [src/internal/controller/tenantquota_controller.go],
    and the watch mappings of [enqueue_handlers.go].

    The reconciler publishes the usage that admission is decided on and gives
    the reservations of committed agents back to the shared enforcer.  It also
    exports the usage ratio of the tenant as the gauge
    [observability.QuotaUsageRatio], the class [UsageGauge]. *)
From S2P Require Import Prelude Types Objects Scaling GoFloat Enforcer EnforcerProps Cluster PromQL Registry.
From S2P Require Import Registrar RefWorld Webhook Canary RegistryProps RegistrarProps CanaryProps.

(** [if err := r.Get(...); apierrors.IsNotFound(err) ...] is [get_opt] of [Canary.v]. *)
Section quota_controller.
Context `{CoreTypes, ConditionsAPI, KubeClient W, !SharedEnforcer W, !UsageGauge W}.
Implicit Types (tq latest : TenantQuota).

(** The agents of a list that reference the quota named [name]. *)
Definition referencing (name : string) (ads : list AgentDeployment) : list AgentDeployment :=
  filter (λ ad, spec_TenantRef (ad_Spec ad) = name) ads.

(** [r.Enforcer.Release(ns/name)] for each of them, in list order. *)
Definition release_all (ads : list AgentDeployment) (e : Enforcer) : Enforcer :=
  fold_left (λ e ad, Release (admissionKey ad) e) ads e.

Definition modify_enforcer (f : Enforcer → Enforcer) : Proc W unit := λ w,
  (inr tt, set_enforcer (f (enforcer w)) w).
Definition read_enforcer : Proc W Enforcer := λ w, (inr (enforcer w), w).

(** The status written for a usage. *)
Definition usage_status (usage : TenantQuotaStatus) latest : TenantQuotaStatus :=
  let '(over, overMsg) := IsOverQuota (tq_Spec latest) usage in
  {| tq_UsedAgents := tq_UsedAgents usage; tq_UsedGPUs := tq_UsedGPUs usage;
     tq_UsedTotalReplicas := tq_UsedTotalReplicas usage;
     tq_Conditions :=
       if over then SetStatusCondition (tq_Conditions (tq_Status latest))
         {| c_Type := ConditionOverQuota; c_Status := ConditionTrue;
            c_Reason := "UsageExceedsQuota"; c_Message := overMsg;
            c_ObservedGeneration := om_Generation (tq_Meta latest) |}
       else RemoveStatusCondition (tq_Conditions (tq_Status latest)) ConditionOverQuota |}.

Definition modify_gauge (f : gmap string float64 → gmap string float64) : Proc W unit := λ w,
  (inr tt, set_gauge (f (gauge w)) w).

(** The ratio that is exported; both counts are converted to [float64] first. *)
Definition quota_ratio (usage : TenantQuotaStatus) (spec : TenantQuotaSpec) : float64 :=
  if 0 <? tq_MaxTotalReplicas spec then
    f64_div (f64_of_Z (tq_UsedTotalReplicas usage)) (f64_of_Z (tq_MaxTotalReplicas spec))
  else f64_of_Z 0.

(** Write the status when something changed. *)
Definition write_usage (status : TenantQuotaStatus) latest : Proc W unit :=
  if bool_decide (status = tq_Status latest) then mret tt else
  StatusUpdate (tq_set_status status latest) <?> "updating TenantQuota status";; mret tt.

Definition TenantQuota_Reconcile (req : NamespacedName) : Proc W Result :=
  o ← get_opt (A := TenantQuota) req "fetching TenantQuota";
  match o with
  | None => modify_gauge (delete (nn_Namespace req));; mret no_requeue
  | Some tq =>
      adList ← List (A := AgentDeployment) (om_Namespace (tq_Meta tq)) <?> "listing AgentDeployments";
      let ads := referencing (om_Name (tq_Meta tq)) adList in
      modify_enforcer (release_all ads);;
      e ← read_enforcer;
      let usage := ComputeUsage e (ad_Spec <$> ads) in
      o' ← get_opt (A := TenantQuota) req "re-fetching TenantQuota for status update";
      match o' with
      | None => modify_gauge (delete (nn_Namespace req));; mret no_requeue
      | Some latest =>
          modify_gauge (insert (om_Namespace (tq_Meta latest)) (quota_ratio usage (tq_Spec latest)));;
          write_usage (usage_status usage latest) latest;;
          mret (requeue_after (5 * Minute))
      end
  end.

(** ** Watches *)

(** The quota to reconcile when an agent changes. *)
Definition enqueueTenantQuota (ad : AgentDeployment) : list NamespacedName :=
  if spec_TenantRef (ad_Spec ad) =s? "" then [] else
  [NN (ad_Namespace ad) (spec_TenantRef (ad_Spec ad))].

(** The agents to reconcile when a quota changes; a failed list is logged. *)
Definition enqueueAgentDeploymentsForTenantQuota tq : Proc W (list NamespacedName) :=
  r ← try (List (A := AgentDeployment) (om_Namespace (tq_Meta tq)));
  match r with
  | inl _ => mret []
  | inr l => mret (ad_key <$> referencing (om_Name (tq_Meta tq)) l)
  end.
End quota_controller.

(** ** What a reconcile publishes *)

Lemma release_all_lookup `{CoreTypes} ads e k :
  reservations (release_all ads e) !! k =
    if decide (k ∈ admissionKey <$> ads) then None else reservations e !! k.
Proof.
  unfold release_all. induction ads as [|ad ads IH] using rev_ind; [by rewrite decide_False by set_solver|].
  rewrite fold_left_app, fmap_app; simpl.
  destruct (decide (k = admissionKey ad)) as [->|Hne].
  - rewrite lookup_delete_eq, decide_True; [done|set_solver].
  - rewrite lookup_delete_ne, IH by done. do 2 case_decide; set_solver.
Qed.

Lemma release_all_gpu `{CoreTypes} ads e :
  gpuResourceName (release_all ads e) = gpuResourceName e.
Proof.
  unfold release_all. induction ads as [|ad ads IH] using rev_ind; [done|].
  by rewrite fold_left_app.
Qed.

(** Usage depends on the enforcer only through the GPU resource name. *)
Lemma ComputeUsage_gpu `{CoreTypes} e e' specs :
  gpuResourceName e = gpuResourceName e' → ComputeUsage e specs = ComputeUsage e' specs.
Proof.
  intros He. unfold ComputeUsage. generalize zero_usage as u.
  assert (Ha : ∀ u s, add_usage e u s = add_usage e' u s)
    by (intros; unfold add_usage, gpusForAD, extractGPUs; by rewrite He).
  induction specs as [|s specs IH]; intros u; [done|]. cbn [fold_left]. by rewrite Ha, IH.
Qed.

(** ** State the API client does not touch *)
Section cells.
Context `{CoreTypes, KubeClient W} {A : Type} (cell : W → A).
Context (cell_get : ∀ k w r w', kube_get k w = (r, w') → cell w' = cell w).
Context (cell_list : ∀ kd ns w r w', kube_list kd ns w = (r, w') → cell w' = cell w).
Context (cell_status : ∀ o w r w', kube_status_update o w = (r, w') → cell w' = cell w).
Let same (w w' : W) : Prop := cell w' = cell w.

Lemma of_object_cell {B} `{!Resource B} (m : Proc W Object) w r w' :
  (∀ r w', m w = (r, w') → same w w') → (o ← m; of_object (A := B) o) w = (r, w') → same w w'.
Proof.
  intros Hm. apply bind_rel; [unfold same; congruence|done|].
  intros o w1 y w2 _. unfold of_object. case_match; by intros [= _ <-].
Qed.

Lemma get_opt_cell {B} `{!Resource B} k ctx w r w' :
  get_opt (A := B) k ctx w = (r, w') → same w w'.
Proof using cell_get.
  unfold get_opt. apply bind_rel; [unfold same; congruence| |].
  - intros x w1. apply try_rel. intros y w2. apply of_object_cell. intros ??. apply cell_get.
  - intros [e|a] w1 y w2 _; [case_match|]; by intros [= _ <-].
Qed.

Lemma List_cell {B} `{!Resource B} ns w r w' : List (A := B) ns w = (r, w') → same w w'.
Proof using cell_list.
  unfold List. apply bind_rel; [unfold same; congruence|intros x w1; apply cell_list|].
  intros l w1 y w2 _. by intros [= _ <-].
Qed.

Lemma StatusUpdate_cell {B} `{!Resource B} (b : B) w r w' : StatusUpdate b w = (r, w') → same w w'.
Proof using cell_status. apply of_object_cell. intros ??. apply cell_status. Qed.
End cells.

Section published.
Context {CT : CoreTypes} {CA : ConditionsAPI} {CL : ConditionsLaws} {W : Type}
  {KC : KubeClient W} {KL : KubeLaws} {EN : SharedEnforcer W} {EL : SharedEnforcerLaws}
  {UG : UsageGauge W} {GL : UsageGaugeLaws}.
Implicit Types (w : W) (req : NamespacedName).

(** The agents of the quota [req] in the cluster [w]. *)
Definition tenant_agents w req (ads : list AgentDeployment) : Prop :=
  NoDup (ad_key <$> ads) ∧
  ∀ ad, ad ∈ ads ↔ store w !! (KAgentDeployment, ad_key ad) = Some (OAgentDeployment ad) ∧
    ad_Namespace ad = nn_Namespace req ∧ spec_TenantRef (ad_Spec ad) = nn_Name req.

(** Enforcer and gauge. *)
Definition process_state w : Enforcer * gmap string float64 := (enforcer w, gauge w).

Lemma process_get k w r w' : kube_get k w = (r, w') → process_state w' = process_state w.
Proof. intros Hk. unfold process_state. f_equal; [by eapply kube_get_enforcer|by eapply kube_get_gauge]. Qed.
Lemma process_list kd ns w r w' : kube_list kd ns w = (r, w') → process_state w' = process_state w.
Proof. intros Hk. unfold process_state. f_equal; [by eapply kube_list_enforcer|by eapply kube_list_gauge]. Qed.
Lemma process_status o w r w' : kube_status_update o w = (r, w') → process_state w' = process_state w.
Proof.
  intros Hk. unfold process_state.
  f_equal; [by eapply kube_status_update_enforcer|by eapply kube_status_update_gauge].
Qed.

Lemma referencing_agents w req l :
  NoDup (rkey <$> l) →
  (∀ ad : AgentDeployment, ad ∈ l ↔ store w !! rkey ad = Some (inj ad) ∧
    om_Namespace (res_meta ad) = nn_Namespace req) →
  tenant_agents w req (referencing (nn_Name req) l).
Proof.
  intros Hnd Hin. split.
  - apply NoDup_fmap_filter. apply (NoDup_fmap_1 (pair KAgentDeployment)).
    by rewrite <- list_fmap_compose.
  - intros ad. unfold referencing. rewrite list_elem_of_filter, Hin.
    change (rkey ad) with (KAgentDeployment, ad_key ad). change (om_Namespace (res_meta ad)) with (ad_Namespace ad).
    naive_solver.
Qed.

(** The status is as wanted afterwards, written or not, and only it may have
    changed. *)
Lemma write_usage_run status tq req w u w' :
  store w !! (KTenantQuota, req) = Some (OTenantQuota tq) →
  write_usage status tq w = (inr u, w') →
  process_state w' = process_state w ∧
  (∃ tq', store w' !! (KTenantQuota, req) = Some (OTenantQuota tq') ∧ tq_Spec tq' = tq_Spec tq ∧
    tq_Status tq' = status) ∧
  ∀ k, k ≠ (KTenantQuota, req) → store w' !! k = store w !! k.
Proof.
  intros Htq. unfold write_usage. case_bool_decide as Heq; [intros [= _ <-]; by eauto 10|].
  intros (tq' & w1 & Hu%wrap_err_inr & Hr)%bind_inr. injection Hr as _ <-.
  pose proof (StatusUpdate_cell process_state process_status _ _ _ _ Hu) as Hp. split; [exact Hp|].
  apply StatusUpdate_inr in Hu as (old & rv & Hold & _ & -> & Hs).
  assert (Hrk : rkey (tq_set_status status tq) = (KTenantQuota, req)) by exact (store_key _ _ _ Htq).
  rewrite Hrk in Hold, Hs. rewrite Htq in Hold. injection Hold as <-. rewrite Hs. split.
  - eexists. by rewrite lookup_insert_eq.
  - intros k Hne. by rewrite lookup_insert_ne.
Qed.

Lemma get_quota_run req ctx w o w' :
  get_opt (A := TenantQuota) req ctx w = (inr o, w') →
  store w' = store w ∧ process_state w' = process_state w ∧
  store w !! (KTenantQuota, req) = OTenantQuota <$> o ∧ (∀ tq, o = Some tq → om_key (tq_Meta tq) = req).
Proof.
  intros Hg. pose proof (get_opt_cell process_state process_get _ _ _ _ _ Hg) as Hp.
  by apply get_opt_run in Hg as (Hs & Ho & Hk).
Qed.

(** The series of the tenant, and no other, is as the usage says. *)
Definition published_gauge w req (ratio : option float64) : gmap string float64 :=
  match ratio with
  | Some x => <[nn_Namespace req := x]> (gauge w)
  | None => delete (nn_Namespace req) (gauge w)
  end.

Lemma Reconcile_run req w res w' :
  TenantQuota_Reconcile req w = (inr res, w') →
  match store w !! (KTenantQuota, req) with
  | Some (OTenantQuota tq) =>
      ∃ ads tq', tenant_agents w req ads ∧
        (let usage := ComputeUsage (enforcer w) (ad_Spec <$> ads) in
         store w' !! (KTenantQuota, req) = Some (OTenantQuota tq') ∧ tq_Spec tq' = tq_Spec tq ∧
         tq_Status tq' = usage_status usage tq ∧
         gauge w' = published_gauge w req (Some (quota_ratio usage (tq_Spec tq)))) ∧
        (∀ k, k ≠ (KTenantQuota, req) → store w' !! k = store w !! k) ∧
        enforcer w' = release_all ads (enforcer w) ∧
        res = requeue_after (5 * Minute)
  | _ => store w' = store w ∧ enforcer w' = enforcer w ∧ gauge w' = published_gauge w req None ∧
      res = no_requeue
  end.
Proof.
  unfold TenantQuota_Reconcile. intros (o & w1 & Hg & Hr)%bind_inr.
  apply get_quota_run in Hg as (Hs1 & [= He1 Hg1] & Ho & Hk). rewrite Ho.
  destruct o as [tq|]; simpl.
  2: { injection Hr as <- <-. rewrite store_set_gauge, enforcer_set_gauge, gauge_set, Hg1. done. }
  specialize (Hk tq eq_refl).
  assert (om_Namespace (tq_Meta tq) = nn_Namespace req ∧ om_Name (tq_Meta tq) = nn_Name req) as [Hns Hnm]
    by (by rewrite <- Hk).
  apply bind_inr in Hr as (l & w2 & Hl%wrap_err_inr & Hr).
  pose proof (List_cell process_state process_list _ _ _ _ Hl) as [= He2 Hg2].
  apply List_inr in Hl as (Hs2 & Hnd & Hin). rewrite Hns, Hs1 in Hin. cbv zeta in Hr. rewrite Hnm in Hr.
  set (ads := referencing (nn_Name req) l) in *. exists ads.
  pose proof (referencing_agents w req l Hnd Hin) as Hads. fold ads in Hads.
  rewrite (bind_step _ _ w2 tt (set_enforcer (release_all ads (enforcer w2)) w2)) in Hr by done.
  rewrite (bind_step read_enforcer _ _ (release_all ads (enforcer w)) (set_enforcer (release_all ads (enforcer w2)) w2)) in Hr
    by (unfold read_enforcer; rewrite enforcer_set; congruence).
  set (w3 := set_enforcer _ w2) in *. apply bind_inr in Hr as (o & w4 & Hg & Hr).
  apply get_quota_run in Hg as (Hs4 & [= He4 Hg4] & Ho' & _). subst w3.
  rewrite ?store_set_enforcer, ?enforcer_set, ?gauge_set_enforcer in *.
  rewrite Hs2, Hs1, Ho in Ho'. destruct o as [latest|]; [|done]. injection Ho' as <-.
  rewrite (ComputeUsage_gpu _ (enforcer w)), Hns in Hr by apply release_all_gpu.
  set (usage := ComputeUsage (enforcer w) (ad_Spec <$> ads)) in *.
  erewrite bind_step in Hr by done. apply bind_inr in Hr as (u & w6 & Hu & Hr). injection Hr as <- <-.
  eapply (write_usage_run _ _ req) in Hu as ([= He6 Hg6] & (tq' & Htq' & Hsp & Hst) & Hf);
    [|by rewrite store_set_gauge, Hs4, Hs2, Hs1].
  rewrite enforcer_set_gauge, He4 in He6. rewrite gauge_set, Hg4, Hg2, Hg1 in Hg6.
  exists tq'. split; [done|]. split; [done|]. split; [|split; [|done]].
  - intros k Hne. rewrite Hf by done. rewrite store_set_gauge. congruence.
  - by rewrite He6, He2, He1.
Qed.

(** The totals of the tenant, as the quota limits them. *)
Definition over_quota e (q : TenantQuotaSpec) (specs : list AgentDeploymentSpec) : Prop :=
  tq_MaxAgents q < Z.of_nat (length specs) ∨
  tq_MaxGPUs q < Zsum (gpusForAD e <$> specs) ∨
  tq_MaxTotalReplicas q < Zsum (spec_max <$> specs).

Definition totals_fit e (specs : list AgentDeploymentSpec) : Prop :=
  is_int32 (Z.of_nat (length specs)) ∧ is_int32 (Zsum (gpusForAD e <$> specs)) ∧
  is_int32 (Zsum (spec_max <$> specs)).

Lemma usage_status_exact e specs tq :
  totals_fit e specs →
  let st := usage_status (ComputeUsage e specs) tq in
  tq_UsedAgents st = Z.of_nat (length specs) ∧
  tq_UsedGPUs st = Zsum (gpusForAD e <$> specs) ∧
  tq_UsedTotalReplicas st = Zsum (spec_max <$> specs) ∧
  ((∃ c, FindStatusCondition (tq_Conditions st) ConditionOverQuota = Some c) ↔
    over_quota e (tq_Spec tq) specs).
Proof.
  intros (Ha & Hg & Hr). destruct (usage_exact e specs (tq_Spec tq) Ha Hg Hr) as (Ea & Eg & Er & Ho).
  unfold usage_status, over_quota. destruct (IsOverQuota _ _) as [over msg]; simpl in *.
  split_and!; [done..|]. rewrite <- Ho. destruct over.
  - split; [done|]. intros _. eexists. apply (find_set_eq (tq_Conditions (tq_Status tq)) {| c_Type := _ |}).
  - rewrite find_remove_eq. split; [by intros [c ?]|done].
Qed.

(** C10: a reconcile of an existing TenantQuota that returns without error has
    published, for exactly the agents of the namespace that reference it (each
    counted once), their true totals, with the OverQuota condition present
    exactly when a total exceeds its ceiling, and the replica usage ratio as the
    gauge of its namespace; it has written nothing else to the cluster, left the
    ceilings alone, and given back the reservations of those agents and no
    others. *)
Theorem published_usage_exact req w res w' tq :
  store w !! (KTenantQuota, req) = Some (OTenantQuota tq) →
  TenantQuota_Reconcile req w = (inr res, w') →
  ∃ ads tq', tenant_agents w req ads ∧
    store w' !! (KTenantQuota, req) = Some (OTenantQuota tq') ∧ tq_Spec tq' = tq_Spec tq ∧
    gauge w' = <[nn_Namespace req := quota_ratio (tq_Status tq') (tq_Spec tq)]> (gauge w) ∧
    (let specs := ad_Spec <$> ads in totals_fit (enforcer w) specs →
      tq_UsedAgents (tq_Status tq') = Z.of_nat (length ads) ∧
      tq_UsedGPUs (tq_Status tq') = Zsum (gpusForAD (enforcer w) <$> specs) ∧
      tq_UsedTotalReplicas (tq_Status tq') = Zsum (spec_max <$> specs) ∧
      ((∃ c, FindStatusCondition (tq_Conditions (tq_Status tq')) ConditionOverQuota = Some c) ↔
        over_quota (enforcer w) (tq_Spec tq) specs)) ∧
    (∀ k, k ≠ (KTenantQuota, req) → store w' !! k = store w !! k) ∧
    (∀ k, reservations (enforcer w') !! k =
      if decide (k ∈ admissionKey <$> ads) then None else reservations (enforcer w) !! k) ∧
    res = requeue_after (5 * Minute).
Proof.
  intros Htq Hr. apply Reconcile_run in Hr. rewrite Htq in Hr.
  destruct Hr as (ads & tq' & Hads & (Hst & Hspec & Hstatus & Hgauge) & Hframe & Hrel & Hres).
  exists ads, tq'. split_and!; try done; [| |intros k; rewrite Hrel; apply release_all_lookup].
  { rewrite Hgauge, Hstatus. unfold usage_status. by destruct (IsOverQuota _ _). }
  intros specs Hfit. rewrite Hstatus.
  rewrite <- (length_fmap ad_Spec ads). by apply usage_status_exact.
Qed.
(** A reconcile of a TenantQuota that is gone changes neither the cluster nor
    the reservations and removes the series of its namespace from the usage
    gauge, and no other series.  The series is labelled by the namespace only, so
    this holds also when another quota of the namespace still exists and has
    just published its ratio there. *)
Theorem deleted_quota_forgotten req w res w' :
  store w !! (KTenantQuota, req) = None →
  TenantQuota_Reconcile req w = (inr res, w') →
  store w' = store w ∧ enforcer w' = enforcer w ∧ res = no_requeue ∧
  gauge w' !! nn_Namespace req = None ∧
  ∀ ns, ns ≠ nn_Namespace req → gauge w' !! ns = gauge w !! ns.
Proof.
  intros Htq Hr. apply Reconcile_run in Hr. rewrite Htq in Hr. destruct Hr as (Hs & He & Hg & Hres).
  rewrite Hg. split_and!; try done; simpl; [apply lookup_delete_eq|].
  intros ns Hns. by apply lookup_delete_ne.
Qed.
End published.

Section witnesses.
#[local] Existing Instance Ref.core.
#[local] Existing Instance Ref.conditions.
#[local] Existing Instance Ref.conditions_laws.

(** Two agents of quota [team], one of another tenant, and a reservation of one
    of them. *)
Definition tenant_agent (name tenant : string) (max gpu : Z) : Object :=
  OAgentDeployment {| ad_Meta := new_meta name "ns" ∅;
    ad_Spec := Ref.spec "img:v1" tenant 1 max gpu Ref.recreate Ref.no_mcp;
    ad_Status := ad_Status PromRef.ad |}.

Definition quota_world : world :=
  rw_set_enforcer (AdmitAndReserve "ns/a" Ref.quota zero_usage (Ref.agent 3 1000) None 5 5
    (NewEnforcer "")).2
  (with_objects [OTenantQuota {| tq_Meta := new_meta "team" "ns" ∅; tq_Spec := Ref.quota;
      tq_Status := zero_usage |};
    tenant_agent "a" "team" 3 1000; tenant_agent "b" "team" 4 0; tenant_agent "c" "other" 9 0]
    empty_world).

Lemma published_usage_exact_witness :
  ∃ w' tq', TenantQuota_Reconcile (NN "ns" "team") quota_world =
      (inr (requeue_after (5 * Minute)), w') ∧
    store w' !! (KTenantQuota, NN "ns" "team") = Some (OTenantQuota tq').
Proof.
  destruct (ok_run (TenantQuota_Reconcile (NN "ns" "team")) quota_world) as [res E];
    [vm_compute; reflexivity|].
  destruct (some_run (store quota_world !! (KTenantQuota, NN "ns" "team"))
    (λ o, match o with OTenantQuota _ => true | _ => false end)) as (o & Ho & Htq);
    [vm_compute; reflexivity|].
  destruct o as [|tq| | | | | | | |]; try discriminate Htq.
  destruct (published_usage_exact (NN "ns" "team") quota_world res _ tq Ho E)
    as (ads & tq' & _ & Hst & Hspec & _ & _ & _ & _ & ->).
  eexists _, tq'. split; [exact E|exact Hst].
Defined.

(** The quota [team] is published; a deleted quota of its namespace takes the
    series with it. *)
Lemma deleted_quota_forgotten_witness :
  let w := (TenantQuota_Reconcile (NN "ns" "team") quota_world).2 in
  is_Some (gauge w !! "ns") ∧
  ∃ w', TenantQuota_Reconcile (NN "ns" "gone") w = (inr no_requeue, w') ∧ gauge w' !! "ns" = None.
Proof.
  intros w. split; [apply (bool_decide_unpack _); vm_compute; exact I|].
  destruct (ok_run (TenantQuota_Reconcile (NN "ns" "gone")) w) as [res E]; [vm_compute; reflexivity|].
  destruct (store w !! (KTenantQuota, NN "ns" "gone")) as [o|] eqn:Eo.
  { exfalso. assert (Hn : match store w !! (KTenantQuota, NN "ns" "gone") with Some _ => false | None => true end
      = true) by (vm_compute; reflexivity). rewrite Eo in Hn. discriminate Hn. }
  destruct (deleted_quota_forgotten (NN "ns" "gone") w res _ Eo E) as (_ & _ & -> & Hg & _).
  eexists. split; [exact E|exact Hg].
Defined.

(** What that reconcile publishes: two agents, 3 GPUs and 7 replicas, over the
    replica ceiling of 6; the reservation is gone. *)
Example quota_world_published :
  let w' := (TenantQuota_Reconcile (NN "ns" "team") quota_world).2 in
  (match store w' !! (KTenantQuota, NN "ns" "team") with
   | Some (OTenantQuota tq) =>
       Some (tq_UsedAgents (tq_Status tq), tq_UsedGPUs (tq_Status tq),
         tq_UsedTotalReplicas (tq_Status tq), c_Message <$> tq_Conditions (tq_Status tq))
   | _ => None
   end, size (reservations (enforcer quota_world)), size (reservations (enforcer w'))) =
  (Some (2, 3, 7, ["usedTotalReplicas (7) exceeds maxTotalReplicas (6)"]), 1%nat, 0%nat).
Proof. vm_compute. reflexivity. Qed.
End witnesses.
