(* ===== verification/Ledger.v ===== *)
(** A tenant from admission to publication: the webhook, the API server and the
    TenantQuota reconciler as one system.

    The enforcer alone cannot say that a tenant stays within its quota: a
    request it admitted is committed by the API server later or never, its
    reservation lapses or is given back by the reconciler, and the usage the
    next request is decided on is what the reconciler last published.  The
    [ledger] of a tenant has all of it, the relation [entry] is the steps of
    the parts in any order; [LedgerHandlers.v] proves that the handlers of
    [Webhook.v] and [QuotaController.v] take these steps. *)
From stdpp Require Import relations.
From S2P Require Import Prelude Types Objects Scaling GoFloat Enforcer EnforcerProps.

Section ledger.
Context `{CoreTypes}.
Implicit Types (e : Enforcer) (q : TenantQuotaSpec) (d : dim).

(** The state of one tenant.  [lg_agents] are the agents the API server holds,
    [lg_pending] the admitted creates and updates that it has not stored yet, by
    admission key; [lg_published] is the usage in the status of the quota and
    [lg_counted] the agents that are counted in it, as they were counted.  A
    reconcile that has listed the agents and not written the status yet keeps
    in [lg_reconciling] the usage it will write and the agents it counted. *)
Record ledger := {
  lg_now : Z;
  lg_enforcer : Enforcer;
  lg_published : TenantQuotaStatus;
  lg_agents : gmap string AgentDeploymentSpec;
  lg_pending : gmap string AgentDeploymentSpec;
  lg_counted : gmap string AgentDeploymentSpec;
  lg_reconciling : option (TenantQuotaStatus * gmap string AgentDeploymentSpec);
}.

(** The ledger once the reconcile under way has written its status: what its
    reservations and the usage it is about to publish stand for. *)
Definition due (lg : ledger) : ledger :=
  match lg_reconciling lg with
  | None => lg
  | Some (p, c) =>
      {| lg_now := lg_now lg; lg_enforcer := lg_enforcer lg; lg_published := p; lg_agents := lg_agents lg;
         lg_pending := lg_pending lg; lg_counted := c; lg_reconciling := None |}
  end.

(** What an agent takes of dimension [d]: the delta of its create. *)
Definition amount d e (spec : AgentDeploymentSpec) : Z := field d (computeDelta e spec None).

Definition total d e (m : gmap string AgentDeploymentSpec) : Z := map_Zsum (λ _, amount d e) m.

(** What the tenant has been promised: every agent as it is stored, or as it
    will be once its admitted request is. *)
Definition promised (lg : ledger) : gmap string AgentDeploymentSpec := lg_pending lg ∪ lg_agents lg.

Definition amount_of d e (o : option AgentDeploymentSpec) : Z :=
  match o with Some spec => amount d e spec | None => 0 end.

(** What of it the usage does not count. *)
Definition claim d lg (k : string) (spec : AgentDeploymentSpec) : Z :=
  amount d (lg_enforcer lg) spec - amount_of d (lg_enforcer lg) (lg_counted lg !! k).

Definition unclaimed lg (k : string) : Prop :=
  ∀ spec d, promised lg !! k = Some spec → claim d lg k spec = 0.

(** No reservation that stands for a claim has lapsed at [now]: requests are
    stored and listed by a reconcile within the time to live of a reservation. *)
Definition timely (lg : ledger) (now : Z) : Prop :=
  ∀ k, unclaimed lg k ∨ ∃ r, reservations (lg_enforcer lg) !! k = Some r ∧ now ≤ re_expiry r.

Definition spec_ok (spec : AgentDeploymentSpec) : Prop :=
  is_int32 (spec_max spec) ∧ 0 ≤ spec_max spec.

(** An update within the tenant that takes nothing back; a create is one of
    nothing. *)
Definition grows e (old : option AgentDeploymentSpec) (spec : AgentDeploymentSpec) : Prop :=
  (∀ o, old = Some o → spec_TenantRef spec = spec_TenantRef o) ∧ ∀ d, amount_of d e old ≤ amount d e spec.

(** The enforcer after [Release] of the keys. *)
Definition release_keys (ks : list string) e : Enforcer := fold_left (λ e k, Release k e) ks e.

(** The steps of the parts.  A literal ledger has the time, the enforcer, the
    published usage [p], the agents [ag], the pending requests [pe], the counted
    agents [c] and the reconcile under way [rc]. *)
Inductive entry q : ledger → ledger → Prop :=
  (** the webhook admits, on the published usage, the create of a new agent or a
      growing update of an agent that is counted as it is stored; a reconcile
      under way is not about to raise the usage *)
  | entry_admit now e p ag pe c rc k spec ttl v e' :
      let lg := {| lg_now := now; lg_enforcer := e; lg_published := p; lg_agents := ag;
                   lg_pending := pe; lg_counted := c; lg_reconciling := rc |} in
      (∀ d, used d (lg_published (due lg)) ≤ used d p) → lg_counted (due lg) !! k = ag !! k →
      pe !! k = None → spec_ok spec → grows e (ag !! k) spec → 0 ≤ ttl →
      AdmitAndReserve k q p spec (ag !! k) ttl now e = (v, e') → v.1 = true →
      entry q lg {| lg_now := now; lg_enforcer := e'; lg_published := p; lg_agents := ag;
                    lg_pending := <[k := spec]> pe; lg_counted := c; lg_reconciling := rc |}
  (** the API server stores it, or never does *)
  | entry_commit now e p ag pe c rc k spec :
      pe !! k = Some spec →
      entry q {| lg_now := now; lg_enforcer := e; lg_published := p; lg_agents := ag;
                 lg_pending := pe; lg_counted := c; lg_reconciling := rc |}
              {| lg_now := now; lg_enforcer := e; lg_published := p; lg_agents := <[k := spec]> ag;
                 lg_pending := delete k pe; lg_counted := c; lg_reconciling := rc |}
  | entry_drop now e p ag pe c rc k :
      entry q {| lg_now := now; lg_enforcer := e; lg_published := p; lg_agents := ag;
                 lg_pending := pe; lg_counted := c; lg_reconciling := rc |}
              {| lg_now := now; lg_enforcer := e; lg_published := p; lg_agents := ag;
                 lg_pending := delete k pe; lg_counted := c; lg_reconciling := rc |}
  (** an agent is deleted; an update of it that waits is refused *)
  | entry_delete now e p ag pe c rc k :
      is_Some (ag !! k) →
      entry q {| lg_now := now; lg_enforcer := e; lg_published := p; lg_agents := ag;
                 lg_pending := pe; lg_counted := c; lg_reconciling := rc |}
              {| lg_now := now; lg_enforcer := e; lg_published := p; lg_agents := delete k ag;
                 lg_pending := delete k pe; lg_counted := delete k c;
                 lg_reconciling := prod_map id (delete k) <$> rc |}
  (** the reconciler lists the agents, in any order, and sums them up; it may
      have failed to write an earlier usage *)
  | entry_list now e p p' ag pe c rc l :
      l ≡ₚ map_to_list ag → (∀ d, used d p' = used d (ComputeUsage e l.*2)) →
      entry q {| lg_now := now; lg_enforcer := e; lg_published := p; lg_agents := ag;
                 lg_pending := pe; lg_counted := c; lg_reconciling := rc |}
              {| lg_now := now; lg_enforcer := e; lg_published := p; lg_agents := ag;
                 lg_pending := pe; lg_counted := c; lg_reconciling := Some (p', ag) |}
  (** it gives the reservation of an agent it listed back; no update of the
      agent was admitted that it did not list *)
  | entry_release now e p ag pe c p' c' k :
      let lg e := {| lg_now := now; lg_enforcer := e; lg_published := p; lg_agents := ag;
                     lg_pending := pe; lg_counted := c; lg_reconciling := Some (p', c') |} in
      unclaimed (due (lg e)) k → entry q (lg e) (lg (Release k e))
  (** it writes the status, the counts of which are the usage *)
  | entry_publish now e p p'' ag pe c p' c' :
      (∀ d, used d p'' = used d p') →
      entry q {| lg_now := now; lg_enforcer := e; lg_published := p; lg_agents := ag;
                 lg_pending := pe; lg_counted := c; lg_reconciling := Some (p', c') |}
              {| lg_now := now; lg_enforcer := e; lg_published := p''; lg_agents := ag;
                 lg_pending := pe; lg_counted := c'; lg_reconciling := None |}
  (** the sweeper runs *)
  | entry_sweep now e p ag pe c rc pick :
      entry q {| lg_now := now; lg_enforcer := e; lg_published := p; lg_agents := ag;
                 lg_pending := pe; lg_counted := c; lg_reconciling := rc |}
              {| lg_now := now; lg_enforcer := sweepLoop_tick pick now e; lg_published := p;
                 lg_agents := ag; lg_pending := pe; lg_counted := c; lg_reconciling := rc |}
  (** the enforcer changes a reservation that stands for no claim of the tenant,
      such as one of another tenant; what is in flight stays within an [int32] *)
  | entry_other now e p ag pe c rc k o :
      let lg e := {| lg_now := now; lg_enforcer := e; lg_published := p; lg_agents := ag;
                     lg_pending := pe; lg_counted := c; lg_reconciling := rc |} in
      let e' := with_reservations (partial_alter (λ _, o) k (reservations e)) e in
      unclaimed (due (lg e)) k → (∀ r d, o = Some r → 0 ≤ field d r) →
      (∀ d, inflight_all (field d) now e' ≤ MaxInt32) → entry q (lg e) (lg e')
  (** time passes *)
  | entry_time now now' e p ag pe c rc :
      let lg now := {| lg_now := now; lg_enforcer := e; lg_published := p; lg_agents := ag;
                       lg_pending := pe; lg_counted := c; lg_reconciling := rc |} in
      now ≤ now' → timely (due (lg now)) now' → entry q (lg now) (lg now').

(** A tenant before its first request. *)
Definition new_ledger (now : Z) (name : string) : ledger :=
  {| lg_now := now; lg_enforcer := NewEnforcer name; lg_published := zero_usage; lg_agents := ∅;
     lg_pending := ∅; lg_counted := ∅; lg_reconciling := None |}.
End ledger.

(** ** The ledger balances *)
Section balance.
Context `{CoreTypesLaws}.
Implicit Types (e : Enforcer) (q : TenantQuotaSpec) (d : dim) (lg : ledger).

Lemma amount_gpu d e e' spec : gpuResourceName e' = gpuResourceName e → amount d e' spec = amount d e spec.
Proof. intros Hg. unfold amount, computeDelta, gpusForAD, extractGPUs. by rewrite Hg. Qed.

Lemma amount_of_gpu d e e' o : gpuResourceName e' = gpuResourceName e → amount_of d e' o = amount_of d e o.
Proof. intros Hg. destruct o; [by apply amount_gpu|done]. Qed.

Lemma total_gpu d e e' m : gpuResourceName e' = gpuResourceName e → total d e' m = total d e m.
Proof. intros Hg. apply map_Zsum_ext. intros k spec _. by apply amount_gpu. Qed.

Lemma amount_nonneg d e spec : spec_ok spec → 0 ≤ amount d e spec ≤ MaxInt32.
Proof.
  intros [Hm Hm0]. pose proof (gpusForAD_range e spec Hm). destruct d; unfold amount; simpl; ints.
Qed.

Definition claims d lg : Z := map_Zsum (claim d lg) (promised lg).

(** Every claim is backed by a live reservation of its size; counted usage and
    the claims together are within the quota. *)
Record balanced q lg : Prop := {
  bal_nonneg : res_nonneg (lg_enforcer lg);
  bal_int32 d : inflight_all (field d) (lg_now lg) (lg_enforcer lg) ≤ MaxInt32;
  bal_usage : usage_wf (lg_published lg);
  bal_used d : 0 ≤ used d (lg_published lg);
  bal_pending k spec : lg_pending lg !! k = Some spec → lg_counted lg !! k = lg_agents lg !! k;
  bal_dom : dom (lg_counted lg) ⊆ dom (lg_agents lg);
  bal_specs k spec : lg_agents lg !! k = Some spec ∨ lg_pending lg !! k = Some spec ∨
    lg_counted lg !! k = Some spec → spec_ok spec;
  bal_grows d k spec : promised lg !! k = Some spec → 0 ≤ claim d lg k spec;
  bal_backed k : unclaimed lg k ∨
    ∃ r, reservations (lg_enforcer lg) !! k = Some r ∧ lg_now lg ≤ re_expiry r ∧
      ∀ spec d, promised lg !! k = Some spec → field d r = claim d lg k spec;
  bal_counted d : total d (lg_enforcer lg) (lg_counted lg) ≤ used d (lg_published lg);
  bal_ceiling d : used d (lg_published lg) + claims d lg ≤ ceiling d q;
}.

Lemma promised_lookup lg k spec :
  promised lg !! k = Some spec ↔
    lg_pending lg !! k = Some spec ∨ lg_pending lg !! k = None ∧ lg_agents lg !! k = Some spec.
Proof. apply lookup_union_Some_raw. Qed.

Lemma total_nonneg d e (m : gmap string AgentDeploymentSpec) :
  (∀ k spec, m !! k = Some spec → spec_ok spec) → 0 ≤ total d e m.
Proof. intros Hm. apply map_Zsum_nonneg. intros k spec Hk. apply (amount_nonneg d e spec), (Hm k), Hk. Qed.

(** What is counted of the agents of [m]. *)
Lemma counted_part d e (m c : gmap string AgentDeploymentSpec) :
  (∀ k spec, c !! k = Some spec → spec_ok spec) →
  map_Zsum (λ k _, amount_of d e (c !! k)) m ≤ total d e c.
Proof.
  intros Hok. rewrite <- (map_Zsum_filter _ m (λ ks, is_Some (c !! ks.1))).
  - apply map_Zsum_covered.
    + intros k s [_ [x Hx]]%map_lookup_filter_Some. simpl in Hx. exists x. by rewrite Hx.
    + intros k x Hx. apply (amount_nonneg d e x), (Hok k x Hx).
  - intros k s _ Hn. simpl in Hn. by apply eq_None_not_Some in Hn as ->.
Qed.

Lemma map_Zsum_minus {V} (f g : string → V → Z) (m : gmap string V) :
  map_Zsum (λ k v, f k v - g k v) m = map_Zsum f m - map_Zsum g m.
Proof.
  induction m as [|k v m Hk IH] using map_ind; [by rewrite !map_Zsum_empty|].
  rewrite !map_Zsum_insert, IH by done. lia.
Qed.

(** Counted or not, everything the tenant was promised is within the quota. *)
Lemma balanced_fits q lg d : balanced q lg → total d (lg_enforcer lg) (promised lg) ≤ ceiling d q.
Proof.
  intros B. pose proof (bal_counted _ _ B d). pose proof (bal_ceiling _ _ B d) as Hc.
  pose proof (counted_part d (lg_enforcer lg) (promised lg) (lg_counted lg)) as Hp.
  unfold claims, claim in Hc.
  rewrite (map_Zsum_minus (λ _, amount d (lg_enforcer lg)) (λ k _, amount_of d (lg_enforcer lg) (lg_counted lg !! k))) in Hc.
  specialize (Hp ltac:(intros; eapply (bal_specs _ _ B); eauto)). unfold total in *. lia.
Qed.

(** What is stored takes no more than what is promised. *)
Lemma stored_within q lg d : balanced q lg →
  total d (lg_enforcer lg) (lg_agents lg) ≤ total d (lg_enforcer lg) (promised lg).
Proof.
  intros B. apply map_Zsum_covered.
  - intros k spec Hk. destruct (lg_pending lg !! k) as [s|] eqn:Hp.
    + assert (Hs : promised lg !! k = Some s) by (apply promised_lookup; auto).
      exists s. split; [done|]. pose proof (bal_grows _ _ B d k s Hs) as Hg. unfold claim in Hg.
      rewrite (bal_pending _ _ B k s Hp), Hk in Hg. simpl in Hg. lia.
    + exists spec. split; [|done]. apply promised_lookup. auto.
  - intros k spec Hk. apply (amount_nonneg d). apply (bal_specs _ _ B k). apply promised_lookup in Hk. naive_solver.
Qed.

(** What an admission sees in flight covers all claims but its own. *)
Lemma claims_inflight q lg k d : balanced q lg → unclaimed lg k →
  claims d lg ≤ inflight (field d) k (lg_now lg) (lg_enforcer lg).
Proof.
  intros B Hk. rewrite inflight_exclude. unfold inflight_all, claims.
  rewrite <- (map_Zsum_filter _ (promised lg) (λ ks, claim d lg ks.1 ks.2 ≠ 0)).
  2: { intros k' s _ Hn. apply dec_stable. done. }
  apply map_Zsum_covered.
  - intros k' spec [Hk' Hne]%map_lookup_filter_Some. simpl in Hne.
    destruct (bal_backed _ _ B k') as [Hu|(r & Hr & Hexp & Hf)]; [by destruct Hne; apply Hu|].
    exists r. split; [simpl; rewrite lookup_delete_ne; [done|intros <-; by destruct Hne; apply Hk]|].
    unfold expired. rewrite (proj2 (Z.ltb_ge _ _) Hexp), (Hf spec) by done. done.
  - intros k' r Hr. simpl in Hr. apply lookup_delete_Some in Hr as [_ Hr].
    pose proof (bal_nonneg _ _ B d k' r Hr). by case_match.
Qed.

Lemma inflight_exact q lg k d : balanced q lg →
  field d (sumInflightLocked k (lg_now lg) (lg_enforcer lg)) =
    inflight (field d) k (lg_now lg) (lg_enforcer lg).
Proof.
  intros B. pose proof (bal_int32 _ _ B d) as Hi.
  pose proof (inflight_all_release_le (field d) k (lg_now lg) _ (bal_nonneg _ _ B d)).
  pose proof (inflight_all_nonneg (field d) (lg_now lg) _
    (res_nonneg_release k _ (bal_nonneg _ _ B) d)).
  rewrite <- inflight_exclude in *.
  assert (is_int32 (inflight (field d) k (lg_now lg) (lg_enforcer lg))) by ints.
  destruct (sumInflightLocked_exact k (lg_now lg) (lg_enforcer lg)) as (Ea & Eg & Er & _).
  destruct d; simpl in *; rewrite ?Ea, ?Eg, ?Er; by apply int32_id.
Qed.

(** *** Admission *)

(** The delta of the enforcer is the growth of the agent. *)
Lemma delta_growth d e old spec :
  spec_ok spec → (∀ o, old = Some o → spec_ok o) → grows e old spec →
  field d (computeDelta e spec old) = amount d e spec - amount_of d e old.
Proof.
  intros Hs Ho [Ht _]. destruct old as [o|]; [|unfold amount, amount_of; lia].
  specialize (Ho o eq_refl). pose proof (gpusForAD_range e spec (proj1 Hs)).
  pose proof (gpusForAD_range e o (proj1 Ho)). destruct Hs, Ho. unfold amount, amount_of, computeDelta.
  rewrite (Ht o eq_refl), str_eqb_refl. destruct d; simpl; [lia|rewrite int32_id by ints; done..].
Qed.

(** An admitted request fits beside everything else in flight, in every
    dimension it grows in. *)
Lemma admitted_room q lg k spec old p d :
  balanced q lg → spec_ok spec → grows (lg_enforcer lg) old spec → (∀ o, old = Some o → spec_ok o) →
  usage_wf p → (CanAdmit k q p spec old (lg_now lg) (lg_enforcer lg)).1 = true →
  let delta := field d (computeDelta (lg_enforcer lg) spec old) in
  delta = 0 ∨ used d p + inflight (field d) k (lg_now lg) (lg_enforcer lg) + delta ≤ ceiling d q.
Proof.
  intros B Hs Hg Ho Hp Hv. cbv zeta. pose proof (delta_growth d _ _ _ Hs Ho Hg) as Hd.
  pose proof (proj2 Hg d). rewrite <- (inflight_exact q lg k d B).
  apply evalQuotaRules_spec in Hv;
    [|exact Hp|apply sumInflightLocked_wf|apply computeDelta_wf, Hs].
  destruct Hv as (_ & Ha & Hgp & Hr & _). unfold sumInflight in *.
  revert Ha Hgp Hr Hd. generalize (computeDelta (lg_enforcer lg) spec old) as delta. intros delta Ha Hgp Hr Hd.
  destruct d; cbn [field used ceiling] in *; [destruct Ha as [?|[_ ?]]|destruct Hgp as [?|[_ ?]]|destruct Hr as [?|[_ ?]]]; lia.
Qed.

Section admission_step.
Context q (now : Z) e (p : TenantQuotaStatus) (ag pe c : gmap string AgentDeploymentSpec) (k : string)
  (spec : AgentDeploymentSpec) (ttl : Z) (p0 : TenantQuotaStatus).
Context (Hp0 : usage_wf p0) (Hpp : ∀ d, used d p ≤ used d p0).
Context (Hq : quota_wf q) (Hpe : pe !! k = None) (Hc : c !! k = ag !! k) (Hok : spec_ok spec)
  (Hg : grows e (ag !! k) spec) (Httl : 0 ≤ ttl).
Let lg := {| lg_now := now; lg_enforcer := e; lg_published := p; lg_agents := ag;
             lg_pending := pe; lg_counted := c; lg_reconciling := None |}.
Let e' := reserve k spec (ag !! k) ttl now e.
Let lg' := {| lg_now := now; lg_enforcer := e'; lg_published := p; lg_agents := ag;
              lg_pending := <[k := spec]> pe; lg_counted := c; lg_reconciling := None |}.
Context (B : balanced q lg) (Hv : (CanAdmit k q p0 spec (ag !! k) now e).1 = true).

Lemma admit_unclaimed : unclaimed lg k.
Proof using Hpe Hc.
  intros s d [Hs|[_ Hs]]%promised_lookup; simpl in Hs; [congruence|].
  unfold claim. simpl. rewrite Hc, Hs. simpl. lia.
Qed.

Lemma admit_promised : promised lg' = <[k := spec]> (promised lg).
Proof using. unfold promised. simpl. by rewrite insert_union_l. Qed.

Lemma admit_claim d k' s : claim d lg' k' s = claim d lg k' s.
Proof using. done. Qed.

Lemma admit_old o : ag !! k = Some o → spec_ok o.
Proof using B. intros Ho. apply (bal_specs _ _ B k). auto. Qed.

Lemma admit_delta d : field d (computeDelta e spec (ag !! k)) = claim d lg k spec.
Proof using Hok Hg B Hc.
  rewrite (delta_growth d e (ag !! k) spec Hok admit_old Hg). unfold claim. simpl. by rewrite Hc.
Qed.

Lemma admit_room d : claim d lg k spec = 0 ∨
  used d p + inflight (field d) k now e + claim d lg k spec ≤ ceiling d q.
Proof using Hok Hg B Hc Hv Hp0 Hpp.
  rewrite <- admit_delta. pose proof (Hpp d).
  destruct (admitted_room q lg k spec (ag !! k) p0 d B Hok Hg admit_old Hp0 Hv); [by left|right; simpl in *; lia].
Qed.

Lemma admit_growth d : 0 ≤ claim d lg k spec.
Proof using Hg Hc. unfold claim. simpl. rewrite Hc. pose proof (proj2 Hg d). lia. Qed.

Lemma admit_claims d : claims d lg' = claims d lg + claim d lg k spec.
Proof using Hpe Hc.
  unfold claims. rewrite admit_promised, map_Zsum_insert_delete.
  change (claim d lg') with (claim d lg). destruct (promised lg !! k) as [s|] eqn:Es.
  - rewrite (map_Zsum_delete _ (promised lg) k s Es), (admit_unclaimed s d Es). lia.
  - rewrite delete_id by done. lia.
Qed.

Lemma admit_field d : field d (reservation_of (computeDelta e spec (ag !! k)) now ttl) = claim d lg k spec.
Proof using Hok Hg B Hc. rewrite <- admit_delta. by destruct d. Qed.

Lemma admit_inflight d : inflight_all (field d) now e' ≤ MaxInt32.
Proof using All.
  unfold e', reserve. rewrite inflight_all_reserve by (unfold expired; simpl; apply Z.ltb_ge; lia).
  rewrite admit_field. pose proof (bal_used _ _ B d) as Hu. simpl in Hu. destruct (admit_room d) as [E|Hr].
  - rewrite E. pose proof (inflight_all_release_le (field d) k now _ (bal_nonneg _ _ B d)) as Hle.
    rewrite <- inflight_exclude in Hle. pose proof (bal_int32 _ _ B d) as Hi. simpl in *. lia.
  - destruct Hq as (? & ? & ? & ?). destruct d; simpl in *; ints.
Qed.

Lemma balanced_admitted : balanced q lg'.
Proof using All.
  split; simpl.
  - intros d k' r Hr. simpl in Hr. apply lookup_insert_Some in Hr as [[<- <-]|[_ Hr]];
      [rewrite admit_field; apply admit_growth|by apply (bal_nonneg _ _ B d k' r)].
  - apply admit_inflight.
  - exact (bal_usage _ _ B).
  - exact (bal_used _ _ B).
  - intros k' x [[<- _]|[_ Hx]]%lookup_insert_Some; [done|by apply (bal_pending _ _ B k' x)].
  - exact (bal_dom _ _ B).
  - intros k' x [Hx|[[[<- <-]|[_ Hx]]%lookup_insert_Some|Hx]]; [|done|..]; apply (bal_specs _ _ B k'); simpl; auto.
  - intros d k' x. rewrite admit_promised, admit_claim. intros [[<- <-]|[_ Hx]]%lookup_insert_Some;
      [apply admit_growth|by apply (bal_grows _ _ B)].
  - intros k'. destruct (decide (k' = k)) as [->|Hne].
    + right. eexists. rewrite lookup_insert_eq. split; [done|]. split; [simpl; lia|].
      intros s d. rewrite admit_promised, lookup_insert_eq. intros [= <-]. apply admit_field.
    + destruct (bal_backed _ _ B k') as [Hu|(r & Hr & He & Hf)].
      * left. intros s d. rewrite admit_promised, lookup_insert_ne by done. apply Hu.
      * right. exists r. rewrite lookup_insert_ne by done. split; [done|]. split; [done|].
        intros s d. rewrite admit_promised, lookup_insert_ne by done. apply Hf.
  - exact (bal_counted _ _ B).
  - intros d. rewrite admit_claims. pose proof (bal_ceiling _ _ B d) as Hb.
    pose proof (claims_inflight q lg k d B admit_unclaimed) as Hi. simpl in Hb, Hi.
    destruct (admit_room d) as [E|Hr]; lia.
Qed.
End admission_step.

(** *** Publication *)

Lemma total_list d e ag l : l ≡ₚ map_to_list ag → total d e ag = Zsum (amount d e <$> l.*2).
Proof.
  intros Hl. unfold total, map_Zsum. rewrite <- Hl, <- list_fmap_compose. f_equal.
  apply list_fmap_ext. by intros ? [].
Qed.

(** What the reconciler computes is the total of the agents, when that fits. *)
Lemma usage_is_total d e ag l : l ≡ₚ map_to_list ag → is_int32 (total d e ag) →
  used d (ComputeUsage e l.*2) = total d e ag.
Proof.
  intros Hl. rewrite (total_list d e ag l Hl). intros Hfit.
  destruct (ComputeUsage_wrapped e l.*2) as (Ea & Eg & Er). rewrite <- (int32_id _ Hfit).
  destruct d; simpl; rewrite ?Ea, ?Eg, ?Er; unfold amount; simpl; [|done|done].
  f_equal. generalize (l.*2) as xs. induction xs as [|x xs IH]; [done|].
  rewrite Zsum_fmap_cons, <- IH. simpl length. lia.
Qed.

Section listing.
Context q (now : Z) e (p p' : TenantQuotaStatus) (ag pe c : gmap string AgentDeploymentSpec)
  (l : list (string * AgentDeploymentSpec)).
Context (Hq : quota_wf q) (Hl : l ≡ₚ map_to_list ag) (Hp' : ∀ d, used d p' = used d (ComputeUsage e l.*2)).
Let lg := {| lg_now := now; lg_enforcer := e; lg_published := p; lg_agents := ag;
             lg_pending := pe; lg_counted := c; lg_reconciling := None |}.
Let lg' := {| lg_now := now; lg_enforcer := e; lg_published := p'; lg_agents := ag;
              lg_pending := pe; lg_counted := ag; lg_reconciling := None |}.
Context (B : balanced q lg).

Lemma listed_ok k x : ag !! k = Some x → spec_ok x.
Proof using B. intros Hx. apply (bal_specs _ _ B k). auto. Qed.

Lemma listed_used d : used d p' = total d e ag ∧ is_int32 (used d p') ∧ 0 ≤ used d p'.
Proof using B Hp' Hl Hq.
  pose proof (total_nonneg d e ag listed_ok). pose proof (stored_within q lg d B) as Hs.
  pose proof (balanced_fits q lg d B) as Hf. simpl in Hs, Hf.
  assert (is_int32 (total d e ag)) by (destruct Hq as (? & ? & ? & ?); destruct d; simpl in *; ints).
  rewrite Hp', (usage_is_total d e ag l) by done. done.
Qed.

(** What waits to be stored is claimed as it was, nothing else is. *)
Lemma listed_claim d k s : promised lg !! k = Some s →
  claim d lg' k s = match pe !! k with Some _ => claim d lg k s | None => 0 end.
Proof using B.
  intros [Hs|[Hn Hs]]%promised_lookup; simpl in Hs.
  - rewrite Hs. pose proof (bal_pending _ _ B k s Hs) as Hc. simpl in Hc. unfold claim. simpl. by rewrite Hc.
  - simpl in Hn. rewrite Hn. unfold claim. simpl. rewrite Hs. simpl. lia.
Qed.

(** Counting the stored agents and what the promises add to them counts no more
    than the promises. *)
Lemma listed_claims d : total d e ag + claims d lg' ≤ total d e (promised lg).
Proof using B.
  unfold claims, claim.
  rewrite (map_Zsum_minus (λ _, amount d e) (λ k _, amount_of d e (ag !! k)) (promised lg)).
  assert (total d e ag ≤ map_Zsum (λ k _, amount_of d e (ag !! k)) (promised lg)); [|unfold total in *; lia].
  apply map_Zsum_covered.
  - intros k s Hs. destruct (promised lg !! k) as [x|] eqn:Hx; [exists x; rewrite Hs; done|].
    apply lookup_union_None in Hx as [_ Hx]. simpl in Hx. congruence.
  - intros k x _. destruct (ag !! k) as [s|] eqn:Hs; [|done]. apply (amount_nonneg d e s), (listed_ok k s Hs).
Qed.

Lemma balanced_list : balanced q lg'.
Proof using All.
  split; simpl; try done.
  - exact (bal_nonneg _ _ B).
  - exact (bal_int32 _ _ B).
  - split_and!; [apply (listed_used Agents)|apply (listed_used GPUs)|apply (listed_used Replicas)].
  - intros d. apply listed_used.
  - intros k x Hx. apply (bal_specs _ _ B k). simpl. naive_solver.
  - intros d k x Hx. rewrite listed_claim by done. case_match; [|done]. by apply (bal_grows _ _ B).
  - intros k. destruct (pe !! k) as [s|] eqn:Hk; [|left; intros s d Hs; by rewrite listed_claim, Hk].
    destruct (bal_backed _ _ B k) as [Hu|(r & Hr & He & Hf)].
    + left. intros x d Hx. rewrite listed_claim, Hk by done. by apply Hu.
    + right. exists r. split; [done|]. split; [done|]. intros x d Hx. rewrite listed_claim, Hk by done. by apply Hf.
  - intros d. by rewrite (proj1 (listed_used d)).
  - intros d. rewrite (proj1 (listed_used d)). etrans; [apply listed_claims|apply (balanced_fits q lg d B)].
Qed.
End listing.

(** Only the counts of a status matter. *)
Lemma balanced_usage q now e p p' ag pe c : (∀ d, used d p' = used d p) →
  let lg p := {| lg_now := now; lg_enforcer := e; lg_published := p; lg_agents := ag;
                 lg_pending := pe; lg_counted := c; lg_reconciling := None |} in
  balanced q (lg p) → balanced q (lg p').
Proof.
  intros Hu lg [? ? Hw ? ? ? ? ? ? ? Hc]. split; simpl in *; try done.
  - unfold usage_wf. by rewrite (Hu Agents : tq_UsedAgents _ = _), (Hu GPUs : tq_UsedGPUs _ = _),
      (Hu Replicas : tq_UsedTotalReplicas _ = _).
  - intros d. by rewrite Hu.
  - intros d. by rewrite Hu.
  - intros d. rewrite Hu. apply Hc.
Qed.

(** *** The other steps *)

(** Agents move from pending to stored, or go away: every claim that is left
    was there before. *)
Lemma balanced_fewer q now e p ag ag' pe pe' c c' :
  let lg ag pe c := {| lg_now := now; lg_enforcer := e; lg_published := p; lg_agents := ag;
                       lg_pending := pe; lg_counted := c; lg_reconciling := None |} in
  (∀ k s, pe' !! k = Some s → c' !! k = ag' !! k) → dom c' ⊆ dom ag' → c' ⊆ c →
  (∀ k s, ag' !! k = Some s ∨ pe' !! k = Some s → ag !! k = Some s ∨ pe !! k = Some s) →
  (∀ k s, promised (lg ag' pe' c') !! k = Some s →
    c' !! k = Some s ∨ promised (lg ag pe c) !! k = Some s ∧ c' !! k = c !! k) →
  balanced q (lg ag pe c) → balanced q (lg ag' pe' c').
Proof.
  intros lg Hpe Hdom Hsub Hin Hcl B.
  assert (Hclaim : ∀ d k s, promised (lg ag' pe' c') !! k = Some s → claim d (lg ag' pe' c') k s = 0 ∨
    promised (lg ag pe c) !! k = Some s ∧ claim d (lg ag' pe' c') k s = claim d (lg ag pe c) k s).
  { intros d k s Hs. unfold claim. simpl. destruct (Hcl k s Hs) as [->|[Hp ->]]; [left; simpl; lia|auto]. }
  assert (Hok : ∀ k s, c' !! k = Some s → spec_ok s)
    by (intros k s Hs; apply (bal_specs _ _ B k); simpl; eauto using lookup_weaken).
  split; simpl; try done.
  - exact (bal_nonneg _ _ B).
  - exact (bal_int32 _ _ B).
  - exact (bal_usage _ _ B).
  - exact (bal_used _ _ B).
  - intros k s Hs. assert (c' !! k = Some s ∨ ag !! k = Some s ∨ pe !! k = Some s) as [Hk|Hk] by naive_solver;
      [eauto|apply (bal_specs _ _ B k); simpl; naive_solver].
  - intros d k s Hs. destruct (Hclaim d k s Hs) as [->|[Hp ->]]; [done|by apply (bal_grows _ _ B)].
  - intros k. destruct (bal_backed _ _ B k) as [Hu|(r & Hr & He & Hf)].
    + left. intros s d Hs. destruct (Hclaim d k s Hs) as [->|[Hp ->]]; [done|by apply Hu].
    + destruct (promised (lg ag' pe' c') !! k) as [s|] eqn:Hs; [|left; by intros s d; rewrite Hs].
      destruct (Hcl k s Hs) as [Hk|[Hp Hk]].
      * left. intros x d. rewrite Hs. intros [= <-]. unfold claim. simpl. rewrite Hk. simpl. lia.
      * right. exists r. split; [done|]. split; [done|]. intros x d [= <-].
        rewrite (Hf s d Hp). unfold claim. simpl. by rewrite Hk.
  - intros d. etrans; [|apply (bal_counted _ _ B d)]. apply map_Zsum_covered.
    + intros k s Hs. exists s. split; [by eapply lookup_weaken|done].
    + intros k s Hs. apply (amount_nonneg d), (bal_specs _ _ B k). auto.
  - intros d. pose proof (bal_ceiling _ _ B d) as Hb. simpl in Hb.
    assert (claims d (lg ag' pe' c') ≤ claims d (lg ag pe c)); [|lia].
    unfold claims. rewrite <- (map_Zsum_filter _ _ (λ ks, claim d (lg ag' pe' c') ks.1 ks.2 ≠ 0)).
    2: { intros k s _ Hn. apply dec_stable. done. }
    apply map_Zsum_covered; [|intros k s; apply (bal_grows _ _ B)].
    intros k s [Hs Hne]%map_lookup_filter_Some. destruct (Hclaim d k s Hs) as [?|[Hp Heq]]; [done|].
    exists s. split; [done|]. lia.
Qed.

Lemma balanced_same q lg : balanced q lg →
  balanced q {| lg_now := lg_now lg; lg_enforcer := lg_enforcer lg; lg_published := lg_published lg;
                lg_agents := lg_agents lg; lg_pending := lg_pending lg; lg_counted := lg_counted lg;
                lg_reconciling := None |}.
Proof. intros [? ? ? ? ? ? ? ? ? ? ?]. by split. Qed.

(** The enforcer changes, but not the reservations behind claims. *)
Lemma balanced_enforcer q lg e' :
  gpuResourceName e' = gpuResourceName (lg_enforcer lg) → res_nonneg e' →
  (∀ d, inflight_all (field d) (lg_now lg) e' ≤ MaxInt32) →
  (∀ k r, unclaimed lg k ∨ (reservations (lg_enforcer lg) !! k = Some r →
    lg_now lg ≤ re_expiry r → reservations e' !! k = Some r)) →
  balanced q lg →
  balanced q {| lg_now := lg_now lg; lg_enforcer := e'; lg_published := lg_published lg;
                lg_agents := lg_agents lg; lg_pending := lg_pending lg; lg_counted := lg_counted lg; lg_reconciling := None |}.
Proof.
  intros Hg Hn Hi Hk [? ? ? ? ? ? ? Hgr Hb Hc Hq].
  set (lg' := {| lg_enforcer := e' |}).
  assert (Hcl : ∀ d k s, claim d lg' k s = claim d lg k s).
  { intros d k s. unfold claim, lg'. simpl. by rewrite (amount_gpu _ _ _ _ Hg), (amount_of_gpu _ _ _ _ Hg). }
  split; try done; simpl.
  - intros d k s Hs. rewrite Hcl. by apply Hgr.
  - intros k. assert (Hun : unclaimed lg k → unclaimed lg' k) by (intros Hu s d Hs; rewrite Hcl; by apply Hu).
    destruct (Hb k) as [Hu|(r & Hr & He & Hf)]; [auto|].
    destruct (Hk k r) as [Hu|Hkeep]; [auto|]. right. exists r. split; [auto|]. split; [done|].
    intros s d Hs. rewrite Hcl. by apply Hf.
  - intros d. rewrite (total_gpu _ _ _ _ Hg). apply Hc.
  - intros d. etrans; [|apply Hq]. apply Z.add_le_mono_l. unfold claims. apply map_Zsum_le.
    intros k s _. by rewrite Hcl.
Qed.

Lemma balanced_time q lg now' : lg_now lg ≤ now' → timely lg now' → balanced q lg →
  balanced q {| lg_now := now'; lg_enforcer := lg_enforcer lg; lg_published := lg_published lg;
                lg_agents := lg_agents lg; lg_pending := lg_pending lg; lg_counted := lg_counted lg; lg_reconciling := None |}.
Proof.
  intros Hle Ht [Hn Hi ? ? ? ? ? ? Hb ? ?]. split; simpl; try done.
  - intros d. etrans; [apply (inflight_all_later_le _ (lg_now lg)); [apply Hn|done]|apply Hi].
  - intros k. destruct (Hb k) as [Hu|(r & Hr & _ & Hf)]; [by left|].
    destruct (Ht k) as [Hu|(r' & Hr' & He)]; [by left|]. simplify_eq. right. by exists r.
Qed.

Lemma balanced_sweep q lg pick : balanced q lg →
  balanced q {| lg_now := lg_now lg; lg_enforcer := sweepLoop_tick pick (lg_now lg) (lg_enforcer lg);
                lg_published := lg_published lg; lg_agents := lg_agents lg;
                lg_pending := lg_pending lg; lg_counted := lg_counted lg; lg_reconciling := None |}.
Proof.
  intros B. unfold sweepLoop_tick. destruct (done_closed _ && _); [exact (balanced_same q lg B)|].
  apply balanced_enforcer; [done|apply res_nonneg_sweep, (bal_nonneg _ _ B)| | |done].
  - intros d. rewrite inflight_all_sweep by lia. apply (bal_int32 _ _ B).
  - intros k r. right. intros Hr He. simpl. apply map_lookup_filter_Some. split; [done|].
    unfold expired. simpl. by apply Z.ltb_ge.
Qed.

Lemma balanced_other q lg e' k o :
  unclaimed lg k →
  e' = with_reservations (partial_alter (λ _, o) k (reservations (lg_enforcer lg))) (lg_enforcer lg) →
  (∀ r d, o = Some r → 0 ≤ field d r) → (∀ d, inflight_all (field d) (lg_now lg) e' ≤ MaxInt32) →
  balanced q lg →
  balanced q {| lg_now := lg_now lg; lg_enforcer := e'; lg_published := lg_published lg;
                lg_agents := lg_agents lg; lg_pending := lg_pending lg; lg_counted := lg_counted lg; lg_reconciling := None |}.
Proof.
  intros Hk -> Ho Hi B. apply balanced_enforcer; [done| |done| |done].
  - intros d k' r Hr. simpl in Hr. destruct (decide (k' = k)) as [->|Hne].
    + rewrite lookup_partial_alter_eq in Hr. by apply Ho.
    + rewrite lookup_partial_alter_ne in Hr by done. by apply (bal_nonneg _ _ B d k').
  - intros k' r. destruct (decide (k' = k)) as [->|Hne]; [by left|]. right.
    intros Hr _. simpl. by rewrite lookup_partial_alter_ne.
Qed.

Lemma balanced_commit q now e p ag pe c k spec : pe !! k = Some spec →
  let lg ag pe := {| lg_now := now; lg_enforcer := e; lg_published := p; lg_agents := ag;
                     lg_pending := pe; lg_counted := c; lg_reconciling := None |} in
  balanced q (lg ag pe) → balanced q (lg (<[k := spec]> ag) (delete k pe)).
Proof.
  intros Hk lg B. pose proof (bal_pending _ _ B) as Hpe. pose proof (bal_dom _ _ B) as Hdom. simpl in Hpe, Hdom.
  revert B. apply balanced_fewer; [|set_solver|done|..].
  - intros k' s [Hne Hs]%lookup_delete_Some. rewrite lookup_insert_ne by done. eauto.
  - intros k' s [[[<- <-]|[_ ?]]%lookup_insert_Some|[_ ?]%lookup_delete_Some]; auto.
  - intros k' s Hs. right. split; [|done]. apply promised_lookup. apply promised_lookup in Hs. simpl in *.
    destruct (decide (k' = k)) as [->|Hne].
    + rewrite lookup_delete_eq, lookup_insert_eq in Hs. left. by destruct Hs as [|[_ [= <-]]].
    + rewrite lookup_delete_ne, lookup_insert_ne in Hs by done. done.
Qed.

Lemma balanced_drop q now e p ag pe c k :
  let lg pe := {| lg_now := now; lg_enforcer := e; lg_published := p; lg_agents := ag;
                  lg_pending := pe; lg_counted := c; lg_reconciling := None |} in
  balanced q (lg pe) → balanced q (lg (delete k pe)).
Proof.
  intros lg B. pose proof (bal_pending _ _ B) as Hpe. pose proof (bal_dom _ _ B) as Hdom. simpl in Hpe, Hdom.
  revert B. apply balanced_fewer; [|done|done|..].
  - intros k' s [_ Hs]%lookup_delete_Some. eauto.
  - intros k' s [?|[_ ?]%lookup_delete_Some]; auto.
  - intros k' s Hs. apply promised_lookup in Hs. simpl in Hs. destruct (decide (k' = k)) as [->|Hne].
    + rewrite lookup_delete_eq in Hs. destruct Hs as [|[_ Hs]]; [done|].
      destruct (pe !! k) as [x|] eqn:Hx; [left; by rewrite (Hpe k x Hx)|].
      right. split; [|done]. apply promised_lookup. auto.
    + rewrite lookup_delete_ne in Hs by done. right. split; [|done]. by apply promised_lookup.
Qed.

Lemma balanced_delete q now e p ag pe c k :
  let lg ag pe c := {| lg_now := now; lg_enforcer := e; lg_published := p; lg_agents := ag;
                       lg_pending := pe; lg_counted := c; lg_reconciling := None |} in
  balanced q (lg ag pe c) → balanced q (lg (delete k ag) (delete k pe) (delete k c)).
Proof.
  intros lg B. pose proof (bal_pending _ _ B) as Hpe. pose proof (bal_dom _ _ B) as Hdom. simpl in Hpe, Hdom.
  revert B. apply balanced_fewer; [|rewrite !dom_delete; set_solver|apply delete_subseteq|..].
  - intros k' s [Hne Hs]%lookup_delete_Some. rewrite !lookup_delete_ne by done. eauto.
  - intros k' s [[_ ?]%lookup_delete_Some|[_ ?]%lookup_delete_Some]; auto.
  - intros k' s Hs. apply promised_lookup in Hs. simpl in Hs. destruct (decide (k' = k)) as [->|Hne].
    + rewrite !lookup_delete_eq in Hs. by destruct Hs as [|[_ Hs]].
    + rewrite !lookup_delete_ne in Hs by done. rewrite lookup_delete_ne by done.
      right. split; [|done]. by apply promised_lookup.
Qed.

(** What holds between the steps: the ledger that is due balances, and the
    usage an admission reads is of its type. *)
Definition sound q lg : Prop := balanced q (due lg) ∧ usage_wf (lg_published lg).

Lemma sound_entry q lg lg' : quota_wf q → entry q lg lg' → sound q lg → sound q lg'.
Proof.
  intros Hq Hs [B Hw].
  destruct Hs as [now e p ag pe c rc k spec ttl v e' lg Hle Hc Hpe Hok Hg Httl HA Hv|now e p ag pe c rc k spec Hk
    |now e p ag pe c rc k|now e p ag pe c rc k Hk|now e p p' ag pe c rc l Hl Hu|now e p ag pe c p' c' k lg Hk
    |now e p p'' ag pe c p' c' Hu|now e p ag pe c rc pick|now e p ag pe c rc k o lg e' Hk Ho Hi
    |now now' e p ag pe c rc lg Hle Ht]; (split; [|try exact Hw]).
  - rewrite AdmitAndReserve_spec in HA. injection HA as <- <-. rewrite Hv.
    destruct rc as [[]|]; by eapply balanced_admitted with (p0 := p).
  - destruct rc as [[]|]; exact (balanced_commit _ _ _ _ _ _ _ _ _ Hk B).
  - destruct rc as [[]|]; exact (balanced_drop _ _ _ _ _ _ _ _ B).
  - destruct rc as [[]|]; exact (balanced_delete _ _ _ _ _ _ _ _ B).
  - destruct rc as [[]|]; exact (balanced_list _ _ _ _ _ _ _ _ _ Hq Hl Hu B).
  - by apply (balanced_other q (due (lg e)) (Release k e) k None);
      [..|intros d; etrans; [apply inflight_all_release_le, (bal_nonneg _ _ B)|apply (bal_int32 _ _ B)]|].
  - eapply balanced_usage; [done|exact B].
  - simpl. destruct (bal_usage _ _ B) as (H1 & H2 & H3). unfold usage_wf.
    by rewrite (Hu Agents : tq_UsedAgents _ = _), (Hu GPUs : tq_UsedGPUs _ = _),
      (Hu Replicas : tq_UsedTotalReplicas _ = _).
  - destruct rc as [[]|]; exact (balanced_sweep _ _ pick B).
  - destruct rc as [[]|]; exact (balanced_other _ _ _ _ _ Hk eq_refl Ho Hi B).
  - destruct rc as [[]|]; exact (balanced_time _ (due (lg now)) _ Hle Ht B).
Qed.

Lemma new_ledger_balanced q now name : quota_wf q → (∀ d, 0 ≤ ceiling d q) →
  balanced q (new_ledger now name).
Proof.
  intros Hq Hc. split; simpl; try done.
  - by intros [].
  - intros k spec [Hk|[Hk|Hk]]; by rewrite lookup_empty in Hk.
  - intros k. left. by intros spec d [Hk|[_ Hk]]%promised_lookup.
  - intros d. unfold total. rewrite map_Zsum_empty. by destruct d.
  - intros d. unfold claims, promised. simpl. rewrite (left_id_L ∅ (∪)), map_Zsum_empty.
    specialize (Hc d). destruct d; simpl in *; lia.
Qed.

End balance.

Section witness.
#[local] Existing Instance Ref.core.

(** A tenant whose first agent is admitted, stored and published, then grows,
    and whose second is in flight. *)
Definition first_spec : AgentDeploymentSpec := Ref.agent 3 1000.
Definition grown_spec : AgentDeploymentSpec := Ref.agent 4 1000.
Definition demo_ledger (e : Enforcer) (p : TenantQuotaStatus) (ag pe c : gmap string AgentDeploymentSpec) : ledger :=
  {| lg_now := 5; lg_enforcer := e; lg_published := p; lg_agents := ag; lg_pending := pe; lg_counted := c; lg_reconciling := None |}.
Definition e1 : Enforcer := (AdmitAndReserve "ns/a" Ref.quota zero_usage first_spec None 5 5 (NewEnforcer "")).2.
Definition p1 : TenantQuotaStatus := ComputeUsage e1 [first_spec].
Definition e2 : Enforcer := Release "ns/a" e1.
Definition e3 : Enforcer := (AdmitAndReserve "ns/a" Ref.quota p1 grown_spec (Some first_spec) 5 5 e2).2.
Definition e4 : Enforcer := (AdmitAndReserve "ns/b" Ref.quota p1 (Ref.agent 2 0) None 5 5 e3).2.
Definition ag1 : gmap string AgentDeploymentSpec := <["ns/a" := first_spec]> ∅.
Definition pe1 : gmap string AgentDeploymentSpec := delete "ns/a" (<["ns/a" := first_spec]> ∅).
Definition pe2 : gmap string AgentDeploymentSpec := <["ns/a" := grown_spec]> pe1.
Definition reconciling_ledger (e : Enforcer) : ledger :=
  {| lg_now := 5; lg_enforcer := e; lg_published := zero_usage; lg_agents := ag1; lg_pending := pe1;
     lg_counted := ∅; lg_reconciling := Some (p1, ag1) |}.
Definition last_ledger : ledger := demo_ledger e4 p1 ag1 (<["ns/b" := Ref.agent 2 0]> pe2) ag1.

Lemma demo_ok (m g : Z) : (0 <=? m) && (m <=? 5) = true → spec_ok (Ref.agent m g).
Proof. intros Hm. zbool. split; unfold spec_max; simpl; ints. Qed.

End witness.
