(* ===== verification/LedgerHandlers.v ===== *)
(** The handlers and the ledger of [Ledger.v]: an accepted create or update, a
    refused one and the two phases of a reconcile of the quota as steps of the
    ledger, and the runs of the handlers that are no such steps and end above the
    quota. *)
From stdpp Require Import relations.
From S2P Require Import Prelude Types Objects Scaling GoFloat Enforcer EnforcerProps Cluster PromQL Registry.
From S2P Require Import Registrar RefWorld Webhook Canary RegistryProps RegistrarProps CanaryProps QuotaController Ledger.

(** ** The phases of a reconcile

    The reconcile of a quota is not one step: it gives the reservations back
    before it has read the quota again and written the status. *)
Section phases.
Context `{CoreTypes, ConditionsAPI, KubeClient W, !SharedEnforcer W, !UsageGauge W}.

(** From the first read to the computed usage; [None] when the quota is gone. *)
Definition reconcile_release (req : NamespacedName) : Proc W (option TenantQuotaStatus) :=
  o ← get_opt (A := TenantQuota) req "fetching TenantQuota";
  match o with
  | None => modify_gauge (delete (nn_Namespace req));; mret None
  | Some tq =>
      adList ← List (A := AgentDeployment) (om_Namespace (tq_Meta tq)) <?> "listing AgentDeployments";
      let ads := referencing (om_Name (tq_Meta tq)) adList in
      modify_enforcer (release_all ads);;
      e ← read_enforcer;
      mret (Some (ComputeUsage e (ad_Spec <$> ads)))
  end.

(** From the second read to the status write. *)
Definition reconcile_publish (req : NamespacedName) (usage : TenantQuotaStatus) : Proc W Result :=
  o' ← get_opt (A := TenantQuota) req "re-fetching TenantQuota for status update";
  match o' with
  | None => modify_gauge (delete (nn_Namespace req));; mret no_requeue
  | Some latest =>
      modify_gauge (insert (om_Namespace (tq_Meta latest)) (quota_ratio usage (tq_Spec latest)));;
      write_usage (usage_status usage latest) latest;;
      mret (requeue_after (5 * Minute))
  end.

Lemma Reconcile_phases req w :
  TenantQuota_Reconcile req w =
  (o ← reconcile_release req;
   match o with None => mret no_requeue | Some usage => reconcile_publish req usage end) w.
Proof.
  unfold TenantQuota_Reconcile, reconcile_release, mbind, Proc_bind.
  destruct (get_opt req _ w) as [[err|[tq|]] w1]; [done| |done].
  by destruct ((List _ <?> _) w1) as [[err|l] w2].
Qed.
End phases.

(** ** The handlers take these steps *)
Section handlers.
Context `{CoreTypesLaws, !ConditionsAPI, !ConditionsLaws} {W : Type} {KC : KubeClient W} {KL : KubeLaws}
  {SE : StatusErrors} {EN : SharedEnforcer W} {EL : SharedEnforcerLaws} {UG : UsageGauge W}
  {UL : UsageGaugeLaws}.
Implicit Types (ad : AgentDeployment) (w : W) (req : NamespacedName) (lg : ledger).

(** The agents of the quota [req] that the API server holds. *)
Definition agent_of w req ad : Prop :=
  store w !! (KAgentDeployment, ad_key ad) = Some (OAgentDeployment ad) ∧
  ad_Namespace ad = nn_Namespace req ∧ spec_TenantRef (ad_Spec ad) = nn_Name req.

(** The ledger has what the cluster and the process have. *)
Definition reflects w req (q : TenantQuotaSpec) lg : Prop :=
  (∃ tq, store w !! (KTenantQuota, req) = Some (OTenantQuota tq) ∧ tq_Spec tq = q ∧
    lg_published lg = tq_Status tq) ∧
  lg_enforcer lg = enforcer w ∧
  ∀ k spec, lg_agents lg !! k = Some spec ↔
    ∃ ad, agent_of w req ad ∧ admissionKey ad = k ∧ ad_Spec ad = spec.

(** No reconcile is about to publish more than the status says. *)
Definition not_raising lg : Prop := ∀ d, used d (lg_published (due lg)) ≤ used d (lg_published lg).

Lemma string_app_inj (s a b : string) : s +:+ a = s +:+ b → a = b.
Proof.
  induction s as [|c s IH]; [done|]. rewrite !app_cons_string. intros [= Hs]. by apply IH.
Qed.

Lemma admissionKey_inj ad ad' : ad_Namespace ad = ad_Namespace ad' →
  admissionKey ad = admissionKey ad' → ad_key ad = ad_key ad'.
Proof.
  unfold admissionKey. intros Hns. rewrite Hns. intros Hk%string_app_inj%string_app_inj.
  unfold ad_key, om_key, ad_Name, ad_Namespace in *. congruence.
Qed.

(** The list the reconciler works on is the agents of the ledger. *)
Lemma listed_agents w req q lg ads : reflects w req q lg → tenant_agents w req ads →
  ((λ ad, (admissionKey ad, ad_Spec ad)) <$> ads) ≡ₚ map_to_list (lg_agents lg).
Proof.
  intros (_ & _ & Hag) [Hnd Hin]. apply NoDup_Permutation; [|apply NoDup_map_to_list|].
  - apply (NoDup_fmap_1 fst). rewrite <- list_fmap_compose.
    assert (Hns : ∀ ad, ad ∈ ads → ad_Namespace ad = nn_Namespace req) by (intros ad (_ & ? & _)%Hin; done).
    clear Hin. induction ads as [|ad ads IH]; [constructor|].
    apply list.NoDup_cons in Hnd as [Hn Hnd]. apply list.NoDup_cons. split.
    + intros (ad' & Hk & Hin)%list_elem_of_fmap. apply Hn, list_elem_of_fmap. exists ad'. split; [|done].
      apply admissionKey_inj; [|done]. rewrite !Hns; [done|by right|by left].
    + apply IH; [done|]. intros ad' ?. apply Hns. by right.
  - intros [k spec]. rewrite list_elem_of_fmap, elem_of_map_to_list, Hag.
    split; [intros (ad & [= -> ->] & Had%Hin); by exists ad|intros (ad & Had & <- & <-)].
    exists ad. split; [done|]. by apply Hin.
Qed.

Lemma release_all_keys ads e : release_all ads e = release_keys (admissionKey <$> ads) e.
Proof. unfold release_all, release_keys. revert e. induction ads as [|ad ads IH]; intros e; [done|apply IH]. Qed.

Lemma used_usage_status d usage tq : used d (usage_status usage tq) = used d usage.
Proof. unfold usage_status. destruct (IsOverQuota _ _). by destruct d. Qed.

(** An admission that is not a dry run, of a create or of an update. *)
Lemma admission_entry req q ad old w w' :
  ad_Namespace ad = nn_Namespace req → spec_TenantRef (ad_Spec ad) = nn_Name req → spec_ok (ad_Spec ad) →
  admission_outcome false ad old w (inr tt) w' →
  ∃ now, ∀ lg, reflects w req q lg → lg_now lg = now → not_raising lg →
    lg_agents lg !! admissionKey ad = old → lg_counted (due lg) !! admissionKey ad = old →
    lg_pending lg !! admissionKey ad = None → grows (enforcer w) old (ad_Spec ad) →
    ∃ lg', entry q lg lg' ∧ reflects w' req q lg' ∧
      lg_pending lg' = <[admissionKey ad := ad_Spec ad]> (lg_pending lg).
Proof.
  intros Hns Ht Hok (Hst & now & (tq & Htq & _ & Hc) & He).
  exists now. intros lg ((tq0 & Hq & Hspec & Hpub) & Hen & Hag) Hnow Hnr Hka Hkc Hkp Hg.
  unfold tenant_quota in Htq. rewrite Hns, Ht in Htq. destruct req as [ns name]. simpl in *.
  rewrite Hq in Htq. simpl in Htq. injection Htq as <-.
  destruct lg as [now0 e p ag pe c rc]. unfold not_raising in Hnr. cbn [lg_agents lg_pending lg_enforcer lg_published lg_now] in *.
  subst now0 e p q.
  eexists. split; [eapply (entry_admit _ now (enforcer w) _ ag pe c rc (admissionKey ad) (ad_Spec ad) reservationTTL);
    rewrite ?Hka; try done|].
  - by rewrite AdmitAndReserve_spec.
  - split; [|done]. split; [|split]; simpl.
    + exists tq0. by rewrite Hst.
    + rewrite He, Hc. done.
    + intros k spec. rewrite Hag. unfold agent_of. by rewrite Hst.
Qed.

(** A refused request leaves the ledger as it is. *)
Lemma refusal_keeps req q ad old w w' lg err :
  admission_outcome false ad old w (inl err) w' → reflects w req q lg → reflects w' req q lg.
Proof.
  intros (Hst & now & He & _) (Hq & Hen & Hag). split; [by rewrite Hst|]. split; [by rewrite He|].
  intros k spec. rewrite Hag. unfold agent_of. by rewrite Hst.
Qed.

Lemma update_outcome oldAD ad w w' :
  om_DeletionTimestamp (ad_Meta ad) = None → ValidateUpdate false oldAD ad w = (inr tt, w') →
  admission_outcome false ad (Some (ad_Spec oldAD)) w (inr tt) w'.
Proof.
  intros Hdel. unfold ValidateUpdate. rewrite Hdel. case_match; [done|]. apply admission_outcome_intro.
Qed.

(** *** The reconciler *)

(** The first phase writes nothing to the cluster. *)
Lemma reconcile_release_run req w r w' : reconcile_release req w = (r, w') →
  store w' = store w ∧
  match r with
  | inl _ => enforcer w' = enforcer w
  | inr None => enforcer w' = enforcer w ∧ ∀ tq, store w !! (KTenantQuota, req) ≠ Some (OTenantQuota tq)
  | inr (Some usage) => ∃ ads, tenant_agents w req ads ∧ enforcer w' = release_all ads (enforcer w) ∧
      usage = ComputeUsage (enforcer w) (ad_Spec <$> ads)
  end.
Proof.
  unfold reconcile_release. unfold mbind at 1, Proc_bind at 1.
  destruct (get_opt req _ w) as [[err|o] w1] eqn:Hg.
  { intros [= <- <-]. split; [exact (get_opt_cell store (λ k w r w' H, proj1 (kube_get_spec k w r w' H)) _ _ _ _ _ Hg)|].
    pose proof (get_opt_cell process_state process_get _ _ _ _ _ Hg) as [= ? _]. done. }
  apply get_quota_run in Hg as (Hs1 & [= He1 _] & Ho & Hk). destruct o as [tq|]; simpl in Ho.
  2: { intros [= <- <-]. rewrite store_set_gauge, enforcer_set_gauge, Hs1, He1, Ho. done. }
  specialize (Hk tq eq_refl).
  assert (om_Namespace (tq_Meta tq) = nn_Namespace req ∧ om_Name (tq_Meta tq) = nn_Name req) as [Hns Hnm]
    by (by rewrite <- Hk).
  unfold mbind at 1, Proc_bind at 1. destruct ((List _ <?> _) w1) as [[err|l] w2] eqn:Hl.
  { apply wrap_err_inl in Hl as (e0 & Hl & _). intros [= <- <-].
    pose proof (List_cell store (λ kd ns w r w' H, proj1 (kube_list_spec kd ns w r w' H)) _ _ _ _ Hl) as ->.
    pose proof (List_cell process_state process_list _ _ _ _ Hl) as [= -> _]. done. }
  apply wrap_err_inr in Hl. pose proof (List_cell process_state process_list _ _ _ _ Hl) as [= He2 _].
  apply List_inr in Hl as (Hs2 & Hnd & Hin). rewrite Hns, Hs1 in Hin. cbv zeta. rewrite Hnm.
  set (ads := referencing (nn_Name req) l). pose proof (referencing_agents w req l Hnd Hin) as Hads. fold ads in Hads.
  intros [= <- <-]. rewrite store_set_enforcer, enforcer_set. split; [congruence|]. exists ads.
  split; [done|]. split; [congruence|]. apply ComputeUsage_gpu. by rewrite release_all_gpu, He2, He1.
Qed.

(** The second writes the status, or fails and writes nothing. *)
Lemma reconcile_publish_run req usage w r w' tq : reconcile_publish req usage w = (r, w') →
  store w !! (KTenantQuota, req) = Some (OTenantQuota tq) →
  enforcer w' = enforcer w ∧ (∀ k, k ≠ (KTenantQuota, req) → store w' !! k = store w !! k) ∧
  match r with
  | inl _ => store w' = store w
  | inr _ => ∃ tq', store w' !! (KTenantQuota, req) = Some (OTenantQuota tq') ∧ tq_Spec tq' = tq_Spec tq ∧
      tq_Status tq' = usage_status usage tq
  end.
Proof.
  intros Hr Htq. revert Hr. unfold reconcile_publish. unfold mbind at 1, Proc_bind at 1.
  destruct (get_opt req _ w) as [[err|o] w1] eqn:Hg.
  { intros [= <- <-]. pose proof (get_opt_cell process_state process_get _ _ _ _ _ Hg) as [= -> _].
    by pose proof (get_opt_cell store (λ k w r w' H, proj1 (kube_get_spec k w r w' H)) _ _ _ _ _ Hg) as ->. }
  apply get_quota_run in Hg as (Hs1 & [= He1 _] & Ho & _). rewrite Htq in Ho.
  destruct o as [latest|]; [|done]. injection Ho as <-.
  erewrite bind_step by done. set (w2 := set_gauge _ w1). unfold mbind, Proc_bind.
  assert (Hs2 : store w2 = store w) by (unfold w2; rewrite store_set_gauge; done).
  assert (He2 : enforcer w2 = enforcer w) by (unfold w2; rewrite enforcer_set_gauge; done).
  destruct (write_usage _ _ w2) as [[err|[]] w3] eqn:Hu; intros [= <- <-].
  - revert Hu. unfold write_usage. case_bool_decide; [done|].
    unfold mbind, Proc_bind. destruct ((StatusUpdate _ <?> _) w2) as [[e|x] w4] eqn:Hu; [|done].
    intros [= _ <-]. apply wrap_err_inl in Hu as (e0 & Hu & _).
    pose proof (StatusUpdate_cell process_state process_status _ _ _ _ Hu) as Hp. injection Hp as -> _.
    apply StatusUpdate_inl in Hu as ->. by rewrite Hs2, He2.
  - eapply (write_usage_run _ _ req) in Hu as ([= -> _] & Htq' & Hf); [|by rewrite Hs2].
    split; [done|]. split; [|exact Htq']. intros k Hk. by rewrite Hf, Hs2.
Qed.

(** The releases of the first phase, one by one. *)
Lemma releases q now e p (ag pe c c' : gmap string AgentDeploymentSpec) p' ks :
  let lg e := {| lg_now := now; lg_enforcer := e; lg_published := p; lg_agents := ag;
                 lg_pending := pe; lg_counted := c; lg_reconciling := Some (p', c') |} in
  (∀ k, k ∈ ks → unclaimed (due (lg e)) k) → rtc (entry q) (lg e) (lg (release_keys ks e)).
Proof.
  intros lg. revert e. induction ks as [|k ks IH]; intros e Hu; [done|].
  apply (rtc_l _ _ (lg (Release k e))); [apply entry_release, Hu; left|].
  apply IH. intros k' Hk'. apply (Hu k'). by right.
Qed.

Lemma release_entries req q w w' usage lg :
  reconcile_release req w = (inr (Some usage), w') → reflects w req q lg → lg_agents lg ##ₘ lg_pending lg →
  ∃ lg', rtc (entry q) lg lg' ∧ reflects w' req q lg' ∧ lg_reconciling lg' = Some (usage, lg_agents lg) ∧
    lg_pending lg' = lg_pending lg.
Proof.
  intros Hr Hrf Hd. apply reconcile_release_run in Hr as (Hst & ads & Hads & He & Hus).
  pose proof (listed_agents _ _ _ _ _ Hrf Hads) as Hl. destruct Hrf as (Hq & Hen & Hag).
  destruct lg as [now e p ag pe c rc]; simpl in *. subst e.
  eexists. split; [eapply rtc_l; [apply (entry_list _ now (enforcer w) p usage ag pe c rc _ Hl)|apply (releases _ _ _ _ _ _ _ _ _
    ((λ ad, (admissionKey ad, ad_Spec ad)) <$> ads).*1)]|].
  - intros d. by rewrite Hus, <- list_fmap_compose.
  - intros k Hk s d Hs. apply list_elem_of_fmap in Hk as ([k' x] & -> & Hin). rewrite Hl in Hin.
    apply elem_of_map_to_list in Hin. simpl in *. unfold claim. simpl. rewrite Hin. simpl.
    apply promised_lookup in Hs as [Hs|[_ Hs]]; simpl in Hs; [|rewrite Hin in Hs; injection Hs as <-; lia].
    by rewrite (map_disjoint_Some_l _ _ _ _ Hd Hin) in Hs.
  - split; [|done]. split; [|split]; simpl.
    + by rewrite Hst.
    + rewrite He, release_all_keys, <- list_fmap_compose. done.
    + intros k spec. rewrite Hag. unfold agent_of. by rewrite Hst.
Qed.

Lemma publish_entry req q w w' res usage lg c :
  reconcile_publish req usage w = (inr res, w') → reflects w req q lg → lg_reconciling lg = Some (usage, c) →
  ∃ lg', entry q lg lg' ∧ reflects w' req q lg' ∧ lg_counted lg' = c ∧ lg_reconciling lg' = None ∧
    lg_pending lg' = lg_pending lg.
Proof.
  intros Hr ((tq & Hq & Hspec & Hpub) & Hen & Hag) Hrc.
  pose proof (reconcile_publish_run _ _ _ _ _ tq Hr Hq) as (He & Hf & tq' & Hst & Hsp & Hstat).
  destruct lg as [now e p ag pe c0 rc]; simpl in *. subst e p rc.
  eexists. split; [apply (entry_publish _ now _ _ (tq_Status tq')); intros d; by rewrite Hstat, used_usage_status|].
  split; [|done]. split; [|split]; simpl; [exists tq'; split_and!; congruence|done|].
  intros k spec. rewrite Hag. unfold agent_of. by setoid_rewrite Hf.
Qed.

Lemma reflects_same req q w w' lg : store w' = store w → enforcer w' = enforcer w →
  reflects w req q lg → reflects w' req q lg.
Proof.
  intros Hst He (Hq & Hen & Hag). split; [by rewrite Hst|]. split; [by rewrite He|].
  intros k spec. rewrite Hag. unfold agent_of. by rewrite Hst.
Qed.

End handlers.

(** ** Reconciles that overlap with admissions *)

Section races.
#[local] Existing Instance Ref.core.
#[local] Existing Instance Ref.conditions.
#[local] Instance race_errors : StatusErrors := {|
  NewInvalid := λ name _, ApiError ReasonInvalid name;
  NewForbidden := λ name err, ApiError ReasonForbidden (Error err) |}.

Definition team : NamespacedName := NN "ns" "team".
Definition named_agent (name : string) (max : Z) : AgentDeployment :=
  {| ad_Meta := new_meta name "ns" ∅;
     ad_Spec := Ref.spec "img:v1" "team" 1 max 0 Ref.recreate Ref.no_mcp;
     ad_Status := ad_Status PromRef.ad |}.
Definition team_world (agents : list AgentDeployment) : world :=
  with_objects (OTenantQuota {| tq_Meta := new_meta "team" "ns" ∅; tq_Spec := Ref.quota;
    tq_Status := zero_usage |} :: (OAgentDeployment <$> agents)) empty_world.

(** The agent [a], admitted with 3 replicas and stored, is listed by a reconcile
    that has not yet published it; [b] with 4 is admitted meanwhile. *)
Definition stored_world : world :=
  (kube_create (OAgentDeployment (named_agent "a" 3))
    (ValidateCreate false (named_agent "a" 3) (team_world [])).2).2.
Definition released_world : world := (reconcile_release team stored_world).2.
Definition admitted_world : world := (ValidateCreate false (named_agent "b" 4) released_world).2.

(** An update of [a] from 2 to 5 replicas is admitted; the reconcile that runs
    before it is stored lists [a] as it was and gives its reservation back. *)
Definition published_world : world := (TenantQuota_Reconcile team (team_world [named_agent "a" 2])).2.
Definition updating_world : world :=
  (ValidateUpdate false (named_agent "a" 2) (named_agent "a" 5) published_world).2.
Definition reconciled_world : world := (TenantQuota_Reconcile team updating_world).2.

Definition over_ceiling (ads : list AgentDeployment) : Prop :=
  ceiling Replicas Ref.quota < Zsum (amount Replicas (NewEnforcer "") <$> (ad_Spec <$> ads)).

(** A reconcile that overlaps with an admission can let the tenant exceed
    its quota, although every reservation is in time.  First, the reconciler
    gives the reservation of a stored agent back before the status that counts
    it is written: a create in between is admitted against neither.  Second, it
    gives the reservation of a listed agent back also when that reservation is
    of an update that is not stored yet: the growth is in no count when the
    next create is admitted.  (Both handlers succeed throughout.) *)
Theorem overlapping_reconcile_overcommits :
  (∃ o usage w1 w2 w3 w4 res w5,
    ValidateCreate false (named_agent "a" 3) (team_world []) = (inr tt, w1) ∧
    kube_create (OAgentDeployment (named_agent "a" 3)) w1 = (inr o, w2) ∧
    reconcile_release team w2 = (inr (Some usage), w3) ∧
    ValidateCreate false (named_agent "b" 4) w3 = (inr tt, w4) ∧
    reconcile_publish team usage w4 = (inr res, w5) ∧
    over_ceiling [named_agent "a" 3; named_agent "b" 4]) ∧
  (∃ w1 w2 w3 res,
    ValidateUpdate false (named_agent "a" 2) (named_agent "a" 5) published_world = (inr tt, w1) ∧
    TenantQuota_Reconcile team w1 = (inr res, w2) ∧
    ValidateCreate false (named_agent "b" 4) w2 = (inr tt, w3) ∧
    over_ceiling [named_agent "a" 5; named_agent "b" 4]).
Proof.
  split.
  - destruct (ok_run (ValidateCreate false (named_agent "a" 3)) (team_world [])) as [[] E1];
      [vm_compute; reflexivity|].
    destruct (ok_run (kube_create (OAgentDeployment (named_agent "a" 3)))
      (ValidateCreate false (named_agent "a" 3) (team_world [])).2) as [o E2]; [vm_compute; reflexivity|].
    destruct (some_run (match (reconcile_release team stored_world).1 with inr o => o | inl _ => None end)
      (λ u, ok (reconcile_publish team u admitted_world))) as (u & Eu & Hpub); [vm_compute; reflexivity|].
    destruct (ok_run (reconcile_release team) stored_world) as [o' E3]; [vm_compute; reflexivity|].
    rewrite E3 in Eu. simpl in Eu. subst o'.
    destruct (ok_run (ValidateCreate false (named_agent "b" 4)) released_world) as [[] E4];
      [vm_compute; reflexivity|].
    destruct (ok_run _ _ Hpub) as [res E5].
    eexists o, u, _, _, _, _, res, _. split; [exact E1|]. split; [exact E2|]. split; [exact E3|].
    split; [exact E4|]. split; [exact E5|vm_compute; reflexivity].
  - destruct (ok_run (ValidateUpdate false (named_agent "a" 2) (named_agent "a" 5)) published_world)
      as [[] E1]; [vm_compute; reflexivity|].
    destruct (ok_run (TenantQuota_Reconcile team) updating_world) as [res E2]; [vm_compute; reflexivity|].
    destruct (ok_run (ValidateCreate false (named_agent "b" 4)) reconciled_world) as [[] E3];
      [vm_compute; reflexivity|].
    eexists _, _, _, res. split; [exact E1|]. split; [exact E2|]. split; [exact E3|vm_compute; reflexivity].
Qed.

(** The agent [a] with 5 of 6 replicas is published; so is, in a world with a
    second tenant, the agent [c] of that tenant. *)
Definition full_world : world := (TenantQuota_Reconcile team (team_world [named_agent "a" 5])).2.
Definition in_ns2 (ad : AgentDeployment) : AgentDeployment :=
  with_meta (new_meta (ad_Name ad) "ns2" ∅) ad.
Definition shared_world : world :=
  let quota ns := OTenantQuota {| tq_Meta := new_meta "team" ns ∅; tq_Spec := Ref.quota; tq_Status := zero_usage |} in
  let w := with_objects [quota "ns"; quota "ns2"; OAgentDeployment (named_agent "a" 5);
    OAgentDeployment (in_ns2 (named_agent "c" 5))] empty_world in
  (TenantQuota_Reconcile (NN "ns2" "team") (TenantQuota_Reconcile team w).2).2.

(** Shrinking updates lend capacity that is not theirs to lend.  The delta of an
    update that shrinks an agent is negative and is reserved as such, so what is
    in flight can be less than nothing.  A create that was refused is admitted
    once such an update is, even if the update is then not stored (a conflict, a
    later webhook), and even if the update is of another tenant: either way the
    tenant ends above its ceiling. *)
Theorem shrinking_update_overcommits :
  (∃ err w0 w1 w2,
    ValidateCreate false (named_agent "b" 4) full_world = (inl err, w0) ∧
    ValidateUpdate false (named_agent "a" 5) (named_agent "a" 1) full_world = (inr tt, w1) ∧
    store w1 = store full_world ∧
    ValidateCreate false (named_agent "b" 4) w1 = (inr tt, w2)) ∧
  (∃ err w0 w1 w2,
    ValidateCreate false (named_agent "b" 4) shared_world = (inl err, w0) ∧
    ValidateUpdate false (in_ns2 (named_agent "c" 5)) (in_ns2 (named_agent "c" 1)) shared_world = (inr tt, w1) ∧
    ValidateCreate false (named_agent "b" 4) w1 = (inr tt, w2)) ∧
  over_ceiling [named_agent "a" 5; named_agent "b" 4].
Proof.
  split_and!; [| |vm_compute; reflexivity].
  - destruct (not_ok_run (ValidateCreate false (named_agent "b" 4)) full_world) as [err E0]; [vm_compute; reflexivity|].
    destruct (ok_run (ValidateUpdate false (named_agent "a" 5) (named_agent "a" 1)) full_world) as [[] E1];
      [vm_compute; reflexivity|].
    destruct (ok_run (ValidateCreate false (named_agent "b" 4))
      (ValidateUpdate false (named_agent "a" 5) (named_agent "a" 1) full_world).2) as [[] E2]; [vm_compute; reflexivity|].
    eexists err, _, _, _. split; [exact E0|]. split; [exact E1|]. split; [|exact E2].
    apply update_outcome in E1 as [Hst _]; done.
  - destruct (not_ok_run (ValidateCreate false (named_agent "b" 4)) shared_world) as [err E0]; [vm_compute; reflexivity|].
    destruct (ok_run (ValidateUpdate false (in_ns2 (named_agent "c" 5)) (in_ns2 (named_agent "c" 1))) shared_world)
      as [[] E1]; [vm_compute; reflexivity|].
    destruct (ok_run (ValidateCreate false (named_agent "b" 4))
      (ValidateUpdate false (in_ns2 (named_agent "c" 5)) (in_ns2 (named_agent "c" 1)) shared_world).2) as [[] E2];
      [vm_compute; reflexivity|].
    eexists err, _, _, _. split; [exact E0|]. split; [exact E1|exact E2].
Qed.

#[local] Existing Instance Ref.core_laws.
#[local] Existing Instance Ref.conditions_laws.

Lemma team_world_store k : store (team_world []) !! k =
  if decide (k = (KTenantQuota, team)) then
    Some (stamp (new_rv empty_world) 1 (OTenantQuota {| tq_Meta := new_meta "team" "ns" ∅;
      tq_Spec := Ref.quota; tq_Status := zero_usage |})) else None.
Proof.
  unfold team_world, with_objects. simpl. change store with rw_store. rewrite rw_store_put by done.
  case_decide as Hk; [subst k; apply lookup_insert_eq|]. rewrite lookup_insert_ne by by intros <-.
  unfold rw_store, empty_world. simpl. by rewrite map_filter_empty.
Qed.

Lemma team_world_reflected now :
  reflects (team_world []) team Ref.quota
    {| lg_now := now; lg_enforcer := enforcer (team_world []); lg_published := zero_usage; lg_agents := ∅;
       lg_pending := ∅; lg_counted := ∅; lg_reconciling := None |}.
Proof.
  split; [|split; [done|]].
  - eexists. rewrite team_world_store, decide_True by done. split; [reflexivity|]. by split.
  - intros k spec. split; [intros Hk; simpl in Hk; by rewrite lookup_empty in Hk|]. intros (ad & (Hs & _) & _).
    by rewrite team_world_store, decide_False in Hs.
Qed.

End races.
