(* ===== verification/AgentReconciler.v ===== *)
(** The AgentDeployment reconciler, [src/internal/controller/agentdeployment_controller.go]
    and [crd_check.go].

    One reconcile reads the AgentDeployment, settles its finalizer, hands over to
    the canary controller while a rollout is under way, and otherwise writes the
    child objects, the registration and the status.  Tracing spans, logging and
    the duration metric are left out. *)
From S2P Require Import Prelude Types Objects Scaling GoFloat Enforcer Cluster PromQL Registry Registrar.
From S2P Require Import Canary.

Inductive quotaState :=
  | quotaStateUncapped
  | quotaStateCapped
  | quotaStateUnknown
  | quotaStateSkipped.

(** [rc_has_registrar] is [Registrar != nil]; a nil [CanaryController] is [None]. *)
Record AgentDeploymentReconciler := {
  rc_GPUResourceName : string;
  rc_CanaryController : option Controller;
  rc_has_registrar : bool;
  rc_MCPHealthInterval : Z;
  rc_hasServiceMonitorCRD : bool;
}.

Definition serviceMonitorCRDName : string := "servicemonitors.monitoring.coreos.com".

(** [controllerutil]'s finalizer helpers. *)
Definition ContainsFinalizer (m : ObjectMeta) (f : string) : bool :=
  bool_decide (f ∈ om_Finalizers m).
Definition AddFinalizer (f : string) (m : ObjectMeta) : ObjectMeta :=
  if ContainsFinalizer m f then m else om_set_finalizers (om_Finalizers m ++ [f]) m.
Definition RemoveFinalizer (f : string) (m : ObjectMeta) : ObjectMeta :=
  om_set_finalizers (filter (λ x, x ≠ f) (om_Finalizers m)) m.

(** ** Desired-state builders *)
Section builders.
Context `{CoreTypes}.
Implicit Types (ad : AgentDeployment).

Definition agentLabels ad : gmap string string :=
  {[ "app.kubernetes.io/name" := ad_Name ad;
     "app.kubernetes.io/managed-by" := "agentrax";
     "agentrax.io/tenant" := spec_TenantRef (ad_Spec ad);
     "agentrax.io/variant" := "stable";
     "agentrax.io/agent" := "true" ]}.

(** The image of the stable Deployment: frozen during a rollout. *)
Definition stable_image ad : string :=
  if (st_Phase (ad_Status ad) =s? PhaseRolloutInProgress) &&
     negb (st_StableVersion (ad_Status ad) =s? "")
  then st_StableVersion (ad_Status ad) else spec_Image (ad_Spec ad).

Definition desiredDeployment ad : Deployment :=
  let port := port_or_default (spec_Port (ad_Spec ad)) in
  {| dep_Meta := new_meta (ad_Name ad) (ad_Namespace ad) (agentLabels ad);
     dep_Replicas := Some (sp_Min (spec_Replicas (ad_Spec ad)));
     dep_Selector := agentLabels ad;
     dep_TemplateLabels := agentLabels ad;
     dep_Containers := [
       {| ct_Name := "agent"; ct_Image := stable_image ad;
          ct_Ports := [{| cp_Name := "agent"; cp_ContainerPort := port; cp_Protocol := "TCP" |}];
          ct_Resources := spec_Resources (ad_Spec ad);
          ct_Env := spec_Env (ad_Spec ad);
          ct_Args := spec_Args (ad_Spec ad) |} ];
     dep_Status := empty_dep_status |}.

Definition desiredService ad : Service :=
  {| svc_Meta := new_meta (ad_Name ad) (ad_Namespace ad) (agentLabels ad);
     svc_Selector := agentLabels ad; svc_Ports := agent_port ad; svc_Type := "ClusterIP" |}.

Definition desiredServiceMonitor ad : ServiceMonitor :=
  {| sm_Meta := new_meta (ad_Name ad) (ad_Namespace ad) (agentLabels ad);
     sm_Spec := {|
       sm_Selector := agentLabels ad;
       sm_TargetLabels := ["app.kubernetes.io/name"; "app.kubernetes.io/managed-by";
                           "agentrax.io/variant"];
       sm_Endpoints := [("agent", "/metrics")] |} |}.

(** A ServiceMonitor of which only the name is set. *)
Definition named_monitor (name ns : string) : ServiceMonitor :=
  {| sm_Meta := new_meta name ns ∅;
     sm_Spec := {| sm_Selector := ∅; sm_TargetLabels := []; sm_Endpoints := [] |} |}.

(** ** Canary triggers *)

Definition isCanaryTriggered ad : bool :=
  let st := ad_Status ad in
  if negb (ro_Strategy (spec_Rollout (ad_Spec ad)) =s? "Canary") then false else
  if st_StableVersion st =s? "" then false else
  if spec_Image (ad_Spec ad) =s? st_StableVersion st then false else
  if st_Phase st =s? PhaseRolloutInProgress then false else
  if (st_Phase st =s? PhaseRolloutFailed) && (spec_Image (ad_Spec ad) =s? st_CanaryVersion st)
  then false else true.

Definition isAbortRequested ad : bool :=
  ro_Abort (spec_Rollout (ad_Spec ad)) && (st_Phase (ad_Status ad) =s? PhaseRolloutInProgress).
End builders.

Section reconciler.
Context `{CoreTypes, ConditionsAPI, KubeClient W, !Prometheus W, !AgentRegistrar W}.
Implicit Types (r : AgentDeploymentReconciler) (ad latest : AgentDeployment).

(** ** Child objects *)

(** The first container is updated field by field, and keeps its name. *)
Definition update_containers (desired existing : list Container) : list Container :=
  match existing, desired with
  | [], _ => desired
  | c :: cs, d :: _ =>
      {| ct_Name := ct_Name c; ct_Image := ct_Image d; ct_Ports := ct_Ports d;
         ct_Resources := ct_Resources d; ct_Env := ct_Env d; ct_Args := ct_Args d |} :: cs
  | _ :: _, [] => existing
  end.

Definition mutate_stable_deployment ad (existing : Deployment) : error + Deployment :=
  let desired := desiredDeployment ad in
  own ad {|
    dep_Meta := om_set_labels (om_Labels (dep_Meta desired)) (dep_Meta existing);
    dep_Replicas := dep_Replicas desired;
    dep_Selector := if om_ResourceVersion (dep_Meta existing) =s? "" then dep_Selector desired
                    else dep_Selector existing;
    dep_TemplateLabels := dep_TemplateLabels desired;
    dep_Containers := update_containers (dep_Containers desired) (dep_Containers existing);
    dep_Status := dep_Status existing |}.

Definition reconcileDeployment ad : Proc W unit :=
  CreateOrUpdate (named_deployment (ad_Name ad) (ad_Namespace ad)) (mutate_stable_deployment ad)
    <?> "reconciling deployment".

Definition mutate_stable_service ad (existing : Service) : error + Service :=
  let desired := desiredService ad in
  own ad {|
    svc_Meta := om_set_labels (om_Labels (svc_Meta desired)) (svc_Meta existing);
    svc_Selector := svc_Selector desired; svc_Ports := svc_Ports desired;
    svc_Type := svc_Type existing |}.

Definition reconcileService ad : Proc W unit :=
  CreateOrUpdate (named_service (ad_Name ad) (ad_Namespace ad)) (mutate_stable_service ad).

Definition mutate_monitor ad (existing : ServiceMonitor) : error + ServiceMonitor :=
  let desired := desiredServiceMonitor ad in
  own ad {| sm_Meta := om_set_labels (om_Labels (sm_Meta desired)) (sm_Meta existing);
            sm_Spec := sm_Spec desired |}.

Definition reconcileServiceMonitor r ad : Proc W unit :=
  if negb (rc_hasServiceMonitorCRD r) then mret tt else
  CreateOrUpdate (named_monitor (ad_Name ad) (ad_Namespace ad)) (mutate_monitor ad).

(** *** The quota-capped HPA *)

(** Does [other] share the tenant's budget with [ad]? *)
Definition counts_against ad (other : AgentDeployment) : bool :=
  if negb (spec_TenantRef (ad_Spec other) =s? spec_TenantRef (ad_Spec ad)) then false else
  if (ad_Name other =s? ad_Name ad) && (ad_Namespace other =s? ad_Namespace ad) then false else
  match om_DeletionTimestamp (ad_Meta other) with Some _ => false | None => true end.

Definition replicasUsedByOtherAgents ad : Proc W Z :=
  l ← List (A := AgentDeployment) (ad_Namespace ad)
    <?> "listing AgentDeployments for quota headroom";
  mret (fold_left (λ total other,
    if counts_against ad other then int32 (total + sp_Max (spec_Replicas (ad_Spec other)))
    else total) l 0).

(** The mutate function differs from the canary controller's only in the error text. *)
Definition mutate_capped_hpa ad (desired existing : HorizontalPodAutoscaler)
    : error + HorizontalPodAutoscaler :=
  match SetControllerReference ad {|
    hpa_Meta := om_set_labels (om_Labels (hpa_Meta desired)) (hpa_Meta existing);
    hpa_ScaleTargetRef := hpa_ScaleTargetRef desired;
    hpa_MinReplicas := hpa_MinReplicas desired;
    hpa_MaxReplicas := hpa_MaxReplicas desired;
    hpa_Metrics := hpa_Metrics desired;
    hpa_Behavior := hpa_Behavior desired |} with
  | inl e => inl (Errorf "setting HPA owner reference" e)
  | inr h => inr h
  end.

Definition reconcileHPA ad : Proc W (Result * quotaState) :=
  if st_Phase (ad_Status ad) =s? PhaseRolloutInProgress then
    mret (no_requeue, quotaStateSkipped) else
  tq ← get_opt (A := TenantQuota) (NN (ad_Namespace ad) (spec_TenantRef (ad_Spec ad)))
    ("fetching TenantQuota " +:+ Quote (spec_TenantRef (ad_Spec ad)));
  match tq with
  | None => mret (requeue_after (10 * Second), quotaStateUnknown)
  | Some tq =>
      usedByOthers ← replicasUsedByOtherAgents ad
        <?> "computing replica usage for quota headroom";
      let headroom := QuotaHeadroom (tq_Spec tq) (ad_Spec ad) usedByOthers in
      desiredHPA ← lift_sum (SetControllerReference ad (BuildHPA ad headroom))
        <?> "setting HPA owner reference";
      CreateOrUpdate (named_hpa (om_Name (hpa_Meta desiredHPA)) (om_Namespace (hpa_Meta desiredHPA)))
        (mutate_capped_hpa ad desiredHPA) <?> "creating/updating HPA";;
      mret (no_requeue, if IsQuotaCapped ad headroom then quotaStateCapped else quotaStateUncapped)
  end.

(** ** Image pull failures *)

(** [client.List] with [InNamespace] and [MatchingLabels]. *)
Definition ListMatching (ns : string) (labels : gmap string string) : Proc W (list Pod) :=
  pods ← List (A := Pod) ns;
  mret (filter (λ p, selector_matches labels (om_Labels (pod_Meta p)) = true) pods).

Definition imagePullReason (reason : string) : bool :=
  (reason =s? "ImagePullBackOff") || (reason =s? "ErrImagePull").

(** The first container of the pod that cannot pull its image. *)
Definition pod_pull_failure (pod : Pod) : option string :=
  head (omap (λ cs, match cs with
    | Some (reason, message) =>
        if imagePullReason reason then
          Some ("pod " +:+ om_Name (pod_Meta pod) +:+ ": " +:+ message)
        else None
    | None => None
    end) (pod_ContainerStatuses pod ++ pod_InitContainerStatuses pod)).

Definition detectImagePullFailure ad : Proc W (option string) :=
  pods ← ListMatching (ad_Namespace ad) (agentLabels ad) <?> "listing pods for image pull check";
  mret (head (omap pod_pull_failure pods)).

(** ** MCP registration *)

Definition mcp_failed latest (reason : string) (err : error) : AgentDeployment :=
  SetCondition latest ConditionMCPHandshakeFailed ConditionTrue reason (Error err).
Definition mcp_ok latest : AgentDeployment := RemoveCondition latest ConditionMCPHandshakeFailed.
Definition registered (b : bool) latest : AgentDeployment :=
  with_status (set_Registered b (ad_Status latest)) latest.

(** Heartbeats must land before the entry expires. *)
Definition requeueInterval r : Z :=
  if rc_MCPHealthInterval r <=? 0 then 60 * Second else rc_MCPHealthInterval r.

(** The object with its new registration status, and when to come back. *)
Definition reconcileMCPRegistration r ad : Proc W (AgentDeployment * Z) :=
  if negb (rc_has_registrar r) then mret (ad, 0) else
  if negb (mcp_Expose (spec_MCP (ad_Spec ad))) then
    if st_Registered (ad_Status ad) then
      dereg ← try (Deregister ad);
      match dereg with
      | inl err => mret (mcp_failed ad "DeregisterFailed" err, 5 * Second)
      | inr _ => mret (mcp_ok (registered false ad), 0)
      end
    else mret (mcp_ok ad, 0)
  else
  if negb (st_Phase (ad_Status ad) =s? PhaseRunning) then mret (ad, 0) else
  if st_Registered (ad_Status ad) then
    hb ← try (Heartbeat ad);
    match hb with
    | inl err =>
        let ad := if is_heartbeat_deregistered err then registered false ad else ad in
        mret (mcp_failed ad "HeartbeatFailed" err, requeueInterval r)
    | inr _ => mret (mcp_ok ad, requeueInterval r)
    end
  else
    reg ← try (Register ad);
    match reg with
    | inl err => mret (mcp_failed (registered false ad) "HandshakeFailed" err, requeueInterval r)
    | inr _ => mret (mcp_ok (registered true ad), requeueInterval r)
    end.

(** ** Status *)

Definition apply_quota_state (qs : quotaState) latest : AgentDeployment :=
  match qs with
  | quotaStateCapped =>
      SetCondition latest ConditionQuotaLimited ConditionTrue "HPAMaxReplicasCapped"
        ("spec.replicas.max (" +:+ fmt_d (sp_Max (spec_Replicas (ad_Spec latest))) +:+
         ") exceeds quota headroom; HPA capped")
  | quotaStateUnknown =>
      SetCondition latest ConditionQuotaLimited ConditionTrue "TenantQuotaNotFound"
        ("TenantQuota " +:+ Quote (spec_TenantRef (ad_Spec latest)) +:+ " not found in namespace " +:+
         ad_Namespace latest +:+ "; requeuing")
  | quotaStateUncapped => RemoveCondition latest ConditionQuotaLimited
  | quotaStateSkipped => latest
  end.

(** Every replica runs the latest template and is available. *)
Definition rolloutComplete (dep : Deployment) : bool :=
  let replicas := default 1 (dep_Replicas dep) in
  (om_Generation (dep_Meta dep) <=? ds_ObservedGeneration (dep_Status dep)) &&
  (ds_UpdatedReplicas (dep_Status dep) =? replicas) &&
  (ds_AvailableReplicas (dep_Status dep) =? replicas).

Definition map_status (f : AgentDeploymentStatus → AgentDeploymentStatus) latest : AgentDeployment :=
  with_status (f (ad_Status latest)) latest.

(** The phase, versions and conditions that follow from the live Deployment. *)
Definition apply_deployment_state (dep : Deployment) (pullFailure : option string) latest
    : AgentDeployment :=
  match pullFailure with
  | Some failMsg =>
      map_status (set_Phase PhaseDegraded)
        (SetCondition latest ConditionImagePullFailed ConditionTrue "ImagePullBackOff" failMsg)
  | None =>
      let latest := RemoveCondition latest ConditionImagePullFailed in
      if rolloutComplete dep then
        let latest :=
          if (st_Phase (ad_Status latest) =s? PhaseRolloutFailed) &&
             negb (spec_Image (ad_Spec latest) =s? st_StableVersion (ad_Status latest))
          then latest
          else RemoveCondition (map_status (λ s, set_CanaryVersion "" (set_Phase PhaseRunning s)) latest)
                 ConditionRolloutFailed in
        let latest :=
          match dep_image dep with
          | Some image => map_status (set_StableVersion image) latest
          | None => latest
          end in
        let latest := SetCondition latest ConditionReady ConditionTrue "DeploymentReady"
          "Deployment is ready" in
        SetCondition latest ConditionReconciled ConditionTrue "ReconcileSuccess"
          "Latest generation reconciled"
      else
        let latest := map_status (set_Phase PhasePending) latest in
        let latest := SetCondition latest ConditionReady ConditionFalse "DeploymentNotReady"
          "Waiting for pods to become ready" in
        SetCondition latest ConditionReconciled ConditionTrue "ReconcileSuccess"
          "Latest generation reconciled"
  end.

Definition updateStatus r ad (qs : quotaState) : Proc W Result :=
  dep ← get_opt (A := Deployment) (nn ad) "fetching deployment for status";
  match dep with
  | None => mret (requeue_after (5 * Second))
  | Some dep =>
      o ← get_opt (A := AgentDeployment) (nn ad) "re-fetching agentdeployment for status update";
      match o with
      | None => mret no_requeue
      | Some prev =>
          let latest := apply_quota_state qs prev in
          let latest := map_status (set_CurrentReplicas (ds_ReadyReplicas (dep_Status dep))) latest in
          pullFailure ← detectImagePullFailure ad <?> "detecting image pull failure";
          let latest := apply_deployment_state dep pullFailure latest in
          '(latest, mcpRequeue) ← reconcileMCPRegistration r latest;
          latest ← (if bool_decide (ad_Status prev = ad_Status latest) then mret latest else
                      StatusUpdate latest <?> "updating status");
          if st_Phase (ad_Status latest) =s? PhasePending then mret (requeue_after (5 * Second)) else
          if 0 <? mcpRequeue then mret (requeue_after mcpRequeue) else
          mret no_requeue
      end
  end.

(** ** Rollout start and deletion *)

Definition start_status ad (s : AgentDeploymentStatus) : AgentDeploymentStatus :=
  set_PromUnreachableSince None (set_PauseStartedAt None (set_CanaryWeight 0 (set_CanaryStepIndex 0
    (set_CanaryVersion (spec_Image (ad_Spec ad)) (set_Phase PhaseRolloutInProgress s))))).

Definition startCanary ad : Proc W unit :=
  PauseHPA ad <?> "pausing HPA before canary";;
  latest ← Get (A := AgentDeployment) (nn ad) <?> "re-fetching AD to start canary";
  StatusUpdate (map_status (start_status ad) latest) <?> "updating status to RolloutInProgress";;
  mret tt.

Definition runDeletionCleanup r ad : Proc W unit :=
  if rc_has_registrar r then Deregister ad <?> "deregistering agent" else mret tt.

(** ** Reconcile *)

(** The shorter of the two requeue intervals; zero asks for none. *)
Definition shorter_requeue (hpaResult statusResult : Result) : Result :=
  if (0 <? RequeueAfter hpaResult) &&
     ((RequeueAfter statusResult =? 0) || (RequeueAfter hpaResult <? RequeueAfter statusResult))
  then hpaResult
  else if 0 <? RequeueAfter statusResult then statusResult
  else no_requeue.

(** Steps 4 to 8: the children, then the status. *)
Definition reconcile_children r ad : Proc W Result :=
  reconcileDeployment ad <?> "reconciling deployment";;
  reconcileService ad <?> "reconciling service";;
  reconcileServiceMonitor r ad <?> "reconciling servicemonitor";;
  '(hpaResult, qs) ← reconcileHPA ad <?> "reconciling hpa";
  statusResult ← updateStatus r ad qs <?> "updating status";
  mret (shorter_requeue hpaResult statusResult).

(** Steps 3 to 8: a rollout takes precedence. *)
Definition reconcile_live r ad : Proc W Result :=
  match rc_CanaryController r with
  | Some c =>
      if isAbortRequested ad then
        Rollback ad "ManualAbort" "spec.rollout.abort was set to true" <?> "aborting canary";;
        mret no_requeue
      else if st_Phase (ad_Status ad) =s? PhaseRolloutInProgress then
        Step c ad <?> "stepping canary"
      else if isCanaryTriggered ad then
        startCanary ad <?> "starting canary";; mret (requeue_after (5 * Second))
      else reconcile_children r ad
  | None => reconcile_children r ad
  end.

Definition set_finalizers_of (f : ObjectMeta → ObjectMeta) ad : AgentDeployment :=
  with_meta (f (ad_Meta ad)) ad.

Definition Reconcile r (req : NamespacedName) : Proc W Result :=
  o ← get_opt (A := AgentDeployment) req "fetching AgentDeployment";
  match o with
  | None => mret no_requeue
  | Some ad =>
      match om_DeletionTimestamp (ad_Meta ad) with
      | None =>
          ad ← (if ContainsFinalizer (ad_Meta ad) AgentDeploymentFinalizer then mret ad else
                  Update (set_finalizers_of (AddFinalizer AgentDeploymentFinalizer) ad)
                    <?> "adding finalizer";;
                  Get (A := AgentDeployment) req <?> "re-fetching after finalizer add");
          reconcile_live r ad
      | Some _ =>
          (if ContainsFinalizer (ad_Meta ad) AgentDeploymentFinalizer then
             runDeletionCleanup r ad <?> "running deletion cleanup";;
             Update (set_finalizers_of (RemoveFinalizer AgentDeploymentFinalizer) ad)
               <?> "removing finalizer";; mret tt
           else mret tt);;
          mret no_requeue
      end
  end.

(** ** Setup *)

Definition serviceMonitorCRDExists : Proc W bool :=
  crd ← try (Get (A := ObjectMeta) (NN "" serviceMonitorCRDName));
  match crd with
  | inl err => if IsNotFound err then mret false else fail err
  | inr _ => mret true
  end.

(** The reconciler as set up, and the kinds it owns, whose changes trigger it. *)
Definition SetupWithManager r : Proc W (AgentDeploymentReconciler * list Kind) :=
  crd ← serviceMonitorCRDExists <?> "checking servicemonitor CRD at setup";
  mret ({| rc_GPUResourceName := rc_GPUResourceName r;
           rc_CanaryController := rc_CanaryController r;
           rc_has_registrar := rc_has_registrar r;
           rc_MCPHealthInterval := rc_MCPHealthInterval r;
           rc_hasServiceMonitorCRD := crd |},
    [KDeployment; KService; KHPA] ++ (if crd then [KServiceMonitor] else []) ++
    match rc_CanaryController r with Some _ => [KHTTPRoute] | None => [] end).
End reconciler.
