(* ===== verification/AgentReconcilerProps.v ===== *)
(** Theorems about the AgentDeployment reconciler of [AgentReconciler.v]: the
    children a reconcile leaves, deletion, the start of a rollout, the reported
    status and registration, and what happens after a failed rollout. *)
From S2P Require Import Prelude Types Objects Scaling GoFloat Enforcer Cluster PromQL Registry Registrar.
From S2P Require Import RefWorld RegistryProps RegistrarProps Canary CanaryProps AgentReconciler.

(** ** Labels *)
Section labels.
Context `{CoreTypes}.
Implicit Types (ad : AgentDeployment).

Lemma selector_matches_spec sel labels :
  selector_matches sel labels = true ↔ ∀ k v, sel !! k = Some v → labels !! k = Some v.
Proof. unfold selector_matches. by rewrite bool_decide_eq_true. Qed.

Lemma selector_mismatch sel labels k v :
  sel !! k = Some v → labels !! k ≠ Some v → selector_matches sel labels = false.
Proof.
  intros Hs Hl. destruct (selector_matches sel labels) eqn:E; [|done].
  rewrite selector_matches_spec in E. by apply E in Hs.
Qed.

Lemma agentLabels_name ad : agentLabels ad !! "app.kubernetes.io/name" = Some (ad_Name ad).
Proof. done. Qed.
Lemma agentLabels_variant ad : agentLabels ad !! "agentrax.io/variant" = Some "stable".
Proof. done. Qed.
Lemma canary_labels_variant ad : canary_labels ad !! "agentrax.io/variant" = Some "canary".
Proof. done. Qed.
Lemma canary_labels_name ad : canary_labels ad !! "app.kubernetes.io/name" = Some (ad_Name ad).
Proof. done. Qed.
End labels.

(** ** The child objects *)
Section children.
Context {CT : CoreTypes} {CA : ConditionsAPI} {CL : ConditionsLaws} {W : Type}
  {KC : KubeClient W} {KL : KubeLaws} {PR : Prometheus W} {PL : PrometheusLaws}
  {AR : AgentRegistrar W} {AL : AgentRegistrarLaws}.
Implicit Types (ad latest x : AgentDeployment) (w : W) (r : AgentDeploymentReconciler).

Definition k_svc ad : ObjKey := (KService, nn ad).
Definition k_monitor ad : ObjKey := (KServiceMonitor, nn ad).

(** The first container of [d] runs the agent the way the spec says. *)
Definition runs_agent ad (d : Deployment) : Prop :=
  ∃ c cs, dep_Containers d = c :: cs ∧ ct_Image c = stable_image ad ∧
    ct_Ports c = [{| cp_Name := "agent"; cp_ContainerPort := port_or_default (spec_Port (ad_Spec ad));
                     cp_Protocol := "TCP" |}] ∧
    ct_Resources c = spec_Resources (ad_Spec ad) ∧ ct_Env c = spec_Env (ad_Spec ad) ∧
    ct_Args c = spec_Args (ad_Spec ad).

(** The stable Deployment as the reconciler wants it. *)
Definition is_stable_dep ad (d : Deployment) : Prop :=
  dep_Replicas d = Some (ad_min ad) ∧ dep_image d = Some (stable_image ad) ∧
  dep_TemplateLabels d = agentLabels ad ∧ om_Labels (dep_Meta d) = agentLabels ad ∧
  om_Controller (dep_Meta d) = Some (ad_Name ad) ∧ runs_agent ad d.

(** The selector of a Deployment is immutable: it is set once. *)
Definition selector_kept ad w (d : Deployment) : Prop :=
  match store w !! k_dep ad with
  | Some (ODeployment d0) => dep_Selector d = dep_Selector d0
  | _ => dep_Selector d = agentLabels ad
  end.

Lemma reconcileDeployment_run ad w u w' :
  reconcileDeployment ad w = (inr u, w') →
  ∃ d, is_stable_dep ad d ∧ selector_kept ad w d ∧
    store w' = <[k_dep ad := ODeployment d]> (store w).
Proof.
  unfold reconcileDeployment. intros Hc%wrap_err_inr.
  apply CreateOrUpdate_inr in Hc as (base & b & rv & gen & Hb & Hm & _ & _ & Hs).
  unfold mutate_stable_deployment in Hm. apply own_inr in Hm as ->.
  change (rkey (named_deployment (ad_Name ad) (ad_Namespace ad))) with (k_dep ad) in *.
  eexists. split; [|split; [|exact Hs]].
  - unfold is_stable_dep, runs_agent, dep_image; simpl. split_and!; try done;
      destruct (dep_Containers base); by eauto 10.
  - unfold selector_kept; simpl. destruct Hb as [Hb|[Hb ->]]; rewrite Hb; simpl; [|done].
    apply store_stored in Hb. simpl in Hb. by apply str_eqb_false in Hb as ->.
Qed.

Definition is_stable_svc ad (s : Service) : Prop :=
  svc_Selector s = agentLabels ad ∧ svc_Ports s = agent_port ad ∧
  om_Labels (svc_Meta s) = agentLabels ad ∧ om_Controller (svc_Meta s) = Some (ad_Name ad).

Lemma reconcileService_run ad w u w' :
  reconcileService ad w = (inr u, w') →
  ∃ s, is_stable_svc ad s ∧ store w' = <[k_svc ad := OService s]> (store w).
Proof.
  unfold reconcileService. intros Hc.
  apply CreateOrUpdate_inr in Hc as (base & b & rv & gen & Hb & Hm & _ & _ & Hs).
  unfold mutate_stable_service in Hm. apply own_inr in Hm as ->.
  eexists. split; [|exact Hs]. done.
Qed.

Lemma reconcileServiceMonitor_run r ad w u w' :
  reconcileServiceMonitor r ad w = (inr u, w') →
  if rc_hasServiceMonitorCRD r then
    ∃ m, sm_Spec m = sm_Spec (desiredServiceMonitor ad) ∧ om_Controller (sm_Meta m) = Some (ad_Name ad) ∧
      store w' = <[k_monitor ad := OServiceMonitor m]> (store w)
  else store w' = store w.
Proof.
  unfold reconcileServiceMonitor. destruct (rc_hasServiceMonitorCRD r); simpl; [|intros Hr; by run].
  intros Hc. apply CreateOrUpdate_inr in Hc as (base & b & rv & gen & Hb & Hm & _ & _ & Hs).
  unfold mutate_monitor in Hm. apply own_inr in Hm as ->.
  eexists. split; [|split; [|exact Hs]]; done.
Qed.

(** *** The HPA *)

(** The live agents that share the quota of [ad] with it. *)
Definition siblings w ad (others : list AgentDeployment) : Prop :=
  NoDup (ad_key <$> others) ∧
  ∀ x, x ∈ others ↔ store w !! (KAgentDeployment, ad_key x) = Some (OAgentDeployment x) ∧
    ad_Namespace x = ad_Namespace ad ∧ spec_TenantRef (ad_Spec x) = spec_TenantRef (ad_Spec ad) ∧
    ad_key x ≠ ad_key ad ∧ om_DeletionTimestamp (ad_Meta x) = None.

Lemma counts_against_spec ad x :
  counts_against ad x = true ↔ spec_TenantRef (ad_Spec x) = spec_TenantRef (ad_Spec ad) ∧
    ad_key x ≠ ad_key ad ∧ om_DeletionTimestamp (ad_Meta x) = None.
Proof.
  assert (Hk : ad_key x = ad_key ad ↔ ad_Name x = ad_Name ad ∧ ad_Namespace x = ad_Namespace ad).
  { unfold ad_key, om_key, ad_Name, ad_Namespace. split; [by intros [= -> ->]|by intros [-> ->]]. }
  rewrite Hk. unfold counts_against, str_eqb.
  destruct (om_DeletionTimestamp (ad_Meta x)); repeat case_bool_decide; simpl; split; intuition congruence.
Qed.

Lemma fold_counted (f : AgentDeployment → Z) (p : AgentDeployment → bool) l :
  fold_left (λ total x, if p x then int32 (total + f x) else total) l 0 =
    int32 (Zsum (f <$> filter (λ x, p x = true) l)).
Proof.
  induction l as [|x l IH] using rev_ind; [done|].
  rewrite fold_left_app; simpl. rewrite IH, list.filter_app, fmap_app, Zsum_app.
  rewrite filter_cons, filter_nil. destruct (p x) eqn:Hp.
  - rewrite decide_True by done. rewrite int32_add_l. f_equal; simpl. lia.
  - rewrite decide_False by done. f_equal; simpl. lia.
Qed.

Lemma replicasUsedByOtherAgents_run ad w n w' :
  replicasUsedByOtherAgents ad w = (inr n, w') →
  store w' = store w ∧ ∃ others, siblings w ad others ∧ n = int32 (Zsum (ad_max <$> others)).
Proof.
  unfold replicasUsedByOtherAgents. intros (l & w1 & (Hs & Hnd & Hin)%wrap_err_inr%List_inr & Hr)%bind_inr.
  injection Hr as <- <-. split; [done|].
  eexists. split; [|apply (fold_counted ad_max (counts_against ad))]. split.
  - apply NoDup_fmap_filter. apply (NoDup_fmap_1 (pair KAgentDeployment)).
    by rewrite <- list_fmap_compose.
  - intros x. rewrite list_elem_of_filter, counts_against_spec, Hin.
    change (rkey x) with (KAgentDeployment, ad_key x).
    change (om_Namespace (res_meta x)) with (ad_Namespace x). naive_solver.
Qed.

Definition is_capped_hpa ad (headroom : Z) (h : HorizontalPodAutoscaler) : Prop :=
  let d := BuildHPA ad headroom in
  hpa_MinReplicas h = hpa_MinReplicas d ∧ hpa_MaxReplicas h = hpa_MaxReplicas d ∧
  hpa_ScaleTargetRef h = hpa_ScaleTargetRef d ∧ hpa_Metrics h = hpa_Metrics d ∧
  hpa_Behavior h = hpa_Behavior d ∧ om_Controller (hpa_Meta h) = Some (ad_Name ad).

Definition k_quota ad : ObjKey := (KTenantQuota, NN (ad_Namespace ad) (spec_TenantRef (ad_Spec ad))).

Definition hpa_outcome ad w (hr : Result) (qs : quotaState) w' : Prop :=
  match store w !! k_quota ad with
  | Some (OTenantQuota tq) =>
      ∃ others h, siblings w ad others ∧
        let headroom := QuotaHeadroom (tq_Spec tq) (ad_Spec ad) (int32 (Zsum (ad_max <$> others))) in
        is_capped_hpa ad headroom h ∧ store w' = <[k_hpa ad := OHPA h]> (store w) ∧
        hr = no_requeue ∧
        qs = if IsQuotaCapped ad headroom then quotaStateCapped else quotaStateUncapped
  | _ => store w' = store w ∧ hr = requeue_after (10 * Second) ∧ qs = quotaStateUnknown
  end.

Lemma SetControllerReference_inr {A} `{!Resource A} ad (a b : A) :
  SetControllerReference ad a = inr b →
  b = res_set_meta (om_set_controller (Some (ad_Name ad)) (res_meta a)) a.
Proof.
  unfold SetControllerReference.
  destruct (set_controller_reference ad (res_meta a)) as [e|m] eqn:E; intros [= <-].
  by apply set_controller_reference_spec in E as ->.
Qed.

Lemma reconcileHPA_run ad w hr qs w' :
  st_Phase (ad_Status ad) ≠ PhaseRolloutInProgress →
  reconcileHPA ad w = (inr (hr, qs), w') → hpa_outcome ad w hr qs w'.
Proof.
  intros Hp. unfold reconcileHPA. apply str_eqb_false in Hp as ->.
  intros (o & w1 & (Hs & Ho & _)%get_opt_run & Hr)%bind_inr.
  change (kind (A := TenantQuota), _) with (k_quota ad) in Ho. unfold hpa_outcome. rewrite Ho.
  destruct o as [tq|]; simpl; [|by run].
  apply bind_inr in Hr as (n & w2 & (Hs2 & others & Hsib & ->)%wrap_err_inr%replicasUsedByOtherAgents_run & Hr).
  cbv zeta in Hr. apply bind_inr in Hr as (h & w3 & Hown%wrap_err_inr & Hr).
  injection Hown as Hown <-. apply SetControllerReference_inr in Hown as ->.
  apply bind_inr in Hr as ([] & w4 & Hc%wrap_err_inr & Hr). run.
  apply CreateOrUpdate_inr in Hc as (base & b & rv & gen & Hb & Hm & _ & _ & Hst).
  unfold mutate_capped_hpa in Hm.
  destruct (SetControllerReference ad _) as [e|h'] eqn:E; [done|]. injection Hm as <-.
  apply SetControllerReference_inr in E as ->.
  assert (Hsib' : siblings w ad others) by (unfold siblings in *; by rewrite <- Hs).
  eexists others, _. split; [exact Hsib'|]. split; [|split; [rewrite Hst, Hs2, Hs; done|done]]. done.
Qed.
End children.

(** ** Registration and status *)
Section status.
Context {CT : CoreTypes} {CA : ConditionsAPI} {CL : ConditionsLaws} {W : Type}
  {KC : KubeClient W} {KL : KubeLaws} {PR : Prometheus W} {PL : PrometheusLaws}
  {AR : AgentRegistrar W} {AL : AgentRegistrarLaws}.
Implicit Types (ad latest x : AgentDeployment) (w : W) (r : AgentDeploymentReconciler).

(** [x] is [ad] up to its registration: flag and handshake condition. *)
Definition same_workload ad x : Prop :=
  let s := ad_Status ad in
  let s' := ad_Status x in
  ad_Meta x = ad_Meta ad ∧ ad_Spec x = ad_Spec ad ∧
  st_Phase s' = st_Phase s ∧ st_CurrentReplicas s' = st_CurrentReplicas s ∧
  st_StableVersion s' = st_StableVersion s ∧ st_CanaryVersion s' = st_CanaryVersion s ∧
  st_CanaryWeight s' = st_CanaryWeight s ∧ st_CanaryStepIndex s' = st_CanaryStepIndex s ∧
  ∀ t, t ≠ ConditionMCPHandshakeFailed → GetCondition x t = GetCondition ad t.

Lemma same_workload_failed ad b reason err :
  same_workload ad (mcp_failed (registered b ad) reason err).
Proof.
  unfold same_workload, mcp_failed, GetCondition; simpl. split_and!; try done.
  intros t Ht. by rewrite find_set_ne.
Qed.

Lemma same_workload_failed' ad reason err : same_workload ad (mcp_failed ad reason err).
Proof.
  unfold same_workload, mcp_failed, GetCondition; simpl. split_and!; try done.
  intros t Ht. by rewrite find_set_ne.
Qed.

Lemma same_workload_ok ad b : same_workload ad (mcp_ok (registered b ad)).
Proof.
  unfold same_workload, mcp_ok, GetCondition; simpl. split_and!; try done.
  intros t Ht. by rewrite find_remove_ne.
Qed.

Lemma same_workload_ok' ad : same_workload ad (mcp_ok ad).
Proof.
  unfold same_workload, mcp_ok, GetCondition; simpl. split_and!; try done.
  intros t Ht. by rewrite find_remove_ne.
Qed.

Lemma same_workload_refl ad : same_workload ad ad.
Proof. done. Qed.

Hint Resolve same_workload_failed same_workload_failed' same_workload_ok same_workload_ok'
  same_workload_refl : core.

Lemma only_configmaps_refl w : only_configmaps w w.
Proof. by intros k. Qed.
Hint Resolve only_configmaps_refl : core.

(** Registration never fails a reconcile, changes the registration status only,
    and writes ConfigMaps only. *)
Lemma reconcileMCPRegistration_run r ad w :
  ∃ x d w', reconcileMCPRegistration r ad w = (inr (x, d), w') ∧
    same_workload ad x ∧ only_configmaps w w'.
Proof.
  unfold reconcileMCPRegistration, mbind, Proc_bind, try, mret, Proc_ret.
  destruct (rc_has_registrar r), (mcp_Expose _), (st_Registered _); simpl; eauto 10;
    try (destruct (st_Phase _ =s? _); simpl; eauto 10).
  - destruct (Heartbeat ad w) as [[e|u] w'] eqn:E; apply Heartbeat_frame in E; [|eauto 10].
    destruct (is_heartbeat_deregistered e); eauto 10.
  - destruct (Register ad w) as [[e|u] w'] eqn:E; apply Register_frame in E; eauto 10.
  - destruct (Deregister ad w) as [[e|u] w'] eqn:E; apply Deregister_frame in E; eauto 10.
Qed.

Lemma detectImagePullFailure_store ad w o w' :
  detectImagePullFailure ad w = (inr o, w') → store w' = store w.
Proof.
  unfold detectImagePullFailure, ListMatching.
  intros (l & w1 & (l' & w2 & (? & _)%List_inr & Hr)%wrap_err_inr%bind_inr & Hr')%bind_inr. by run.
Qed.

(** The status before registration is looked at. *)
Definition observed (dep : Deployment) (pull : option string) (qs : quotaState) prev : AgentDeployment :=
  apply_deployment_state dep pull
    (map_status (set_CurrentReplicas (ds_ReadyReplicas (dep_Status dep))) (apply_quota_state qs prev)).

Definition status_outcome r ad (dep : Deployment) prev (qs : quotaState) w res w' : Prop :=
  ∃ pull w1 l d w2 x, detectImagePullFailure ad w1 = (inr pull, w2) ∧ store w1 = store w ∧
    (∃ w3, reconcileMCPRegistration r (observed dep pull qs prev) w2 = (inr (l, d), w3)) ∧
    same_workload (observed dep pull qs prev) l ∧
    stored_ad ad w' = Some x ∧ ad_Spec x = ad_Spec prev ∧
    (ad_Status x = ad_Status l ∨ ad_Status x = wire_status (ad_Status l)) ∧
    (∀ k, k ≠ k_ad ad → k.1 ≠ KConfigMap → store w' !! k = store w !! k) ∧
    RequeueAfter res = (if st_Phase (ad_Status l) =s? PhasePending then 5 * Second else Z.max 0 d) ∧
    om_Finalizers (ad_Meta x) = om_Finalizers (ad_Meta prev).

Lemma observed_same dep pull qs prev :
  ad_Meta (observed dep pull qs prev) = ad_Meta prev ∧ ad_Spec (observed dep pull qs prev) = ad_Spec prev.
Proof.
  unfold observed, apply_deployment_state. destruct pull; [by destruct qs|].
  destruct (rolloutComplete dep); [|by destruct qs].
  destruct (_ && _), (dep_image dep); by destruct qs.
Qed.

Lemma status_update_finalizers ad st latest w x w' :
  store w !! k_ad ad = Some (OAgentDeployment latest) →
  StatusUpdate (with_status st latest) w = (inr x, w') →
  om_Finalizers (ad_Meta x) = om_Finalizers (ad_Meta latest).
Proof.
  intros Hl Hu. apply StatusUpdate_inr in Hu as (old & rv & Hold & Hrv & -> & Hs).
  assert (Hrk : rkey (with_status st latest) = k_ad ad) by exact (store_key _ _ _ Hl).
  rewrite Hrk, Hl in Hold. by injection Hold as <-.
Qed.

Lemma updateStatus_run r ad qs dep prev w res w' :
  store w !! k_dep ad = Some (ODeployment dep) →
  store w !! k_ad ad = Some (OAgentDeployment prev) →
  updateStatus r ad qs w = (inr res, w') → status_outcome r ad dep prev qs w res w'.
Proof.
  intros Hdep Had. unfold updateStatus.
  intros (o & w1 & (Hs1 & Ho & _)%get_opt_run & Hr)%bind_inr.
  change (kind (A := Deployment), nn ad) with (k_dep ad) in Ho. rewrite Hdep in Ho.
  destruct o as [dep'|]; [|done]. injection Ho as <-.
  apply bind_inr in Hr as (o & w2 & (Hs2 & Ho & _)%get_opt_run & Hr).
  change (kind (A := AgentDeployment), nn ad) with (k_ad ad) in Ho. rewrite Hs1, Had in Ho.
  destruct o as [prev'|]; [|done]. injection Ho as <-. cbv zeta in Hr.
  apply bind_inr in Hr as (pull & w3 & Hpull%wrap_err_inr & Hr).
  pose proof (detectImagePullFailure_store _ _ _ _ Hpull) as Hs3.
  fold (observed dep pull qs prev) in Hr.
  destruct (reconcileMCPRegistration_run r (observed dep pull qs prev) w3) as (l & d & w4 & Hmcp & Hsame & Hcm).
  apply bind_inr in Hr as ([l' d'] & w5 & Hmcp' & Hr). rewrite Hmcp in Hmcp'. injection Hmcp' as <- <- <-.
  apply bind_inr in Hr as (x & w6 & Hu & Hr).
  destruct (observed_same dep pull qs prev) as [Hm Hsp].
  assert (Hw4 : ∀ k, k.1 ≠ KConfigMap → store w4 !! k = store w !! k)
    by (intros k Hk; rewrite Hcm by done; congruence).
  assert (Had4 : store w4 !! k_ad ad = Some (OAgentDeployment prev)) by (by rewrite Hw4).
  assert (Hx : ∃ y, stored_ad ad w6 = Some y ∧ ad_Spec y = ad_Spec prev ∧
    (ad_Status y = ad_Status l ∨ ad_Status y = wire_status (ad_Status l)) ∧
    st_Phase (ad_Status x) = st_Phase (ad_Status l) ∧ om_Finalizers (ad_Meta y) = om_Finalizers (ad_Meta prev) ∧
    ∀ k, k ≠ k_ad ad → k.1 ≠ KConfigMap → store w6 !! k = store w !! k).
  { case_bool_decide as Heq.
    - run. exists prev. rewrite stored_ad_Some. split_and!; try done; [by left|]. intros k _. apply Hw4.
    - apply wrap_err_inr in Hu. destruct Hsame as (Hm' & Hsp' & _).
      replace l with (with_status (ad_Status l) prev) in Hu
        by (rewrite Hm in Hm'; rewrite Hsp in Hsp'; clear -Hm' Hsp'; destruct l; unfold with_status;
            simpl in *; congruence).
      pose proof (status_update_finalizers ad _ _ _ _ _ Had4 Hu) as Hfin.
      eapply status_update_run in Hu as (Hs6 & Hspx & Hstx & _); [|done].
      exists x. rewrite stored_ad_Some, Hs6, lookup_insert_eq, Hstx. split_and!; try done; [by right|].
      intros k Hk Hc. rewrite lookup_insert_ne by done. by apply Hw4. }
  destruct Hx as (y & Hy & Hspy & Hsty & Hph & Hfin & Hfr). rewrite Hph in Hr.
  assert (w6 = w' ∧ RequeueAfter res = if st_Phase (ad_Status l) =s? PhasePending then 5 * Second else Z.max 0 d)
    as [<- Hres] by (repeat case_match; zbool; run; split; try done; simpl; lia).
  exists pull, w2, l, d, w3, y. split_and!; eauto. congruence.
Qed.
End status.

(** ** One reconcile *)
(** A key of another kind is none of those. *)
Ltac other_kind := intros ?; rewrite !elem_of_cons, elem_of_nil in *; naive_solver.

Section reconcile.
Context {CT : CoreTypes} {CA : ConditionsAPI} {CL : ConditionsLaws} {W : Type}
  {KC : KubeClient W} {KL : KubeLaws} {PR : Prometheus W} {PL : PrometheusLaws}
  {AR : AgentRegistrar W} {AL : AgentRegistrarLaws}.
Implicit Types (ad latest x : AgentDeployment) (w : W) (r : AgentDeploymentReconciler).

(** What a reconcile without a rollout may write. *)
Definition child_keys ad : list ObjKey := [k_ad ad; k_dep ad; k_svc ad; k_monitor ad; k_hpa ad].

(** The HPA follows the quota; without one the reconciler comes back soon. *)
Definition hpa_reconciled ad w (res : Result) (qs : quotaState) w' : Prop :=
  match store w !! k_quota ad with
  | Some (OTenantQuota tq) =>
      ∃ others h, siblings w ad others ∧ store w' !! k_hpa ad = Some (OHPA h) ∧
        let headroom := QuotaHeadroom (tq_Spec tq) (ad_Spec ad) (int32 (Zsum (ad_max <$> others))) in
        is_capped_hpa ad headroom h ∧
        qs = if IsQuotaCapped ad headroom then quotaStateCapped else quotaStateUncapped
  | _ => store w' !! k_hpa ad = store w !! k_hpa ad ∧ qs = quotaStateUnknown ∧
      0 < RequeueAfter res ≤ 10 * Second
  end.

Definition children_reconciled r ad prev w (res : Result) w' : Prop :=
  ∃ d s qs, is_stable_dep ad d ∧ selector_kept ad w d ∧ store w' !! k_dep ad = Some (ODeployment d) ∧
    is_stable_svc ad s ∧ store w' !! k_svc ad = Some (OService s) ∧
    (rc_hasServiceMonitorCRD r = true → ∃ m, store w' !! k_monitor ad = Some (OServiceMonitor m) ∧
      sm_Spec m = sm_Spec (desiredServiceMonitor ad)) ∧
    hpa_reconciled ad w res qs w' ∧
    (∃ w1 sres, store w1 !! k_dep ad = Some (ODeployment d) ∧
      (∀ k, k.1 = KPod → store w1 !! k = store w !! k) ∧
      status_outcome r ad d prev qs w1 sres w') ∧
    ∀ k, k ∉ child_keys ad → k.1 ≠ KConfigMap → store w' !! k = store w !! k.

Lemma shorter_requeue_pos t sres :
  0 < t → 0 ≤ RequeueAfter sres →
  0 < RequeueAfter (shorter_requeue (requeue_after t) sres) ≤ t.
Proof.
  intros Ht Hs. unfold shorter_requeue; simpl.
  destruct (0 <? t) eqn:E1, (RequeueAfter sres =? 0) eqn:E2, (t <? RequeueAfter sres) eqn:E3,
    (0 <? RequeueAfter sres) eqn:E4; zbool; simpl; lia.
Qed.

Lemma siblings_frame w w1 ad others :
  (∀ k, k.1 = KAgentDeployment → store w1 !! k = store w !! k) →
  siblings w1 ad others → siblings w ad others.
Proof. intros Hk [Hnd Hin]. split; [done|]. intros x. by rewrite Hin, Hk. Qed.

(** Steps 4 to 7: [w4] is the cluster before the status update. *)
Definition children_written r ad w (hr : Result) (qs : quotaState) w4 : Prop :=
  ∃ d s, is_stable_dep ad d ∧ selector_kept ad w d ∧ store w4 !! k_dep ad = Some (ODeployment d) ∧
    is_stable_svc ad s ∧ store w4 !! k_svc ad = Some (OService s) ∧
    (rc_hasServiceMonitorCRD r = true → ∃ m, store w4 !! k_monitor ad = Some (OServiceMonitor m) ∧
      sm_Spec m = sm_Spec (desiredServiceMonitor ad)) ∧
    (∃ w3, hpa_outcome ad w3 hr qs w4 ∧
      ∀ k, k ∉ [k_dep ad; k_svc ad; k_monitor ad] → store w3 !! k = store w !! k) ∧
    ∀ k, k ∉ [k_dep ad; k_svc ad; k_monitor ad; k_hpa ad] → store w4 !! k = store w !! k.

Lemma hpa_outcome_frame ad w hr qs w' k :
  hpa_outcome ad w hr qs w' → k ≠ k_hpa ad → store w' !! k = store w !! k.
Proof.
  unfold hpa_outcome. intros Hh Hk.
  destruct (store w !! k_quota ad) as [[]|]; try (by destruct Hh as [-> _]).
  destruct Hh as (others & h & _ & _ & -> & _). by rewrite lookup_insert_ne.
Qed.

Lemma write_children_run r ad {B} (rest : Result → quotaState → Proc W B) w b w' :
  st_Phase (ad_Status ad) ≠ PhaseRolloutInProgress →
  (reconcileDeployment ad <?> "reconciling deployment";;
   reconcileService ad <?> "reconciling service";;
   reconcileServiceMonitor r ad <?> "reconciling servicemonitor";;
   '(hr, qs) ← reconcileHPA ad <?> "reconciling hpa"; rest hr qs) w = (inr b, w') →
  ∃ hr qs w4, children_written r ad w hr qs w4 ∧ rest hr qs w4 = (inr b, w').
Proof.
  intros Hp ([]&w1&(d & Hd & Hsel & Hs1)%wrap_err_inr%reconcileDeployment_run&Hr)%bind_inr.
  apply bind_inr in Hr as ([]&w2&(s & Hsvc & Hs2)%wrap_err_inr%reconcileService_run&Hr).
  apply bind_inr in Hr as ([]&w3&Hm%wrap_err_inr%reconcileServiceMonitor_run&Hr).
  apply bind_inr in Hr as ([hr qs]&w4&Hh%wrap_err_inr%reconcileHPA_run&Hr); [|done].
  exists hr, qs, w4. split; [|done].
  assert (H3 : ∀ k, k ≠ k_monitor ad → store w3 !! k = store w2 !! k).
  { intros k Hk. destruct (rc_hasServiceMonitorCRD r); [|by rewrite Hm].
    destruct Hm as (m & _ & _ & ->). by rewrite lookup_insert_ne. }
  assert (Hw3 : ∀ k, k ∉ [k_dep ad; k_svc ad; k_monitor ad] → store w3 !! k = store w !! k).
  { intros k Hk. rewrite !not_elem_of_cons in Hk. destruct Hk as (?&?&?&_).
    by rewrite H3, Hs2, Hs1, !lookup_insert_ne. }
  pose proof (λ k, hpa_outcome_frame ad w3 hr qs w4 k Hh) as H4.
  exists d, s. split_and!; try done; [| | |by exists w3|].
  - rewrite H4, H3, Hs2, Hs1 by done. by rewrite lookup_insert_ne, lookup_insert_eq.
  - rewrite H4, H3, Hs2 by done. by rewrite lookup_insert_eq.
  - intros Hcrd. rewrite Hcrd in Hm. destruct Hm as (m & Hspec & _ & Hm). exists m.
    rewrite H4, Hm by done. by rewrite lookup_insert_eq.
  - intros k Hk. rewrite !not_elem_of_cons in Hk. destruct Hk as (?&?&?&?&?).
    rewrite H4 by done. apply Hw3. by rewrite !not_elem_of_cons.
Qed.

Lemma hpa_outcome_reconciled ad w w3 hr qs w4 sres w' :
  (∀ k, k ∉ [k_dep ad; k_svc ad; k_monitor ad] → store w3 !! k = store w !! k) →
  store w' !! k_hpa ad = store w4 !! k_hpa ad → 0 ≤ RequeueAfter sres →
  hpa_outcome ad w3 hr qs w4 → hpa_reconciled ad w (shorter_requeue hr sres) qs w'.
Proof.
  intros H3 Hh' Hpos Hh. unfold hpa_reconciled, hpa_outcome in *. rewrite H3 in Hh by other_kind.
  destruct (store w !! k_quota ad) as [[|tq| | | | | | | |]|] eqn:Hq; cycle 1.
  { destruct Hh as (others & h & Hsib & Hc & Hs4 & -> & ->). exists others, h. split_and!; try done.
    - eapply siblings_frame; [|exact Hsib]. intros k Hk. apply H3. other_kind.
    - by rewrite Hh', Hs4, lookup_insert_eq. }
  all: destruct Hh as (Hs4 & -> & ->);
    (split; [rewrite Hh', Hs4, H3 by other_kind; done|]);
    (split; [done|]); by apply (shorter_requeue_pos (10 * Second) sres).
Qed.

Lemma reconcile_children_run r ad prev w res w' :
  st_Phase (ad_Status ad) ≠ PhaseRolloutInProgress →
  store w !! k_ad ad = Some (OAgentDeployment prev) →
  reconcile_children r ad w = (inr res, w') → children_reconciled r ad prev w res w'.
Proof.
  intros Hp Had Hr. unfold reconcile_children in Hr.
  apply write_children_run in Hr as (hr & qs & w4 & Hch & Hr); [|done].
  destruct Hch as (d & s & Hd & Hsel & Hd4 & Hsvc & Hs4 & Hm & (w3 & Hh & H3) & H4).
  apply bind_inr in Hr as (sres & w5 & Hst%wrap_err_inr & Hr). injection Hr as <- <-.
  assert (Had4 : store w4 !! k_ad ad = Some (OAgentDeployment prev)) by (rewrite H4; [done|other_kind]).
  pose proof (updateStatus_run _ _ _ _ _ _ _ _ Hd4 Had4 Hst) as Hout.
  pose proof Hout as (? & ? & ? & dur & ? & ? & _ & _ & _ & _ & _ & _ & _ & Hfr & Hres & _).
  exists d, s, qs. split_and!; try done.
  - by rewrite Hfr.
  - by rewrite Hfr.
  - intros Hcrd. destruct (Hm Hcrd) as (m & Hm4 & ?). exists m. by rewrite Hfr.
  - eapply hpa_outcome_reconciled; [done|by rewrite Hfr| |done].
    rewrite Hres. destruct (_ =s? PhasePending); unfold Second; lia.
  - exists w4, sres. split_and!; try done. intros k Hk. apply H4. other_kind.
  - intros k Hk Hc. unfold child_keys in Hk. rewrite !not_elem_of_cons in Hk.
    destruct Hk as (?&?&?&?&?&?). rewrite Hfr, H4; [done| |done|done]. by rewrite !not_elem_of_cons.
Qed.

Lemma get_opt_store {A} `{!Resource A} k ctx w o w' :
  get_opt (A := A) k ctx w = (o, w') → store w' = store w.
Proof.
  unfold get_opt. apply (bind_rel (λ w w' : W, store w' = store w)); [congruence| |].
  - intros y w1. apply (try_rel (λ w w' : W, store w' = store w)). intros z w2. apply Get_store.
  - intros [e|a] w1 y w2 _; [case_match|]; by intros [= _ <-].
Qed.

(** A complete Deployment without pull failures decides the stable version. *)
Lemma observed_complete dep pull qs prev img :
  dep_image dep = Some img → rolloutComplete dep = true →
  st_Phase (ad_Status (observed dep pull qs prev)) ≠ PhaseDegraded →
  st_StableVersion (ad_Status (observed dep pull qs prev)) = img.
Proof.
  intros Hi Hc. unfold observed, apply_deployment_state. destruct pull; [done|].
  rewrite Hc, Hi. by destruct (_ && _).
Qed.

Lemma observed_incomplete dep pull qs prev :
  rolloutComplete dep = false →
  st_Phase (ad_Status (observed dep pull qs prev)) ≠ PhaseDegraded →
  st_Phase (ad_Status (observed dep pull qs prev)) = PhasePending ∧
  st_StableVersion (ad_Status (observed dep pull qs prev)) = st_StableVersion (ad_Status prev).
Proof.
  intros Hc. unfold observed, apply_deployment_state. destruct pull; [done|].
  rewrite Hc. by destruct qs.
Qed.

(** *** The finalizer *)

(** [ad1] is the stored object once the finalizer is on it. *)
Definition settled ad w ad1 w1 : Prop :=
  nn ad1 = nn ad ∧ ad_Spec ad1 = ad_Spec ad ∧ ad_Status ad1 = ad_Status ad ∧
  om_DeletionTimestamp (ad_Meta ad1) = None ∧
  AgentDeploymentFinalizer ∈ om_Finalizers (ad_Meta ad1) ∧
  store w1 = <[k_ad ad := OAgentDeployment ad1]> (store w).

Lemma add_finalizer_run ad w ad1 w1 :
  store w !! k_ad ad = Some (OAgentDeployment ad) → om_DeletionTimestamp (ad_Meta ad) = None →
  (if ContainsFinalizer (ad_Meta ad) AgentDeploymentFinalizer then mret ad else
     Update (set_finalizers_of (AddFinalizer AgentDeploymentFinalizer) ad) <?> "adding finalizer";;
     Get (A := AgentDeployment) (nn ad) <?> "re-fetching after finalizer add") w = (inr ad1, w1) →
  settled ad w ad1 w1.
Proof.
  intros Had Hdel Hf. unfold settled. destruct (ContainsFinalizer _ _) eqn:Hc.
  - run. unfold ContainsFinalizer in Hc. zbool. split_and!; try done. by rewrite insert_id.
  - apply bind_inr in Hf as (ad2 & w3 & Hu%wrap_err_inr & [Hs3 Hg]%wrap_err_inr%Get_inr).
    assert (Hm : AddFinalizer AgentDeploymentFinalizer (ad_Meta ad) =
      om_set_finalizers (om_Finalizers (ad_Meta ad) ++ [AgentDeploymentFinalizer]) (ad_Meta ad))
      by (unfold AddFinalizer; by rewrite Hc).
    unfold set_finalizers_of in Hu. rewrite Hm in Hu.
    apply Update_inr in Hu as (old & rv & gen & Hold & _ & -> & Hs).
    change (rkey _) with (k_ad ad) in Hold, Hs. rewrite Had in Hold. injection Hold as <-.
    change (kind (A := AgentDeployment), nn ad) with (k_ad ad) in Hg.
    unfold collectable in Hs; simpl in Hs. rewrite Hdel in Hs.
    rewrite Hs, lookup_insert_eq in Hg. injection Hg as <-.
    split_and!; try done; [|by rewrite Hs3, Hs].
    simpl. apply elem_of_app. right. by apply list_elem_of_singleton.
Qed.

Lemma Reconcile_live r ad w res w' :
  store w !! k_ad ad = Some (OAgentDeployment ad) → om_DeletionTimestamp (ad_Meta ad) = None →
  Reconcile r (nn ad) w = (inr res, w') →
  ∃ ad1 w1, settled ad w ad1 w1 ∧ reconcile_live r ad1 w1 = (inr res, w').
Proof.
  intros Had Hdel. unfold Reconcile. intros (o & w1 & (Hs1 & Ho & _)%get_opt_run & Hr)%bind_inr.
  change (kind (A := AgentDeployment), nn ad) with (k_ad ad) in Ho. rewrite Had in Ho.
  destruct o as [ad'|]; [|done]. injection Ho as <-. rewrite Hdel in Hr.
  apply bind_inr in Hr as (ad1 & w2 & Hf & Hr). exists ad1, w2. split; [|done].
  apply add_finalizer_run in Hf as Hset; [|by rewrite Hs1|done].
  unfold settled in *. by rewrite Hs1 in Hset.
Qed.

Lemma settled_keys ad w ad1 w1 :
  settled ad w ad1 w1 → k_ad ad1 = k_ad ad ∧ k_dep ad1 = k_dep ad ∧ k_svc ad1 = k_svc ad ∧
    k_hpa ad1 = k_hpa ad ∧ store w1 !! k_ad ad1 = Some (OAgentDeployment ad1).
Proof.
  intros (Hn & _ & _ & _ & _ & Hs). unfold k_ad, k_dep, k_svc, k_hpa. rewrite Hn.
  split_and!; try done. rewrite Hs. apply lookup_insert_eq.
Qed.

(** Neither in a rollout nor about to start one. *)
Definition steady r ad : Prop :=
  st_Phase (ad_Status ad) ≠ PhaseRolloutInProgress ∧
  (rc_CanaryController r = None ∨ isCanaryTriggered ad = false).

Lemma Reconcile_steady r ad w res w' :
  store w !! k_ad ad = Some (OAgentDeployment ad) → om_DeletionTimestamp (ad_Meta ad) = None →
  steady r ad → Reconcile r (nn ad) w = (inr res, w') →
  ∃ ad1 w1, settled ad w ad1 w1 ∧ children_reconciled r ad1 ad1 w1 res w'.
Proof.
  intros Had Hdel [Hp Ht] Hr. apply Reconcile_live in Hr as (ad1 & w1 & Hset & Hr); [|done..].
  exists ad1, w1. split; [done|]. destruct (settled_keys _ _ _ _ Hset) as (_ & _ & _ & _ & Had1).
  destruct Hset as (_ & Hsp & Hst & _).
  apply reconcile_children_run; [by rewrite Hst|done|].
  assert (Ht1 : isCanaryTriggered ad1 = isCanaryTriggered ad)
    by (unfold isCanaryTriggered; by rewrite Hsp, Hst).
  assert (isAbortRequested ad1 = false) as Ha.
  { unfold isAbortRequested. rewrite Hst. apply str_eqb_false in Hp. rewrite Hp. apply andb_false_r. }
  unfold reconcile_live in Hr. destruct (rc_CanaryController r) as [c|]; [|done].
  destruct Ht as [Ht|Ht]; [done|]. rewrite Ha, Hst, Ht1, Ht in Hr.
  apply str_eqb_false in Hp. by rewrite Hp in Hr.
Qed.

(** The children do not depend on the finalizers. *)
Lemma agentLabels_settled ad w ad1 w1 : settled ad w ad1 w1 → agentLabels ad1 = agentLabels ad.
Proof. intros (Hn & Hsp & _). unfold agentLabels. rewrite Hsp. injection Hn as _ Hname. by rewrite Hname. Qed.

Lemma stable_dep_settled ad w ad1 w1 d : settled ad w ad1 w1 → is_stable_dep ad1 d → is_stable_dep ad d.
Proof.
  intros Hset. pose proof (agentLabels_settled _ _ _ _ Hset) as Hl. destruct Hset as (Hn & Hsp & Hst & _).
  injection Hn as _ Hname. unfold is_stable_dep, runs_agent, stable_image, ad_min.
  by rewrite Hl, Hsp, Hst, Hname.
Qed.

Lemma stable_svc_settled ad w ad1 w1 sv : settled ad w ad1 w1 → is_stable_svc ad1 sv → is_stable_svc ad sv.
Proof.
  intros Hset. pose proof (agentLabels_settled _ _ _ _ Hset) as Hl. destruct Hset as (Hn & Hsp & Hst & _).
  injection Hn as _ Hname. unfold is_stable_svc, agent_port. by rewrite Hl, Hsp, Hname.
Qed.

Lemma hpa_reconciled_settled ad w ad1 w1 w2 res qs w' :
  settled ad w ad1 w1 → hpa_reconciled ad1 w2 res qs w' → hpa_reconciled ad w2 res qs w'.
Proof.
  intros (Hn & Hsp & _). assert (Hk : ad_key ad1 = ad_key ad) by exact Hn. injection Hn as Hns Hname.
  unfold hpa_reconciled, siblings, is_capped_hpa, BuildHPA, IsQuotaCapped, k_quota, k_hpa, nn. simpl.
  by rewrite Hk, Hsp, Hns, Hname.
Qed.

Lemma stable_image_steady ad :
  st_Phase (ad_Status ad) ≠ PhaseRolloutInProgress → stable_image ad = spec_Image (ad_Spec ad).
Proof. intros Hp. unfold stable_image. by apply str_eqb_false in Hp as ->. Qed.

(** *** Starting a rollout *)

Lemma startCanary_run ad w u w' :
  store w !! k_ad ad = Some (OAgentDeployment ad) → deletable w (k_hpa ad) →
  startCanary ad w = (inr u, w') →
  ∃ x, store w' = <[k_ad ad := OAgentDeployment x]> (delete (k_hpa ad) (store w)) ∧
    ad_Spec x = ad_Spec ad ∧ ad_Status x = wire_status (start_status ad (ad_Status ad)).
Proof.
  intros Had Hdel. unfold startCanary.
  intros ([] & w1 & Hp%wrap_err_inr & Hr)%bind_inr. apply get_and_delete_run in Hp; [|done].
  change (kind (A := HorizontalPodAutoscaler), nn ad) with (k_hpa ad) in Hp.
  apply bind_inr in Hr as (latest & w2 & [Hs2 Hl]%wrap_err_inr%Get_inr & Hr).
  change (kind (A := AgentDeployment), nn ad) with (k_ad ad) in Hl.
  rewrite Hp, lookup_delete_ne, Had in Hl by discriminate. injection Hl as <-.
  apply bind_inr in Hr as (x & w3 & Hu%wrap_err_inr & Hr). run.
  eapply (status_update_run ad) in Hu as (Hs & Hsp & Hst & _);
    [|by rewrite Hs2, Hp, lookup_delete_ne by discriminate].
  exists x. by rewrite Hs, Hs2, Hp.
Qed.
End reconcile.

(** ** Theorems *)
Section theorems.
Context {CT : CoreTypes} {CA : ConditionsAPI} {CL : ConditionsLaws} {W : Type}
  {KC : KubeClient W} {KL : KubeLaws} {PR : Prometheus W} {PL : PrometheusLaws}
  {AR : AgentRegistrar W} {AL : AgentRegistrarLaws}.
Implicit Types (ad latest x : AgentDeployment) (w : W) (r : AgentDeploymentReconciler).

(** C6: outside a rollout, a reconcile that returns without error leaves the
    stored AgentDeployment with its spec and the finalizer on it, and its
    children as the spec wants them: a Deployment with [replicas.min] replicas
    whose first container runs [spec.image] with the ports, resources,
    environment and arguments of the spec, its selector unchanged, a Service and
    (with Prometheus Operator) a ServiceMonitor on the stable pods, and the HPA
    capped by what the live agents of the tenant leave of the quota; without a
    quota the HPA is left alone and the reconcile comes back within ten seconds.
    Other objects are not touched (ConfigMaps apart). *)
Theorem steady_reconcile_converges r ad w res w' :
  store w !! k_ad ad = Some (OAgentDeployment ad) → om_DeletionTimestamp (ad_Meta ad) = None →
  steady r ad → Reconcile r (nn ad) w = (inr res, w') →
  ∃ x d s qs, store w' !! k_ad ad = Some (OAgentDeployment x) ∧ ad_Spec x = ad_Spec ad ∧
    AgentDeploymentFinalizer ∈ om_Finalizers (ad_Meta x) ∧
    store w' !! k_dep ad = Some (ODeployment d) ∧ is_stable_dep ad d ∧ selector_kept ad w d ∧
    dep_image d = Some (spec_Image (ad_Spec ad)) ∧
    store w' !! k_svc ad = Some (OService s) ∧ is_stable_svc ad s ∧
    (rc_hasServiceMonitorCRD r = true → ∃ m, store w' !! k_monitor ad = Some (OServiceMonitor m) ∧
      sm_Spec m = sm_Spec (desiredServiceMonitor ad)) ∧
    (∃ w1, hpa_reconciled ad w1 res qs w' ∧ ∀ k, k ≠ k_ad ad → store w1 !! k = store w !! k) ∧
    ∀ k, k ∉ child_keys ad → k.1 ≠ KConfigMap → store w' !! k = store w !! k.
Proof.
  intros Had Hdel Hst Hr. pose proof Hst as [Hp _].
  apply Reconcile_steady in Hr as (ad1 & w1 & Hset & (d & s & qs & Hd & Hsel & Hd' & Hs & Hs' & Hm & Hh & Hout & Hfr));
    [|done..].
  pose proof (settled_keys _ _ _ _ Hset) as (Ea & Ed & Es & Eh & _).
  pose proof Hset as (Hn & Hsp & Hst1 & _ & Hfin & Hs1).
  assert (Em : k_monitor ad1 = k_monitor ad) by (unfold k_monitor; by rewrite Hn).
  assert (Hfr1 : ∀ k, k ≠ k_ad ad → store w1 !! k = store w !! k)
    by (intros k Hk; rewrite Hs1; by rewrite lookup_insert_ne).
  rewrite Ed in Hd'. rewrite Es in Hs'. rewrite Em in Hm.
  destruct Hout as (w2 & sres & _ & _ & (pull & w3 & l & dur & w4 & x & _ & _ & _ & _ & Hx & Hspx & _ & _ & _ & Hfx)).
  apply stored_ad_Some in Hx. rewrite Ea in Hx.
  exists x, d, s, qs. split_and!; try done.
  - congruence.
  - by rewrite Hfx.
  - by apply (stable_dep_settled _ _ _ _ _ Hset).
  - unfold selector_kept in *. rewrite Ed, Hfr1 in Hsel by discriminate.
    destruct (store w !! k_dep ad) as [o|] eqn:E; [|].
    + pose proof (f_equal fst (store_key _ _ _ E)) as Hk. by destruct o.
    + rewrite Hsel. unfold agentLabels. rewrite Hsp. injection Hn as _ Hname. by rewrite Hname.
  - destruct Hd as (_ & Hi & _). rewrite Hi, stable_image_steady, Hsp; [done|by rewrite Hst1].
  - by apply (stable_svc_settled _ _ _ _ _ Hset).
  - intros Hcrd. destruct (Hm Hcrd) as (m & Hm1 & Hm2). exists m. split; [done|]. rewrite Hm2. simpl.
    by rewrite (agentLabels_settled _ _ _ _ Hset).
  - exists w1. split; [|done]. by apply (hpa_reconciled_settled _ _ _ _ _ _ _ _ Hset).
  - intros k Hk Hc. unfold child_keys in *. rewrite Ea, Ed, Es, Em, Eh in Hfr.
    rewrite Hfr by done. apply Hfr1. rewrite not_elem_of_cons in Hk. by destruct Hk.
Qed.

(** C18: when the image changes under the Canary strategy, a reconcile that
    returns without error has started the rollout: the stored object is at step
    0 of it, with the new image as canary and the stable version as it was; the
    HPA is gone, no other object is touched (in particular not the stable
    Deployment), and the first step runs within five seconds. *)
Theorem canary_start r c ad w res w' :
  store w !! k_ad ad = Some (OAgentDeployment ad) → om_DeletionTimestamp (ad_Meta ad) = None →
  rc_CanaryController r = Some c → isCanaryTriggered ad = true → deletable w (k_hpa ad) →
  Reconcile r (nn ad) w = (inr res, w') →
  ∃ x, stored_ad ad w' = Some x ∧ ad_Spec x = ad_Spec ad ∧ in_rollout x ∧
    st_CanaryStepIndex (ad_Status x) = 0 ∧ st_CanaryVersion (ad_Status x) = spec_Image (ad_Spec ad) ∧
    st_StableVersion (ad_Status x) = st_StableVersion (ad_Status ad) ∧
    st_StableVersion (ad_Status x) ≠ "" ∧ st_StableVersion (ad_Status x) ≠ st_CanaryVersion (ad_Status x) ∧
    store w' !! k_hpa ad = None ∧
    (∀ k, k ≠ k_hpa ad → k ≠ k_ad ad → store w' !! k = store w !! k) ∧
    res = requeue_after (5 * Second).
Proof.
  intros Had Hdel Hc Ht Hh Hr. apply Reconcile_live in Hr as (ad1 & w1 & Hset & Hr); [|done..].
  pose proof (settled_keys _ _ _ _ Hset) as (Ea & _ & _ & Eh & Had1).
  pose proof Hset as (Hn & Hsp & Hst & _ & _ & Hs1).
  assert (Ht1 : isCanaryTriggered ad1 = true) by (unfold isCanaryTriggered in *; by rewrite Hsp, Hst).
  assert (Hfacts : st_Phase (ad_Status ad) ≠ PhaseRolloutInProgress ∧
    st_StableVersion (ad_Status ad) ≠ "" ∧ st_StableVersion (ad_Status ad) ≠ spec_Image (ad_Spec ad)).
  { unfold isCanaryTriggered, str_eqb in Ht. repeat case_bool_decide; simpl in Ht; try done. }
  destruct Hfacts as (Hp & Hsv & Hne).
  unfold reconcile_live in Hr. rewrite Hc, Ht1 in Hr.
  unfold isAbortRequested in Hr. rewrite Hst in Hr. apply str_eqb_false in Hp.
  rewrite Hp, andb_false_r in Hr. apply bind_inr in Hr as ([] & w2 & Hr%wrap_err_inr & Hres).
  injection Hres as <- <-.
  apply startCanary_run in Hr as (x & Hs' & Hspx & Hstx); [|done|].
  2: { rewrite Eh. intros o. rewrite Hs1, lookup_insert_ne by discriminate. apply Hh. }
  rewrite Ea, Eh in Hs'. exists x. rewrite stored_ad_Some, Hs', Hstx, Hst; simpl.
  split_and!; try done; keys; try done; try congruence.
  - split; [by rewrite Hstx|]. rewrite Hstx; simpl. split; [lia|done].
  - intros k Hk1 Hk2. rewrite lookup_insert_ne, lookup_delete_ne, Hs1, lookup_insert_ne by done. done.
Qed.

(** C7: deletion waits for the registry.  A reconcile of a terminating
    AgentDeployment that carries the finalizer removes the finalizer, and with
    it the object when no other finalizer is left, only after the registrar has
    deregistered the agent; if anything fails on the way the object is still
    stored as it was, finalizer included, and the reconcile reports an error. *)
Theorem deletion_deregisters_first r ad w res w' :
  store w !! k_ad ad = Some (OAgentDeployment ad) → om_DeletionTimestamp (ad_Meta ad) ≠ None →
  AgentDeploymentFinalizer ∈ om_Finalizers (ad_Meta ad) → rc_has_registrar r = true →
  Reconcile r (nn ad) w = (res, w') →
  match res with
  | inl _ => store w' !! k_ad ad = store w !! k_ad ad
  | inr _ =>
      (∃ w1 w2, Deregister ad w1 = (inr tt, w2) ∧ store w1 = store w) ∧
      (∀ x, store w' !! k_ad ad = Some (OAgentDeployment x) →
        AgentDeploymentFinalizer ∉ om_Finalizers (ad_Meta x)) ∧
      (om_Finalizers (ad_Meta ad) = [AgentDeploymentFinalizer] → store w' !! k_ad ad = None)
  end.
Proof.
  intros Had Hdel Hfin Hreg. unfold Reconcile, mbind, Proc_bind.
  destruct (get_opt (A := AgentDeployment) (nn ad) _ w) as [[e|o] w1] eqn:Hg.
  { apply get_opt_store in Hg as Hs1. intros [= <- <-]. by rewrite Hs1. }
  apply get_opt_run in Hg as (Hs1 & Ho & _).
  change (kind (A := AgentDeployment), nn ad) with (k_ad ad) in Ho. rewrite Had in Ho.
  destruct o as [ad'|]; [|done]. injection Ho as <-.
  destruct (om_DeletionTimestamp (ad_Meta ad)) as [t|] eqn:Ht; [|done].
  unfold ContainsFinalizer. rewrite bool_decide_true by done.
  unfold runDeletionCleanup. rewrite Hreg. unfold wrap_err.
  destruct (Deregister ad w1) as [[e|[]] w2] eqn:Hd; pose proof (Deregister_frame _ _ _ _ Hd) as Hcm.
  { intros [= <- <-]. rewrite Hcm by discriminate. by rewrite Hs1. }
  assert (Had2 : store w2 !! k_ad ad = Some (OAgentDeployment ad))
    by (rewrite Hcm by discriminate; by rewrite Hs1).
  destruct (Update _ w2) as [[e|x] w3] eqn:Hu.
  { apply Update_inl in Hu. intros [= <- <-]. rewrite Hu. congruence. }
  intros [= <- <-]. split; [by exists w1, w2|].
  apply Update_inr in Hu as (old & rv & gen & Hold & _ & -> & Hs).
  change (rkey _) with (k_ad ad) in Hs. unfold collectable in Hs; simpl in Hs. rewrite Ht in Hs. split.
  - intros x. rewrite Hs. case_match; [by rewrite lookup_delete_eq|].
    rewrite lookup_insert_eq. intros [= <-]; simpl. intros [? _]%list_elem_of_filter. done.
  - intros Hone. rewrite Hs, Hone, filter_cons, filter_nil, decide_False by (by intros ?).
    by rewrite lookup_delete_eq.
Qed.


(** Some pod of the agent cannot pull its image. *)
Definition pull_failing ad w : Prop :=
  ∃ pod, store w !! (KPod, om_key (pod_Meta pod)) = Some (OPod pod) ∧
    om_Namespace (pod_Meta pod) = ad_Namespace ad ∧
    selector_matches (agentLabels ad) (om_Labels (pod_Meta pod)) = true ∧
    is_Some (pod_pull_failure pod).

Lemma detectImagePullFailure_run ad w o w' :
  detectImagePullFailure ad w = (inr o, w') → is_Some o ↔ pull_failing ad w.
Proof.
  unfold detectImagePullFailure, ListMatching.
  intros (l & w1 & (pods & w2 & (_ & _ & Hin)%List_inr & Hr)%wrap_err_inr%bind_inr & Hr')%bind_inr.
  injection Hr as <- <-. injection Hr' as <- <-. rewrite head_is_Some.
  assert (Hne : ∀ l : list string, l ≠ [] ↔ ∃ m, m ∈ l).
  { intros [|m l]; split; try done; [by intros [m ?%not_elem_of_nil]|]. intros _. exists m. left. }
  rewrite Hne. unfold pull_failing. split.
  - intros (m & (pod & Hp & Hm)%list_elem_of_omap). apply list_elem_of_filter in Hp as [Hsel Hp].
    apply Hin in Hp as [Hst Hns]. exists pod. split; [exact Hst|]. split; [exact Hns|]. eauto.
  - intros (pod & Hst & Hns & Hsel & [m Hm]). exists m. apply list_elem_of_omap. exists pod.
    split; [|done]. apply list_elem_of_filter. split; [done|]. apply Hin. split; [exact Hst|exact Hns].
Qed.

(** The condition [t] of [x] has the given status. *)
Definition reports x (t : string) (s : ConditionStatus) : Prop :=
  c_Status <$> GetCondition x t = Some s.

(** The phase a reconcile reports for the Deployment [dep]. *)
Definition reported dep prev (failing : Prop) x (res : Result) : Prop :=
  let s := ad_Status x in
  st_CurrentReplicas s = ds_ReadyReplicas (dep_Status dep) ∧
  (failing → st_Phase s = PhaseDegraded ∧ reports x ConditionImagePullFailed ConditionTrue ∧
    st_StableVersion s = st_StableVersion (ad_Status prev)) ∧
  (¬ failing → GetCondition x ConditionImagePullFailed = None ∧
    if rolloutComplete dep then
      reports x ConditionReady ConditionTrue ∧
      st_StableVersion s = default (st_StableVersion (ad_Status prev)) (dep_image dep) ∧
      st_Phase s = (if bool_decide (st_Phase (ad_Status prev) = PhaseRolloutFailed ∧
          spec_Image (ad_Spec prev) ≠ st_StableVersion (ad_Status prev))
        then PhaseRolloutFailed else PhaseRunning)
    else st_Phase s = PhasePending ∧ reports x ConditionReady ConditionFalse ∧
      st_StableVersion s = st_StableVersion (ad_Status prev) ∧ RequeueAfter res = 5 * Second).

Lemma map_status_conditions (f : AgentDeploymentStatus → AgentDeploymentStatus) ad t :
  (∀ s, st_Conditions (f s) = st_Conditions s) → GetCondition (map_status f ad) t = GetCondition ad t.
Proof. intros Hf. unfold GetCondition; simpl. by rewrite Hf. Qed.

Lemma GetCondition_Set_eq ad t s reason msg :
  c_Status <$> GetCondition (SetCondition ad t s reason msg) t = Some s.
Proof.
  unfold GetCondition, SetCondition; simpl. set (c := {| c_Type := t |}).
  change t with (c_Type c). by rewrite find_set_eq.
Qed.

Lemma GetCondition_Set_ne ad t t' s reason msg :
  t ≠ t' → GetCondition (SetCondition ad t' s reason msg) t = GetCondition ad t.
Proof. intros Ht. unfold GetCondition, SetCondition; simpl. by rewrite find_set_ne. Qed.

Lemma GetCondition_Remove_eq ad t : GetCondition (RemoveCondition ad t) t = None.
Proof. unfold GetCondition, RemoveCondition; simpl. apply find_remove_eq. Qed.

Lemma GetCondition_Remove_ne ad t t' :
  t ≠ t' → GetCondition (RemoveCondition ad t') t = GetCondition ad t.
Proof. intros Ht. unfold GetCondition, RemoveCondition; simpl. by rewrite find_remove_ne. Qed.

Ltac conds :=
  unfold reports;
  repeat first [ rewrite GetCondition_Set_eq | rewrite GetCondition_Remove_eq
    | rewrite GetCondition_Set_ne by discriminate | rewrite GetCondition_Remove_ne by discriminate
    | rewrite map_status_conditions by done ]; try done.

Lemma observed_reported dep pull qs prev res :
  (rolloutComplete dep = false → pull = None → RequeueAfter res = 5 * Second) →
  reported dep prev (is_Some pull) (observed dep pull qs prev) res.
Proof.
  intros Hres. unfold reported, observed, apply_deployment_state.
  set (l := map_status _ _).
  assert (Hl : ad_Spec l = ad_Spec prev ∧ st_Phase (ad_Status l) = st_Phase (ad_Status prev) ∧
    st_StableVersion (ad_Status l) = st_StableVersion (ad_Status prev) ∧
    st_CurrentReplicas (ad_Status l) = ds_ReadyReplicas (dep_Status dep)) by (by destruct qs).
  destruct Hl as (Hsp & Hph & Hsv & Hcr). destruct pull as [m|].
  { split; [done|]. split; [|intros Hn; destruct Hn; by eexists].
    intros _. split; [done|]. split; [conds|done]. }
  destruct (rolloutComplete dep).
  - split; [by destruct (_ && _), (dep_image dep)|]. split; [by intros []%is_Some_None|]. intros _.
    rewrite <- Hsp, <- Hph, <- Hsv.
    set (b := bool_decide _).
    assert (Hb : (st_Phase (ad_Status (RemoveCondition l ConditionImagePullFailed)) =s? PhaseRolloutFailed) &&
      negb (spec_Image (ad_Spec (RemoveCondition l ConditionImagePullFailed)) =s?
        st_StableVersion (ad_Status (RemoveCondition l ConditionImagePullFailed))) = b).
    { subst b. simpl. unfold str_eqb. repeat case_bool_decide; naive_solver. }
    rewrite Hb. assert (Hf : b = true → st_Phase (ad_Status l) = PhaseRolloutFailed)
      by (subst b; by intros [? _]%bool_decide_eq_true).
    destruct b; [specialize (Hf eq_refl)|]; destruct (dep_image dep) as [img|]; simpl;
      (split; [conds|]); (split; [conds|]); done.
  - split; [done|]. split; [by intros []%is_Some_None|]. intros _.
    split; [conds|]. split; [done|]. split; [conds|]. split; [done|]. by apply Hres.
Qed.

(** C19: the status a reconcile writes tells the truth about the live
    Deployment: Degraded when a pod of the agent cannot pull its image, Pending
    (checked again in five seconds) while replicas are missing, and otherwise
    Running with the deployed image recorded as the stable version, except that
    RolloutFailed stays as long as the spec asks for something else than the
    stable version. *)
Theorem reported_status_correct r ad qs dep prev w res w' :
  store w !! k_dep ad = Some (ODeployment dep) → store w !! k_ad ad = Some (OAgentDeployment prev) →
  updateStatus r ad qs w = (inr res, w') →
  ∃ x, stored_ad ad w' = Some x ∧ reported dep prev (pull_failing ad w) x res.
Proof.
  intros Hd Ha Hr. eapply updateStatus_run in Hr as
    (pull & w1 & l & d & w2 & x & Hpull & Hs1 & _ & Hsame & Hx & _ & Hst & _ & Hres & _); [|done..].
  exists x. split; [done|]. apply detectImagePullFailure_run in Hpull as Hiff.
  assert (Hpf : pull_failing ad w1 ↔ pull_failing ad w) by (unfold pull_failing; by rewrite Hs1).
  destruct Hsame as (_ & _ & Hph & Hcr & Hsv & _ & _ & _ & Hcond).
  assert (Hrep : reported dep prev (is_Some pull) (observed dep pull qs prev) res).
  { apply observed_reported. intros Hc ->. rewrite Hres, Hph. unfold observed, apply_deployment_state.
    by rewrite Hc. }
  assert (Hx' : st_Phase (ad_Status x) = st_Phase (ad_Status (observed dep pull qs prev)) ∧
    st_CurrentReplicas (ad_Status x) = st_CurrentReplicas (ad_Status (observed dep pull qs prev)) ∧
    st_StableVersion (ad_Status x) = st_StableVersion (ad_Status (observed dep pull qs prev)) ∧
    ∀ t, t ≠ ConditionMCPHandshakeFailed → GetCondition x t = GetCondition (observed dep pull qs prev) t).
  { rewrite <- Hph, <- Hcr, <- Hsv. unfold GetCondition in *.
    destruct Hst as [->| ->]; split_and!; try done; intros t Ht; by rewrite <- Hcond. }
  destruct Hx' as (E1 & E2 & E3 & E4).
  unfold reported, reports in *. rewrite E1, E2, E3, !E4 by discriminate.
  destruct Hrep as (H1 & H2 & H3). split_and!; [done| |].
  - intros Hf. apply H2. tauto.
  - intros Hf. apply H3. tauto.
Qed.

(** The stable and canary variants of an agent, and different agents, are
    never confused: no selector the operator writes for one matches the pods of
    another. *)
Theorem variants_isolated ad ad' :
  selector_matches (svc_Selector (desiredService ad))
    (dep_TemplateLabels (desiredCanaryDeployment ad' (canaryName ad'))) = false ∧
  selector_matches (svc_Selector (desiredCanaryService ad (canaryName ad)))
    (dep_TemplateLabels (desiredDeployment ad')) = false ∧
  (ad_Name ad ≠ ad_Name ad' →
    selector_matches (svc_Selector (desiredService ad)) (dep_TemplateLabels (desiredDeployment ad')) = false ∧
    selector_matches (svc_Selector (desiredCanaryService ad (canaryName ad)))
      (dep_TemplateLabels (desiredCanaryDeployment ad' (canaryName ad'))) = false) ∧
  selector_matches (svc_Selector (desiredService ad)) (dep_TemplateLabels (desiredDeployment ad)) = true ∧
  selector_matches (svc_Selector (desiredCanaryService ad (canaryName ad)))
    (dep_TemplateLabels (desiredCanaryDeployment ad (canaryName ad))) = true.
Proof.
  cbn [svc_Selector desiredService desiredCanaryService dep_TemplateLabels desiredDeployment
    desiredCanaryDeployment].
  split; [|split; [|split; [|split]]].
  - by eapply (selector_mismatch _ _ "agentrax.io/variant").
  - by eapply (selector_mismatch _ _ "agentrax.io/variant").
  - intros Hne. split; eapply (selector_mismatch _ _ "app.kubernetes.io/name"); try done.
    + rewrite agentLabels_name. congruence.
    + rewrite canary_labels_name. congruence.
  - by apply selector_matches_spec.
  - by apply selector_matches_spec.
Qed.

(** The ServiceMonitor the operator writes for an agent selects its stable
    Service and never its canary Service: the canary is not scraped through it,
    although the rollout is decided on metrics of the canary variant. *)
Theorem canary_service_not_scraped ad ad' :
  selector_matches (sm_Selector (sm_Spec (desiredServiceMonitor ad)))
    (om_Labels (svc_Meta (desiredService ad))) = true ∧
  selector_matches (sm_Selector (sm_Spec (desiredServiceMonitor ad)))
    (om_Labels (svc_Meta (desiredCanaryService ad' (canaryName ad')))) = false.
Proof.
  split; [by apply selector_matches_spec|].
  by eapply (selector_mismatch _ _ "agentrax.io/variant").
Qed.
End theorems.

(** ** The registration flag and the registry *)
Section registration.
Context {CT : CoreTypes} {CA : ConditionsAPI} {CL : ConditionsLaws} {W : Type}
  {KC : KubeClient W} {KL : KubeLaws} {SR : SharedRegistry W}
  {SL : SharedRegistryLaws} {RJ : RegistryJSON} {JL : RegistryJSONLaws}
  {SG : SharedRegistrar W} {GL : SharedRegistrarLaws} {MC : MCPClient W} {ML : MCPClientLaws}.
Implicit Types (ad x : AgentDeployment) (w : W) (r : AgentDeploymentReconciler).

Definition in_registry ad w : Prop := is_Some (rg_entries (registry w) !! agent_key ad).

Lemma registrar_Register_listed ad w u w' :
  registrar_Register ad w = (inr u, w') → in_registry ad w'.
Proof.
  unfold registrar_Register. rewrite (bind_step read_registrar _ w (registrar w) w) by done.
  case_match; [done|]. intros (tools & w1 & _ & Hr)%bind_inr.
  apply bind_inr in Hr as ([] & w2 & Hreg%wrap_err_inr & Hr).
  apply resetFailures_run in Hr as (_ & _ & Hrg & _). unfold in_registry. rewrite Hrg.
  apply registry_Register_run in Hreg. destruct (registrable _); [|by destruct Hreg as [_ []]].
  destruct Hreg as [-> _]. eexists. apply lookup_insert_eq.
Qed.

Lemma registrar_Heartbeat_listed ad w u w' :
  rr_has_registry (registrar w) = true →
  registrar_Heartbeat ad w = (inr u, w') → in_registry ad w'.
Proof.
  intros Hh. unfold registrar_Heartbeat. rewrite (bind_step read_registrar _ w (registrar w) w) by done.
  rewrite Hh. cbn [negb].
  intros (probe & w1 & (y & [= ->] & _)%try_inv & Hr)%bind_inr. destruct y as [err|tools].
  { by apply heartbeat_failed_run in Hr as (_ & [e [=]] & _). }
  apply bind_inr in Hr as ([] & w2 & _ & Hr).
  apply bind_inr in Hr as (hb & w3 & (z & [= ->] & Hb)%try_inv & Hr).
  destruct z as [e|[]].
  - case_match; [|done]. by eapply registrar_Register_listed.
  - injection Hr as <- <-. apply registry_Heartbeat_run in Hb. unfold in_registry, agent_key.
    destruct (rg_entries (registry w2) !! _) as [e|]; [|by destruct Hb].
    destruct Hb as (_ & _ & ->). eexists. apply lookup_insert_eq.
Qed.

Lemma registrar_Deregister_unlisted ad w u w' :
  rr_has_registry (registrar w) = true →
  registrar_Deregister ad w = (inr u, w') → ¬ in_registry ad w'.
Proof.
  intros Hh. unfold registrar_Deregister. rewrite (bind_step read_registrar _ w (registrar w) w) by done.
  rewrite Hh. cbn [negb]. intros ([] & w1 & _ & [Hr _]%registry_Deregister_run)%bind_inr.
  unfold in_registry. rewrite Hr. simpl. rewrite lookup_delete_eq. by intros []%is_Some_None.
Qed.

Lemma requeueInterval_pos r : 0 < requeueInterval r.
Proof. unfold requeueInterval, Second. destruct (_ <=? 0) eqn:E; zbool; lia. Qed.

End registration.

(** ** Witnesses: the theorems applied to concrete clusters *)
Section witnesses.
#[local] Existing Instance Ref.core.
#[local] Existing Instance Ref.conditions.
#[local] Existing Instance Ref.conditions_laws.

(** The agent [ns/agent] with tenant [team], as stored. *)
Definition live_agent (fin : list string) (del : option Z) (image : string) (expose : bool)
    (status : AgentDeploymentStatus) : AgentDeployment :=
  Build_AgentDeployment
    {| om_Name := "agent"; om_Namespace := "ns"; om_Labels := ∅; om_Finalizers := fin;
       om_DeletionTimestamp := del; om_Generation := 1; om_ResourceVersion := "v0"; om_Controller := None |}
    (Ref.spec image "team" 1 4 1000
      {| ro_Strategy := "Canary"; ro_Steps := demo_steps; ro_Rollback := Ref.rollback; ro_Abort := false |}
      {| mcp_Expose := expose; mcp_Tools := ["search"] |})
    status.

Definition agent_status (phase stable canary : string) (registered : bool) : AgentDeploymentStatus :=
  {| st_Phase := phase; st_CurrentReplicas := 1; st_StableVersion := stable; st_CanaryVersion := canary;
     st_CanaryWeight := 0; st_CanaryStepIndex := 0; st_PauseStartedAt := None;
     st_PromUnreachableSince := None; st_Registered := registered; st_Conditions := [] |}.

(** The cluster it lives in: its Deployment, its quota, and healthy metrics. *)
Definition agent_world (ad : AgentDeployment) : world :=
  put (OAgentDeployment ad) (set_metrics (Some PromRef.healthy)
    (with_objects [ODeployment demo_stable; OTenantQuota {| tq_Meta := new_meta "team" "ns" ∅;
      tq_Spec := Ref.quota; tq_Status := zero_usage |}] empty_world)).

Lemma agent_world_stored ad :
  om_ResourceVersion (ad_Meta ad) ≠ "" → collectable (OAgentDeployment ad) = false →
  store (agent_world ad) !! k_ad ad = Some (OAgentDeployment ad).
Proof.
  intros Hrv Hc. unfold agent_world. change store with rw_store. rewrite rw_store_put by done.
  apply lookup_insert_eq.
Qed.

(** Absence of an object, decided by evaluation. *)
Lemma absent_deletable (w : world) k :
  match store w !! k with None => true | Some _ => false end = true → deletable w k.
Proof. intros E o Ho. by rewrite Ho in E. Qed.

Definition demo_reconciler : AgentDeploymentReconciler :=
  {| rc_GPUResourceName := ""; rc_CanaryController := Some demo_controller; rc_has_registrar := true;
     rc_MCPHealthInterval := 0; rc_hasServiceMonitorCRD := true |}.

Definition running_agent : AgentDeployment :=
  live_agent [] None "img:v0" true (agent_status PhaseRunning "img:v0" "" false).

Lemma steady_reconcile_converges_witness :
  ∃ w' x d, store w' !! k_ad running_agent = Some (OAgentDeployment x) ∧
    AgentDeploymentFinalizer ∈ om_Finalizers (ad_Meta x) ∧
    store w' !! k_dep running_agent = Some (ODeployment d) ∧
    dep_image d = Some "img:v0" ∧ dep_Replicas d = Some 1.
Proof.
  destruct (ok_run (Reconcile demo_reconciler (nn running_agent)) (agent_world running_agent)) as [res E];
    [vm_compute; reflexivity|].
  assert (Hs : store (agent_world running_agent) !! k_ad running_agent =
    Some (OAgentDeployment running_agent)) by (apply agent_world_stored; [discriminate|reflexivity]).
  assert (Hst : steady demo_reconciler running_agent) by (split; [discriminate|right; reflexivity]).
  destruct (steady_reconcile_converges demo_reconciler running_agent (agent_world running_agent) res _
    Hs eq_refl Hst E)
    as (x & d & s & qs & Hx & _ & Hf & Hd & Hsd & _ & Hi & _).
  eexists _, x, d. split; [exact Hx|]. split; [exact Hf|]. split; [exact Hd|]. split; [exact Hi|apply Hsd].
Defined.

Definition updated_agent : AgentDeployment :=
  live_agent [AgentDeploymentFinalizer] None "img:v1" false (agent_status PhaseRunning "img:v0" "" false).

Lemma canary_start_witness :
  ∃ w' x, stored_ad updated_agent w' = Some x ∧ in_rollout x ∧
    st_CanaryVersion (ad_Status x) = "img:v1" ∧ st_StableVersion (ad_Status x) = "img:v0".
Proof.
  destruct (ok_run (Reconcile demo_reconciler (nn updated_agent)) (agent_world updated_agent)) as [res E];
    [vm_compute; reflexivity|].
  assert (Hs : store (agent_world updated_agent) !! k_ad updated_agent =
    Some (OAgentDeployment updated_agent)) by (apply agent_world_stored; [discriminate|reflexivity]).
  assert (Hd : deletable (agent_world updated_agent) (k_hpa updated_agent))
    by (apply absent_deletable; vm_compute; reflexivity).
  destruct (canary_start demo_reconciler demo_controller updated_agent (agent_world updated_agent) res _
    Hs eq_refl eq_refl eq_refl Hd E) as (x & Hx & _ & Hin & _ & Hc & Hsv & _).
  eexists _, x. split; [exact Hx|]. split; [exact Hin|]. split; [exact Hc|exact Hsv].
Defined.

Definition deleted_agent : AgentDeployment :=
  live_agent [AgentDeploymentFinalizer] (Some 7) "img:v0" true (agent_status PhaseRunning "img:v0" "" true).

Lemma deletion_deregisters_first_witness :
  ∃ w', store w' !! k_ad deleted_agent = None.
Proof.
  destruct (ok_run (Reconcile demo_reconciler (nn deleted_agent)) (agent_world deleted_agent)) as [res E];
    [vm_compute; reflexivity|].
  assert (Hs : store (agent_world deleted_agent) !! k_ad deleted_agent =
    Some (OAgentDeployment deleted_agent)) by (apply agent_world_stored; [discriminate|reflexivity]).
  assert (Ht : om_DeletionTimestamp (ad_Meta deleted_agent) ≠ None) by discriminate.
  assert (Hf : AgentDeploymentFinalizer ∈ om_Finalizers (ad_Meta deleted_agent)) by left.
  destruct (deletion_deregisters_first demo_reconciler deleted_agent (agent_world deleted_agent) (inr res) _
    Hs Ht Hf eq_refl E) as (_ & _ & Hgone).
  eexists. exact (Hgone eq_refl).
Defined.

Definition failing_agent : AgentDeployment :=
  live_agent [AgentDeploymentFinalizer] None "img:v1" false
    (agent_status PhaseRolloutInProgress "img:v0" "img:v1" false).

(** The cluster after the canary of [failing_agent] has been rolled back. *)
Definition rolled_back_world : world := (Rollback failing_agent "Why" "m" (agent_world failing_agent)).2.


Lemma reported_status_correct_witness :
  ∃ w' x, stored_ad running_agent w' = Some x ∧ st_CurrentReplicas (ad_Status x) = 0.
Proof.
  destruct (ok_run (updateStatus demo_reconciler running_agent quotaStateUncapped)
    (agent_world running_agent)) as [res E]; [vm_compute; reflexivity|].
  destruct (some_run (store (agent_world running_agent) !! k_dep running_agent) (λ o, match o with
    | ODeployment d => ds_ReadyReplicas (dep_Status d) =? 0 | _ => false end)) as (o & Ho & Hz);
    [vm_compute; reflexivity|].
  destruct o as [| |d| | | | | | |]; try discriminate Hz. apply Z.eqb_eq in Hz.
  assert (Hs : store (agent_world running_agent) !! k_ad running_agent =
    Some (OAgentDeployment running_agent)) by (apply agent_world_stored; [discriminate|reflexivity]).
  destruct (reported_status_correct demo_reconciler running_agent quotaStateUncapped d running_agent
    (agent_world running_agent) res _ Ho Hs E) as (x & Hx & Hcr & _).
  eexists _, x. split; [exact Hx|]. exact (eq_trans Hcr Hz).
Defined.

(** *** The operator at work

    The Deployment controller of the cluster brings every Deployment up between
    two visits of the reconciler, and time passes as the reconciler asked. *)
Definition bring_up (o : Object) : Object :=
  match o with
  | ODeployment d =>
      let n := default 1 (dep_Replicas d) in
      ODeployment (dep_set_status {| ds_ObservedGeneration := om_Generation (dep_Meta d);
        ds_UpdatedReplicas := n; ds_AvailableReplicas := n; ds_ReadyReplicas := n |} d)
  | _ => o
  end.

Definition deployment_controller (w : world) : world :=
  rw_set_objects (bring_up <$> rw_objects w) w.

Fixpoint operate (visits : nat) (req : NamespacedName) (w : world) : world :=
  match visits with
  | O => w
  | S n =>
      match Reconcile demo_reconciler req w with
      | (inr res, w') =>
          operate n req (deployment_controller (rw_set_clock (rw_clock w' + RequeueAfter res) w'))
      | (inl _, w') => w'
      end
  end.

(** The user edits [spec.image]. *)
Definition edit_image (image : string) (o : Object) : Object :=
  match o with
  | OAgentDeployment x =>
      OAgentDeployment (with_spec (Ref.spec image "team" 1 4 1000 (spec_Rollout (ad_Spec x))
        (spec_MCP (ad_Spec x))) x)
  | _ => o
  end.
Definition user_sets_image (image : string) (w : world) : world :=
  rw_set_objects (edit_image image <$> rw_objects w) w.

Definition new_agent : AgentDeployment := live_agent [] None "img:v0" true (agent_status "" "" "" false).

(** End to end, on an example: a new agent is deployed and running after two visits and
    registered; changing its image takes it through the whole rollout to the new
    version when the canary is healthy.  When the canary fails its thresholds
    the rollout is rolled back, but the visit after that deploys the failed
    image on the stable Deployment and leaves the phase Pending, and the one
    after that starts the same rollout again. *)
Example operator_end_to_end :
  let w0 := operate 2 (NN "ns" "agent") (put (OAgentDeployment new_agent) (set_metrics (Some PromRef.healthy)
    (with_objects [OTenantQuota {| tq_Meta := new_meta "team" "ns" ∅;
      tq_Spec := Ref.quota; tq_Status := zero_usage |}] empty_world))) in
  let w1 := user_sets_image "img:v1" w0 in
  let failing := {| PromRef.count := f64_of_Z 200; PromRef.errors := f64_of_decimal false 3 (-2);
                    PromRef.p99 := f64_of_Z 80 |} in
  let w2 := set_metrics (Some failing) w1 in
  summary new_agent w0 = (Some (PhaseRunning, "img:v0"), Some "img:v0", false) ∧
  bool_decide (is_Some (rg_entries (registry w0) !! "ns/agent")) = true ∧
  summary new_agent (operate 7 (NN "ns" "agent") w1) =
    (Some (PhaseRunning, "img:v1"), Some "img:v1", false) ∧
  summary new_agent (operate 4 (NN "ns" "agent") w2) =
    (Some (PhaseRolloutFailed, "img:v0"), Some "img:v0", false) ∧
  summary new_agent (operate 5 (NN "ns" "agent") w2) =
    (Some (PhasePending, "img:v0"), Some "img:v1", false) ∧
  summary new_agent (operate 6 (NN "ns" "agent") w2) =
    (Some (PhaseRolloutInProgress, "img:v0"), Some "img:v1", false).
Proof. vm_compute. repeat split; reflexivity. Qed.
End witnesses.
