(* ===== verification/Tracing.v ===== *)
(** The reconcile as it is observed: the OpenTelemetry spans and the duration
    histogram around the phases of [AgentDeploymentReconciler.Reconcile]
    ([src/internal/controller/agentdeployment_controller.go],
    [src/internal/observability]).

    The instrumented reconcile runs in a world with a log of telemetry events; the
    phases it calls run in the world itself.  The logger that is given the ids
    of the span is left out. *)
From S2P Require Import Prelude Types Objects Scaling GoFloat Json JsonProps GoTime Enforcer Cluster Http PromQL Metrics.
From S2P Require Import Registry McpClient Registrar RefWorld Canary CanaryProps AgentReconciler AgentReconcilerProps.

(** Spans are named; a span is started in the context of another one. *)
Inductive TelemetryEvent :=
  | SpanStart (parent : option string) (name : string) (attributes : list (string * string))
  | RecordError (span : string) (err : error)
  | SetStatusError (span : string) (description : string)
  | SpanEnd (span : string)
  (** [ReconcileDuration.WithLabelValues(controller, tenant).Observe(seconds)] *)
  | ObserveDuration (controller tenant : string) (seconds : float64).

Section traced.
Context {CT : CoreTypes} {CA : ConditionsAPI} {U : Type} {KC : KubeClient U} {PR : Prometheus U}
  {AG : AgentRegistrar U}.
Notation traced := (U * list TelemetryEvent)%type.
Implicit Types (r : AgentDeploymentReconciler) (ad : AgentDeployment).

Definition emit (e : TelemetryEvent) : Proc traced unit := λ w, (inr tt, (w.1, w.2 ++ [e])).

(** A call that emits nothing itself. *)
Definition run {A} (m : Proc U A) : Proc traced A := λ w, let '(x, u) := m w.1 in (x, (u, w.2)).

Definition start_child (span : string) : Proc traced unit := emit (SpanStart (Some "reconcile") span []).

(** [span.RecordError(err); span.SetStatus(codes.Error, ...); span.End()], and
    the wrapped error is returned. *)
Definition span_failed {A} (span ctx : string) (err : error) : Proc traced A :=
  emit (RecordError span err);;
  emit (SetStatusError span (span +:+ " failed"));;
  emit (SpanEnd span);;
  fail (Errorf ctx err).

(** A call within a span. *)
Definition in_span {A} (span ctx : string) (m : Proc U A) : Proc traced A :=
  x ← try (run m);
  match x with
  | inl err => span_failed span ctx err
  | inr a => mret a
  end.

(** Steps 4 to 8. *)
Definition reconcile_children_traced r ad : Proc traced Result :=
  start_child "reconcile_children";;
  in_span "reconcile_children" "reconciling deployment" (reconcileDeployment ad);;
  in_span "reconcile_children" "reconciling service" (reconcileService ad);;
  in_span "reconcile_children" "reconciling servicemonitor" (reconcileServiceMonitor r ad);;
  '(hpaResult, qs) ← in_span "reconcile_children" "reconciling hpa" (reconcileHPA ad);
  emit (SpanEnd "reconcile_children");;
  start_child "update_status";;
  statusResult ← in_span "update_status" "updating status" (updateStatus r ad qs);
  emit (SpanEnd "update_status");;
  mret (shorter_requeue hpaResult statusResult).

(** Step 3: the rollout has no span of its own. *)
Definition reconcile_live_traced r ad : Proc traced Result :=
  match rc_CanaryController r with
  | Some c =>
      if isAbortRequested ad then
        run (Rollback ad "ManualAbort" "spec.rollout.abort was set to true" <?> "aborting canary");;
        mret no_requeue
      else if st_Phase (ad_Status ad) =s? PhaseRolloutInProgress then
        run (Step c ad <?> "stepping canary")
      else if isCanaryTriggered ad then
        run (startCanary ad <?> "starting canary");; mret (requeue_after (5 * Second))
      else reconcile_children_traced r ad
  | None => reconcile_children_traced r ad
  end.

(** Step 2, once the object was fetched. *)
Definition reconcile_fetched_traced r (req : NamespacedName) ad : Proc traced Result :=
  match om_DeletionTimestamp (ad_Meta ad) with
  | None =>
      ad ← (if ContainsFinalizer (ad_Meta ad) AgentDeploymentFinalizer then mret ad else
              run (Update (set_finalizers_of (AddFinalizer AgentDeploymentFinalizer) ad)
                <?> "adding finalizer");;
              run (Get (A := AgentDeployment) req <?> "re-fetching after finalizer add"));
      reconcile_live_traced r ad
  | Some _ =>
      (if ContainsFinalizer (ad_Meta ad) AgentDeploymentFinalizer then
         run (runDeletionCleanup r ad <?> "running deletion cleanup");;
         run (Update (set_finalizers_of (RemoveFinalizer AgentDeploymentFinalizer) ad)
           <?> "removing finalizer");; mret tt
       else mret tt);;
      mret no_requeue
  end.

(** Step 1. *)
Definition reconcile_phases r (req : NamespacedName) : Proc traced Result :=
  start_child "fetch_crd";;
  got ← try (run (Get (A := AgentDeployment) req));
  match got with
  | inl err =>
      if IsNotFound err then emit (SpanEnd "fetch_crd");; mret no_requeue
      else span_failed "fetch_crd" "fetching AgentDeployment" err
  | inr ad => emit (SpanEnd "fetch_crd");; reconcile_fetched_traced r req ad
  end.

(** The root span and the two deferred calls, the later one first, which run on
    every way out. *)
Definition Reconcile_traced r (req : NamespacedName) : Proc traced Result :=
  emit (SpanStart None "reconcile" [("tenant", nn_Namespace req); ("name", nn_Name req)]);;
  start ← run Now;
  res ← try (reconcile_phases r req);
  now ← run Now;
  emit (ObserveDuration "agentdeployment" (nn_Namespace req) (Duration_Seconds (time_Sub now start)));;
  emit (SpanEnd "reconcile");;
  match res with inl err => fail err | inr result => mret result end.
End traced.

(** ** What is logged *)

(** A phase and the error it ended with. *)
Definition phase_log (p : string * option error) : list TelemetryEvent :=
  let '(span, err) := p in
  SpanStart (Some "reconcile") span [] ::
  match err with
  | None => []
  | Some e => [RecordError span e; SetStatusError span (span +:+ " failed")]
  end ++ [SpanEnd span].

Section theorems.
Context {CT : CoreTypes} {CA : ConditionsAPI} {U : Type} {KC : KubeClient U} {PR : Prometheus U}
  {AG : AgentRegistrar U}.
Implicit Types (r : AgentDeploymentReconciler) (ad : AgentDeployment) (u : U) (t : list TelemetryEvent)
  (l : list (string * option error)).

(** *** The phases of a reconcile, from the calls themselves *)

Definition failure {A} (x : error + A) : option error :=
  match x with inl err => Some err | inr _ => None end.

(** The four children in order, the first error as it is. *)
Definition children r ad : Proc U (Result * quotaState) :=
  reconcileDeployment ad;; reconcileService ad;; reconcileServiceMonitor r ad;; reconcileHPA ad.

(** The children, and the status once none of them failed. *)
Definition children_phases r ad u : list (string * option error) :=
  match children r ad u with
  | (inl err, _) => [("reconcile_children", Some err)]
  | (inr (_, qs), u1) =>
      [("reconcile_children", None); ("update_status", failure (updateStatus r ad qs u1).1)]
  end.

(** The visit is one of a rollout: an abort, a step or a start. *)
Definition rollout_visit r ad : bool :=
  match rc_CanaryController r with
  | Some _ => isAbortRequested ad || (st_Phase (ad_Status ad) =s? PhaseRolloutInProgress) || isCanaryTriggered ad
  | None => false
  end.

(** The agent with its finalizer, read again when it had to be added. *)
Definition finalized (req : NamespacedName) ad : Proc U AgentDeployment :=
  if ContainsFinalizer (ad_Meta ad) AgentDeploymentFinalizer then mret ad
  else Update (set_finalizers_of (AddFinalizer AgentDeploymentFinalizer) ad) <?> "adding finalizer";;
       Get (A := AgentDeployment) req <?> "re-fetching after finalizer add".

Definition live_phases r ad u : list (string * option error) :=
  if rollout_visit r ad then [] else children_phases r ad u.

(** A terminating agent and one that could not be given its finalizer have no
    phase after the fetch. *)
Definition fetched_phases r req ad u : list (string * option error) :=
  match om_DeletionTimestamp (ad_Meta ad), finalized req ad u with
  | None, (inr ad', u1) => live_phases r ad' u1
  | _, _ => []
  end.

Definition phases_of r req u : list (string * option error) :=
  match Get (A := AgentDeployment) req u with
  | (inl err, _) => [("fetch_crd", if IsNotFound err then None else Some err)]
  | (inr ad, u1) => ("fetch_crd", None) :: fetched_phases r req ad u1
  end.

(** The contexts the error of a phase is returned with. *)
Definition phase_contexts : list (string * string) :=
  [("fetch_crd", "fetching AgentDeployment"); ("reconcile_children", "reconciling deployment");
   ("reconcile_children", "reconciling service"); ("reconcile_children", "reconciling servicemonitor");
   ("reconcile_children", "reconciling hpa"); ("update_status", "updating status")].

(** The error of a failed phase is the one returned, wrapped. *)
Definition returns_failures {A} (x : error + A) l : Prop :=
  ∀ span err, (span, Some err) ∈ l → ∃ ctx, (span, ctx) ∈ phase_contexts ∧ x = inl (Errorf ctx err).

(** [m] does what [m'] does and logs the phases [f], whose failure it returns. *)
Definition logs {A} (m : Proc (U * list TelemetryEvent) A) (m' : Proc U A)
    (f : U → list (string * option error)) : Prop :=
  ∀ u t, m (u, t) = ((m' u).1, ((m' u).2, t ++ concat (phase_log <$> f u))) ∧ returns_failures (m' u).1 (f u).

Lemma returns_no_failure {A} (x : error + A) l : Forall (λ p, p.2 = None) l → returns_failures x l.
Proof. intros Hl span err Hin. apply list_elem_of_lookup_1 in Hin as [i Hi]. by apply (Forall_lookup_1 _ _ _ _ Hl) in Hi. Qed.

Lemma returns_last_failure {A} (x : error + A) l span ctx err :
  Forall (λ p, p.2 = None) l → x = inl (Errorf ctx err) → (span, ctx) ∈ phase_contexts →
  returns_failures x (l ++ [(span, Some err)]).
Proof.
  intros Hl Hx Hctx span' err' Hin. apply elem_of_app in Hin as [Hin|Hin].
  - by apply (returns_no_failure x l Hl).
  - apply list_elem_of_singleton in Hin. simplify_eq. by exists ctx.
Qed.

(** A call outside of the phases. *)
Lemma logs_run {A} (m : Proc U A) : logs (run m) m (λ _, []).
Proof.
  intros u t. split; [|by apply returns_no_failure]. unfold run. simpl. destruct (m u). by rewrite app_nil_r.
Qed.

Lemma logs_ret {A} (a : A) : logs (mret a) (mret a) (λ _, []).
Proof. intros u t. split; [|by apply returns_no_failure]. simpl. by rewrite app_nil_r. Qed.

Lemma logs_bind {A B} (m : Proc (U * list TelemetryEvent) A) m' (k : A → Proc (U * list TelemetryEvent) B) k' f :
  logs m m' (λ _, []) → (∀ a, logs (k a) (k' a) (f a)) →
  logs (m ≫= k) (m' ≫= k') (λ u, match m' u with (inr a, u1) => f a u1 | _ => [] end).
Proof.
  intros Hm Hk u t. unfold mbind, Proc_bind. destruct (Hm u t) as [-> _].
  destruct (m' u) as [[e|a] u1]; simpl; rewrite app_nil_r.
  - split; [done|by apply returns_no_failure].
  - apply Hk.
Qed.

Lemma logs_ext {A} (m : Proc (U * list TelemetryEvent) A) m' f f' :
  (∀ u, f u = f' u) → logs m m' f → logs m m' f'.
Proof. intros E Hm u t. rewrite <- E. apply Hm. Qed.

(** A sequence of calls outside of the phases. *)
Lemma logs_seq {A B} (m : Proc (U * list TelemetryEvent) A) m' (k : A → Proc (U * list TelemetryEvent) B) k' :
  logs m m' (λ _, []) → (∀ a, logs (k a) (k' a) (λ _, [])) → logs (m ≫= k) (m' ≫= k') (λ _, []).
Proof.
  intros Hm Hk. eapply logs_ext; [|exact (logs_bind m m' k k' (λ _ _, []) Hm Hk)]. intros u; simpl. by destruct (m' u) as [[] ?].
Qed.

Ltac child_failed span :=
  split; [by rewrite <- !app_assoc|];
  eapply (returns_last_failure _ [] span); [done|reflexivity|unfold phase_contexts; set_solver].

Lemma logs_children r ad :
  logs (reconcile_children_traced r ad) (reconcile_children r ad) (children_phases r ad).
Proof.
  intros u t. unfold children_phases, children, reconcile_children_traced, reconcile_children, in_span, start_child,
    span_failed, try, run, emit, wrap_err, fail, mbind, Proc_bind, mret, Proc_ret. simpl.
  destruct (reconcileDeployment ad u) as [[e|[]] u1]; simpl; [child_failed "reconcile_children"|].
  destruct (reconcileService ad u1) as [[e|[]] u2]; simpl; [child_failed "reconcile_children"|].
  destruct (reconcileServiceMonitor r ad u2) as [[e|[]] u3]; simpl; [child_failed "reconcile_children"|].
  destruct (reconcileHPA ad u3) as [[e|[hpaResult qs]] u4]; simpl; [child_failed "reconcile_children"|].
  destruct (updateStatus r ad qs u4) as [[e|res] u5]; simpl; (split; [by rewrite <- !app_assoc|]).
  - eapply (returns_last_failure _ [("reconcile_children", None)]);
      [by repeat constructor|reflexivity|unfold phase_contexts; set_solver].
  - apply returns_no_failure. by repeat constructor.
Qed.

Lemma logs_live r ad : logs (reconcile_live_traced r ad) (reconcile_live r ad) (live_phases r ad).
Proof.
  unfold reconcile_live_traced, reconcile_live, live_phases, rollout_visit.
  destruct (rc_CanaryController r) as [c|]; [|apply logs_children].
  destruct (isAbortRequested ad); simpl; [apply logs_seq; [apply logs_run|intros; apply logs_ret]|].
  destruct (_ =s? _); simpl; [apply logs_run|].
  destruct (isCanaryTriggered ad); [|apply logs_children].
  apply logs_seq; [apply logs_run|intros; apply logs_ret].
Qed.

(** [Reconcile] after the object was fetched. *)
Definition reconcile_fetched r (req : NamespacedName) ad : Proc U Result :=
  match om_DeletionTimestamp (ad_Meta ad) with
  | None =>
      ad ← (if ContainsFinalizer (ad_Meta ad) AgentDeploymentFinalizer then mret ad else
              Update (set_finalizers_of (AddFinalizer AgentDeploymentFinalizer) ad) <?> "adding finalizer";;
              Get (A := AgentDeployment) req <?> "re-fetching after finalizer add");
      reconcile_live r ad
  | Some _ =>
      (if ContainsFinalizer (ad_Meta ad) AgentDeploymentFinalizer then
         runDeletionCleanup r ad <?> "running deletion cleanup";;
         Update (set_finalizers_of (RemoveFinalizer AgentDeploymentFinalizer) ad) <?> "removing finalizer";;
         mret tt
       else mret tt);;
      mret no_requeue
  end.

Lemma Reconcile_by_fetch r req u :
  Reconcile r req u =
    match Get (A := AgentDeployment) req u with
    | (inl err, u1) => (if IsNotFound err then inr no_requeue else inl (Errorf "fetching AgentDeployment" err), u1)
    | (inr ad, u1) => reconcile_fetched r req ad u1
    end.
Proof.
  unfold Reconcile. destruct (Get (A := AgentDeployment) req u) as [[err|ad] u1] eqn:E.
  - assert (Eg : get_opt (A := AgentDeployment) req "fetching AgentDeployment" u =
      (if IsNotFound err then inr None else inl (Errorf "fetching AgentDeployment" err), u1)).
    { unfold get_opt, try, mbind, Proc_bind. rewrite E. by destruct (IsNotFound err). }
    destruct (IsNotFound err); [by rewrite (bind_step _ _ _ _ _ Eg)|by rewrite (bind_fail _ _ _ _ _ Eg)].
  - assert (Eg : get_opt (A := AgentDeployment) req "fetching AgentDeployment" u = (inr (Some ad), u1)).
    { unfold get_opt, try, mbind, Proc_bind. by rewrite E. }
    by rewrite (bind_step _ _ _ _ _ Eg).
Qed.

Lemma logs_fetched r req ad :
  logs (reconcile_fetched_traced r req ad) (reconcile_fetched r req ad) (fetched_phases r req ad).
Proof.
  unfold reconcile_fetched_traced, reconcile_fetched, fetched_phases.
  destruct (om_DeletionTimestamp (ad_Meta ad)).
  - apply logs_seq; [|intros; apply logs_ret]. destruct (ContainsFinalizer _ _); [|apply logs_ret].
    apply logs_seq; [apply logs_run|]. intros _. apply logs_seq; [apply logs_run|intros; apply logs_ret].
  - eapply logs_ext; [|apply (logs_bind _ (finalized req ad)); [|intros; apply logs_live]].
    + intros u; simpl. by destruct (finalized req ad u) as [[] ?].
    + unfold finalized. destruct (ContainsFinalizer _ _); [apply logs_ret|].
      apply logs_seq; [apply logs_run|intros; apply logs_run].
Qed.

Lemma logs_phases r req : logs (reconcile_phases r req) (Reconcile r req) (phases_of r req).
Proof.
  intros u t. rewrite Reconcile_by_fetch. unfold phases_of, reconcile_phases, start_child, span_failed, emit, try, run,
    fail, mbind, Proc_bind, mret, Proc_ret. simpl. destruct (Get req u) as [[err|ad] u1]; simpl.
  - destruct (IsNotFound err); simpl; (split; [by rewrite <- !app_assoc|]).
    + apply returns_no_failure. by repeat constructor.
    + eapply (returns_last_failure _ []); [done|reflexivity|unfold phase_contexts; set_solver].
  - destruct (logs_fetched r req ad u1 (t ++ phase_log ("fetch_crd", None))) as [El Hl].
    split; [simpl in El; rewrite <- !app_assoc in *; exact El|].
    intros span err Hin. apply elem_of_cons in Hin as [[=]|Hin]. by apply Hl.
Qed.

(** C39: telemetry is complete and does not interfere.  The instrumented
    reconcile returns and changes exactly what the reconcile does.  Whatever way
    it takes, it logs one root span for the request, then exactly the phases it
    entered, each started and ended once within the root span, and at the end one
    observation of the duration under the namespace of the agent.  The phases
    are those of the calls themselves ([phases_of]): the fetch always, which
    failed unless the agent was read or is not there; the children if and only if
    the agent is live, has its finalizer and is not on a visit of a rollout, with
    the error of the first child that failed; and the status if and only if no
    child failed.  The error of a failed phase is recorded on its span and is the
    one returned, wrapped in a context of that phase. *)
Theorem telemetry_complete r req u t :
  let '(res, u') := Reconcile r req u in
  Reconcile_traced r req (u, t) = (res, (u', t ++
    [SpanStart None "reconcile" [("tenant", nn_Namespace req); ("name", nn_Name req)]] ++
    concat (phase_log <$> phases_of r req u) ++
    [ObserveDuration "agentdeployment" (nn_Namespace req) (Duration_Seconds (time_Sub (clock u') (clock u)));
     SpanEnd "reconcile"])) ∧
  returns_failures res (phases_of r req u).
Proof.
  destruct (Reconcile r req u) as [res u'] eqn:E.
  destruct (logs_phases r req u (t ++ [SpanStart None "reconcile" [("tenant", nn_Namespace req); ("name", nn_Name req)]]))
    as [El Hl].
  rewrite E in El, Hl. split; [|exact Hl]. unfold Reconcile_traced, mbind, Proc_bind, try, run, emit, Now.
  cbn [fst snd]. rewrite El. cbn [fst snd]. rewrite <- !app_assoc. by destruct res.
Qed.
End theorems.
