(* ===== verification/Setup.v ===== *)
(** The process, [src/cmd/main.go] and the tracing set up by
    [src/internal/observability/tracing.go]: the flags and environment variables
    it reads, the components it builds from them, the options of the manager and
    its servers, and the order in which [main] registers everything, starts, or
    exits.

    The calls into controller-runtime and OpenTelemetry are the events of a run;
    whether a call fails is an argument.  Logging is left out. *)
From S2P Require Import Prelude Types Objects Scaling GoFloat Json JsonProps GoTime Enforcer Cluster Http PromQL Metrics.
From S2P Require Import Registry McpClient Registrar Canary AgentReconciler.

(** ** Settings *)

(** The command-line flags. *)
Record Flags := {
  fl_metricsAddr : string;
  fl_probeAddr : string;
  fl_enableLeaderElection : bool;
  fl_secureMetrics : bool;
  fl_enableHTTP2 : bool;
  fl_gpuResourceName : string;
  fl_prometheusURL : string;
  fl_gatewayName : string;
  fl_gatewayNamespace : string;
  fl_registryAddr : string;
  fl_otlpEndpoint : string;
  fl_otlpInsecure : bool;
  fl_logLevel : string;
}.

(** Without arguments. *)
Definition default_flags : Flags := {|
  fl_metricsAddr := "0"; fl_probeAddr := ":8081"; fl_enableLeaderElection := false;
  fl_secureMetrics := true; fl_enableHTTP2 := false; fl_gpuResourceName := DefaultGPUResourceName;
  fl_prometheusURL := ""; fl_gatewayName := "agentrax-gateway";
  fl_gatewayNamespace := "agentrax-system"; fl_registryAddr := ":9090"; fl_otlpEndpoint := "";
  fl_otlpInsecure := false; fl_logLevel := "info" |}.

(** [os.Getenv] of the variables the program reads, empty when unset, and
    whether the webhook certificate exists. *)
Record Environment := {
  env_ENABLE_WEBHOOKS : string;
  env_POD_NAMESPACE : string;
  env_AGENTRAX_REGISTRY_TTL : string;
  env_AGENTRAX_MCP_HEALTH_INTERVAL : string;
  env_webhook_cert : bool;
}.

Definition enableWebhooks (env : Environment) : bool :=
  let enable := env_ENABLE_WEBHOOKS env =s? "true" in
  let enable := if env_webhook_cert env then true else enable in
  if env_ENABLE_WEBHOOKS env =s? "false" then false else enable.

Definition registryNamespace (env : Environment) : string :=
  if env_POD_NAMESPACE env =s? "" then "agentrax-system" else env_POD_NAMESPACE env.

(** A duration variable: unset, unparseable and sub-second values give the default. *)
Definition duration_setting (v : string) (dflt : Z) : Z :=
  if v =s? "" then dflt else
  match ParseDuration v with
  | inl _ => dflt
  | inr parsed => if parsed <? Second then dflt else parsed
  end.

Definition registryTTL (env : Environment) : Z :=
  duration_setting (env_AGENTRAX_REGISTRY_TTL env) DefaultTTL.

(** The heartbeat interval, halved below the TTL when it does not fit. *)
Definition mcpHealthInterval (env : Environment) : Z :=
  let interval := duration_setting (env_AGENTRAX_MCP_HEALTH_INTERVAL env) (60 * Second) in
  if registryTTL env <=? interval then go_div (registryTTL env) 2 else interval.

(** ** Components

    [main] builds its components as objects in memory that point at each other;
    two components share a third when they hold the same address. *)

Definition loc : Type := nat.

Inductive Cell :=
  | CellEnforcer (e : Enforcer)
  | CellController (promClient : Client) (gatewayName gatewayNamespace : string) (failSafeTimeout : Z)
      (registrar : option loc)
  | CellRegistry (r : Registry)
  | CellRegistrar (registry : loc) (mcpClient : httpMCPClient)
  | CellReconciler (gpuResourceName : string) (canaryController registrar : option loc)
      (mcpHealthInterval : Z).

Record Memory := { mm_next : loc; mm_cells : gmap loc Cell }.
Definition empty_memory : Memory := {| mm_next := 0%nat; mm_cells := ∅ |}.

Definition alloc (c : Cell) (h : Memory) : loc * Memory :=
  (mm_next h, {| mm_next := S (mm_next h); mm_cells := <[mm_next h := c]> (mm_cells h) |}).

(** [canaryController.Registrar = registrar]. *)
Definition assign_registrar (canaryController registrar : loc) (h : Memory) : Memory :=
  {| mm_next := mm_next h;
     mm_cells := alter (λ c, match c with
         | CellController prom name ns timeout _ => CellController prom name ns timeout (Some registrar)
         | _ => c end) canaryController (mm_cells h) |}.

(** The variables of [main] that hold components. *)
Record Wiring := {
  wi_quotaEnforcer : loc;
  wi_canaryController : option loc;
  wi_mcpRegistry : loc;
  wi_mcpRegistrar : loc;
  wi_agentDeploymentReconciler : loc;
}.

Definition construct (fl : Flags) (env : Environment) (h : Memory) : Wiring * Memory :=
  let '(quotaEnforcer, h) := alloc (CellEnforcer (NewEnforcer (fl_gpuResourceName fl))) h in
  let '(canaryController, h) :=
    if fl_prometheusURL fl =s? "" then (None, h) else
    let '(c, h) := alloc (CellController (NewClient (fl_prometheusURL fl) []) (fl_gatewayName fl)
      (fl_gatewayNamespace fl) (60 * Second) None) h in (Some c, h) in
  let '(mcpRegistry, h) := alloc (CellRegistry (NewRegistry true (registryNamespace env) (registryTTL env))) h in
  let '(mcpRegistrar, h) := alloc (CellRegistrar mcpRegistry NewHTTPMCPClient) h in
  let '(agentDeploymentReconciler, h) := alloc (CellReconciler (fl_gpuResourceName fl) canaryController
    (Some mcpRegistrar) (mcpHealthInterval env)) h in
  let h := match canaryController with Some c => assign_registrar c mcpRegistrar h | None => h end in
  ({| wi_quotaEnforcer := quotaEnforcer; wi_canaryController := canaryController;
      wi_mcpRegistry := mcpRegistry; wi_mcpRegistrar := mcpRegistrar;
      wi_agentDeploymentReconciler := agentDeploymentReconciler |}, h).

(** The components as the other files model them, read out of the memory; the
    canary controller with its client. *)
Record System := {
  sys_enforcer : Enforcer;
  sys_canary : option (Controller * Client);
  sys_registry : Registry;
  sys_registrar : Registrar;
  sys_mcp : httpMCPClient;
  sys_reconciler : AgentDeploymentReconciler;
}.

Definition not_nil (p : option loc) : bool := match p with Some _ => true | None => false end.

Definition read_controller (h : Memory) (p : option loc) : option (Controller * Client) :=
  match p ≫= λ c, mm_cells h !! c with
  | Some (CellController prom name ns timeout registrar) =>
      Some ({| cc_has_registrar := not_nil registrar; cc_GatewayName := name; cc_GatewayNamespace := ns;
               cc_FailSafeTimeout := timeout |}, prom)
  | _ => None
  end.

Definition read_reconciler (h : Memory) (p : loc) : AgentDeploymentReconciler :=
  match mm_cells h !! p with
  | Some (CellReconciler gpu canary registrar interval) =>
      {| rc_GPUResourceName := gpu; rc_CanaryController := fst <$> read_controller h canary;
         rc_has_registrar := not_nil registrar; rc_MCPHealthInterval := interval;
         rc_hasServiceMonitorCRD := false |}
  | _ => {| rc_GPUResourceName := ""; rc_CanaryController := None; rc_has_registrar := false;
            rc_MCPHealthInterval := 0; rc_hasServiceMonitorCRD := false |}
  end.

Definition build_system (fl : Flags) (env : Environment) : System :=
  let '(wi, h) := construct fl env empty_memory in
  {| sys_enforcer := match mm_cells h !! wi_quotaEnforcer wi with Some (CellEnforcer e) => e | _ => NewEnforcer "" end;
     sys_canary := read_controller h (wi_canaryController wi);
     sys_registry := match mm_cells h !! wi_mcpRegistry wi with
       | Some (CellRegistry r) => r | _ => NewRegistry false "" 0 end;
     sys_registrar := match mm_cells h !! wi_mcpRegistrar wi with
       | Some (CellRegistrar _ _) => NewRegistrar true | _ => NewRegistrar false end;
     sys_mcp := match mm_cells h !! wi_mcpRegistrar wi with
       | Some (CellRegistrar _ mcp) => mcp | _ => NewHTTPMCPClient end;
     sys_reconciler := read_reconciler h (wi_agentDeploymentReconciler wi) |}.

(** ** Servers *)

(** [tlsOpts]: the protocols a server offers, [None] for the defaults of
    [crypto/tls], which include HTTP/2. *)
Definition NextProtos (fl : Flags) : option (list string) :=
  if fl_enableHTTP2 fl then None else Some ["http/1.1"].

(** [metricsserver.Options]; the filter authenticates and authorizes. *)
Record MetricsOptions := {
  mo_BindAddress : string;
  mo_SecureServing : bool;
  mo_NextProtos : option (list string);
  mo_FilterProvider : bool;
}.

Definition metricsServerOptions (fl : Flags) : MetricsOptions := {|
  mo_BindAddress := fl_metricsAddr fl; mo_SecureServing := fl_secureMetrics fl;
  mo_NextProtos := NextProtos fl; mo_FilterProvider := fl_secureMetrics fl |}.

(** [ctrl.Options]: [op_WebhookServer] is the TLS setting of the webhook server
    when there is one, [op_CacheNamespaces] the namespaces whose ConfigMaps the
    client of the manager sees. *)
Record ManagerOptions := {
  op_Metrics : MetricsOptions;
  op_WebhookServer : option (option (list string));
  op_HealthProbeBindAddress : string;
  op_LeaderElection : bool;
  op_LeaderElectionID : string;
  op_CacheNamespaces : list string;
}.

Definition manager_options (fl : Flags) (env : Environment) : ManagerOptions := {|
  op_Metrics := metricsServerOptions fl;
  op_WebhookServer := if enableWebhooks env then Some (NextProtos fl) else None;
  op_HealthProbeBindAddress := fl_probeAddr fl;
  op_LeaderElection := fl_enableLeaderElection fl;
  op_LeaderElectionID := "ddf1aac5.agentrax.io";
  op_CacheNamespaces := [registryNamespace env] |}.

(** The registry server: it serves on every replica. *)
Record registryServerRunnable := { rs_registryAddr : string; rs_mcpRegistry : loc }.
Definition NeedLeaderElection (r : registryServerRunnable) : bool := false.

(** ** Tracing *)

(** What [InitTracerProvider] does with OpenTelemetry. *)
Inductive TracerCall :=
  | NewExporter (endpoint : string) (insecure : bool)
  | MergeResource (serviceName : string)
  | SetTracerProvider
  | SetTextMapPropagator
  | SetTracer (name : string).

Definition TracerName : string := "agentrax.io/controller".

(** The calls made and, without error, whether the returned shutdown function
    flushes an exporter. *)
Definition InitTracerProvider (fails : TracerCall → option error) (endpoint : string) (insecure : bool) :
    list TracerCall * (error + bool) :=
  if endpoint =s? "" then ([], inr false) else
  let exporter := NewExporter endpoint insecure in
  match fails exporter with
  | Some e => ([exporter], inl (Errorf "creating OTLP gRPC exporter" e))
  | None =>
      let resource := MergeResource "agentrax-operator" in
      match fails resource with
      | Some e => ([exporter; resource], inl (Errorf "creating OTel resource" e))
      | None =>
          ([exporter; resource; SetTracerProvider; SetTextMapPropagator; SetTracer TracerName], inr true)
      end
  end.

(** ** main *)

Inductive Call :=
  | CallInitTracer (endpoint : string) (insecure : bool)
  | CallNewManager (opts : ManagerOptions)
  | CallAdd (r : registryServerRunnable)
  | CallSetupAgentDeployment (r : loc)
  | CallSetupTenantQuota (e : loc)
  | CallSetupWebhook (e : loc)
  | CallAddHealthzCheck
  | CallAddReadyzCheck
  | CallStart.

(** A call that fails is logged and ends the process with status 1. *)
Fixpoint run_calls (fails : Call → bool) (calls : list Call) : list Call * Z :=
  match calls with
  | [] => ([], 0)
  | c :: rest =>
      if fails c then ([c], 1) else
      let '(made, status) := run_calls fails rest in (c :: made, status)
  end.

Definition main_calls (fl : Flags) (env : Environment) : list Call :=
  let '(wi, _) := construct fl env empty_memory in
  [CallInitTracer (fl_otlpEndpoint fl) (fl_otlpInsecure fl);
   CallNewManager (manager_options fl env)] ++
  (if negb (fl_registryAddr fl =s? "") && negb (fl_registryAddr fl =s? "0") then
     [CallAdd {| rs_registryAddr := fl_registryAddr fl; rs_mcpRegistry := wi_mcpRegistry wi |}]
   else []) ++
  [CallSetupAgentDeployment (wi_agentDeploymentReconciler wi); CallSetupTenantQuota (wi_quotaEnforcer wi)] ++
  (if enableWebhooks env then [CallSetupWebhook (wi_quotaEnforcer wi)] else []) ++
  [CallAddHealthzCheck; CallAddReadyzCheck; CallStart].

(** The outcome of a process: the calls it made, its exit status, and whether
    the deferred shutdown of the tracer provider ran, which [os.Exit] skips. *)
Record Outcome := { oc_made : list Call; oc_status : Z; oc_shutdown : bool }.

Definition main (fails : Call → bool) (fl : Flags) (env : Environment) : Outcome :=
  let '(made, status) := run_calls fails (main_calls fl env) in
  {| oc_made := made; oc_status := status; oc_shutdown := status =? 0 |}.

(** ** Durations *)

Lemma duration_setting_min v dflt : Second ≤ dflt → Second ≤ duration_setting v dflt.
Proof.
  intros Hd. unfold duration_setting. repeat case_match; zbool; lia.
Qed.

Lemma mcpHealthInterval_bounds env :
  Second ≤ registryTTL env ∧ 0 < mcpHealthInterval env < registryTTL env.
Proof.
  assert (Httl : Second ≤ registryTTL env) by (apply duration_setting_min; unfold DefaultTTL, Second; lia).
  assert (Hi : Second ≤ duration_setting (env_AGENTRAX_MCP_HEALTH_INTERVAL env) (60 * Second))
    by (apply duration_setting_min; unfold Second; lia).
  split; [done|]. unfold mcpHealthInterval, go_div. unfold Second in *.
  destruct (registryTTL env <=? _) eqn:E; zbool; [|lia].
  Z.to_euclidean_division_equations; lia.
Qed.

Lemma system_ttl fl env :
  rg_defaultTTL (sys_registry (build_system fl env)) = registryTTL env.
Proof.
  destruct (mcpHealthInterval_bounds env) as [Httl _].
  assert (E : sys_registry (build_system fl env) = NewRegistry true (registryNamespace env) (registryTTL env))
    by (unfold build_system, construct; by destruct (_ =s? "")). rewrite E. simpl.
  replace (registryTTL env <=? 0) with false by (unfold Second in *; lia). done.
Qed.

Lemma system_interval fl env :
  requeueInterval (sys_reconciler (build_system fl env)) = mcpHealthInterval env.
Proof.
  destruct (mcpHealthInterval_bounds env) as [_ Hi]. unfold requeueInterval.
  assert (rc_MCPHealthInterval (sys_reconciler (build_system fl env)) = mcpHealthInterval env) as ->
    by (unfold build_system, construct; by destruct (_ =s? "")).
  replace (mcpHealthInterval env <=? 0) with false by lia. done.
Qed.

(** C36: whatever the environment says, the system is configured so that a
    registered agent is probed again before its entry expires: the registry's
    TTL is at least a second, the heartbeat interval of the reconciler is
    positive and strictly shorter, and an entry written by the registrar is
    still visible when the next heartbeat is due. *)
Theorem heartbeat_before_expiry fl env :
  let sys := build_system fl env in
  let interval := requeueInterval (sys_reconciler sys) in
  let ttl := rg_defaultTTL (sys_registry sys) in
  Second ≤ ttl ∧ 0 < interval < ttl ∧
  ∀ r e now, rg_defaultTTL r = ttl → en_TTL e = 0 →
    registry_Get (en_Namespace e) (en_Name e) (now + interval) (register_entry e now r) ≠ None.
Proof.
  destruct (mcpHealthInterval_bounds env) as [Httl Hi]. cbv zeta.
  rewrite system_ttl, system_interval. split; [done|]. split; [done|]. intros r e now Hr He.
  unfold registry_Get, register_entry; simpl. rewrite lookup_insert_eq, He, Hr; simpl.
  replace (stale _ _ _) with false; [done|]. symmetry.
  unfold stale, effective_ttl; simpl.
  replace (registryTTL env <=? 0) with false by (symmetry; apply Z.leb_gt; unfold Second in *; lia).
  apply Z.ltb_ge. unfold time_Sub. ints.
Qed.

Lemma duration_setting_whole n u unit dflt :
  0 ≤ n → Second ≤ n * unit ≤ MaxInt64 → (u, unit) ∈ whole_units →
  duration_setting (fmt_d n +:+ u) dflt = n * unit.
Proof.
  intros Hn Hr Hu. unfold duration_setting. rewrite (ParseDuration_whole n u unit) by (done || lia).
  destruct (digits_shape n Hn) as (c & t & -> & _). rewrite app_cons_string.
  change (String c (t +:+ u) =s? "") with false. by replace (n * unit <? Second) with false by lia.
Qed.

(** Configured durations are used: a TTL and a shorter heartbeat interval
    written as whole numbers of a unit, of at least a second and within [int64],
    are what the registry and the reconciler run with, exactly. *)
Theorem configured_durations_used fl env n u unit n' u' unit' :
  env_AGENTRAX_REGISTRY_TTL env = fmt_d n +:+ u → (u, unit) ∈ whole_units →
  env_AGENTRAX_MCP_HEALTH_INTERVAL env = fmt_d n' +:+ u' → (u', unit') ∈ whole_units →
  0 ≤ n → 0 ≤ n' → Second ≤ n' * unit' < n * unit → n * unit ≤ MaxInt64 →
  let sys := build_system fl env in
  rg_defaultTTL (sys_registry sys) = n * unit ∧
  requeueInterval (sys_reconciler sys) = n' * unit'.
Proof.
  intros Ettl Hu Eint Hu' Hn Hn' Hr Hmax. cbv zeta. rewrite system_ttl, system_interval.
  assert (Ht : registryTTL env = n * unit)
    by (unfold registryTTL; rewrite Ettl; by apply duration_setting_whole; [|lia|]).
  split; [done|]. unfold mcpHealthInterval. rewrite Ht, Eint, (duration_setting_whole n' u' unit') by (done || lia).
  by replace (n * unit <=? n' * unit') with false by lia.
Qed.

Lemma configured_durations_used_witness :
  let env := {| env_ENABLE_WEBHOOKS := ""; env_POD_NAMESPACE := ""; env_AGENTRAX_REGISTRY_TTL := "5m";
    env_AGENTRAX_MCP_HEALTH_INTERVAL := "45s"; env_webhook_cert := false |} in
  rg_defaultTTL (sys_registry (build_system default_flags env)) = 300000000000 ∧
  requeueInterval (sys_reconciler (build_system default_flags env)) = 45000000000.
Proof.
  apply (configured_durations_used default_flags
    {| env_ENABLE_WEBHOOKS := ""; env_POD_NAMESPACE := ""; env_AGENTRAX_REGISTRY_TTL := "5m";
       env_AGENTRAX_MCP_HEALTH_INTERVAL := "45s"; env_webhook_cert := false |}
    5 "m" Minute 45 "s" Second);
    [reflexivity|apply (bool_decide_unpack _); vm_compute; exact I|reflexivity|
     apply (bool_decide_unpack _); vm_compute; exact I|lia|lia|vm_compute; split; [discriminate|reflexivity]|
     vm_compute; discriminate].
Defined.

(** ** Startup *)

Lemma run_calls_prefix fails calls :
  (run_calls fails calls).1 `prefix_of` calls.
Proof.
  induction calls as [|c calls IH]; [done|]. cbn [run_calls]. case_match.
  - apply prefix_cons, prefix_nil.
  - destruct (run_calls fails calls) as [made status]. by apply prefix_cons.
Qed.

Lemma run_calls_status fails calls :
  (run_calls fails calls).2 = 0 ↔ Forall (λ c, fails c = false) calls.
Proof.
  induction calls as [|c calls IH]; [done|]. cbn [run_calls]. rewrite list.Forall_cons. case_match.
  - split; [done|]. naive_solver congruence.
  - destruct (run_calls fails calls) as [made status]. simpl in *. naive_solver.
Qed.

(** A call is made after every earlier one succeeded. *)
Lemma run_calls_made fails pre c post :
  c ∉ pre → c ∈ (run_calls fails (pre ++ c :: post)).1 → Forall (λ c, fails c = false) pre.
Proof.
  induction pre as [|d pre IH]; [by constructor|]. rewrite not_elem_of_cons. intros [Hne Hni].
  cbn [app run_calls]. case_match; cbn [fst].
  - rewrite elem_of_cons, elem_of_nil. naive_solver.
  - destruct (run_calls fails (pre ++ c :: post)) as [made status]. simpl in *.
    rewrite elem_of_cons. intros [->|Hm]; [done|]. constructor; [done|]. by apply IH.
Qed.

Lemma main_calls_start fl env : ∃ pre, main_calls fl env = pre ++ [CallStart] ∧ CallStart ∉ pre.
Proof.
  unfold main_calls. destruct (construct fl env empty_memory) as [wi h].
  match goal with |- context [?a ++ ?b ++ ?c ++ ?d ++ [CallAddHealthzCheck; CallAddReadyzCheck; CallStart]] =>
    exists (a ++ b ++ c ++ d ++ [CallAddHealthzCheck; CallAddReadyzCheck]) end.
  split; [by rewrite <- !app_assoc|]. rewrite !not_elem_of_app.
  split_and!; [|case_match| |case_match|]; set_solver.
Qed.

(** What the arguments of a call are. *)
Definition call_ok (fl : Flags) (env : Environment) (c : Call) : Prop :=
  let wi := (construct fl env empty_memory).1 in
  match c with
  | CallNewManager opts => opts = manager_options fl env
  | CallAdd r => rs_mcpRegistry r = wi_mcpRegistry wi
  | CallSetupAgentDeployment r => r = wi_agentDeploymentReconciler wi
  | CallSetupTenantQuota e | CallSetupWebhook e => e = wi_quotaEnforcer wi
  | _ => True
  end.

Lemma main_calls_ok fl env : Forall (call_ok fl env) (main_calls fl env).
Proof.
  unfold main_calls, call_ok. destruct (construct fl env empty_memory) as [wi h].
  by rewrite !Forall_app; split_and!; [|case_match| |case_match|]; repeat constructor.
Qed.

Lemma made_ok fails fl env c : c ∈ oc_made (main fails fl env) → call_ok fl env c.
Proof.
  intros Hc. pose proof (main_calls_ok fl env) as Hok. rewrite list.Forall_forall in Hok. apply Hok.
  unfold main in Hc. pose proof (run_calls_prefix fails (main_calls fl env)) as [k Hk].
  destruct (run_calls _ _) as [made status]. simpl in *. rewrite Hk. set_solver.
Qed.

(** The objects [main] built. *)
Lemma constructed fl env :
  let '(wi, h) := construct fl env empty_memory in
  mm_cells h !! wi_quotaEnforcer wi = Some (CellEnforcer (NewEnforcer (fl_gpuResourceName fl))) ∧
  mm_cells h !! wi_mcpRegistry wi = Some (CellRegistry (NewRegistry true (registryNamespace env) (registryTTL env))) ∧
  mm_cells h !! wi_mcpRegistrar wi = Some (CellRegistrar (wi_mcpRegistry wi) NewHTTPMCPClient) ∧
  mm_cells h !! wi_agentDeploymentReconciler wi = Some (CellReconciler (fl_gpuResourceName fl)
    (wi_canaryController wi) (Some (wi_mcpRegistrar wi)) (mcpHealthInterval env)) ∧
  (∀ c, wi_canaryController wi = Some c → mm_cells h !! c = Some (CellController
    (NewClient (fl_prometheusURL fl) []) (fl_gatewayName fl) (fl_gatewayNamespace fl) (60 * Second)
    (Some (wi_mcpRegistrar wi)))) ∧
  (wi_canaryController wi = None ↔ fl_prometheusURL fl = "").
Proof.
  unfold construct. destruct (fl_prometheusURL fl =s? "") eqn:E; cbn.
  - apply str_eqb_true in E. split_and!; done.
  - apply str_eqb_false in E. split_and!; try done. by intros c [= <-].
Qed.


(** Metrics served over TLS are behind authorization, and without
    [--enable-http2] no server offers HTTP/2. *)
Lemma servers_hardened fl env :
  let opts := manager_options fl env in
  mo_FilterProvider (op_Metrics opts) = mo_SecureServing (op_Metrics opts) ∧
  (fl_enableHTTP2 fl = false → mo_NextProtos (op_Metrics opts) = Some ["http/1.1"] ∧
    ∀ p, op_WebhookServer opts = Some p → p = Some ["http/1.1"]).
Proof.
  cbv zeta. split; [done|]. intros H2. unfold manager_options; simpl. unfold NextProtos. rewrite H2.
  split; [done|]. intros p. case_match; congruence.
Qed.

(** Tracing is set up completely or not at all: the provider, the propagator and
    the tracer are installed exactly when an endpoint is configured and exporter
    and resource were created; without an endpoint no call is made. *)
Theorem tracing_all_or_nothing fails endpoint insecure :
  let '(calls, r) := InitTracerProvider fails endpoint insecure in
  (∀ c, c ∈ [SetTracerProvider; SetTextMapPropagator; SetTracer TracerName] → c ∈ calls ↔ r = inr true) ∧
  (endpoint = "" → calls = [] ∧ r = inr false) ∧
  (∀ e, r = inl e → ∃ c e0, c ∈ calls ∧ fails c = Some e0).
Proof.
  unfold InitTracerProvider. destruct (endpoint =s? "") eqn:E.
  { split_and!; [set_solver|done|done]. }
  apply str_eqb_false in E.
  destruct (fails (NewExporter _ _)) as [e|] eqn:E1; [|destruct (fails (MergeResource _)) as [e|] eqn:E2].
  - split_and!; [set_solver|done|]. intros _ _. exists (NewExporter endpoint insecure), e. set_solver.
  - split_and!; [set_solver|done|]. intros _ _. exists (MergeResource "agentrax-operator"), e. set_solver.
  - split_and!; [set_solver|done|done].
Qed.
