(* ===== verification/Logging.v ===== *)
(** Structured logging: the log level of [src/cmd/main.go] and the loggers of
    [src/internal/observability/logging.go], over [log/slog] of the Go standard
    library.

    A logger is the least level it writes and the attributes it adds to every
    record; the JSON encoding of a line is left to [log/slog]. *)
From S2P Require Import Prelude Types GoFloat Json.

(** ** The log level *)

Definition is_char (n : Z) (c : Ascii.ascii) : bool := code c =? n.

Definition LevelDebug : Z := -4.
Definition LevelInfo : Z := 0.
Definition LevelWarn : Z := 4.
Definition LevelError : Z := 8.

(** [strings.ToUpper], as far as the result may be ASCII: of the other runes
    only the dotless i (C4 B1) and the long s (C5 BF) have an ASCII upper case. *)
Fixpoint ToUpper (s : string) : string :=
  match s with
  | String c t =>
      match t with
      | String d t' =>
          if is_char 196 c && is_char 177 d then String (chr 73) (ToUpper t') else
          if is_char 197 c && is_char 191 d then String (chr 83) (ToUpper t') else
          String (if (97 <=? code c) && (code c <=? 122) then chr (code c - 32) else c) (ToUpper t)
      | EmptyString => String (if (97 <=? code c) && (code c <=? 122) then chr (code c - 32) else c) t
      end
  | EmptyString => s
  end.

(** [strconv.Atoi]: digits after an optional sign, within [int64]. *)
Definition Atoi (s : string) : option Z :=
  let '(neg, d) := match s with
    | String c t => if is_char 43 c then (false, t) else if is_char 45 c then (true, t) else (false, s)
    | EmptyString => (false, s)
    end in
  match span_digits d with
  | (d, EmptyString) =>
      if d =s? "" then None else
      let n := if neg : bool then - digits_val 0 d else digits_val 0 d in
      if (MinInt64 <=? n) && (n <=? MaxInt64) then Some n else None
  | _ => None
  end.

(** The text before the first sign, and the text from there on if there is one. *)
Fixpoint split_sign (s : string) : string * option string :=
  match s with
  | EmptyString => (s, None)
  | String c t =>
      if is_char 43 c || is_char 45 c then (EmptyString, Some s)
      else let '(a, b) := split_sign t in (String c a, b)
  end.

Definition level_name (name : string) : option Z :=
  if name =s? "DEBUG" then Some LevelDebug else
  if name =s? "INFO" then Some LevelInfo else
  if name =s? "WARN" then Some LevelWarn else
  if name =s? "ERROR" then Some LevelError else None.

(** [slog.Level.UnmarshalText]: a name in any case, with an offset. *)
Definition UnmarshalText (s : string) : option Z :=
  let '(name, rest) := split_sign s in
  offset ← match rest with None => Some 0 | Some r => Atoi r end;
  level ← level_name (ToUpper name);
  Some (int64 (level + offset)).

(** An unreadable level is [info]. *)
Definition slogLevel (logLevel : string) : Z :=
  match UnmarshalText logLevel with Some l => l | None => LevelInfo end.

Example log_levels :
  slogLevel <$> ["debug"; "Info"; "warn"; "ERROR"; "warn+2"; "debug-1"; "verbose"; ""; "info+"] =
  [-4; 0; 4; 8; 6; -5; 0; 0; 0].
Proof. vm_compute. reflexivity. Qed.

(** ** Loggers *)

Record Logger := { lg_level : Z; lg_attrs : list (string * string) }.

(** [slog.New(slog.NewJSONHandler(w, &slog.HandlerOptions{Level: level}))]. *)
Definition json_logger (level : Z) : Logger := {| lg_level := level; lg_attrs := [] |}.

Definition With (kvs : list (string * string)) (l : Logger) : Logger :=
  {| lg_level := lg_level l; lg_attrs := lg_attrs l ++ kvs |}.

(** The attributes a record is written with, if it is. *)
Definition Log (l : Logger) (level : Z) (attrs : list (string * string)) : option (list (string * string)) :=
  if lg_level l <=? level then Some (lg_attrs l ++ attrs) else None.

Definition NewJSONLogger : Logger := json_logger LevelInfo.

(** The span context of a [context.Context], as OpenTelemetry answers for it. *)
Record SpanContext := { sc_IsValid : bool; sc_TraceID : string; sc_SpanID : string }.

Definition WithTraceContext (sc : SpanContext) (logger : Logger) : Logger :=
  if negb (sc_IsValid sc) then logger else
  With [("trace_id", sc_TraceID sc); ("span_id", sc_SpanID sc)] logger.

(** The bridge to logr keeps the handler. *)
Definition NewLogr (logger : Logger) : Logger := logger.

(** The logger of [main]. *)
Definition slogLogger (logLevel : string) : Logger := json_logger (slogLevel logLevel).

(** The trace context is added to a line and decides nothing else about it. *)
Lemma WithTraceContext_log sc l level attrs :
  Log (WithTraceContext sc l) level attrs =
  (λ out, take (length (lg_attrs l)) out ++
     (if sc_IsValid sc then [("trace_id", sc_TraceID sc); ("span_id", sc_SpanID sc)] else []) ++
     drop (length (lg_attrs l)) out) <$> Log l level attrs.
Proof.
  unfold WithTraceContext, Log, With. destruct (sc_IsValid sc); cbn [negb lg_level lg_attrs];
    destruct (lg_level l <=? level); [|done| |done]; cbn [fmap option_fmap option_map];
    rewrite take_app_length, drop_app_length; [by rewrite (assoc (++))|done].
Qed.
