(* ===== verification/CommandLine.v ===== *)
(** The command line of the process, [src/cmd/main.go]: the flags [main]
    registers, [flag.Parse] of the Go standard library as it applies to them,
    and the run of [main] from its arguments.

    [formal] has the registrations in the order of the source; the cells they
    point at are the map [cells], from which the flags of [Setup] are read.
    Imported packages may register flags of their own on the same command line
    (controller-runtime registers [kubeconfig]); they are an argument. *)
From S2P Require Import Prelude Types Objects Scaling GoFloat Json JsonProps GoTime Enforcer Cluster Http PromQL Metrics MetricsProps.
From S2P Require Import Registry McpClient Registrar Canary AgentReconciler Setup Logging.

(** ** Flags *)

Inductive FlagVal := VBool (b : bool) | VString (s : string).

Notation cells := (gmap string FlagVal).

(** The name and default of every flag. *)
Definition formal : list (string * FlagVal) :=
  [("metrics-bind-address", VString "0");
   ("health-probe-bind-address", VString ":8081");
   ("leader-elect", VBool false);
   ("metrics-secure", VBool true);
   ("enable-http2", VBool false);
   ("gpu-resource-name", VString DefaultGPUResourceName);
   ("prometheus-url", VString "");
   ("gateway-name", VString "agentrax-gateway");
   ("gateway-namespace", VString "agentrax-system");
   ("registry-bind-address", VString ":9090");
   ("otlp-endpoint", VString "");
   ("otlp-insecure", VBool false);
   ("log-level", VString "info")].

Definition defaults : cells := list_to_map formal.

Definition bool_cell (m : cells) (name : string) : bool :=
  match m !! name with Some (VBool b) => b | _ => false end.
Definition string_cell (m : cells) (name : string) : string :=
  match m !! name with Some (VString s) => s | _ => "" end.

(** The variables of [main] after parsing. *)
Definition flags_of (m : cells) : Flags := {|
  fl_metricsAddr := string_cell m "metrics-bind-address";
  fl_probeAddr := string_cell m "health-probe-bind-address";
  fl_enableLeaderElection := bool_cell m "leader-elect";
  fl_secureMetrics := bool_cell m "metrics-secure";
  fl_enableHTTP2 := bool_cell m "enable-http2";
  fl_gpuResourceName := string_cell m "gpu-resource-name";
  fl_prometheusURL := string_cell m "prometheus-url";
  fl_gatewayName := string_cell m "gateway-name";
  fl_gatewayNamespace := string_cell m "gateway-namespace";
  fl_registryAddr := string_cell m "registry-bind-address";
  fl_otlpEndpoint := string_cell m "otlp-endpoint";
  fl_otlpInsecure := bool_cell m "otlp-insecure";
  fl_logLevel := string_cell m "log-level" |}.

(** [strconv.ParseBool]. *)
Definition ParseBool (s : string) : option bool :=
  if bool_decide (s ∈ ["1"; "t"; "T"; "TRUE"; "true"; "True"]) then Some true else
  if bool_decide (s ∈ ["0"; "f"; "F"; "FALSE"; "false"; "False"]) then Some false else None.

(** ** Parsing *)

(** What one argument is: the first two end the flags. *)
Inductive token :=
  | Positional
  | Terminator
  | BadSyntax
  | Named (name : string) (value : option string).

(** The part after the dashes: the name, and the value after an equals sign. *)
Definition named_token (name : string) : token :=
  match name with
  | EmptyString => BadSyntax
  | String c _ => if is_char 45 c || is_char 61 c then BadSyntax else
      let '(n, v) := cut 61 name in Named n v
  end.

Definition classify (s : string) : token :=
  match s with
  | String d (String c t) =>
      if negb (is_char 45 d) then Positional else
      if is_char 45 c then (if t =s? "" then Terminator else named_token t)
      else named_token (String c t)
  | _ => Positional
  end.

(** A flag of an imported package: whether it is boolean, and whether it takes
    a value. *)
Record ExtraFlag := { xf_isBool : bool; xf_Set : string → bool }.

(** [flag.Parse] with [ExitOnError]: the cells, or the status the process exits
    with, 0 for a request for help and 2 for an error. *)
Fixpoint Parse (extra : string → option ExtraFlag) (args : list string) (m : cells) : Z + cells :=
  match args with
  | [] => inr m
  | s :: rest =>
      match classify s with
      | Positional | Terminator => inr m
      | BadSyntax => inl 2
      | Named name value =>
          match m !! name, extra name with
          | None, None => inl (if (name =s? "help") || (name =s? "h") then 0 else 2)
          | Some (VBool _), _ =>
              match ParseBool (default "true" value) with
              | Some b => Parse extra rest (<[name := VBool b]> m)
              | None => inl 2
              end
          | Some (VString _), _ =>
              match value, rest with
              | Some v, _ => Parse extra rest (<[name := VString v]> m)
              | None, v :: rest' => Parse extra rest' (<[name := VString v]> m)
              | None, [] => inl 2
              end
          | None, Some x =>
              if xf_isBool x then
                if xf_Set x (default "true" value) then Parse extra rest m else inl 2
              else
                match value, rest with
                | Some v, _ => if xf_Set x v then Parse extra rest m else inl 2
                | None, v :: rest' => if xf_Set x v then Parse extra rest' m else inl 2
                | None, [] => inl 2
                end
          end
      end
  end.

(** ** The process *)

(** The logger of the process, once the flags are parsed, and the run of [main]. *)
Record Process := { pr_logger : option Logger; pr_outcome : Outcome }.

Definition exits (status : Z) : Process :=
  {| pr_logger := None; pr_outcome := {| oc_made := []; oc_status := status; oc_shutdown := false |} |}.

Definition runs_with (fails : Call → bool) (env : Environment) (fl : Flags) : Process :=
  {| pr_logger := Some (NewLogr (slogLogger (fl_logLevel fl))); pr_outcome := main fails fl env |}.

Definition process (extra : string → option ExtraFlag) (fails : Call → bool) (args : list string)
    (env : Environment) : Process :=
  match Parse extra args defaults with
  | inl status => exits status
  | inr m => runs_with fails env (flags_of m)
  end.

(** ** The grammar of command lines *)

(** A flag is a dash or two, its name, and perhaps a value. *)
Definition proper (name : string) : Prop :=
  lacks 61 name = true ∧ match name with EmptyString => False | String c _ => code c ≠ 45 end.

Definition spells (s name : string) (value : option string) : Prop :=
  proper name ∧
  let rest := name +:+ match value with Some v => "=" +:+ v | None => "" end in
  s = "-" +:+ rest ∨ s = "--" +:+ rest.

Definition positional (s : string) : Prop := s = "-" ∨ ∀ t, s ≠ "-" +:+ t.

Section grammar.
Context (extra : string → option ExtraFlag).
Implicit Types (m : cells) (s n v : string) (args : list string).

(** The flags come first and later ones win; everything from the first
    argument that is not a flag, or after two dashes, is not looked at. *)
Inductive command_line : cells → list string → cells → Prop :=
  | cl_end m : command_line m [] m
  | cl_positional m s rest : positional s → command_line m (s :: rest) m
  | cl_terminator m rest : command_line m ("--" :: rest) m
  | cl_switch m m' n b s rest :
      m !! n = Some (VBool b) → spells s n None →
      command_line (<[n := VBool true]> m) rest m' → command_line m (s :: rest) m'
  | cl_bool m m' n b b' v s rest :
      m !! n = Some (VBool b) → spells s n (Some v) → ParseBool v = Some b' →
      command_line (<[n := VBool b']> m) rest m' → command_line m (s :: rest) m'
  | cl_string m m' n v0 v s rest :
      m !! n = Some (VString v0) → spells s n (Some v) →
      command_line (<[n := VString v]> m) rest m' → command_line m (s :: rest) m'
  | cl_string_next m m' n v0 v s rest :
      m !! n = Some (VString v0) → spells s n None →
      command_line (<[n := VString v]> m) rest m' → command_line m (s :: v :: rest) m'
  | cl_extra m m' n x (v : option string) s rest :
      m !! n = None → extra n = Some x → spells s n v → (xf_isBool x = false → v ≠ None) →
      xf_Set x (default "true" v) = true →
      command_line m rest m' → command_line m (s :: rest) m'
  | cl_extra_next m m' n x v s rest :
      m !! n = None → extra n = Some x → spells s n None → xf_isBool x = false →
      xf_Set x v = true → command_line m rest m' → command_line m (s :: v :: rest) m'.

(** *** Arguments *)

Lemma chr_code c : chr (code c) = c.
Proof. unfold chr, code. rewrite Nat2Z.id. apply Ascii.ascii_nat_embedding. Qed.

Lemma is_char_eq k c : is_char k c = true → c = chr k.
Proof. intros <-%Z.eqb_eq. by rewrite chr_code. Qed.

Lemma cut_inv k s a b : cut k s = (a, b) →
  lacks k a = true ∧ s = a +:+ match b with Some t => String (chr k) t | None => "" end.
Proof.
  revert a b. induction s as [|c s IH]; intros a b; cbn [cut]; [by intros [= <- <-]|].
  destruct (code c =? k) eqn:E; [intros [= <- <-]; split; [done|]; by rewrite (is_char_eq k c E)|].
  destruct (cut k s) as [a' b'] eqn:Ec. intros [= <- <-]. destruct (IH _ _ eq_refl) as [Hl ->].
  split; [cbn [lacks]; by rewrite E, Hl|]. by rewrite app_cons_string.
Qed.

Lemma proper_token n value :
  proper n → named_token (n +:+ match value with Some v => "=" +:+ v | None => "" end) = Named n value.
Proof.
  intros [Hl Hc]. unfold named_token. destruct n as [|c n]; [done|]. rewrite app_cons_string.
  replace (is_char 45 c || is_char 61 c) with false.
  2: { cbn [lacks] in Hl. unfold is_char. destruct (code c =? 45) eqn:?, (code c =? 61) eqn:?; zbool; done. }
  rewrite <- app_cons_string. destruct value as [v|].
  - pose proof (cut_lacks 61 (String c n) v Hl) as E. change (code (chr 61) =? 61) with true in E.
    change ("=" +:+ v) with (String (chr 61) v). by rewrite E.
  - by rewrite app_nil_string, cut_none.
Qed.

Lemma named_token_inv t n value :
  named_token t = Named n value →
  proper n ∧ t = n +:+ match value with Some v => "=" +:+ v | None => "" end.
Proof.
  unfold named_token. destruct t as [|c t]; [done|]. destruct (is_char 45 c || is_char 61 c) eqn:Hc; [done|].
  destruct (cut 61 (String c t)) as [a b] eqn:Ec. intros [= <- <-].
  destruct (cut_inv _ _ _ _ Ec) as [Hl Ht]. apply orb_false_iff in Hc as [H45 H61]. unfold is_char in *.
  split; [split; [done|]|destruct b; exact Ht].
  cbn [cut] in Ec. rewrite H61 in Ec. destruct (cut 61 t). injection Ec as <- _. by apply Z.eqb_neq.
Qed.

Lemma classify_named s n value : classify s = Named n value ↔ spells s n value.
Proof.
  split.
  - destruct s as [|d [|c t]]; [done..|]. unfold classify.
    destruct (is_char 45 d) eqn:Hd; cbn [negb]; [|done]. apply is_char_eq in Hd as ->. unfold spells.
    destruct (is_char 45 c) eqn:Hc; [destruct (t =s? ""); [done|]|]; intros [Hp E]%named_token_inv; (split; [done|]).
    + right. apply is_char_eq in Hc as ->. by rewrite E.
    + left. by rewrite E.
  - intros [Hp Hs]. pose proof (proper_token n value Hp) as Ht. destruct Hp as [_ Hc].
    destruct n as [|c n]; [done|]. rewrite app_cons_string in Hs, Ht.
    assert (Hd : is_char 45 c = false) by (by apply Z.eqb_neq).
    destruct Hs as [->| ->].
    + change ("-" +:+ ?x) with (String (chr 45) x). unfold classify. change (is_char 45 (chr 45)) with true.
      cbn [negb]. by rewrite Hd.
    + change ("--" +:+ ?x) with (String (chr 45) (String (chr 45) x)). unfold classify.
      change (is_char 45 (chr 45)) with true. cbn [negb]. done.
Qed.

Lemma classify_positional s : classify s = Positional ↔ positional s.
Proof.
  unfold positional. split.
  - destruct s as [|d [|c t]]; intros Hs.
    + right. intros t. by change ("-" +:+ t) with (String (chr 45) t).
    + destruct (is_char 45 d) eqn:Hd; [left; by apply is_char_eq in Hd as ->|].
      right. intros t E. change ("-" +:+ t) with (String (chr 45) t) in E. by injection E as -> _.
    + right. intros t' E. change ("-" +:+ t') with (String (chr 45) t') in E. injection E as -> _.
      unfold classify, named_token in Hs. change (is_char 45 (chr 45)) with true in Hs. cbn [negb] in Hs.
      destruct (is_char 45 c); [destruct (t =s? ""), t|]; repeat case_match; done.
  - intros [->|Hs]; [done|]. destruct s as [|d [|c t]]; [done..|]. unfold classify.
    destruct (is_char 45 d) eqn:Hd; [|done]. apply is_char_eq in Hd as ->. by destruct (Hs (String c t)).
Qed.

Lemma classify_terminator s : classify s = Terminator ↔ s = "--".
Proof.
  split; [|by intros ->]. destruct s as [|d [|c t]]; [done..|]. unfold classify, named_token.
  destruct (is_char 45 d) eqn:Hd; [|done]. apply is_char_eq in Hd as ->. cbn [negb].
  destruct (is_char 45 c) eqn:Hc; [apply is_char_eq in Hc as ->; destruct (t =s? "") eqn:Ht|].
  - by apply bool_decide_eq_true in Ht as ->.
  - repeat case_match; done.
  - repeat case_match; done.
Qed.

(** *** Soundness and completeness *)

Lemma Parse_complete m args m' : command_line m args m' → Parse extra args m = inr m'.
Proof.
  induction 1 as [|m s rest Hs|m rest|m m' n b s rest Hn Hs _ IH|m m' n b b' v s rest Hn Hs Hv _ IH
    |m m' n v0 v s rest Hn Hs _ IH|m m' n v0 v s rest Hn Hs _ IH|m m' n x v s rest Hn Hx Hs Hv Hset _ IH
    |m m' n x v s rest Hn Hx Hs Hb Hset _ IH]; cbn [Parse]; try done.
  - by apply classify_positional in Hs as ->.
  - apply classify_named in Hs as ->. by rewrite Hn.
  - apply classify_named in Hs as ->. rewrite Hn. simpl. by rewrite Hv.
  - apply classify_named in Hs as ->. by rewrite Hn.
  - apply classify_named in Hs as ->. by rewrite Hn.
  - apply classify_named in Hs as ->. rewrite Hn, Hx. destruct v as [v|].
    + change (default "true" (Some v)) with v in *. rewrite Hset. by destruct (xf_isBool x).
    + destruct (xf_isBool x); [by rewrite Hset|by destruct Hv].
  - apply classify_named in Hs as ->. by rewrite Hn, Hx, Hb, Hset.
Qed.

(** The parser consumes one argument or two. *)
Definition parses_only args : Prop := ∀ m m', Parse extra args m = inr m' → command_line m args m'.

Lemma parses_only_cons s rest :
  parses_only rest → (∀ v rest', rest = v :: rest' → parses_only rest') → parses_only (s :: rest).
Proof.
  intros H1 H2 m m'. cbn [Parse]. destruct (classify s) as [| | |n value] eqn:Hc; [|..|done|].
  - apply classify_positional in Hc. intros [= <-]. by constructor.
  - apply classify_terminator in Hc as ->. intros [= <-]. apply cl_terminator.
  - apply classify_named in Hc. destruct (m !! n) as [[b|v0]|] eqn:Hn.
    + destruct (ParseBool (default "true" value)) as [b'|] eqn:Hb; [|done]. intros ?%H1.
      destruct value as [v|]; [by eapply cl_bool|]. simpl in Hb. injection Hb as <-. by eapply cl_switch.
    + destruct value as [v|]; [intros ?%H1; by eapply cl_string|].
      destruct rest as [|v rest]; [done|]. intros ?%(H2 v rest eq_refl). by eapply cl_string_next.
    + destruct (extra n) as [x|] eqn:Hx; [|done]. destruct (xf_isBool x) eqn:Hb.
      { destruct (xf_Set x _) eqn:Hset; [|done]. intros ?%H1. by eapply cl_extra; eauto; rewrite Hb. }
      destruct value as [v|]; [|destruct rest as [|v rest]; [done|]];
        (destruct (xf_Set x v) eqn:Hset; [|done]).
      * intros ?%H1. by eapply cl_extra; eauto.
      * intros ?%(H2 v rest eq_refl). by eapply cl_extra_next.
Qed.

Lemma Parse_sound args : parses_only args.
Proof.
  cut (parses_only args ∧ ∀ s, parses_only (s :: args)); [by intros []|].
  induction args as [|a args [IH1 IH2]].
  - assert (parses_only []) by (intros m m' [= <-]; constructor). split; [done|].
    intros s. by apply parses_only_cons.
  - split; [done|]. intros s. apply parses_only_cons; [done|]. by intros v rest [= <- <-].
Qed.

Lemma Parse_exits args m st : Parse extra args m = inl st → st = 0 ∨ st = 2.
Proof.
  cut ((∀ m, Parse extra args m = inl st → st = 0 ∨ st = 2) ∧
    ∀ s m, Parse extra (s :: args) m = inl st → st = 0 ∨ st = 2); [by intros [H _]; apply H|].
  induction args as [|a args [IH1 IH2]]; (split; [done || apply IH2|]); intros s m'; cbn [Parse];
    repeat (case_match; try done; try (intros [= <-]; by auto); try (by apply IH2); try (by apply IH1)).
Qed.
End grammar.

(** ** Round trip *)

Definition FormatBool (b : bool) : string := if b then "true" else "false".

Definition render_value (v : FlagVal) : string :=
  match v with VBool b => FormatBool b | VString s => s end.

(** The settings of a deployment, one argument each. *)
Definition settings (fl : Flags) : list (string * FlagVal) :=
  [("metrics-bind-address", VString (fl_metricsAddr fl));
   ("health-probe-bind-address", VString (fl_probeAddr fl));
   ("leader-elect", VBool (fl_enableLeaderElection fl));
   ("metrics-secure", VBool (fl_secureMetrics fl));
   ("enable-http2", VBool (fl_enableHTTP2 fl));
   ("gpu-resource-name", VString (fl_gpuResourceName fl));
   ("prometheus-url", VString (fl_prometheusURL fl));
   ("gateway-name", VString (fl_gatewayName fl));
   ("gateway-namespace", VString (fl_gatewayNamespace fl));
   ("registry-bind-address", VString (fl_registryAddr fl));
   ("otlp-endpoint", VString (fl_otlpEndpoint fl));
   ("otlp-insecure", VBool (fl_otlpInsecure fl));
   ("log-level", VString (fl_logLevel fl))].

Definition render (fl : Flags) : list string :=
  (λ p : string * FlagVal, "--" +:+ p.1 +:+ "=" +:+ render_value p.2) <$> settings fl.

(** A setting fits the flag it is for. *)
Definition fits (m : cells) (p : string * FlagVal) : bool :=
  match m !! p.1, p.2 with Some (VBool _), VBool _ | Some (VString _), VString _ => true | _, _ => false end.

Definition properb (n : string) : bool :=
  lacks 61 n && match n with EmptyString => false | String c _ => negb (code c =? 45) end.

Lemma properb_true n : properb n = true → proper n.
Proof. unfold properb, proper. destruct n; [by rewrite andb_false_r|]. intros. by zbool. Qed.

Lemma fits_insert m p q : fits m p = true → fits m q = true → fits (<[p.1 := p.2]> m) q = true.
Proof.
  unfold fits. destruct (decide (p.1 = q.1)) as [<-|Hne]; [|by rewrite lookup_insert_ne].
  rewrite lookup_insert_eq. by destruct (m !! p.1) as [[]|], p.2, q.2.
Qed.

Lemma Parse_settings extra l m :
  Forall (λ p, properb p.1 = true ∧ fits m p = true) l →
  Parse extra ((λ p : string * FlagVal, "--" +:+ p.1 +:+ "=" +:+ render_value p.2) <$> l) m =
  inr (foldl (λ m p, <[p.1 := p.2]> m) m l).
Proof.
  revert m. induction l as [|p l IH]; intros m Hl; [done|]. apply list.Forall_cons in Hl as [[Hp Hf] Hl].
  assert (Hl' : Forall (λ q, properb q.1 = true ∧ fits (<[p.1 := p.2]> m) q = true) l).
  { eapply list.Forall_impl; [exact Hl|]. intros q [? ?]. auto using fits_insert. }
  specialize (IH _ Hl'). apply Parse_complete. apply Parse_sound in IH.
  assert (Hs : spells ("--" +:+ p.1 +:+ "=" +:+ render_value p.2) p.1 (Some (render_value p.2)))
    by (split; [by apply properb_true|by right]).
  unfold fits in Hf. destruct (m !! p.1) as [[b|s]|] eqn:Hm, p as [n [b'|s']]; try done; cbn [fst snd] in *.
  - eapply cl_bool; [done|exact Hs| |exact IH]. by destruct b'.
  - by eapply cl_string; [|exact Hs|].
Qed.

Lemma Parse_render extra fl : ∃ m, Parse extra (render fl) defaults = inr m ∧ flags_of m = fl.
Proof.
  exists (foldl (λ m p, <[p.1 := p.2]> m) defaults (settings fl)). split.
  - apply Parse_settings. repeat apply list.Forall_cons_2; try apply list.Forall_nil_2; by split; vm_compute.
  - destruct fl. vm_compute. reflexivity.
Qed.

(** C38: the command line is read as it is written.  [flag.Parse] accepts exactly
    the command lines of the grammar above and sets what they say, the last
    setting of a flag winning; on any other the process exits with status 0
    (help) or 2 before it makes a single call.  Every configuration of [main]
    can be written: rendered as arguments, it is the one the process runs
    with. *)
Theorem command_line_correct extra fails env args :
  (∀ m, Parse extra args defaults = inr m ↔ command_line extra defaults args m) ∧
  (oc_made (pr_outcome (process extra fails args env)) ≠ [] ↔ ∃ m, command_line extra defaults args m) ∧
  (oc_made (pr_outcome (process extra fails args env)) ≠ [] ∨
    oc_status (pr_outcome (process extra fails args env)) ∈ [0; 2]) ∧
  ∀ fl, process extra fails (render fl) env = runs_with fails env fl.
Proof.
  assert (Hiff : ∀ m, Parse extra args defaults = inr m ↔ command_line extra defaults args m)
    by (intros m; split; [apply Parse_sound|apply Parse_complete]).
  split; [done|]. unfold process at 1 2 3.
  destruct (Parse extra args defaults) as [st|m] eqn:E.
  - split_and!.
    + split; [done|]. by intros [m Hm%Hiff].
    + right. simpl. destruct (Parse_exits _ _ _ _ E) as [->| ->]; set_solver.
    + intros fl. unfold process. destruct (Parse_render extra fl) as (m & -> & <-). done.
  - assert (Hm : oc_made (main fails (flags_of m) env) ≠ []).
    { unfold main, main_calls. destruct (construct _ _ _) as [wi h]. cbn [app run_calls]. repeat case_match; simplify_eq; done. }
    split_and!.
    + split; [|done]. intros _. exists m. by apply Hiff.
    + by left.
    + intros fl. unfold process. destruct (Parse_render extra fl) as (m' & -> & <-). done.
Qed.

(** ** Deployments *)

(** The arguments of [config/manager/manager.yaml]. *)
Example manager_yaml :
  flags_of (match Parse (λ _, None) ["--leader-elect"; "--health-probe-bind-address=:8081";
    "--registry-bind-address=:9090"; "--gpu-resource-name=nvidia.com/gpu"] defaults with
    inr m => m | inl _ => ∅ end) =
  {| fl_metricsAddr := "0"; fl_probeAddr := ":8081"; fl_enableLeaderElection := true;
     fl_secureMetrics := true; fl_enableHTTP2 := false; fl_gpuResourceName := DefaultGPUResourceName;
     fl_prometheusURL := ""; fl_gatewayName := "agentrax-gateway"; fl_gatewayNamespace := "agentrax-system";
     fl_registryAddr := ":9090"; fl_otlpEndpoint := ""; fl_otlpInsecure := false; fl_logLevel := "info" |}.
Proof. vm_compute. reflexivity. Qed.

Example no_arguments : flags_of defaults = default_flags.
Proof. vm_compute. reflexivity. Qed.

(** The value of a boolean flag needs an equals sign: without one it ends the
    flags, and what follows is not looked at. *)
Example boolean_with_space :
  let args := ["--metrics-secure"; "false"; "--leader-elect"] in
  match Parse (λ _, None) args defaults with
  | inr m => fl_secureMetrics (flags_of m) = true ∧ fl_enableLeaderElection (flags_of m) = false
  | inl _ => False
  end.
Proof. vm_compute. done. Qed.
