(* ===== verification/Serving.v ===== *)
(** The registry server as a runnable of the manager:
    [registryServerRunnable.Start] of [src/cmd/main.go], which serves until the
    context is cancelled while a goroutine shuts the server down.

    The [http.Server] is that of the Go standard library.  The accept loop hands
    every connection to a goroutine of its own, which serves its requests whether
    or not the loop still runs; between two requests the connection is idle,
    unless the server is shutting down.  [Shutdown] closes the listener at once,
    makes [ListenAndServe] return [ErrServerClosed], closes connections that are
    idle, and returns when no connection is left or its context expires.  The
    goroutines, the clients and the clock take steps in any order. *)
From S2P Require Import Prelude.

(** What [ListenAndServe] returns; it always returns an error. *)
Inductive ServeError := ErrServerClosed | ServeFailed (e : error).

Inductive listener := NotListening | Accepting | Closed.

(** [srv.Shutdown] in the goroutine, with the deadline of its context. *)
Inductive shutdown_call := NotCalled | Draining (deadline : Z) | ShutdownReturned.

(** The open connections by their [http.ConnState]. *)
Record connections := { co_new : nat; co_active : nat; co_idle : nat }.

Definition open_conns (c : connections) : nat := (co_new c + co_active c + co_idle c)%nat.

(** [sv_accepted]: the accept loop has a connection in hand that the server does
    not track yet.  [sv_result] is what [Start] returned, [Some None] for nil. *)
Record server := {
  sv_now : Z;
  sv_cancelled : bool;
  sv_listener : listener;
  sv_accepted : bool;
  sv_conns : connections;
  sv_shutdown : shutdown_call;
  sv_result : option (option error);
}.

Definition shutdownTimeout : Z := 10 * Second.

(** [if err := srv.ListenAndServe(); err != nil && !errors.Is(err, http.ErrServerClosed)]. *)
Definition returns (err : ServeError) : option error :=
  match err with ErrServerClosed => None | ServeFailed e => Some e end.

Definition shutting_down (s : server) : bool :=
  match sv_shutdown s with NotCalled => false | _ => true end.

(** When [Start] has started the registry ([Registry.Start]), set up the server
    and started the goroutine; the read, write and idle timeouts of the server
    only make requests and connections end, which they may at any time. *)
Definition started (now : Z) : server :=
  {| sv_now := now; sv_cancelled := false; sv_listener := NotListening; sv_accepted := false;
     sv_conns := {| co_new := 0; co_active := 0; co_idle := 0 |};
     sv_shutdown := NotCalled; sv_result := None |}.

Definition with_listener (l : listener) (s : server) : server :=
  {| sv_now := sv_now s; sv_cancelled := sv_cancelled s; sv_listener := l; sv_accepted := sv_accepted s;
     sv_conns := sv_conns s; sv_shutdown := sv_shutdown s; sv_result := sv_result s |}.
Definition with_accepted (b : bool) (s : server) : server :=
  {| sv_now := sv_now s; sv_cancelled := sv_cancelled s; sv_listener := sv_listener s; sv_accepted := b;
     sv_conns := sv_conns s; sv_shutdown := sv_shutdown s; sv_result := sv_result s |}.
Definition with_conns (new active idle : nat) (s : server) : server :=
  {| sv_now := sv_now s; sv_cancelled := sv_cancelled s; sv_listener := sv_listener s;
     sv_accepted := sv_accepted s;
     sv_conns := {| co_new := new; co_active := active; co_idle := idle |};
     sv_shutdown := sv_shutdown s; sv_result := sv_result s |}.
Definition with_shutdown (c : shutdown_call) (s : server) : server :=
  {| sv_now := sv_now s; sv_cancelled := sv_cancelled s; sv_listener := sv_listener s;
     sv_accepted := sv_accepted s; sv_conns := sv_conns s; sv_shutdown := c; sv_result := sv_result s |}.
Definition with_result (err : ServeError) (s : server) : server :=
  {| sv_now := sv_now s; sv_cancelled := sv_cancelled s; sv_listener := Closed;
     sv_accepted := sv_accepted s; sv_conns := sv_conns s; sv_shutdown := sv_shutdown s;
     sv_result := Some (returns err) |}.

(** [ListenAndServe] is between two connections and has not returned. *)
Definition in_loop (s : server) (l : listener) : Prop :=
  sv_result s = None ∧ sv_accepted s = false ∧ sv_listener s = l.

Definition conns_are (s : server) (new active idle : nat) : Prop :=
  sv_conns s = {| co_new := new; co_active := active; co_idle := idle |}.

Inductive server_step : server → server → Prop :=
  (** the manager stops *)
  | step_cancel s :
      server_step s {| sv_now := sv_now s; sv_cancelled := true; sv_listener := sv_listener s;
        sv_accepted := sv_accepted s; sv_conns := sv_conns s; sv_shutdown := sv_shutdown s;
        sv_result := sv_result s |}
  (** the goroutine: [<-ctx.Done()], then [srv.Shutdown] with a timeout *)
  | step_shutdown s :
      sv_cancelled s = true → sv_shutdown s = NotCalled →
      server_step s (with_shutdown (Draining (sv_now s + shutdownTimeout))
        (with_listener (match sv_listener s with Accepting => Closed | l => l end) s))
  | step_drained s d :
      sv_shutdown s = Draining d → open_conns (sv_conns s) = 0%nat ∨ d ≤ sv_now s →
      server_step s (with_shutdown ShutdownReturned s)
  (** [ListenAndServe] listens, unless the server is shutting down *)
  | step_listen s :
      in_loop s NotListening → shutting_down s = false → server_step s (with_listener Accepting s)
  | step_listen_failed s e :
      in_loop s NotListening → shutting_down s = false → server_step s (with_result (ServeFailed e) s)
  | step_never_listened s :
      in_loop s NotListening → shutting_down s = true → server_step s (with_result ErrServerClosed s)
  (** it accepts connections and has them tracked until accepting fails *)
  | step_accept s :
      in_loop s Accepting → server_step s (with_accepted true s)
  | step_track s n a i :
      sv_accepted s = true → conns_are s n a i →
      server_step s (with_accepted false (with_conns (S n) a i s))
  | step_accept_failed s e :
      in_loop s Accepting → server_step s (with_result (ServeFailed e) s)
  | step_closed s :
      in_loop s Closed → server_step s (with_result ErrServerClosed s)
  (** a request arrives on an open connection, is answered, and the connection
      is kept only when the server is not shutting down *)
  | step_first_request s n a i :
      conns_are s (S n) a i → server_step s (with_conns n (S a) i s)
  | step_next_request s n a i :
      conns_are s n a (S i) → server_step s (with_conns n (S a) i s)
  | step_keep_alive s n a i :
      conns_are s n (S a) i → shutting_down s = false → server_step s (with_conns n a (S i) s)
  (** a connection ends: the client leaves, a timeout passes, the response was
      the last one, or [Shutdown] closes it *)
  | step_end_new s n a i : conns_are s (S n) a i → server_step s (with_conns n a i s)
  | step_end_active s n a i : conns_are s n (S a) i → server_step s (with_conns n a i s)
  | step_end_idle s n a i : conns_are s n a (S i) → server_step s (with_conns n a i s)
  | step_tick s now' :
      sv_now s ≤ now' →
      server_step s {| sv_now := now'; sv_cancelled := sv_cancelled s; sv_listener := sv_listener s;
        sv_accepted := sv_accepted s; sv_conns := sv_conns s; sv_shutdown := sv_shutdown s;
        sv_result := sv_result s |}.

Definition runs (s : server) : Prop := ∃ now, rtc server_step (started now) s.

(** ** Invariant *)

Record serving (s : server) : Prop := {
  serving_cancelled : shutting_down s = true → sv_cancelled s = true;
  serving_accepting : sv_listener s = Accepting → sv_result s = None ∧ shutting_down s = false;
  serving_closed : sv_listener s = Closed → sv_result s ≠ None ∨ shutting_down s = true;
  serving_nil : sv_result s = Some None → shutting_down s = true;
  serving_returned : sv_result s ≠ None → sv_listener s = Closed ∧ sv_accepted s = false;
}.

Lemma serving_step s s' : server_step s s' → serving s → serving s'.
Proof.
  intros Hs [H1 H2 H3 H4 H5]. destruct s as [t c l b k sd r]. unfold shutting_down in *. simpl in *.
  inversion Hs; subst; unfold in_loop, shutting_down in *; simpl in *; split; simpl; destruct l, sd; simpl in *; intuition congruence.
Qed.

Lemma serving_runs s : runs s → serving s.
Proof.
  intros [now Hr]. assert (H0 : serving (started now)) by by split.
  revert H0. induction Hr; eauto using serving_step.
Qed.

(** Once [Start] has returned it stays so, and connections only end. *)
Lemma returned_step s s' : serving s → sv_result s ≠ None → server_step s s' →
  sv_result s' = sv_result s ∧ (open_conns (sv_conns s') ≤ open_conns (sv_conns s))%nat.
Proof.
  intros Hi Hn Hs. destruct (serving_returned s Hi Hn) as [Hl Ha].
  destruct Hs; unfold in_loop, conns_are, open_conns in *; simpl in *;
    repeat match goal with H : _ ∧ _ |- _ => destruct H end; try congruence;
    (split; [done|]); repeat match goal with H : sv_conns _ = _ |- _ => rewrite H end; simpl; lia.
Qed.

Lemma returned_steps s s' : serving s → sv_result s ≠ None → rtc server_step s s' →
  sv_result s' = sv_result s ∧ (open_conns (sv_conns s') ≤ open_conns (sv_conns s))%nat.
Proof.
  intros Hi Hn Hr. induction Hr as [s|s s1 s2 Hs _ IH]; [split; [done|lia]|].
  destruct (returned_step s s1 Hi Hn Hs) as [E Hle].
  destruct IH as [E' Hle']; [by eapply serving_step|by rewrite E|]. split; [congruence|lia].
Qed.

(** A server that is shutting down, or has nothing listening, returns nil once
    the connection in hand is tracked. *)
Lemma shutting_down_returns s : serving s → sv_result s = None → shutting_down s = true →
  ∃ s', rtc server_step s s' ∧ sv_result s' = Some None.
Proof.
  intros Hi Hn Hsd. destruct (sv_accepted s) eqn:Ha.
  - destruct (sv_conns s) as [n a i] eqn:Ec. pose proof (step_track s n a i Ha Ec) as Ht.
    destruct (sv_listener s) eqn:El.
    + eexists. split; [eapply rtc_l; [exact Ht|]; apply rtc_once; by apply step_never_listened|done].
    + destruct (serving_accepting s Hi El); congruence.
    + eexists. split; [eapply rtc_l; [exact Ht|]; apply rtc_once; by apply step_closed|done].
  - destruct (sv_listener s) eqn:El.
    + eexists. split; [apply rtc_once; by apply step_never_listened|done].
    + destruct (serving_accepting s Hi El); congruence.
    + eexists. split; [apply rtc_once; by apply step_closed|done].
Qed.

(** C20: the registry server ends, and for a reason.  [Start] returns nil only
    when the context was cancelled and the goroutine has called [Shutdown]; once
    it has returned it accepts no connection any more, so that the number of open
    connections only falls (requests on the open ones may still be served).
    While it has not returned it is not stuck: when the context is cancelled,
    there is a way for it to return nil, whatever the clients do. *)
Theorem registry_server_ends s :
  runs s →
  (sv_result s = Some None → sv_cancelled s = true ∧ shutting_down s = true) ∧
  (sv_result s ≠ None → ∀ s', rtc server_step s s' →
    sv_result s' = sv_result s ∧ (open_conns (sv_conns s') ≤ open_conns (sv_conns s))%nat) ∧
  (sv_result s = None → sv_cancelled s = true →
    ∃ s', rtc server_step s s' ∧ sv_result s' = Some None).
Proof.
  intros Hr. pose proof (serving_runs s Hr) as Hi. split; [|split].
  - intros Hn. pose proof (serving_nil s Hi Hn). by split; [apply (serving_cancelled s Hi)|].
  - intros Hn s'. by apply returned_steps.
  - intros Hn Hc. destruct (shutting_down s) eqn:Esd; [by apply shutting_down_returns|].
    assert (Hnc : sv_shutdown s = NotCalled) by (unfold shutting_down in Esd; by destruct (sv_shutdown s)).
    pose proof (step_shutdown s Hc Hnc) as Hsd. pose proof (serving_step _ _ Hsd Hi) as Hi'.
    destruct (shutting_down_returns _ Hi') as (s' & Hs' & E); [done|done|].
    exists s'. split; [by eapply rtc_l|done].
Qed.

Lemma runs_step s s' : runs s → server_step s s' → runs s'.
Proof. intros [now Hr] Hs. exists now. by eapply rtc_r. Qed.

(** A server with a request in flight and an idle connection when the manager
    stops. *)
Definition busy : server :=
  {| sv_now := 0; sv_cancelled := true; sv_listener := Accepting; sv_accepted := false;
     sv_conns := {| co_new := 0; co_active := 1; co_idle := 1 |};
     sv_shutdown := NotCalled; sv_result := None |}.

Lemma busy_runs : runs busy.
Proof.
  assert (H0 : runs (started 0)) by (exists 0; done).
  eapply runs_step in H0; [|by apply step_listen].
  do 2 (eapply runs_step in H0; [|by apply step_accept]; eapply runs_step in H0; [|by apply step_track];
    eapply runs_step in H0; [|by apply step_first_request]).
  eapply runs_step in H0; [|by apply step_keep_alive].
  eapply runs_step in H0; [|by apply step_cancel]. exact H0.
Qed.

Lemma registry_server_ends_witness : ∃ s', rtc server_step busy s' ∧ sv_result s' = Some None.
Proof. exact (proj2 (proj2 (registry_server_ends busy busy_runs)) eq_refl eq_refl). Defined.

(** [Start] does not wait for [Shutdown]: it can return nil while a request is in
    flight that [Shutdown] still has ten seconds to wait for, and while another
    one starts on a connection that was idle; the process ends when the manager
    sees its runnables return. *)
Theorem start_returns_before_drained :
  ∃ s d s', runs s ∧ sv_result s = Some None ∧ co_active (sv_conns s) = 1%nat ∧
    sv_shutdown s = Draining d ∧ d - sv_now s = shutdownTimeout ∧
    server_step s s' ∧ co_active (sv_conns s') = 2%nat.
Proof.
  pose proof busy_runs as H0. eapply runs_step in H0; [|by apply step_shutdown].
  eapply runs_step in H0; [|by apply step_closed]. eexists _, _, _.
  split_and!; [exact H0|done..|by apply step_next_request|done].
Qed.
