(* ===== verification/StatusMemory.v ===== *)
(** Change detection on memory.

    Both reconcilers end the same way: [prevStatus := latest.Status.DeepCopy()],
    edits of [latest.Status] in place, and a status write only when
    [equality.Semantic.DeepEqual(prevStatus, &latest.Status)] is false.  The
    condition helpers of [apimachinery] edit the array the slice points to, so
    that this detects a change only because the copy shares nothing with the
    status.  Here both sequences run on the heap of [DeepCopy.v] and are proved
    to agree with the comparison of values that [write_usage] and
    [updateStatus] make. *)
From S2P Require Import Prelude Types DeepCopy DeepCopyProps Objects Scaling GoFloat Enforcer Cluster PromQL Registry.
From S2P Require Import Registrar RefWorld Canary CanaryProps QuotaController AgentReconciler AgentReconcilerProps.

(** ** The condition helpers on memory *)

(** [apimeta.SetStatusCondition(&conds, c)] and [RemoveStatusCondition(&conds, t)]:
    what they leave in the slice [conds]. *)
Class MemoryConditions `{LibCopies} := {
  SetStatusCondition_mem : slice rCondition → Condition → HM (slice rCondition);
  RemoveStatusCondition_mem : slice rCondition → string → HM (slice rCondition);
}.

(** A run that may write to the cells [s] and to new ones, and leaves the
    conditions [cs]. *)
Definition edits_in_place `{LibCopies} (m : HM (slice rCondition)) (h : heap) (s : gset loc)
    (cs : list Condition) : Prop :=
  ∃ x h' s', m h = Some (x, h') ∧ repr h' x = Some (cs, s') ∧ dom h ⊆ dom h' ∧
    s' ⊆ s ∪ (dom h' ∖ dom h) ∧ ∀ l, l ∈ dom h → l ∉ s → h' !! l = h !! l.

(** They have the effect of the operations on lists, by writing to the slice. *)
Class MemoryConditionsLaws `{ConditionsAPI, MemoryConditions} : Prop := {
  set_in_place h x cs s c : repr h x = Some (cs, s) →
    edits_in_place (SetStatusCondition_mem x c) h s (SetStatusCondition cs c);
  remove_in_place h x cs s t : repr h x = Some (cs, s) →
    edits_in_place (RemoveStatusCondition_mem x t) h s (RemoveStatusCondition cs t);
}.

(** [!equality.Semantic.DeepEqual(prev, &cur)]: whether what the two stand for
    differs. *)
Definition changed `{LibCopies} `{!DeepCopyable R V, !Stored R, EqDecision V} (prev : ptr R) (cur : R)
    : HM bool :=
  reads (λ h, '(a, _) ← repr h prev; '(b, _) ← repr h cur; Some (negb (bool_decide (a = Some b)))).

Section status_memory.
Context `{ConditionsAPI, MemoryConditions}.
Implicit Types (h : heap).

(** ** The TenantQuota status *)

(** What [TenantQuota_Reconcile] does to [latest.Status], and whether it then
    writes it. *)
Definition usage_status_mem (usage : TenantQuotaStatus) (latest : TenantQuota)
    (st : rTenantQuotaStatus) : HM (bool * rTenantQuotaStatus) :=
  prevStatus ← TenantQuotaStatus_DeepCopy (Some st);
  let '(over, overMsg) := IsOverQuota (tq_Spec latest) usage in
  cs ← (if over then SetStatusCondition_mem (r_tqConditions st)
          {| c_Type := ConditionOverQuota; c_Status := ConditionTrue;
             c_Reason := "UsageExceedsQuota"; c_Message := overMsg;
             c_ObservedGeneration := om_Generation (tq_Meta latest) |}
        else RemoveStatusCondition_mem (r_tqConditions st) ConditionOverQuota);
  let st := {| r_UsedAgents := tq_UsedAgents usage; r_UsedGPUs := tq_UsedGPUs usage;
               r_UsedTotalReplicas := tq_UsedTotalReplicas usage; r_tqConditions := cs |} in
  b ← changed prevStatus st;
  mret (b, st).

(** ** The AgentDeployment status *)

(** The edits [updateStatus] makes. *)
Inductive status_edit :=
  | EPhase (v : string)
  | ECurrentReplicas (v : Z)
  | EStableVersion (v : string)
  | ECanaryVersion (v : string)
  | ERegistered (v : bool)
  | ESetCondition (c : Condition)
  | ERemoveCondition (t : string).

(** An edit of the value. *)
Definition edit_value (st : AgentDeploymentStatus) (e : status_edit) : AgentDeploymentStatus :=
  match e with
  | EPhase v => set_Phase v st
  | ECurrentReplicas v => set_CurrentReplicas v st
  | EStableVersion v => set_StableVersion v st
  | ECanaryVersion v => set_CanaryVersion v st
  | ERegistered v => set_Registered v st
  | ESetCondition c => set_Conditions (SetStatusCondition (st_Conditions st) c) st
  | ERemoveCondition t => set_Conditions (RemoveStatusCondition (st_Conditions st) t) st
  end.
Definition edit_values (st : AgentDeploymentStatus) (es : list status_edit) : AgentDeploymentStatus :=
  foldl edit_value st es.

(** The same edit of the struct in memory: an assignment to a field, or a call
    of the helper with the address of the slice. *)
Definition with_fields (r : rAgentDeploymentStatus) (phase : string) (cur : Z) (stable canary : string)
    (reg : bool) (cs : slice rCondition) : rAgentDeploymentStatus :=
  {| r_Phase := phase; r_CurrentReplicas := cur; r_StableVersion := stable;
     r_CanaryVersion := canary; r_CanaryWeight := r_CanaryWeight r;
     r_CanaryStepIndex := r_CanaryStepIndex r; r_PauseStartedAt := r_PauseStartedAt r;
     r_PromUnreachableSince := r_PromUnreachableSince r; r_Registered := reg; r_Conditions := cs |}.
Definition edit_memory (r : rAgentDeploymentStatus) (e : status_edit) : HM rAgentDeploymentStatus :=
  let fields := with_fields r in
  match e with
  | EPhase v => mret (fields v (r_CurrentReplicas r) (r_StableVersion r) (r_CanaryVersion r)
                        (r_Registered r) (r_Conditions r))
  | ECurrentReplicas v => mret (fields (r_Phase r) v (r_StableVersion r) (r_CanaryVersion r)
                        (r_Registered r) (r_Conditions r))
  | EStableVersion v => mret (fields (r_Phase r) (r_CurrentReplicas r) v (r_CanaryVersion r)
                        (r_Registered r) (r_Conditions r))
  | ECanaryVersion v => mret (fields (r_Phase r) (r_CurrentReplicas r) (r_StableVersion r) v
                        (r_Registered r) (r_Conditions r))
  | ERegistered v => mret (fields (r_Phase r) (r_CurrentReplicas r) (r_StableVersion r)
                        (r_CanaryVersion r) v (r_Conditions r))
  | ESetCondition c => cs ← SetStatusCondition_mem (r_Conditions r) c;
      mret (fields (r_Phase r) (r_CurrentReplicas r) (r_StableVersion r) (r_CanaryVersion r)
              (r_Registered r) cs)
  | ERemoveCondition t => cs ← RemoveStatusCondition_mem (r_Conditions r) t;
      mret (fields (r_Phase r) (r_CurrentReplicas r) (r_StableVersion r) (r_CanaryVersion r)
              (r_Registered r) cs)
  end.
Fixpoint edit_memories (r : rAgentDeploymentStatus) (es : list status_edit)
    : HM rAgentDeploymentStatus :=
  match es with
  | [] => mret r
  | e :: es => r' ← edit_memory r e; edit_memories r' es
  end.

(** [prevStatus := latest.Status.DeepCopy()], the edits, and whether the
    status is written. *)
Definition update_status_mem (es : list status_edit) (st : rAgentDeploymentStatus)
    : HM (bool * rAgentDeploymentStatus) :=
  prevStatus ← AgentDeploymentStatus_DeepCopy (Some st);
  st ← edit_memories st es;
  b ← changed prevStatus st;
  mret (b, st).

(** The edits for the outcome of the quota evaluation. *)
Definition condition_edit (latest : AgentDeployment) (condType : string) (status : ConditionStatus)
    (reason msg : string) : status_edit :=
  ESetCondition {| c_Type := condType; c_Status := status; c_Reason := reason; c_Message := msg;
                   c_ObservedGeneration := om_Generation (ad_Meta latest) |}.
Definition quota_edits (qs : quotaState) (latest : AgentDeployment) : list status_edit :=
  match qs with
  | quotaStateCapped =>
      [condition_edit latest ConditionQuotaLimited ConditionTrue "HPAMaxReplicasCapped"
         ("spec.replicas.max (" +:+ fmt_d (sp_Max (spec_Replicas (ad_Spec latest))) +:+
          ") exceeds quota headroom; HPA capped")]
  | quotaStateUnknown =>
      [condition_edit latest ConditionQuotaLimited ConditionTrue "TenantQuotaNotFound"
         ("TenantQuota " +:+ Quote (spec_TenantRef (ad_Spec latest)) +:+ " not found in namespace " +:+
          ad_Namespace latest +:+ "; requeuing")]
  | quotaStateUncapped => [ERemoveCondition ConditionQuotaLimited]
  | quotaStateSkipped => []
  end.

(** The edits for the state of the Deployment. *)
Definition deployment_edits (dep : Deployment) (pullFailure : option string) (latest : AgentDeployment)
    : list status_edit :=
  match pullFailure with
  | Some failMsg =>
      [condition_edit latest ConditionImagePullFailed ConditionTrue "ImagePullBackOff" failMsg;
       EPhase PhaseDegraded]
  | None =>
      ERemoveCondition ConditionImagePullFailed ::
      if rolloutComplete dep then
        (if (st_Phase (ad_Status latest) =s? PhaseRolloutFailed) &&
            negb (spec_Image (ad_Spec latest) =s? st_StableVersion (ad_Status latest))
         then []
         else [EPhase PhaseRunning; ECanaryVersion ""; ERemoveCondition ConditionRolloutFailed]) ++
        (match dep_image dep with Some image => [EStableVersion image] | None => [] end) ++
        [condition_edit latest ConditionReady ConditionTrue "DeploymentReady" "Deployment is ready";
         condition_edit latest ConditionReconciled ConditionTrue "ReconcileSuccess"
           "Latest generation reconciled"]
      else
        [EPhase PhasePending;
         condition_edit latest ConditionReady ConditionFalse "DeploymentNotReady"
           "Waiting for pods to become ready";
         condition_edit latest ConditionReconciled ConditionTrue "ReconcileSuccess"
           "Latest generation reconciled"]
  end.

(** All edits before the registration is reconciled. *)
Definition update_edits (qs : quotaState) (dep : Deployment) (pullFailure : option string)
    (latest : AgentDeployment) : list status_edit :=
  quota_edits qs latest ++ ECurrentReplicas (ds_ReadyReplicas (dep_Status dep)) ::
  deployment_edits dep pullFailure latest.

(** The edits of [reconcileMCPRegistration]. *)
Definition mcp_edit (e : status_edit) : Prop :=
  match e with
  | ERegistered _ => True
  | ESetCondition c => c_Type c = ConditionMCPHandshakeFailed
  | ERemoveCondition t => t = ConditionMCPHandshakeFailed
  | _ => False
  end.
End status_memory.

(** ** The two sequences agree with the comparison of values *)
Section detection.
Context `{MemoryConditionsLaws, !LibCopiesLaws}.
Implicit Types (h : heap).

(** The rest of memory is left alone: a struct elsewhere stands for the same
    value after an edit. *)
Definition leaves h h' (s s' : gset loc) : Prop :=
  dom h ⊆ dom h' ∧ s' ⊆ s ∪ (dom h' ∖ dom h) ∧ ∀ l, l ∈ dom h → l ∉ s → h' !! l = h !! l.

Lemma leaves_refl h s : leaves h h s s.
Proof. split; [done|]. split; [set_solver|done]. Qed.

Lemma leaves_trans h1 h2 h3 s1 s2 s3 :
  leaves h1 h2 s1 s2 → leaves h2 h3 s2 s3 → leaves h1 h3 s1 s3.
Proof.
  intros (Hd & Hs & Hk) (Hd' & Hs' & Hk'). split; [by trans (dom h2)|]. split; [set_solver|].
  intros l Hl Hn. rewrite Hk', Hk by set_solver. done.
Qed.

Lemma leaves_mono h h' s s' t : leaves h h' s s' → leaves h h' (t ∪ s) (t ∪ s').
Proof. intros (Hd & Hs & Hk). split; [done|]. split; [set_solver|]. intros. apply Hk; set_solver. Qed.

Lemma leaves_repr `{!DeepCopyable R V, !DeepCopyLaws R V} h h' s s' (r : R) v t :
  leaves h h' s s' → t ## s → repr h r = Some (v, t) → repr h' r = Some (v, t).
Proof.
  intros (Hd & Hs & Hk) Ht Hr. apply (repr_local h); [done|]. intros l Hl. apply Hk; [|set_solver].
  by apply (repr_dom h r v t).
Qed.

Lemma leaves_disjoint h h' s s' t : leaves h h' s s' → t ⊆ dom h → t ## s → t ## s'.
Proof. intros (Hd & Hs & Hk) Ht Hn. set_solver. Qed.

Lemma edits_leave m h s cs : edits_in_place m h s cs →
  ∃ x h' s', m h = Some (x, h') ∧ repr h' x = Some (cs, s') ∧ leaves h h' s s'.
Proof. intros (x & h' & s' & Hm & Hr & Hd & Hs & Hk). by exists x, h', s'. Qed.

Lemma set_or_remove (b : bool) h x cs s c t : repr h x = Some (cs, s) →
  ∃ x' h' s', (if b then SetStatusCondition_mem x c else RemoveStatusCondition_mem x t) h =
      Some (x', h') ∧
    repr h' x' = Some (if b then SetStatusCondition cs c else RemoveStatusCondition cs t, s') ∧
    leaves h h' s s'.
Proof. intros Hx. apply edits_leave. destruct b; [by apply set_in_place|by apply remove_in_place]. Qed.

(** Comparing a copy with what the original has become. *)
Lemma changed_ok `{!DeepCopyable R V, !DeepCopyLaws R V, !Stored R, EqDecision V} h (p : ptr R) (r : R)
    v v' s s' :
  repr h p = Some (Some v, s) → repr h r = Some (v', s') →
  changed p r h = Some (negb (bool_decide (v = v')), h).
Proof.
  intros Hp Hr. unfold changed. apply reads_ok. rewrite Hp. simpl. rewrite Hr. simpl.
  do 2 f_equal. apply bool_decide_ext. split; [by intros [= ->]|by intros ->].
Qed.

(** C14: the usage of a tenant is written exactly when it changed.  Run on
    memory, with the condition slice edited in place after [prevStatus] was
    copied, the end of the TenantQuota reconcile leaves in [latest.Status] what
    [usage_status] says and writes it precisely when it differs from the status
    that was read: no edit of an element of the condition slice is missed
    because the copy shares its array. *)
Theorem usage_change_detected usage latest st h s :
  repr h st = Some (tq_Status latest, s) →
  ∃ st' h' s', usage_status_mem usage latest st h =
      Some (negb (bool_decide (tq_Status latest = usage_status usage latest)), st', h') ∧
    repr h' st' = Some (usage_status usage latest, s').
Proof.
  intros Hst. unfold usage_status_mem, usage_status.
  destruct (new_copy_independent h st _ _ Hst) as (l & h1 & Hc & Hsub & Hi).
  rewrite (heap_bind _ _ _ _ _ Hc). destruct Hi as (s0 & sp & Hst0 & Hst1 & Hp & Hdis & _ & _).
  simplify_eq. pose proof (repr_dom _ _ _ _ Hst) as Hsd.
  destruct (IsOverQuota (tq_Spec latest) usage) as [over msg].
  change (TenantQuotaStatus_repr h1 st = Some (tq_Status latest, s)) in Hst1.
  unfold TenantQuotaStatus_repr in Hst1. apply bind_Some in Hst1 as ([cs s1] & Hcs & [= Hval <-]).
  edestruct (set_or_remove over) as (x & h2 & s2 & He & Hx & Hl); [exact Hcs|].
  rewrite (heap_bind _ _ _ _ _ He).
  assert (Hp2 : repr h2 (Ptr l) = Some (Some (tq_Status latest), sp)).
  { eapply leaves_repr; [exact Hl|set_solver|exact Hp]. }
  match goal with |- ∃ _ _ _, (changed _ ?r ≫= _) _ = Some (negb (bool_decide (_ = ?v)), _, _) ∧ _ =>
    assert (Hr : repr h2 r = Some (v, s2)) end.
  { simpl. unfold TenantQuotaStatus_repr. simpl in Hx |- *. rewrite Hx. simpl.
    by rewrite <- Hval; destruct over. }
  rewrite (heap_bind _ _ _ _ _ (changed_ok _ _ _ _ _ _ _ Hp2 Hr)).
  eexists _, h2, s2. split; [reflexivity|exact Hr].
Qed.
(** A status in memory whose timestamps are not the condition array, as in an
    object the client has decoded. *)
Definition held h (r : rAgentDeploymentStatus) (v : AgentDeploymentStatus) (s : gset loc) : Prop :=
  ∃ ps s1 pu s2 cs s3,
    repr h (r_PauseStartedAt r) = Some (ps, s1) ∧ repr h (r_PromUnreachableSince r) = Some (pu, s2) ∧
    repr h (r_Conditions r) = Some (cs, s3) ∧ s1 ∪ s2 ## s3 ∧
    repr h r = Some (v, s) ∧ s = (s1 ∪ s2) ∪ s3.

Lemma held_repr h r v s : held h r v s → repr h r = Some (v, s).
Proof. by intros (? & ? & ? & ? & ? & ? & ? & ? & ? & ? & Hr & ->). Qed.

(** The conditions were replaced in place. *)
Lemma held_conditions h h' r v s cs s3 x cs' s3' :
  held h r v s → repr h (r_Conditions r) = Some (cs, s3) → leaves h h' s3 s3' →
  repr h' x = Some (cs', s3') →
  ∃ s', held h' (with_fields r (r_Phase r) (r_CurrentReplicas r) (r_StableVersion r)
      (r_CanaryVersion r) (r_Registered r) x) (set_Conditions cs' v) s' ∧ leaves h h' s s'.
Proof.
  intros (ps & s1 & pu & s2 & cs0 & s30 & Hps & Hpu & Hcs & Hd & Hr & ->) Hcs0 Hl Hx.
  rewrite Hcs in Hcs0. injection Hcs0 as -> ->.
  exists ((s1 ∪ s2) ∪ s3'). split; [|by apply leaves_mono].
  pose proof (repr_dom _ _ _ _ Hps) as Hd1. pose proof (repr_dom _ _ _ _ Hpu) as Hd2.
  assert (Hps' : repr h' (r_PauseStartedAt r) = Some (ps, s1))
    by (eapply leaves_repr; [exact Hl|set_solver|done]).
  assert (Hpu' : repr h' (r_PromUnreachableSince r) = Some (pu, s2))
    by (eapply leaves_repr; [exact Hl|set_solver|done]).
  exists ps, s1, pu, s2, cs', s3'. split; [exact Hps'|]. split; [exact Hpu'|]. split; [exact Hx|].
  split; [apply (leaves_disjoint h h' s3); [done|set_solver|done]|]. split; [|done].
  unfold repr, AgentDeploymentStatus_DeepCopyable, AgentDeploymentStatus_repr in Hr |- *.
  rewrite Hps, Hpu, Hcs in Hr. simpl in Hr. injection Hr as <-.
  unfold with_fields. cbn [r_PauseStartedAt r_PromUnreachableSince r_Conditions].
  rewrite Hps', Hpu', Hx. reflexivity.
Qed.

(** One edit: the same on memory as on the value, in the cells of the status. *)
Lemma edit_ok h r v s e : held h r v s → ∃ r' h' s',
  edit_memory r e h = Some (r', h') ∧ held h' r' (edit_value v e) s' ∧ leaves h h' s s'.
Proof.
  intros Hh. pose proof Hh as (ps & s1 & pu & s2 & cs & s3 & Hps & Hpu & Hcs & Hd & Hr & Hs).
  assert (Hv : st_Conditions v = cs).
  { unfold repr, AgentDeploymentStatus_DeepCopyable, AgentDeploymentStatus_repr in Hr.
    rewrite Hps, Hpu, Hcs in Hr. simpl in Hr. by injection Hr as <-. }
  destruct e as [| | | | |c|t];
    try (eexists _, h, s; split; [reflexivity|]; split; [|apply leaves_refl];
         exists ps, s1, pu, s2, cs, s3; split_and!; [done..| |done];
         unfold repr, AgentDeploymentStatus_DeepCopyable, AgentDeploymentStatus_repr in Hr |- *;
         unfold with_fields; cbn [r_PauseStartedAt r_PromUnreachableSince r_Conditions];
         rewrite Hps, Hpu, Hcs in Hr |- *; simpl in Hr; injection Hr as <- _; by rewrite Hs).
  - destruct (edits_leave _ _ _ _ (set_in_place h _ _ _ c Hcs)) as (x & h' & s3' & He & Hx & Hl).
    destruct (held_conditions _ _ _ _ _ _ _ _ _ _ Hh Hcs Hl Hx) as (s' & Hh' & Hl').
    simpl. rewrite (heap_bind _ _ _ _ _ He), Hv. by eexists _, h', s'.
  - destruct (edits_leave _ _ _ _ (remove_in_place h _ _ _ t Hcs)) as (x & h' & s3' & He & Hx & Hl).
    destruct (held_conditions _ _ _ _ _ _ _ _ _ _ Hh Hcs Hl Hx) as (s' & Hh' & Hl').
    simpl. rewrite (heap_bind _ _ _ _ _ He), Hv. by eexists _, h', s'.
Qed.

Lemma edits_ok es h r v s : held h r v s → ∃ r' h' s',
  edit_memories r es h = Some (r', h') ∧ held h' r' (edit_values v es) s' ∧ leaves h h' s s'.
Proof.
  revert h r v s. induction es as [|e es IH]; intros h r v s Hh.
  { exists r, h, s. split; [done|]. split; [done|apply leaves_refl]. }
  destruct (edit_ok h r v s e Hh) as (r1 & h1 & s1 & He & Hh1 & Hl1).
  destruct (IH h1 r1 _ s1 Hh1) as (r2 & h2 & s2 & He2 & Hh2 & Hl2).
  exists r2, h2, s2. simpl. rewrite (heap_bind _ _ _ _ _ He).
  split; [done|]. split; [done|by eapply leaves_trans].
Qed.

Lemma held_grown h h' r v s : h ⊆ h' → held h r v s → held h' r v s.
Proof.
  intros Hsub (ps & s1 & pu & s2 & cs & s3 & Hps & Hpu & Hcs & Hd & Hr & Hs).
  exists ps, s1, pu, s2, cs, s3. split_and!; try done; by eapply repr_grown.
Qed.

(** Any edits after the copy are detected when they change the value. *)
Lemma update_status_mem_ok es h st v s : held h st v s → ∃ st' h' s',
  update_status_mem es st h = Some (negb (bool_decide (v = edit_values v es)), st', h') ∧
  held h' st' (edit_values v es) s'.
Proof.
  intros Hh. pose proof (held_repr _ _ _ _ Hh) as Hr. unfold update_status_mem.
  destruct (new_copy_independent h st v s Hr) as (l & h1 & Hc & Hsub & Hi).
  rewrite (heap_bind _ _ _ _ _ Hc). destruct Hi as (s0 & sp & Hst0 & Hst1 & Hp & Hdis & _ & _).
  rewrite Hr in Hst0. injection Hst0 as <-. pose proof (repr_dom _ _ _ _ Hr) as Hsd.
  destruct (edits_ok es h1 st v s (held_grown _ _ _ _ _ Hsub Hh)) as (st' & h2 & s2 & He & Hh2 & Hl).
  rewrite (heap_bind _ _ _ _ _ He).
  assert (Hp2 : repr h2 (Ptr l) = Some (Some v, sp)) by (eapply leaves_repr; [exact Hl|set_solver|done]).
  rewrite (heap_bind _ _ _ _ _ (changed_ok _ _ _ _ _ _ _ Hp2 (held_repr _ _ _ _ Hh2))).
  by exists st', h2, s2.
Qed.

(** *** The edits of [updateStatus] *)

Lemma quota_edits_value qs latest :
  apply_quota_state qs latest = with_status (edit_values (ad_Status latest) (quota_edits qs latest)) latest.
Proof. by destruct qs, latest. Qed.

Lemma deployment_edits_value dep pullFailure latest :
  apply_deployment_state dep pullFailure latest =
  with_status (edit_values (ad_Status latest) (deployment_edits dep pullFailure latest)) latest.
Proof.
  unfold apply_deployment_state, deployment_edits. destruct pullFailure; [done|].
  destruct (rolloutComplete dep); [|done]. simpl.
  destruct (_ && _), (dep_image dep); done.
Qed.

(** The edits made before the deployment is looked at do not change what its
    edits depend on. *)
Lemma deployment_edits_stable dep pullFailure latest st :
  st_Phase st = st_Phase (ad_Status latest) → st_StableVersion st = st_StableVersion (ad_Status latest) →
  deployment_edits dep pullFailure (with_status st latest) = deployment_edits dep pullFailure latest.
Proof. intros Hp Hs. unfold deployment_edits. simpl. by rewrite Hp, Hs. Qed.

Lemma update_edits_value qs dep pullFailure latest :
  apply_deployment_state dep pullFailure
    (map_status (set_CurrentReplicas (ds_ReadyReplicas (dep_Status dep))) (apply_quota_state qs latest)) =
  with_status (edit_values (ad_Status latest) (update_edits qs dep pullFailure latest)) latest.
Proof.
  rewrite deployment_edits_value, quota_edits_value. unfold map_status.
  repeat change (with_status ?a (with_status ?b ?c)) with (with_status a c).
  rewrite deployment_edits_stable by by destruct qs.
  unfold update_edits, edit_values. rewrite foldl_app. simpl. done.
Qed.

Lemma mcp_edits_value `{!KubeClient W, !Prometheus W, !AgentRegistrar W} r latest w latest' d w' :
  reconcileMCPRegistration (W := W) r latest w = (inr (latest', d), w') →
  ∃ es, Forall mcp_edit es ∧ latest' = with_status (edit_values (ad_Status latest) es) latest.
Proof.
  unfold reconcileMCPRegistration. intros Hr.
  repeat match type of Hr with
  | (if ?b then _ else _) _ = _ => destruct b
  | mbind _ _ _ = _ => apply bind_inr in Hr as (? & ? & _ & Hr)
  | match ?x with inl _ => _ | inr _ => _ end _ = _ => destruct x
  end; injection Hr as <- <- <-.
  all: first
    [ by exists []; destruct latest
    | by exists [ERemoveCondition ConditionMCPHandshakeFailed]; split; [repeat constructor|]
    | by eexists [ERegistered _; ERemoveCondition ConditionMCPHandshakeFailed]; split; [repeat constructor|]
    | by eexists [ERegistered _; condition_edit latest ConditionMCPHandshakeFailed ConditionTrue _ _];
        split; [repeat constructor|]
    | by eexists [condition_edit latest ConditionMCPHandshakeFailed ConditionTrue _ _];
        split; [repeat constructor|]
    | idtac ].
  destruct (is_heartbeat_deregistered _);
    [ eexists [ERegistered false; condition_edit latest ConditionMCPHandshakeFailed ConditionTrue _ _]
    | eexists [condition_edit latest ConditionMCPHandshakeFailed ConditionTrue _ _] ];
    (split; [repeat constructor|reflexivity]).
Qed.

(** C15: the status of an agent is written exactly when it changed.  Run on
    memory, [updateStatus] copies the status it read, makes its edits in place
    (the quota condition, the replicas, the phase, versions and conditions that
    follow from the Deployment, and those of the registration) and then writes
    the status precisely when the value it computed differs from the one it
    read; what it writes is that value. *)
Theorem status_change_detected `{!KubeClient W, !Prometheus W, !AgentRegistrar W} qs dep pullFailure r
    prev latest d st h s (w w' : W) :
  held h st (ad_Status prev) s →
  reconcileMCPRegistration r
    (apply_deployment_state dep pullFailure
      (map_status (set_CurrentReplicas (ds_ReadyReplicas (dep_Status dep))) (apply_quota_state qs prev)))
    w = (inr (latest, d), w') →
  ∃ es, Forall mcp_edit es ∧ ∃ st' h' s',
    update_status_mem (update_edits qs dep pullFailure prev ++ es) st h =
      Some (negb (bool_decide (ad_Status prev = ad_Status latest)), st', h') ∧
    held h' st' (ad_Status latest) s'.
Proof.
  intros Hh (es & Hes & ->)%mcp_edits_value. exists es. split; [done|].
  rewrite update_edits_value. simpl.
  destruct (update_status_mem_ok (update_edits qs dep pullFailure prev ++ es) h st _ s Hh)
    as (st' & h' & s' & Hu & Hh').
  unfold edit_values in Hu, Hh'. rewrite foldl_app in Hu, Hh'. by exists st', h', s'.
Qed.
End detection.

(** ** A concrete memory

    The condition helpers write to the array when the result fits. *)
Module RefConditions.
#[local] Existing Instance Ref.core.
#[local] Existing Instance Ref.conditions.
#[local] Existing Instance RefMemory.reps.
#[local] Existing Instance RefMemory.copies.
#[local] Existing Instance RefMemory.laws.

Definition write (arr : loc) (l : list rCondition) : HM unit := λ h, Some (tt, <[arr := to_cell l]> h).

Definition put (f : list Condition → list Condition) (x : slice rCondition) : HM (slice rCondition) :=
  match x with
  | NilSlice => arr ← alloc (A := list rCondition) (f []); mret (Slice arr 0 (length (f [])))
  | Slice arr off len =>
      l ← reads (λ h, load (A := list rCondition) h arr);
      cs ← reads (λ h, elements (A := rCondition) h arr off len);
      if decide (off + length (f cs) ≤ length l)%nat then
        write arr (take off l ++ f cs ++ drop (off + length (f cs)) l);;
        mret (Slice arr off (length (f cs)))
      else arr' ← alloc (A := list rCondition) (f cs); mret (Slice arr' 0 (length (f cs)))
  end.

Definition memory_conditions : MemoryConditions := {|
  SetStatusCondition_mem x c := put (λ l, SetStatusCondition l c) x;
  RemoveStatusCondition_mem x t := put (λ l, RemoveStatusCondition l t) x |}.

Lemma list_repr_plain (h : heap) (l : list rCondition) : list_repr h l = Some (l, ∅).
Proof.
  induction l as [|c l IH]; [done|].
  transitivity ('(vs, ss) ← list_repr h l; Some (c :: vs, ∅ ∪ ss)); [reflexivity|].
  rewrite IH. simpl. by rewrite (left_id_L ∅ (∪)).
Qed.

Lemma slice_elements (h : heap) arr off len cs s : repr (R := slice rCondition) (V := list Condition) h (Slice arr off len) = Some (cs, s) →
  elements (A := rCondition) h arr off len = Some cs ∧ s = {[ arr ]}.
Proof.
  intros (l & He & Hl)%bind_Some. rewrite list_repr_plain in Hl. simpl in Hl.
  injection Hl as <- <-. split; [done|set_solver].
Qed.

Lemma slice_read (h : heap) arr off len cs : elements (A := rCondition) h arr off len = Some cs →
  repr (R := slice rCondition) (V := list Condition) h (Slice arr off len) = Some (cs, {[ arr ]}).
Proof.
  intros He. transitivity (l ← elements (A := rCondition) h arr off len;
    '(vs, s) ← list_repr h l; Some (vs, {[ arr ]} ∪ s)); [reflexivity|].
  rewrite He. cbn [mbind option_bind]. rewrite list_repr_plain. simpl.
  by rewrite (right_id_L ∅ (∪)).
Qed.

Lemma alloc_in_place (l : list rCondition) (h : heap) s :
  edits_in_place (arr ← alloc l; mret (Slice arr 0 (length l))) h s l.
Proof.
  destruct (alloc_ok l h) as (arr & h' & Ha & Hsub & Hn & Hl).
  eexists _, h', {[ arr ]}. rewrite (heap_bind _ _ _ _ _ Ha). split; [reflexivity|].
  pose proof (load_dom _ _ _ Hl) as Hin. pose proof (subseteq_dom _ _ Hsub) as Hd. split_and!.
  - apply slice_read, alloc_elements, Hl.
  - done.
  - set_solver.
  - intros k Hk _. apply (grown_agrees _ _ (dom h)); [done|set_solver|done].
Qed.

Lemma put_in_place f (x : slice rCondition) (h : heap) (cs : list Condition) s : repr h x = Some (cs, s) → edits_in_place (put f x) h s (f cs).
Proof.
  destruct x as [|arr off len]; intros Hx; [injection Hx as <- <-; apply alloc_in_place|].
  apply slice_elements in Hx as [He ->]. pose proof (elements_dom _ _ _ _ _ He) as Hin.
  pose proof He as (l & Hl & _)%bind_Some. unfold put, edits_in_place.
  rewrite (heap_bind _ _ _ _ _ (reads_ok _ _ _ Hl)), (heap_bind _ _ _ _ _ (reads_ok _ _ _ He)).
  case_decide as Hfit; [|apply alloc_in_place].
  eexists _, _, {[ arr ]}. split; [reflexivity|]. split_and!.
  - apply slice_read. unfold elements, load. rewrite lookup_insert_eq. simpl.
    rewrite !length_app, length_take, length_drop.
    rewrite decide_True by lia. rewrite drop_app_length' by (rewrite length_take; lia).
    by rewrite take_app_length.
  - rewrite dom_insert. set_solver.
  - set_solver.
  - intros k _ Hk. by rewrite lookup_insert_ne by set_solver.
Qed.

Lemma memory_laws : @MemoryConditionsLaws Ref.conditions _ _ _ memory_conditions.
Proof.
  split.
  - intros h x cs s c. apply (put_in_place (λ l, SetStatusCondition l c)).
  - intros h x cs s t. apply (put_in_place (λ l, RemoveStatusCondition l t)).
Qed.
#[local] Existing Instance memory_conditions.
#[local] Existing Instance memory_laws.

(** A tenant that stays over its quota while the numbers change: the condition
    is rewritten in the array it is in. *)
Definition over_condition (msg : string) : Condition :=
  {| c_Type := ConditionOverQuota; c_Status := ConditionTrue; c_Reason := "UsageExceedsQuota";
     c_Message := msg; c_ObservedGeneration := 0 |}.
Definition usage : TenantQuotaStatus :=
  {| tq_UsedAgents := 1; tq_UsedGPUs := 0; tq_UsedTotalReplicas := 9; tq_Conditions := [] |}.
Definition tenant : TenantQuota :=
  {| tq_Meta := new_meta "team" "ns" ∅; tq_Spec := Ref.quota;
     tq_Status := {| tq_UsedAgents := 1; tq_UsedGPUs := 0; tq_UsedTotalReplicas := 9;
                     tq_Conditions := [over_condition "before"] |} |}.
Definition tenant_status : rTenantQuotaStatus :=
  {| r_UsedAgents := 1; r_UsedGPUs := 0; r_UsedTotalReplicas := 9; r_tqConditions := Slice 1%positive 0 1 |}.
Definition tenant_memory : heap := {[ 1%positive := CConditions [over_condition "before"] ]}.

Lemma usage_change_detected_witness :
  ∃ st' h' s', usage_status_mem usage tenant tenant_status tenant_memory = Some (true, st', h') ∧
    repr h' st' = Some (usage_status usage tenant, s').
Proof.
  assert (Hst : repr tenant_memory tenant_status = Some (tq_Status tenant, {[ 1%positive ]}))
    by (vm_compute; reflexivity).
  destruct (usage_change_detected usage tenant tenant_status tenant_memory _ Hst)
    as (st' & h' & s' & Hu & Hr).
  assert (Hb : bool_decide (tq_Status tenant = usage_status usage tenant) = false)
    by (vm_compute; reflexivity).
  rewrite Hb in Hu. exists st', h', s'. split; [exact Hu|exact Hr].
Defined.

(** With an assignment in place of the copy, [prevStatus := latest.Status], the
    same edit is seen through both and the status would not be written. *)
Definition shared_detection : option bool :=
  fst <$> (cs ← put (λ l, SetStatusCondition l (over_condition "after")) (r_tqConditions tenant_status);
           p ← alloc tenant_status;
           changed (Ptr p) {| r_UsedAgents := 1; r_UsedGPUs := 0; r_UsedTotalReplicas := 9;
                              r_tqConditions := cs |}) tenant_memory.

Example shared_array_hides_change : shared_detection = Some false.
Proof. vm_compute. reflexivity. Qed.

(** A running agent whose status is in memory. *)
Definition agent_memory : heap := {[ 1%positive := CConditions (st_Conditions (ad_Status running_agent)) ]}.
Definition agent_status_mem : rAgentDeploymentStatus :=
  let st := ad_Status running_agent in
  {| r_Phase := st_Phase st; r_CurrentReplicas := st_CurrentReplicas st;
     r_StableVersion := st_StableVersion st; r_CanaryVersion := st_CanaryVersion st;
     r_CanaryWeight := st_CanaryWeight st; r_CanaryStepIndex := st_CanaryStepIndex st;
     r_PauseStartedAt := None; r_PromUnreachableSince := None; r_Registered := st_Registered st;
     r_Conditions := Slice 1%positive 0 (length (st_Conditions st)) |}.

Lemma agent_held : held agent_memory agent_status_mem (ad_Status running_agent) {[ 1%positive ]}.
Proof.
  exists None, ∅, None, ∅, [], {[ 1%positive ]}.
  assert (Hc : repr agent_memory (r_Conditions agent_status_mem) = Some ([] : list Condition, {[ 1%positive ]}))
    by (apply slice_read; vm_compute; reflexivity).
  split; [reflexivity|]. split; [reflexivity|]. split; [exact Hc|]. split; [set_solver|].
  split; [|set_solver].
  unfold repr, AgentDeploymentStatus_DeepCopyable, AgentDeploymentStatus_repr. rewrite Hc.
  reflexivity.
Qed.

Lemma status_change_detected_witness :
  ∃ latest es st' h' s', Forall mcp_edit es ∧
    update_status_mem (update_edits quotaStateUncapped demo_stable None running_agent ++ es)
      agent_status_mem agent_memory =
      Some (negb (bool_decide (ad_Status running_agent = ad_Status latest)), st', h') ∧
    held h' st' (ad_Status latest) s'.
Proof.
  destruct (ok_run (reconcileMCPRegistration demo_reconciler
    (apply_deployment_state demo_stable None
      (map_status (set_CurrentReplicas (ds_ReadyReplicas (dep_Status demo_stable)))
        (apply_quota_state quotaStateUncapped running_agent)))) (agent_world running_agent))
    as [[latest d] E]; [vm_compute; reflexivity|].
  destruct (status_change_detected quotaStateUncapped demo_stable None demo_reconciler running_agent
    latest d agent_status_mem agent_memory {[ 1%positive ]} _ _ agent_held E)
    as (es & Hes & st' & h' & s' & Hu & Hh').
  exists latest, es, st', h', s'. split; [exact Hes|]. split; [exact Hu|exact Hh'].
Defined.
End RefConditions.
