(* ===== verification/Schema.v ===== *)
(** The schema of the API types and what the operator does to it.

    The markers on the structs of [src/api/v1alpha1] ([Minimum], [Maximum],
    [Enum], [MinLength]) are the validation the API server applies to every
    write; here they are decidable predicates.  The theorems show that the
    operator never writes a status the schema refuses, whatever happens in
    between, that what the schema and the webhook let through never takes the
    malformed branches of the rollout, and that a reconcile never panics. *)
From S2P Require Import Prelude Types Objects Scaling GoFloat Enforcer Cluster PromQL Registry Registrar RefWorld.
From S2P Require Import Webhook Canary CanaryProps AgentReconciler AgentReconcilerProps.

(** ** The markers *)

Definition within (lo hi z : Z) : bool := (lo <=? z) && (z <=? hi).

(** [omitempty]: a zero value is left out and not validated. *)
Definition omitempty_within (lo hi z : Z) : bool := (z =? 0) || within lo hi z.

Definition one_of (l : list string) (s : string) : bool := bool_decide (s ∈ l).
Definition omitempty_one_of (l : list string) (s : string) : bool := (s =s? "") || one_of l s.

Definition ScalingPolicy_schema (p : ScalingPolicy) : bool :=
  within 1 MaxInt32 (sp_Min p) && within 1 MaxInt32 (sp_Max p) &&
  one_of ["queueDepth"; "gpuUtilization"] (sp_Metric p) && within 1 MaxInt32 (sp_Target p).

Definition CanaryStep_schema (s : CanaryStep) : bool :=
  match cs_SetWeight s with Some w => within 0 100 w | None => true end.

Definition RollbackPolicy_schema (p : RollbackPolicy) : bool :=
  omitempty_within 1 MaxInt32 (rb_MaxP99LatencyMs p) && omitempty_within 1 MaxInt32 (rb_MinRequestSample p).

Definition RolloutPolicy_schema (p : RolloutPolicy) : bool :=
  omitempty_one_of ["Recreate"; "Canary"] (ro_Strategy p) && forallb CanaryStep_schema (ro_Steps p) &&
  RollbackPolicy_schema (ro_Rollback p).

Definition AgentDeploymentSpec_schema `{CoreTypes} (s : AgentDeploymentSpec) : bool :=
  negb (spec_Image s =s? "") && omitempty_within 1 65535 (spec_Port s) &&
  negb (spec_TenantRef s =s? "") && ScalingPolicy_schema (spec_Replicas s) &&
  RolloutPolicy_schema (spec_Rollout s).

Definition phases : list string :=
  [PhasePending; PhaseRunning; PhaseRolloutInProgress; PhaseRolloutFailed; PhaseDegraded].

(** The status has one marker, the [Enum] of the phase. *)
Definition AgentDeploymentStatus_schema (s : AgentDeploymentStatus) : bool :=
  omitempty_one_of phases (st_Phase s).

Definition TenantQuotaSpec_schema (s : TenantQuotaSpec) : bool :=
  within 1 MaxInt32 (tq_MaxAgents s) && within 0 MaxInt32 (tq_MaxGPUs s) &&
  within 1 MaxInt32 (tq_MaxTotalReplicas s) && within 1 MaxInt32 (tq_MaxReplicasPerAgent s).

(** ** What an AgentDeployment in the cluster looks like

    The schema of its spec and status, and in the status a weight and a step
    index that a rollout can have. *)
Section agents.
Context `{CoreTypes}.

Definition status_ok (s : AgentDeploymentStatus) : bool :=
  AgentDeploymentStatus_schema s && within 0 100 (st_CanaryWeight s) && (0 <=? st_CanaryStepIndex s).

(** A pause of zero is let through by schema and webhook. *)
Definition zero_pause (s : CanaryStep) : bool :=
  match cs_Pause s with Some d => d =? 0 | None => false end.
Definition no_zero_pause (s : AgentDeploymentSpec) : bool :=
  negb (existsb zero_pause (ro_Steps (spec_Rollout s))).

Definition agent_ok (ad : AgentDeployment) : bool :=
  AgentDeploymentSpec_schema (ad_Spec ad) && no_zero_pause (ad_Spec ad) && status_ok (ad_Status ad).
End agents.

(** ** Panics *)

(** The error a panic of [Canary.panic] ends in, also wrapped. *)
Fixpoint is_panic (e : error) : bool :=
  match e with
  | PlainError m => has_prefix "panic: " m
  | Wrapped _ es => existsb is_panic es
  | _ => false
  end.

Lemma is_panic_Errorf ctx e : is_panic (Errorf ctx e) = is_panic e.
Proof. simpl. apply orb_false_r. Qed.

(** The libraries report errors and do not panic; [CreateOrUpdate] may pass on
    an error of its mutate function. *)
Class NoPanics `{KubeClient W, !Prometheus W, !AgentRegistrar W} : Prop := {
  kube_get_np k w e w' : kube_get k w = (inl e, w') → is_panic e = false;
  kube_list_np kd ns w e w' : kube_list kd ns w = (inl e, w') → is_panic e = false;
  kube_create_np o w e w' : kube_create o w = (inl e, w') → is_panic e = false;
  kube_update_np o w e w' : kube_update o w = (inl e, w') → is_panic e = false;
  kube_status_update_np o w e w' : kube_status_update o w = (inl e, w') → is_panic e = false;
  kube_delete_np o w e w' : kube_delete o w = (inl e, w') → is_panic e = false;
  kube_create_or_update_np o f w e w' : kube_create_or_update o f w = (inl e, w') →
    (∀ x e', f x = inl e' → is_panic e' = false) → is_panic e = false;
  set_controller_reference_np ad m e : set_controller_reference ad m = inl e → is_panic e = false;
  QueryScalar_np q w e w' : QueryScalar q w = (inl e, w') → is_panic e = false;
  Register_np ad w e w' : Register ad w = (inl e, w') → is_panic e = false;
  Deregister_np ad w e w' : Deregister ad w = (inl e, w') → is_panic e = false;
  Heartbeat_np ad w e w' : Heartbeat ad w = (inl e, w') → is_panic e = false;
}.

(** ** Safe runs *)
Section safe.
Context `{CoreTypes, ConditionsAPI, KubeClient W, !Prometheus W, !AgentRegistrar W}.
Implicit Types (w : W).

(** Every AgentDeployment of the cluster is as above. *)
Definition cluster_ok w : Prop :=
  ∀ k ad, store w !! (KAgentDeployment, k) = Some (OAgentDeployment ad) → agent_ok ad = true.

(** A procedure that keeps the cluster so, whether it fails or not, fails
    without a panic, and returns only values that satisfy [Q]. *)
Definition safe {A} (m : Proc W A) (Q : A → Prop) : Prop := ∀ w r w',
  cluster_ok w → m w = (r, w') →
  cluster_ok w' ∧ match r with inr a => Q a | inl e => is_panic e = false end.
End safe.

Section safe_rules.
Context `{KubeLaws, !ConditionsAPI, !Prometheus W, !AgentRegistrar W, !NoPanics, !PrometheusLaws,
  !AgentRegistrarLaws}.
Implicit Types (w : W).

Lemma safe_ret {A} (a : A) Q : Q a → safe (mret a) Q.
Proof. intros HQ w r w' Hw [= <- <-]. done. Qed.

Lemma safe_fail {A} e (Q : A → Prop) : is_panic e = false → safe (fail e) Q.
Proof. intros He w r w' Hw [= <- <-]. done. Qed.

Lemma safe_bind {A B} (m : Proc W A) (f : A → Proc W B) P Q :
  safe m P → (∀ a, P a → safe (f a) Q) → safe (m ≫= f) Q.
Proof.
  intros Hm Hf w r w' Hw. unfold mbind, Proc_bind. destruct (m w) as [[e|a] w1] eqn:E.
  - intros [= <- <-]. exact (Hm w _ _ Hw E).
  - apply Hm in E as [Hw1 HP]; [|done]. by apply Hf.
Qed.

Lemma safe_mono {A} (m : Proc W A) (P Q : A → Prop) : safe m P → (∀ a, P a → Q a) → safe m Q.
Proof.
  intros Hm HPQ w r w' Hw Hr. destruct (Hm w r w' Hw Hr) as [? Hq]. split; [done|].
  destruct r; auto.
Qed.

Lemma safe_wrap {A} ctx (m : Proc W A) Q : safe m Q → safe (m <?> ctx) Q.
Proof.
  intros Hm w r w' Hw. unfold wrap_err. destruct (m w) as [[e|a] w1] eqn:E; intros [= <- <-];
    destruct (Hm w _ _ Hw E) as [? Hq]; split; try done. by rewrite is_panic_Errorf.
Qed.

Lemma safe_try {A} (m : Proc W A) Q :
  safe m Q → safe (try m) (λ x, match x with inr a => Q a | inl e => is_panic e = false end).
Proof.
  intros Hm w r w' Hw. unfold try. destruct (m w) as [x w1] eqn:E. intros [= <- <-].
  by destruct (Hm w _ _ Hw E).
Qed.

Lemma safe_lift {A} (x : error + A) Q :
  match x with inr a => Q a | inl e => is_panic e = false end → safe (lift_sum x) Q.
Proof. intros Hx w r w' Hw [= <- <-]. done. Qed.

(** A call that leaves the AgentDeployments alone. *)
Lemma safe_frame {A} (m : Proc W A) Q :
  (∀ w r w', m w = (r, w') → ∀ k, store w' !! (KAgentDeployment, k) = store w !! (KAgentDeployment, k)) →
  (∀ w e w', m w = (inl e, w') → is_panic e = false) →
  (∀ w a w', m w = (inr a, w') → cluster_ok w → Q a) → safe m Q.
Proof.
  intros Hf He Hq w r w' Hw Hr. split.
  - intros k ad Hk. rewrite (Hf _ _ _ Hr) in Hk. by apply (Hw k).
  - destruct r; eauto.
Qed.

(** *** The typed calls *)

Lemma of_object_np {A} `{!Resource A} (o : Object) w e w' :
  of_object (A := A) o w = (inl e, w') → is_panic e = false.
Proof. unfold of_object. destruct (prj o); intros [= <- <-]; done. Qed.

Section typed.
Context {A : Type} `{!Resource A}.

Lemma Get_np k w e w' : Get (A := A) k w = (inl e, w') → is_panic e = false.
Proof. unfold Get. intros [Hg|(o & w1 & Hg & Ho)]%bind_inl; [by eapply kube_get_np|exact (of_object_np _ _ _ _ Ho)]. Qed.

Lemma safe_Get k : safe (Get (A := A) k) (λ _, True).
Proof.
  apply safe_frame; [|apply Get_np|done]. intros w r w' Hg k'. by rewrite (Get_store _ _ _ _ Hg).
Qed.

Lemma safe_get_opt k ctx : safe (get_opt (A := A) k ctx) (λ _, True).
Proof.
  unfold get_opt. eapply safe_bind; [apply safe_try, safe_Get|].
  intros [e|a] Hx; [|by apply safe_ret]. simpl in Hx.
  destruct (IsNotFound e); [by apply safe_ret|]. apply safe_fail. by rewrite is_panic_Errorf.
Qed.

Lemma safe_List ns : safe (List (A := A) ns) (λ _, True).
Proof.
  apply safe_frame; [| |done].
  - intros w r w' Hl k. unfold List in Hl. destruct r as [e|l].
    + apply bind_inl in Hl as [Hl|(? & ? & _ & Hl)]; [|done]. by apply kube_list_spec in Hl as [-> _].
    + by apply List_inr in Hl as [-> _].
  - intros w e w' Hl. unfold List in Hl. apply bind_inl in Hl as [Hl|(? & ? & _ & Hl)]; [|done].
    by eapply kube_list_np.
Qed.

(** Writes to objects of other kinds. *)
Context (other_kind : kind (A := A) ≠ KAgentDeployment).

Lemma other_key (a : A) k : rkey a ≠ (KAgentDeployment, k).
Proof. rewrite rkey_eq. intros [= Hk _]. by apply other_kind. Qed.

Lemma safe_Update (a : A) : safe (Update a) (λ _, True).
Proof.
  apply safe_frame; [| |done].
  - intros w [e|a'] w' Hu k; [by rewrite (Update_inl _ _ _ _ Hu)|].
    apply Update_inr in Hu as (old & rv & gen & _ & _ & _ & ->). pose proof (other_key a k).
    case_match; [by rewrite lookup_delete_ne|by rewrite lookup_insert_ne].
  - intros w e w' [Hu|(o & w1 & _ & Ho)]%bind_inl; [by eapply kube_update_np|exact (of_object_np _ _ _ _ Ho)].
Qed.

Lemma safe_Create (a : A) : safe (Create a) (λ _, True).
Proof.
  apply safe_frame; [| |done].
  - intros w [e|a'] w' Hu k; [by rewrite (Create_inl _ _ _ _ Hu)|].
    apply Create_inr in Hu as (_ & rv & gen & _ & _ & ->). by rewrite lookup_insert_ne by apply other_key.
  - intros w e w' [Hu|(o & w1 & _ & Ho)]%bind_inl; [by eapply kube_create_np|exact (of_object_np _ _ _ _ Ho)].
Qed.

Lemma safe_Delete (a : A) : safe (Delete a) (λ _, True).
Proof.
  apply safe_frame; [| |done].
  - intros w r w' Hd k. unfold Delete in Hd. apply kube_delete_spec in Hd.
    destruct r as [e|[]]; [by destruct Hd as [-> _]|]. destruct Hd as [Hf _]. apply Hf.
    apply not_eq_sym, other_key.
  - intros w e w'. apply kube_delete_np.
Qed.

Lemma safe_delete_tolerant (a : A) ctx : safe (delete_tolerant a ctx) (λ _, True).
Proof.
  unfold delete_tolerant. eapply safe_bind; [apply safe_try, safe_Delete|].
  intros [e|[]] Hx; [|by apply safe_ret]. simpl in Hx.
  destruct (IsNotFound e); [by apply safe_ret|]. apply safe_fail. by rewrite is_panic_Errorf.
Qed.

Lemma safe_get_and_delete k c1 c2 : safe (get_and_delete A k c1 c2) (λ _, True).
Proof.
  unfold get_and_delete. eapply safe_bind; [apply safe_get_opt|]. intros [a|] _;
    [apply safe_delete_tolerant|by apply safe_ret].
Qed.

Lemma safe_CreateOrUpdate (a : A) f :
  (∀ x e, f x = inl e → is_panic e = false) → safe (CreateOrUpdate a f) (λ _, True).
Proof.
  intros Hf. apply safe_frame; [| |done].
  - intros w [e|[]] w' Hu k; [by rewrite (CreateOrUpdate_inl _ _ _ _ _ Hu)|].
    apply CreateOrUpdate_inr in Hu as (base & b & rv & gen & _ & _ & _ & _ & ->).
    by rewrite lookup_insert_ne by apply other_key.
  - intros w e w' Hu. unfold CreateOrUpdate in Hu. eapply kube_create_or_update_np; [exact Hu|].
    intros o e' Hx. cbv beta in Hx. destruct (prj o) as [x|]; [|injection Hx as <-; done].
    destruct (f x) eqn:Hfx; [|done]. injection Hx as <-. by eapply Hf.
Qed.
End typed.

Lemma SetControllerReference_np {A} `{!Resource A} ad (a : A) e :
  SetControllerReference ad a = inl e → is_panic e = false.
Proof.
  unfold SetControllerReference. destruct (set_controller_reference _ _) eqn:E; [|done].
  intros [= <-]. by eapply set_controller_reference_np.
Qed.

Lemma own_np {A} `{!Resource A} ad (a : A) e : own ad a = inl e → is_panic e = false.
Proof.
  unfold own. destruct (SetControllerReference ad a) as [e0|] eqn:E; [|done]. intros [= <-].
  rewrite is_panic_Errorf. by eapply SetControllerReference_np.
Qed.

(** The calls on AgentDeployments. *)
Lemma safe_Get_ad k : safe (Get (A := AgentDeployment) k) (λ ad, agent_ok ad = true).
Proof.
  apply safe_frame; [|apply Get_np|].
  - intros w r w' Hg k'. by rewrite (Get_store _ _ _ _ Hg).
  - intros w ad w' [_ Hg]%Get_inr Hw. by apply (Hw k).
Qed.

Lemma safe_get_opt_ad k ctx :
  safe (get_opt (A := AgentDeployment) k ctx)
    (λ o, match o with Some ad => agent_ok ad = true | None => True end).
Proof.
  unfold get_opt. eapply safe_bind; [apply safe_try, safe_Get_ad|].
  intros [e|a] Hx; [|by apply safe_ret]. simpl in Hx.
  destruct (IsNotFound e); [by apply safe_ret|]. apply safe_fail. by rewrite is_panic_Errorf.
Qed.

Lemma safe_StatusUpdate_ad (ad : AgentDeployment) : status_ok (ad_Status ad) = true →
  safe (StatusUpdate ad) (λ ad', agent_ok ad' = true ∧ ad_Status ad' = wire_status (ad_Status ad)).
Proof.
  intros Hst w r w' Hw Hr. destruct r as [e|ad'].
  - split; [intros k x Hk; rewrite (StatusUpdate_inl _ _ _ _ Hr) in Hk; by apply (Hw k)|].
    change (is_panic e = false). apply bind_inl in Hr as [Hu|(o & w1 & _ & Ho)]; [by eapply kube_status_update_np|exact (of_object_np _ _ _ _ Ho)].
  - apply StatusUpdate_inr in Hr as (old & rv & Hold & _ & -> & Hs).
    assert (Hok : agent_ok old = true).
    { rewrite rkey_eq in Hold. by apply (Hw _ _ Hold). }
    assert (Hnew : agent_ok (res_stamp rv (om_Generation (res_meta old)) (res_take old ad)) = true).
    { unfold agent_ok in Hok. apply andb_true_iff in Hok as [Hok _].
      change (AgentDeploymentSpec_schema (ad_Spec old) && no_zero_pause (ad_Spec old) &&
        status_ok (ad_Status ad) = true). by rewrite Hok, Hst. }
    split; [|split; [exact Hnew|reflexivity]]. intros k x Hk. rewrite Hs in Hk.
    apply lookup_insert_Some in Hk as [[_ [= <-]]|[_ Hk]]; [done|by apply (Hw k)].
Qed.

Lemma safe_Update_ad (ad : AgentDeployment) : agent_ok ad = true → safe (Update ad) (λ _, True).
Proof.
  intros Had w r w' Hw Hr. destruct r as [e|ad'].
  - split; [intros k x Hk; rewrite (Update_inl _ _ _ _ Hr) in Hk; by apply (Hw k)|].
    change (is_panic e = false). apply bind_inl in Hr as [Hu|(o & w1 & _ & Ho)]; [by eapply kube_update_np|exact (of_object_np _ _ _ _ Ho)].
  - apply Update_inr in Hr as (old & rv & gen & Hold & _ & -> & Hs).
    assert (Hok : agent_ok old = true).
    { rewrite rkey_eq in Hold. by apply (Hw _ _ Hold). }
    assert (Hnew : agent_ok (res_stamp rv gen (res_keep old ad)) = true).
    { unfold agent_ok in Hok, Had. apply andb_true_iff in Hok as [_ Hok], Had as [Had _].
      change (AgentDeploymentSpec_schema (ad_Spec ad) && no_zero_pause (ad_Spec ad) &&
        status_ok (ad_Status old) = true). by rewrite Had, Hok. }
    split; [|done]. intros k x Hk. rewrite Hs in Hk.
    case_match; [apply lookup_delete_Some in Hk as [_ Hk]; by apply (Hw k)|].
    apply lookup_insert_Some in Hk as [[_ [= <-]]|[_ Hk]]; [done|by apply (Hw k)].
Qed.

(** *** The rollout *)

Lemma safe_any {A} (m : Proc W A) Q : safe m Q → safe m (λ _, True).
Proof. intros Hm. by apply (safe_mono m Q). Qed.

(** Sequencing when the result does not matter. *)
Lemma safe_seq {A B} (m : Proc W A) (f : A → Proc W B) Q :
  safe m (λ _, True) → (∀ a, safe (f a) Q) → safe (m ≫= f) Q.
Proof. intros Hm Hf. eapply safe_bind; [exact Hm|]. intros a _. apply Hf. Qed.

Lemma safe_ensureCanaryDeployment ad : safe (ensureCanaryDeployment ad) (λ _, True).
Proof. apply safe_wrap, safe_CreateOrUpdate; [done|]. intros x e. apply own_np. Qed.

Lemma safe_ensureCanaryService ad : safe (ensureCanaryService ad) (λ _, True).
Proof. apply safe_wrap, safe_CreateOrUpdate; [done|]. intros x e. apply own_np. Qed.

Lemma safe_restoreHPA ad : safe (restoreHPA ad) (λ _, True).
Proof. apply safe_wrap, safe_CreateOrUpdate; [done|]. intros x e. apply own_np. Qed.

Lemma safe_ensureHTTPRoute c ad sw cw : safe (ensureHTTPRoute c ad sw cw) (λ _, True).
Proof.
  assert (Hown : ∀ (x : HTTPRoute), safe (lift_sum (SetControllerReference ad x)) (λ _, True)).
  { intros x. apply safe_lift. destruct (SetControllerReference ad x) eqn:E; [|done].
    exact (SetControllerReference_np _ _ _ E). }
  eapply safe_seq; [apply safe_get_opt|]. intros [existing|].
  - eapply safe_seq; [apply safe_wrap, Hown|]. intros x. case_bool_decide; [by apply safe_ret|].
    eapply safe_seq; [by apply safe_wrap, safe_Update|]. intros _. by apply safe_ret.
  - eapply safe_seq; [apply safe_wrap, Hown|]. intros x.
    eapply safe_seq; [by apply safe_wrap, safe_Create|]. intros _. by apply safe_ret.
Qed.

Lemma safe_restore_stable ad : safe (restore_stable ad) (λ _, True).
Proof.
  unfold restore_stable. case_match; [by apply safe_ret|].
  eapply safe_seq; [apply safe_get_opt|]. intros [dep|]; [|by apply safe_ret].
  destruct (dep_Containers dep); [by apply safe_ret|].
  eapply safe_seq; [by apply safe_wrap, safe_Update|]. intros _. by apply safe_ret.
Qed.

Lemma status_ok_of ad : agent_ok ad = true → status_ok (ad_Status ad) = true.
Proof. unfold agent_ok. by intros [_ ?]%andb_true_iff. Qed.

Lemma status_ok_inv s : status_ok s = true →
  AgentDeploymentStatus_schema s = true ∧ 0 ≤ st_CanaryWeight s ≤ 100 ∧ 0 ≤ st_CanaryStepIndex s.
Proof. unfold status_ok, within. intros Hs. zbool. done. Qed.

Lemma rollback_status_ok ad latest reason message :
  status_ok (rollback_status ad latest reason message) = true.
Proof.
  unfold status_ok, AgentDeploymentStatus_schema, rollback_status. by destruct (_ =s? "").
Qed.

Lemma promote_status_ok ad latest : status_ok (promote_status ad latest) = true.
Proof. reflexivity. Qed.

Lemma safe_Rollback ad reason message : safe (Rollback ad reason message) (λ _, True).
Proof.
  unfold Rollback.
  eapply safe_seq; [apply safe_restore_stable|]. intros _.
  do 3 (eapply safe_seq; [by apply safe_wrap, safe_get_and_delete|]; intros _).
  eapply safe_seq; [apply safe_wrap, safe_restoreHPA|]. intros _.
  eapply safe_seq; [apply safe_wrap, safe_Get|]. intros latest.
  eapply safe_bind; [apply safe_wrap, safe_StatusUpdate_ad, rollback_status_ok|]. intros _ _.
  by apply safe_ret.
Qed.

(** The registrar writes ConfigMaps only. *)
Lemma safe_registrar {A} (m : Proc W A) :
  (∀ w r w', m w = (r, w') → only_configmaps w w') →
  (∀ w e w', m w = (inl e, w') → is_panic e = false) → safe m (λ _, True).
Proof. intros Hf He. apply safe_frame; [|done|done]. intros w r w' Hr k. by apply (Hf _ _ _ Hr). Qed.

Lemma safe_Register ad : safe (Register ad) (λ _, True).
Proof. apply safe_registrar; intros ???; [apply Register_frame|apply Register_np]. Qed.
Lemma safe_Deregister ad : safe (Deregister ad) (λ _, True).
Proof. apply safe_registrar; intros ???; [apply Deregister_frame|apply Deregister_np]. Qed.
Lemma safe_Heartbeat ad : safe (Heartbeat ad) (λ _, True).
Proof. apply safe_registrar; intros ???; [apply Heartbeat_frame|apply Heartbeat_np]. Qed.

Lemma safe_reregister c latest : agent_ok latest = true → safe (reregister c latest) (λ _, True).
Proof.
  intros Hok. unfold reregister. case_match; [|by apply safe_ret].
  eapply safe_bind; [apply safe_try, safe_Register|]. intros [e|[]] _; [by apply safe_ret|].
  case_match; [by apply safe_ret|].
  eapply safe_bind; [|intros _ _; by apply safe_ret].
  apply safe_try, safe_StatusUpdate_ad. by apply status_ok_of in Hok.
Qed.

Lemma safe_promote c ad : safe (promote c ad) (λ _, True).
Proof.
  unfold promote. case_match; [by apply safe_fail|].
  eapply safe_seq; [apply safe_wrap, safe_Get|]. intros dep.
  eapply safe_seq; [by apply safe_wrap, safe_Update|]. intros _.
  do 3 (eapply safe_seq; [by apply safe_wrap, safe_get_and_delete|]; intros _).
  eapply safe_seq; [apply safe_wrap, safe_restoreHPA|]. intros _.
  eapply safe_seq; [apply safe_wrap, safe_Get|]. intros latest.
  eapply safe_bind; [apply safe_wrap, safe_StatusUpdate_ad, promote_status_ok|]. intros x [Hx _].
  by apply safe_reregister.
Qed.

Lemma safe_executeSetWeight c ad idx weight : 0 ≤ idx → within 0 100 weight = true →
  safe (executeSetWeight c ad idx weight) (λ _, True).
Proof.
  intros Hidx Hw. unfold executeSetWeight. cbv zeta.
  eapply safe_seq; [apply safe_wrap, safe_ensureCanaryDeployment|]. intros _.
  eapply safe_seq; [apply safe_wrap, safe_ensureCanaryService|]. intros _.
  eapply safe_seq; [apply safe_wrap, safe_ensureHTTPRoute|]. intros _.
  eapply safe_bind; [apply safe_wrap, safe_Get_ad|]. intros latest Hok.
  eapply safe_bind; [apply safe_wrap, safe_StatusUpdate_ad|intros _ _; by apply safe_ret].
  apply status_ok_of, status_ok_inv in Hok as (Hs & _ & _). unfold status_ok. simpl.
  rewrite Hw, andb_true_r. apply andb_true_iff. split; [exact Hs|]. apply Z.leb_le. lia.
Qed.

Lemma promDuration_np d e : promDuration d = inl e → is_panic e = false.
Proof. unfold promDuration. repeat case_match; intros [= <-]; done. Qed.

Lemma safe_QueryScalar q : safe (QueryScalar q) (λ _, True).
Proof.
  apply safe_frame; [|apply QueryScalar_np|done]. intros w r w' Hq k. by rewrite (QueryScalar_store _ _ _ _ Hq).
Qed.

Lemma safe_build_query q ctx : (∀ e, q = inl e → is_panic e = false) → safe (build_query q ctx) (λ _, True).
Proof. intros Hq. apply safe_wrap. intros w r w' Hw [= <- <-]. split; [done|]. destruct q; auto. Qed.

Lemma safe_Evaluate ad window : safe (Evaluate ad window) (λ _, True).
Proof.
  unfold Evaluate. cbv zeta.
  assert (Hq : ∀ (q : string → string) e, match promDuration window with
    | inl err => inl err | inr d => inr (q d) end = inl e → is_panic e = false).
  { intros q e. destruct (promDuration window) eqn:E; [|done]. intros [= <-]. by eapply promDuration_np. }
  eapply safe_seq; [apply safe_build_query; intros e; apply Hq|]. intros q1.
  eapply safe_seq; [apply safe_wrap, safe_QueryScalar|]. intros n.
  destruct (f64_lt n _); [by apply safe_ret|].
  eapply safe_seq; [apply safe_build_query; intros e; apply Hq|]. intros q2.
  eapply safe_seq; [apply safe_wrap, safe_QueryScalar|]. intros rate.
  destruct (ParseErrorRate _); [by apply safe_ret|]. destruct (f64_gt rate _); [by apply safe_ret|].
  eapply safe_seq; [apply safe_build_query; intros e; apply Hq|]. intros q3.
  eapply safe_seq; [apply safe_wrap, safe_QueryScalar|]. intros p99.
  destruct (f64_gt p99 _); by apply safe_ret.
Qed.

Lemma safe_prom_unreachable c latest now : agent_ok latest = true →
  safe (prom_unreachable c latest now) (λ _, True).
Proof.
  intros Hok. unfold prom_unreachable.
  eapply (safe_bind _ _ (λ p, is_Some (st_PromUnreachableSince (ad_Status p.1)))).
  - destruct (st_PromUnreachableSince (ad_Status latest)) as [t|] eqn:E; [by apply safe_ret|].
    eapply safe_bind; [apply safe_wrap, safe_StatusUpdate_ad; by apply status_ok_of in Hok|].
    intros x [_ Hx]. apply safe_ret. simpl. rewrite Hx. by eexists.
  - intros [x t] [since Hs]. simpl in Hs. rewrite Hs. case_match; [|by apply safe_ret].
    eapply safe_seq; [apply safe_Rollback|]. intros _. by apply safe_ret.
Qed.

Lemma safe_clear_unreachable latest : agent_ok latest = true →
  safe (clear_unreachable latest) (λ x, agent_ok x = true).
Proof.
  intros Hok. unfold clear_unreachable. case_match; [|by apply safe_ret].
  eapply safe_mono; [apply safe_wrap, safe_StatusUpdate_ad; by apply status_ok_of in Hok|].
  by intros x [? _].
Qed.

Lemma safe_finish_pause latest idx elapsed duration : 0 ≤ idx → agent_ok latest = true →
  safe (finish_pause latest idx elapsed duration) (λ _, True).
Proof.
  intros Hidx Hok. unfold finish_pause. case_match; [by apply safe_ret|].
  eapply safe_bind; [apply safe_wrap, safe_StatusUpdate_ad|intros _ _; by apply safe_ret].
  apply status_ok_of, status_ok_inv in Hok as (Hs & Hw & _). unfold status_ok, within. simpl.
  rewrite !andb_true_iff. split_and!; [exact Hs|..]; apply Z.leb_le; lia.
Qed.

Lemma safe_executePause c ad idx duration : 0 ≤ idx → duration ≠ 0 →
  safe (executePause c ad idx duration) (λ _, True).
Proof.
  intros Hidx Hd. unfold executePause.
  eapply (safe_seq Now); [intros w r w' Hw [= <- <-]; done|]. intros now.
  eapply safe_bind; [apply safe_wrap, safe_Get_ad|]. intros latest Hok.
  destruct (st_PauseStartedAt (ad_Status latest)) as [started|].
  - cbv zeta. eapply safe_seq; [eapply safe_any, safe_try, safe_Evaluate|].
    intros [e|result]; [by apply safe_prom_unreachable|].
    eapply safe_bind; [by apply safe_clear_unreachable|]. intros x Hx.
    destruct (ev_ThresholdBreached result).
    { eapply safe_seq; [apply safe_Rollback|]. intros _. by apply safe_ret. }
    destruct (ev_SampleTooSmall result); [|by apply safe_finish_pause].
    eapply safe_bind; [apply safe_wrap, safe_StatusUpdate_ad; by apply status_ok_of in Hx|].
    intros y [Hy _]. destruct (_ <? maxWait duration); [|by apply safe_finish_pause].
    apply Z.eqb_neq in Hd. rewrite Hd. by apply safe_ret.
  - eapply safe_bind; [apply safe_wrap, safe_StatusUpdate_ad; by apply status_ok_of in Hok|].
    intros _ _. by apply safe_ret.
Qed.

(** Schema and status leave no malformed step. *)
Lemma steps_ok ad idx step : agent_ok ad = true →
  ro_Steps (spec_Rollout (ad_Spec ad)) !! idx = Some step →
  CanaryStep_schema step = true ∧ zero_pause step = false.
Proof.
  unfold agent_ok, AgentDeploymentSpec_schema, RolloutPolicy_schema, no_zero_pause.
  rewrite !andb_true_iff. intros Hok Hs%list_elem_of_lookup_2.
  destruct Hok as [[[_ [[_ Hf] _]] Hz] _]. rewrite forallb_forall in Hf.
  apply list_elem_of_In in Hs. split; [by apply Hf|].
  apply negb_true_iff in Hz. destruct (zero_pause step) eqn:E; [|done].
  assert (existsb zero_pause (ro_Steps (spec_Rollout (ad_Spec ad))) = true) by (apply existsb_exists; eauto).
  congruence.
Qed.

Lemma safe_Step c ad : agent_ok ad = true → safe (Step c ad) (λ _, True).
Proof.
  intros Hok. unfold Step. eapply safe_seq; [unfold self_heal; apply safe_seq|].
  - case_match; [by apply safe_ret|].
    eapply safe_seq; [apply safe_wrap, safe_ensureCanaryDeployment|]. intros _.
    apply safe_wrap, safe_ensureCanaryService.
  - intros _. case_match; [apply safe_wrap, safe_ensureHTTPRoute|by apply safe_ret].
  - intros _. cbv zeta. destruct (status_ok_inv _ (status_ok_of _ Hok)) as (_ & _ & Hidx).
    destruct (_ <=? st_CanaryStepIndex (ad_Status ad)) eqn:Hlen.
    { eapply safe_seq; [apply safe_promote|]. intros _. by apply safe_ret. }
    rewrite (proj2 (Z.ltb_ge _ _) Hidx). apply Z.leb_gt in Hlen.
    destruct (ro_Steps (spec_Rollout (ad_Spec ad)) !! _) as [step|] eqn:Hs.
    2: { apply lookup_ge_None in Hs. lia. }
    apply steps_ok in Hs as [Hw Hz]; [|done]. unfold CanaryStep_schema, zero_pause in *.
    destruct (cs_SetWeight step) as [weight|]; [by apply safe_executeSetWeight|].
    destruct (cs_Pause step) as [pause|].
    + apply safe_executePause; [done|]. by apply Z.eqb_neq.
    + eapply safe_seq; [apply safe_Rollback|]. intros _. by apply safe_ret.
Qed.

(** *** The reconcile *)

Lemma safe_startCanary ad : safe (startCanary ad) (λ _, True).
Proof.
  unfold startCanary. eapply safe_seq; [by apply safe_wrap, safe_get_and_delete|]. intros _.
  eapply safe_seq; [apply safe_wrap, safe_Get|]. intros latest.
  eapply safe_bind; [by apply safe_wrap, safe_StatusUpdate_ad|]. intros _ _. by apply safe_ret.
Qed.

Lemma apply_quota_state_ok qs ad : status_ok (ad_Status (apply_quota_state qs ad)) = status_ok (ad_Status ad).
Proof. by destruct qs. Qed.

Lemma apply_deployment_state_ok dep pf ad : status_ok (ad_Status ad) = true →
  status_ok (ad_Status (apply_deployment_state dep pf ad)) = true.
Proof.
  intros Hok. apply status_ok_inv in Hok as (Hs & Hw & Hi).
  assert (Hp : ∀ st p, p ∈ phases → st_CanaryWeight st = st_CanaryWeight (ad_Status ad) →
    st_CanaryStepIndex st = st_CanaryStepIndex (ad_Status ad) → st_Phase st = p → status_ok st = true).
  { intros st p Hp Hw' Hi' Hst. unfold status_ok, AgentDeploymentStatus_schema, omitempty_one_of, one_of, within.
    rewrite Hst, Hw', Hi', (bool_decide_true _ Hp), orb_true_r. simpl. rewrite !andb_true_iff.
    split_and!; apply Z.leb_le; lia. }
  unfold apply_deployment_state. destruct pf as [msg|]; [by eapply (Hp _ PhaseDegraded); [set_solver|..]|].
  destruct (rolloutComplete dep); [|by eapply (Hp _ PhasePending); [set_solver|..]].
  destruct (_ && _).
  - assert (Hsame : ∀ st, st_Phase st = st_Phase (ad_Status ad) → st_CanaryWeight st = st_CanaryWeight (ad_Status ad) →
      st_CanaryStepIndex st = st_CanaryStepIndex (ad_Status ad) → status_ok st = true).
    { intros st Hp' Hw' Hi'. unfold status_ok, AgentDeploymentStatus_schema, within in *.
      rewrite Hp', Hw', Hi', Hs. simpl. rewrite !andb_true_iff. split_and!; apply Z.leb_le; lia. }
    destruct (dep_image dep); by apply Hsame.
  - destruct (dep_image dep); by eapply (Hp _ PhaseRunning); [set_solver|..].
Qed.

Lemma safe_reconcileMCPRegistration r ad : status_ok (ad_Status ad) = true →
  safe (reconcileMCPRegistration r ad) (λ p, status_ok (ad_Status p.1) = true).
Proof.
  intros Hok. unfold reconcileMCPRegistration.
  destruct (negb (rc_has_registrar r)); [by apply safe_ret|].
  destruct (negb (mcp_Expose _)).
  { destruct (st_Registered (ad_Status ad)); [|by apply safe_ret].
    eapply safe_bind; [apply safe_try, safe_Deregister|]. intros [e|[]] _; by apply safe_ret. }
  destruct (negb (st_Phase (ad_Status ad) =s? PhaseRunning)); [by apply safe_ret|].
  destruct (st_Registered (ad_Status ad)).
  - eapply safe_bind; [apply safe_try, safe_Heartbeat|]. intros [e|[]] _; [|by apply safe_ret].
    cbv zeta. apply safe_ret. simpl. by destruct (is_heartbeat_deregistered e).
  - eapply safe_bind; [apply safe_try, safe_Register|]. intros [e|[]] _; by apply safe_ret.
Qed.

Lemma safe_updateStatus r ad qs : safe (updateStatus r ad qs) (λ _, True).
Proof.
  unfold updateStatus. eapply safe_seq; [apply safe_get_opt|]. intros [dep|]; [|by apply safe_ret].
  eapply safe_bind; [apply safe_get_opt_ad|]. intros [prev|] Hok; [|by apply safe_ret]. cbv zeta.
  eapply safe_seq.
  { unfold detectImagePullFailure, ListMatching. apply safe_wrap.
    eapply safe_seq; [apply safe_wrap|intros pods; by apply safe_ret].
    eapply safe_seq; [apply safe_List|]. intros pods. by apply safe_ret. }
  intros pf. eapply safe_bind; [apply safe_reconcileMCPRegistration, apply_deployment_state_ok|].
  { apply status_ok_of in Hok. by destruct qs. }
  intros [latest d] Hst. simpl in Hst.
  eapply safe_seq.
  { destruct (bool_decide _); [by apply safe_ret|]. eapply safe_any, safe_wrap, safe_StatusUpdate_ad, Hst. }
  intros x. destruct (_ =s? PhasePending); [by apply safe_ret|].
  destruct (0 <? d); by apply safe_ret.
Qed.

Lemma safe_reconcileHPA ad : safe (reconcileHPA ad) (λ _, True).
Proof.
  unfold reconcileHPA. destruct (_ =s? PhaseRolloutInProgress); [by apply safe_ret|].
  eapply safe_seq; [apply safe_get_opt|]. intros [tq|]; [|by apply safe_ret].
  eapply safe_seq.
  { apply safe_wrap. unfold replicasUsedByOtherAgents. eapply safe_seq; [apply safe_wrap, safe_List|].
    intros l. by apply safe_ret. }
  intros used. cbv zeta. eapply safe_seq.
  { apply safe_wrap, safe_lift. destruct (SetControllerReference ad _) eqn:E; [|done].
    exact (SetControllerReference_np _ _ _ E). }
  intros desired. eapply safe_seq; [|intros _; by apply safe_ret].
  apply safe_wrap, safe_CreateOrUpdate; [done|]. intros x e. unfold mutate_capped_hpa.
  destruct (SetControllerReference ad _) eqn:E; [|done]. intros [= <-]. rewrite is_panic_Errorf.
  exact (SetControllerReference_np _ _ _ E).
Qed.

Lemma safe_reconcile_children r ad : safe (reconcile_children r ad) (λ _, True).
Proof.
  unfold reconcile_children.
  eapply safe_seq.
  { apply safe_wrap, safe_wrap, safe_CreateOrUpdate; [done|]. intros x e. apply own_np. }
  intros _. eapply safe_seq; [apply safe_wrap, safe_CreateOrUpdate; [done|]; intros x e; apply own_np|].
  intros _. eapply safe_seq.
  { apply safe_wrap. unfold reconcileServiceMonitor. destruct (negb _); [by apply safe_ret|].
    apply safe_CreateOrUpdate; [done|]. intros x e. apply own_np. }
  intros _. eapply safe_seq; [apply safe_wrap, safe_reconcileHPA|]. intros [res qs].
  eapply safe_seq; [apply safe_wrap, safe_updateStatus|]. intros x. by apply safe_ret.
Qed.

Lemma safe_reconcile_live r ad : agent_ok ad = true → safe (reconcile_live r ad) (λ _, True).
Proof.
  intros Hok. unfold reconcile_live. destruct (rc_CanaryController r) as [c|]; [|apply safe_reconcile_children].
  destruct (isAbortRequested ad).
  { eapply safe_seq; [apply safe_wrap, safe_Rollback|]. intros _. by apply safe_ret. }
  destruct (_ =s? PhaseRolloutInProgress); [by apply safe_wrap, safe_Step|].
  destruct (isCanaryTriggered ad); [|apply safe_reconcile_children].
  eapply safe_seq; [apply safe_wrap, safe_startCanary|]. intros _. by apply safe_ret.
Qed.

Lemma safe_Reconcile r req : safe (Reconcile r req) (λ _, True).
Proof.
  unfold Reconcile. eapply safe_bind; [apply safe_get_opt_ad|]. intros [ad|] Hok; [|by apply safe_ret].
  destruct (om_DeletionTimestamp (ad_Meta ad)).
  - eapply safe_seq; [|intros _; by apply safe_ret].
    destruct (ContainsFinalizer _ _); [|by apply safe_ret].
    eapply safe_seq.
    { apply safe_wrap. unfold runDeletionCleanup. destruct (rc_has_registrar r); [|by apply safe_ret].
      apply safe_wrap, safe_Deregister. }
    intros _. eapply safe_seq; [by apply safe_wrap, safe_Update_ad|]. intros _. by apply safe_ret.
  - eapply (safe_bind _ _ (λ x, agent_ok x = true)); [|intros x; apply safe_reconcile_live].
    destruct (ContainsFinalizer _ _); [by apply safe_ret|].
    eapply safe_seq; [by apply safe_wrap, safe_Update_ad|]. intros _. apply safe_wrap, safe_Get_ad.
Qed.

(** C11: the operator keeps the schema and never panics.  In a cluster whose
    AgentDeployments satisfy the schema of their type, have no pause of zero
    and carry a weight and a step index a rollout can have, a reconcile of any
    object, whether it succeeds or fails at any of its calls, leaves all of
    them so: no status it writes is refused by the [Enum] of the phase, and the
    weight stays within 0 and 100.  The error it returns is never that of a
    panic: no step index is out of range, no nil timestamp is dereferenced and
    no division is by zero. *)
Theorem reconcile_keeps_schema r req w res w' :
  cluster_ok w → Reconcile r req w = (res, w') →
  cluster_ok w' ∧ ∀ e, res = inl e → is_panic e = false.
Proof.
  intros Hw Hr. destruct (safe_Reconcile r req w res w' Hw Hr) as [Hw' He]. split; [done|].
  intros e ->. exact He.
Qed.
End safe_rules.

(** ** What the schema gives the other theorems *)
Section bounds.
Context `{CoreTypes}.

(** The bounds that the quota theorems assume of specs and quotas are those of
    the schema. *)
Lemma AgentDeploymentSpec_schema_bounds s : AgentDeploymentSpec_schema s = true →
  1 ≤ sp_Min (spec_Replicas s) ∧ 1 ≤ sp_Max (spec_Replicas s) ∧ is_int32 (sp_Max (spec_Replicas s)) ∧
  spec_TenantRef s ≠ "".
Proof.
  unfold AgentDeploymentSpec_schema, ScalingPolicy_schema, within. intros Hs. zbool.
  split_and!; try lia; [ints|by apply str_eqb_false].
Qed.

(** A step that schema and webhook let through sets a weight between 0 and 100
    or is a pause, never both and never neither: the branch of [Step] that
    rolls back on a malformed step is for objects that bypassed them. *)
Lemma admitted_step_wf ad step : AgentDeploymentSpec_schema (ad_Spec ad) = true →
  spec_wf (ad_Spec ad) → ro_Strategy (spec_Rollout (ad_Spec ad)) = "Canary" →
  step ∈ ro_Steps (spec_Rollout (ad_Spec ad)) →
  (∃ weight, step = {| cs_SetWeight := Some weight; cs_Pause := None |} ∧ 0 ≤ weight ≤ 100) ∨
  ∃ pause, step = {| cs_SetWeight := None; cs_Pause := Some pause |}.
Proof.
  unfold AgentDeploymentSpec_schema, RolloutPolicy_schema. rewrite !andb_true_iff.
  intros [_ [[_ Hf] _]] (_ & Hc & _) Hstr Hin. destruct (Hc Hstr) as (_ & Hwf & _).
  rewrite list.Forall_forall in Hwf. rewrite forallb_forall in Hf.
  specialize (Hwf step Hin). apply list_elem_of_In, Hf in Hin.
  unfold step_wf in Hwf. destruct step as [[weight|] [pause|]]; simpl in *.
  - by destruct Hwf as [[_ ?]|[? _]].
  - left. exists weight. unfold CanaryStep_schema, within in Hin. simpl in Hin. by zbool.
  - right. by exists pause.
  - by destruct Hwf as [[[? ?] _]|[_ [? ?]]].
Qed.
End bounds.

(** ** Witnesses *)
Section witnesses.
#[local] Existing Instance Ref.core.
#[local] Existing Instance Ref.conditions.

Definition agent_objects_ok (w : world) : bool :=
  forallb (λ o, match o with OAgentDeployment ad => agent_ok ad | _ => true end) (map_to_list (store w)).*2.

Lemma cluster_ok_decided w : agent_objects_ok w = true → cluster_ok w.
Proof.
  intros Hw k ad Hk. unfold agent_objects_ok in Hw. rewrite forallb_forall in Hw.
  apply (Hw (OAgentDeployment ad)). apply list_elem_of_In, list_elem_of_fmap.
  exists (KAgentDeployment, k, OAgentDeployment ad). split; [done|]. by apply elem_of_map_to_list.
Qed.

(** A registrar that always succeeds. *)
Definition quiet_registrar : AgentRegistrar world := {|
  Register _ := mret tt; Deregister _ := mret tt; Heartbeat _ := mret tt |}.
#[local] Existing Instance quiet_registrar.

Lemma quiet_registrar_laws : AgentRegistrarLaws (W := world).
Proof. by split; intros ad w r w' [= _ <-]. Qed.

Lemma world_no_panics : @NoPanics Ref.core world rw_client rw_prometheus quiet_registrar.
Proof.
  split; simpl.
  - intros k w e w'. unfold rw_get. case_match; by intros [= <- _].
  - intros kd ns w e w'. by unfold rw_list.
  - intros o w e w'. unfold rw_create. repeat case_match; by intros [= <- _].
  - intros o w e w'. unfold rw_update. repeat case_match; by intros [= <- _].
  - intros o w e w'. unfold rw_status_update. repeat case_match; by intros [= <- _].
  - intros o w e w'. unfold rw_delete. repeat case_match; by intros [= <- _].
  - intros o f w e w'. unfold rw_create_or_update. destruct (f _) eqn:Hf; [intros [= <- _] Hnp; by eapply Hnp|].
    repeat case_match; by intros [= <- _].
  - done.
  - intros q w e w'. case_match; by intros [= <- _].
  - done.
  - done.
  - done.
Qed.

Lemma reconcile_keeps_schema_witness :
  ∃ res w', Reconcile demo_reconciler (nn failing_agent) (agent_world failing_agent) = (res, w') ∧
    st_Phase (ad_Status failing_agent) = PhaseRolloutInProgress ∧ cluster_ok w'.
Proof.
  assert (Hw : cluster_ok (agent_world failing_agent))
    by (apply cluster_ok_decided; vm_compute; reflexivity).
  destruct (Reconcile demo_reconciler (nn failing_agent) (agent_world failing_agent)) as [res w'] eqn:E.
  exists res, w'. split; [reflexivity|]. split; [reflexivity|].
  exact (proj1 (@reconcile_keeps_schema Ref.core world rw_client rw_laws Ref.conditions rw_prometheus
    quiet_registrar world_no_panics rw_prometheus_laws quiet_registrar_laws demo_reconciler _ _ _ _ Hw E)).
Defined.

(** A pause of zero, which nothing refuses, divides by zero when too few
    requests were seen and the clock of this replica is behind the one that
    started the pause. *)
Definition zero_pause_world : world :=
  set_metrics (Some {| PromRef.count := f64_of_Z 1; PromRef.errors := f64_of_Z 0; PromRef.p99 := f64_of_Z 0 |})
    (rollout_world 0 (demo_rollout 0 0 (Some (10 * Second)) [{| cs_SetWeight := None; cs_Pause := Some 0 |}])).

Example zero_pause_panics :
  match (executePause demo_controller (demo_rollout 0 0 None []) 0 0 zero_pause_world).1 with
  | inl e => is_panic e
  | inr _ => false
  end = true.
Proof. vm_compute. reflexivity. Qed.
End witnesses.
