(* ===== verification/Roles.v ===== *)
(** The rights of the operator: the role the RBAC markers of [src/cmd/main.go] and
    [src/internal/controller] ask for, and the kinds the scheme knows ([init] of
    [src/cmd/main.go] and of [src/api/v1alpha1]). *)
From S2P Require Import Prelude Types Objects Cluster.

(** ** Rules *)

Inductive Verb := VGet | VList | VWatch | VCreate | VUpdate | VPatch | VDelete.
#[export] Instance Verb_eq_dec : EqDecision Verb.
Proof. solve_decision. Defined.

Record PolicyRule := { pr_APIGroup : string; pr_Resource : string; pr_Verbs : list Verb }.

Definition read_verbs : list Verb := [VGet; VList; VWatch].
Definition edit_verbs : list Verb := read_verbs ++ [VCreate; VUpdate; VPatch].

(** [+kubebuilder:rbac:groups=g,resources=r,verbs=vs]; the group [core] is the
    empty one. *)
Definition rule (g r : string) (vs : list Verb) : PolicyRule :=
  {| pr_APIGroup := if g =s? "core" then "" else g; pr_Resource := r; pr_Verbs := vs |}.

Definition main_rules : list PolicyRule := [rule "" "configmaps" edit_verbs].

Definition AgentDeployment_rules : list PolicyRule := [
  rule "agentrax.io" "agentdeployments" (edit_verbs ++ [VDelete]);
  rule "agentrax.io" "agentdeployments/status" [VGet; VUpdate; VPatch];
  rule "agentrax.io" "agentdeployments/finalizers" [VUpdate];
  rule "apps" "deployments" (edit_verbs ++ [VDelete]);
  rule "autoscaling" "horizontalpodautoscalers" (edit_verbs ++ [VDelete]);
  rule "core" "services" (edit_verbs ++ [VDelete]);
  rule "core" "pods" read_verbs;
  rule "core" "events" [VCreate; VPatch];
  rule "monitoring.coreos.com" "servicemonitors" (edit_verbs ++ [VDelete]);
  rule "apiextensions.k8s.io" "customresourcedefinitions" read_verbs;
  rule "agentrax.io" "tenantquotas" read_verbs;
  rule "gateway.networking.k8s.io" "httproutes" (edit_verbs ++ [VDelete])].

Definition TenantQuota_rules : list PolicyRule := [
  rule "agentrax.io" "tenantquotas" read_verbs;
  rule "agentrax.io" "tenantquotas/status" [VGet; VUpdate; VPatch];
  rule "agentrax.io" "agentdeployments" read_verbs].

(** The ClusterRole generated from the markers. *)
Definition manager_role : list PolicyRule := main_rules ++ AgentDeployment_rules ++ TenantQuota_rules.

Record Access := { ac_Group : string; ac_Resource : string; ac_Verb : Verb }.

Definition allowed (a : Access) : bool :=
  existsb (λ r, (pr_APIGroup r =s? ac_Group a) && (pr_Resource r =s? ac_Resource a) &&
    bool_decide (ac_Verb a ∈ pr_Verbs r)) manager_role.

(** ** Kinds *)

(** The group, version and resource name of a kind. *)
Definition gvr (k : Kind) : string * string * string :=
  match k with
  | KAgentDeployment => ("agentrax.io", "v1alpha1", "agentdeployments")
  | KTenantQuota => ("agentrax.io", "v1alpha1", "tenantquotas")
  | KDeployment => ("apps", "v1", "deployments")
  | KService => ("", "v1", "services")
  | KHPA => ("autoscaling", "v2", "horizontalpodautoscalers")
  | KHTTPRoute => ("gateway.networking.k8s.io", "v1", "httproutes")
  | KServiceMonitor => ("monitoring.coreos.com", "v1", "servicemonitors")
  | KConfigMap => ("", "v1", "configmaps")
  | KPod => ("", "v1", "pods")
  | KCRD => ("apiextensions.k8s.io", "v1", "customresourcedefinitions")
  end.

Definition GroupVersion : string * string := ("agentrax.io", "v1alpha1").

(** What the [init] functions of the API types register with [SchemeBuilder]. *)
Definition SchemeBuilder : list string :=
  ["AgentDeployment"; "AgentDeploymentList"] ++ ["TenantQuota"; "TenantQuotaList"].

Definition own_kind (k : Kind) : option string :=
  match k with KAgentDeployment => Some "AgentDeployment" | KTenantQuota => Some "TenantQuota" | _ => None end.

(** What [init] adds to the scheme; of the groups of client-go those the
    operator uses. *)
Definition clientgoscheme : list (string * string) := [("", "v1"); ("apps", "v1"); ("autoscaling", "v2")].
Definition scheme : list (string * string) :=
  clientgoscheme ++
  [("autoscaling", "v2"); ("apiextensions.k8s.io", "v1"); ("monitoring.coreos.com", "v1");
   ("gateway.networking.k8s.io", "v1"); GroupVersion].

(** The kinds whose changes reach a controller: [For], [Owns] and [Watches] of
    the two [SetupWithManager]. *)
Definition agentdeployment_watches (owned : list Kind) : list Kind :=
  [KAgentDeployment] ++ owned ++ [KTenantQuota].
Definition tenantquota_watches : list Kind := [KTenantQuota; KAgentDeployment].

Definition access (sub : string) (k : Kind) (v : Verb) : Access :=
  let '(g, _, r) := gvr k in {| ac_Group := g; ac_Resource := r +:+ sub; ac_Verb := v |}.

(** The verbs on a kind that the role allows. *)
Definition may (sub : string) (k : Kind) (vs : list Verb) : bool := forallb (λ v, allowed (access sub k v)) vs.

Lemma may_forall sub k vs : may sub k vs = true → Forall (λ a, allowed a = true) (access sub k <$> vs).
Proof.
  unfold may. rewrite forallb_forall. intros Hv. apply list.Forall_forall.
  intros a (v & -> & Hin)%list_elem_of_fmap. by apply Hv, list_elem_of_In.
Qed.
