(* ===== verification/Frames.v ===== *)
(** Frames: what a handler does to the world when every call it makes respects a
    relation.

    A relation on worlds is a frame when the calls of the API client that the
    role of the operator allows, and the queries of metrics, respect it; it
    may also be respected by the registrar and by writes to the shared cells.
    The handlers respect every frame: the proofs follow their control flow once,
    for all relations. *)
From S2P Require Import Prelude Types Objects Scaling GoFloat Json JsonProps GoTime Enforcer Cluster Http PromQL Metrics.
From S2P Require Import Registry RegistryJson McpClient Registrar RefWorld RegistryProps RegistryRest Mux Webhook.
From S2P Require Import Canary QuotaController AgentReconciler Roles.

Definition respects {W A} (R : W → W → Prop) (m : Proc W A) : Prop := ∀ w r w', m w = (r, w') → R w w'.

Class CallFrame `{KubeClient W, !Prometheus W} (R : W → W → Prop) : Prop := {
  frame_preorder :: PreOrder R;
  frame_get k : may "" k.1 read_verbs = true → respects R (kube_get k);
  frame_list kd ns : may "" kd read_verbs = true → respects R (kube_list kd ns);
  frame_create o : may "" (obj_kind o) [VCreate] = true → respects R (kube_create o);
  frame_update o : may "" (obj_kind o) [VUpdate] = true → respects R (kube_update o);
  frame_status_update o : may "/status" (obj_kind o) [VUpdate] = true → respects R (kube_status_update o);
  frame_delete o : may "" (obj_kind o) [VDelete] = true → respects R (kube_delete o);
  frame_create_or_update o f : may "" (obj_kind o) (read_verbs ++ [VCreate; VUpdate]) = true →
    respects R (kube_create_or_update o f);
  frame_query q : respects R (QueryScalar q);
}.

Class RegistrarFrame `{CoreTypes, !AgentRegistrar W} (R : W → W → Prop) : Prop := {
  frame_Register ad : respects R (Register ad);
  frame_Deregister ad : respects R (Deregister ad);
  frame_Heartbeat ad : respects R (Heartbeat ad);
}.

Class CellFrame `{!SharedEnforcer W, !UsageGauge W, !SharedRegistry W, !SharedRegistrar W, !MCPClient W}
    (R : W → W → Prop) : Prop := {
  frame_set_enforcer e w : R w (set_enforcer e w);
  frame_set_gauge g w : R w (set_gauge g w);
  frame_set_registry r w : R w (set_registry r w);
  frame_set_registrar r w : R w (set_registrar r w);
  frame_Initialize ep : respects R (Initialize ep);
}.

(** ** Rules *)
Section rules.
Context {W : Type} {R : W → W → Prop} `{!PreOrder R}.

(** A step that only looks at the world, or ends in a related one. *)
Lemma respects_step {A} (m : Proc W A) : (∀ w, R w (m w).2) → respects R m.
Proof. intros Hm w r w' Hr. specialize (Hm w). by rewrite Hr in Hm. Qed.

Lemma respects_ret {A} (a : A) : respects R (mret a).
Proof. apply respects_step. intros w. simpl. reflexivity. Qed.

Lemma respects_fail {A} e : respects R (fail (A := A) e).
Proof. apply respects_step. intros w. simpl. reflexivity. Qed.

Lemma respects_bind {A B} (m : Proc W A) (f : A → Proc W B) :
  respects R m → (∀ a, respects R (f a)) → respects R (m ≫= f).
Proof.
  intros Hm Hf w r w'. apply bind_rel; [by intros ???; apply transitivity|by apply Hm|].
  intros a w1 y w2 _. apply Hf.
Qed.

Lemma respects_wrap {A} ctx (m : Proc W A) : respects R m → respects R (m <?> ctx).
Proof.
  intros Hm w r w'. unfold wrap_err. destruct (m w) as [[e|a] w1] eqn:E; intros [= <- <-]; exact (Hm _ _ _ E).
Qed.

Lemma respects_try {A} (m : Proc W A) : respects R m → respects R (try m).
Proof. intros Hm w r w'. unfold try. destruct (m w) as [x w1] eqn:E. intros [= <- <-]. exact (Hm _ _ _ E). Qed.

Lemma respects_retry `{CoreTypes, !KubeClient W, !SharedRegistry W, !RegistryJSON} n (m : Proc W unit) :
  respects R m → respects R (retry_on_conflict n m).
Proof.
  intros Hm. induction n as [|n IH]; intros w r w'; cbn [retry_on_conflict];
    destruct (m w) as [[e|a] w1] eqn:E; try (intros [= <- <-]; exact (Hm _ _ _ E)).
  destruct (IsConflict e); [|intros [= <- <-]; exact (Hm _ _ _ E)].
  intros Hr. etransitivity; [exact (Hm _ _ _ E)|exact (IH _ _ _ Hr)].
Qed.
End rules.

(** ** The typed calls *)
Section typed.
Context `{CallFrame W R}.

Lemma respects_of_object {A} `{!Resource A} o : respects R (of_object (A := A) o).
Proof. unfold of_object. destruct (prj o); [apply respects_ret|apply respects_fail]. Qed.

Context {A : Type} `{!Resource A}.

Lemma respects_Get k : may "" (kind (A := A)) read_verbs = true → respects R (Get (A := A) k).
Proof. intros Hm. apply respects_bind; [by apply frame_get|apply respects_of_object]. Qed.

Lemma respects_List ns : may "" (kind (A := A)) read_verbs = true → respects R (List (A := A) ns).
Proof. intros Hm. apply respects_bind; [by apply frame_list|intros; apply respects_ret]. Qed.

Lemma respects_Create (a : A) : may "" (kind (A := A)) [VCreate] = true → respects R (Create a).
Proof.
  intros Hm. rewrite <- (kind_inj a) in Hm. apply respects_bind; [by apply frame_create|apply respects_of_object].
Qed.

Lemma respects_Update (a : A) : may "" (kind (A := A)) [VUpdate] = true → respects R (Update a).
Proof.
  intros Hm. rewrite <- (kind_inj a) in Hm. apply respects_bind; [by apply frame_update|apply respects_of_object].
Qed.

Lemma respects_StatusUpdate (a : A) : may "/status" (kind (A := A)) [VUpdate] = true → respects R (StatusUpdate a).
Proof.
  intros Hm. rewrite <- (kind_inj a) in Hm. apply respects_bind; [by apply frame_status_update|apply respects_of_object].
Qed.

Lemma respects_Delete (a : A) : may "" (kind (A := A)) [VDelete] = true → respects R (Delete a).
Proof. intros Hm. rewrite <- (kind_inj a) in Hm. by apply frame_delete. Qed.

Lemma respects_CreateOrUpdate (a : A) f :
  may "" (kind (A := A)) (read_verbs ++ [VCreate; VUpdate]) = true → respects R (CreateOrUpdate a f).
Proof. intros Hm. rewrite <- (kind_inj a) in Hm. by apply frame_create_or_update. Qed.

Lemma respects_get_opt k ctx : may "" (kind (A := A)) read_verbs = true → respects R (get_opt (A := A) k ctx).
Proof.
  intros Hm. apply respects_bind; [by apply respects_try, respects_Get|].
  intros [e|a]; [destruct (IsNotFound e)|]; (apply respects_ret || apply respects_fail).
Qed.

Lemma respects_delete_tolerant (a : A) ctx :
  may "" (kind (A := A)) [VDelete] = true → respects R (delete_tolerant a ctx).
Proof.
  intros Hm. apply respects_bind; [by apply respects_try, respects_Delete|].
  intros [e|?]; [destruct (IsNotFound e)|]; (apply respects_ret || apply respects_fail).
Qed.

Lemma respects_get_and_delete k c1 c2 :
  may "" (kind (A := A)) (read_verbs ++ [VDelete]) = true → respects R (get_and_delete A k c1 c2).
Proof.
  unfold may. rewrite forallb_app. intros [Hr Hd]%andb_true_iff.
  apply respects_bind; [by apply respects_get_opt|].
  intros [a|]; [by apply respects_delete_tolerant|apply respects_ret].
Qed.
End typed.

Lemma respects_lift `{KubeClient W, !PreOrder (R : W → W → Prop)} {A} (x : error + A) : respects R (lift_sum x).
Proof. apply respects_step. intros w. simpl. reflexivity. Qed.
Lemma respects_Now `{KubeClient W, !PreOrder (R : W → W → Prop)} : respects R Now.
Proof. apply respects_step. intros w. simpl. reflexivity. Qed.

Create HintDb frame.
#[export] Hint Resolve @respects_ret @respects_fail @respects_lift @respects_Now @frame_query @frame_Initialize
  @frame_Register @frame_Deregister @frame_Heartbeat : frame.

(** The kind of a typed call is known, so its right is computed; the control
    flow is followed branch by branch. *)
Ltac follow_call :=
  lazymatch goal with
  | |- respects _ (Get _) => eapply respects_Get
  | |- respects _ (List _) => eapply respects_List
  | |- respects _ (Create _) => eapply respects_Create
  | |- respects _ (Update _) => eapply respects_Update
  | |- respects _ (StatusUpdate _) => eapply respects_StatusUpdate
  | |- respects _ (Delete _) => eapply respects_Delete
  | |- respects _ (CreateOrUpdate _ _) => eapply respects_CreateOrUpdate
  | |- respects _ (get_opt _ _) => eapply respects_get_opt
  | |- respects _ (delete_tolerant _ _) => eapply respects_delete_tolerant
  | |- respects _ (get_and_delete _ _ _ _) => eapply respects_get_and_delete
  end; vm_compute; reflexivity.

Ltac follow :=
  repeat (cbv zeta; intros; first
    [ solve [eauto with frame nocore typeclass_instances]
    | follow_call
    | apply respects_wrap | apply respects_try | eapply respects_bind | apply respects_retry
    | match goal with |- respects _ (match ?x with _ => _ end) => destruct x end
    | apply respects_step; intros; simpl; first
        [ reflexivity | apply frame_set_enforcer | apply frame_set_gauge | apply frame_set_registry
        | apply frame_set_registrar ] ]).

(** ** The rollout *)
Section rollout.
Context {CT : CoreTypes} {CA : ConditionsAPI} {W : Type} {KC : KubeClient W} {PR : Prometheus W}
  {AG : AgentRegistrar W} {R : W → W → Prop} {CF : CallFrame R}.

Lemma respects_Evaluate ad window : respects R (Evaluate ad window).
Proof. unfold Evaluate, build_query. follow. Qed.
#[local] Hint Resolve respects_Evaluate : frame.

Lemma respects_ensure ad c s x :
  respects R (ensureCanaryDeployment ad) ∧ respects R (ensureCanaryService ad) ∧ respects R (ensureHTTPRoute c ad s x).
Proof.
  unfold ensureCanaryDeployment, ensureCanaryService, ensureHTTPRoute. split_and!; follow.
Qed.
Lemma respects_delete ad :
  respects R (deleteCanaryDeployment ad) ∧ respects R (deleteCanaryService ad) ∧ respects R (deleteHTTPRoute ad) ∧
  respects R (PauseHPA ad) ∧ respects R (restoreHPA ad).
Proof.
  unfold deleteCanaryDeployment, deleteCanaryService, deleteHTTPRoute, PauseHPA, restoreHPA. split_and!; follow.
Qed.

Lemma respects_Rollback ad reason message : respects R (Rollback ad reason message).
Proof.
  destruct (respects_delete ad) as (? & ? & ? & ? & ?). unfold Rollback, restore_stable. follow.
Qed.
#[local] Hint Resolve respects_Rollback : frame.

Lemma respects_executeSetWeight c ad idx weight : respects R (executeSetWeight c ad idx weight).
Proof. unfold executeSetWeight. follow; apply (respects_ensure ad c). Qed.
Lemma respects_executePause c ad idx d : respects R (executePause c ad idx d).
Proof.
  unfold executePause, prom_unreachable, clear_unreachable, sample_insufficient, finish_pause. follow.
Qed.
#[local] Hint Resolve respects_executeSetWeight respects_executePause : frame.


Lemma respects_self_heal c ad : respects R (self_heal c ad).
Proof. unfold self_heal. follow; apply (respects_ensure ad c). Qed.
#[local] Hint Resolve respects_self_heal : frame.

Lemma respects_startCanary ad : respects R (startCanary ad).
Proof. unfold startCanary. follow; apply respects_delete. Qed.

(** A step of a rollout that has steps left does not promote. *)
Lemma respects_Step_pending c ad :
  st_CanaryStepIndex (ad_Status ad) < Z.of_nat (length (ro_Steps (spec_Rollout (ad_Spec ad)))) →
  respects R (Step c ad).
Proof.
  intros Hidx. unfold Step. cbv zeta. rewrite (proj2 (Z.leb_gt _ _) Hidx). unfold panic. follow.
Qed.
End rollout.
#[export] Hint Resolve @respects_Evaluate @respects_Rollback @respects_executeSetWeight @respects_executePause
  @respects_self_heal @respects_startCanary : frame.

(** ** The reconciler *)
Section reconciler.
Context {CT : CoreTypes} {CA : ConditionsAPI} {W : Type} {KC : KubeClient W} {PR : Prometheus W}
  {AG : AgentRegistrar W} {R : W → W → Prop} {CF : CallFrame R} {RF : RegistrarFrame R}.

Lemma respects_promote c ad : respects R (promote c ad).
Proof.
  unfold promote, reregister. follow; try apply respects_delete; follow.
Qed.
#[local] Hint Resolve respects_promote : frame.

Lemma respects_Step c ad : respects R (Step c ad).
Proof. unfold Step, panic. follow. Qed.
#[local] Hint Resolve respects_Step : frame.

Lemma respects_reconcileDeployment ad : respects R (reconcileDeployment ad).
Proof. unfold reconcileDeployment. follow. Qed.
Lemma respects_reconcileService ad : respects R (reconcileService ad).
Proof. unfold reconcileService. follow. Qed.
Lemma respects_reconcileServiceMonitor r ad : respects R (reconcileServiceMonitor r ad).
Proof. unfold reconcileServiceMonitor. follow. Qed.
Lemma respects_reconcileHPA ad : respects R (reconcileHPA ad).
Proof. unfold reconcileHPA, replicasUsedByOtherAgents. follow. Qed.
Lemma respects_reconcileMCPRegistration r ad : respects R (reconcileMCPRegistration r ad).
Proof. unfold reconcileMCPRegistration. follow. Qed.
#[local] Hint Resolve respects_reconcileDeployment respects_reconcileService respects_reconcileServiceMonitor
  respects_reconcileHPA respects_reconcileMCPRegistration : frame.

Lemma respects_updateStatus r ad qs : respects R (updateStatus r ad qs).
Proof. unfold updateStatus, detectImagePullFailure, ListMatching. follow. Qed.
Lemma respects_runDeletionCleanup r ad : respects R (runDeletionCleanup r ad).
Proof. unfold runDeletionCleanup. follow. Qed.
#[local] Hint Resolve respects_updateStatus respects_runDeletionCleanup : frame.

Lemma respects_Reconcile r req : respects R (Reconcile r req).
Proof. unfold Reconcile, reconcile_live, reconcile_children. follow. Qed.
End reconciler.

(** ** The shared cells *)
Section cells.
Context {CT : CoreTypes} {CA : ConditionsAPI} {W : Type} {KC : KubeClient W} {PR : Prometheus W}
  {MC : MCPClient W} {SE : SharedEnforcer W} {UG : UsageGauge W} {SR : SharedRegistry W}
  {SRr : SharedRegistrar W} {RJ : RegistryJSON} {ST : StatusErrors} {JE : JSONErrors}
  {R : W → W → Prop} {CF : CallFrame R} {LF : CellFrame R}.

Lemma respects_persist : respects R persist_if_client.
Proof. unfold persist_if_client, persistToConfigMap, persist_once. follow. Qed.
#[local] Hint Resolve respects_persist : frame.

Lemma respects_registry_Register e : respects R (registry_Register e).
Proof. unfold registry_Register. follow. Qed.
Lemma respects_registry_Deregister ns n : respects R (registry_Deregister ns n).
Proof. unfold registry_Deregister. follow. Qed.
Lemma respects_registry_Heartbeat ns n : respects R (registry_Heartbeat ns n).
Proof. unfold registry_Heartbeat. follow. Qed.
#[local] Hint Resolve respects_registry_Register respects_registry_Deregister respects_registry_Heartbeat : frame.

Lemma respects_resetFailures ns n : respects R (resetFailures ns n).
Proof. apply respects_step. intros. apply frame_set_registrar. Qed.
Lemma respects_incrementFailures ns n : respects R (incrementFailures ns n).
Proof. apply respects_step. intros. apply frame_set_registrar. Qed.
#[local] Hint Resolve respects_resetFailures respects_incrementFailures : frame.

Lemma respects_registrar_Register ad : respects R (registrar_Register ad).
Proof. unfold registrar_Register. follow. Qed.
#[local] Hint Resolve respects_registrar_Register : frame.

(** The registrar respects what its cells and calls respect. *)
#[export] Instance Registrar_frame : RegistrarFrame R.
Proof.
  split; intros ad; cbn [Register Deregister Heartbeat Registrar_instance].
  - apply respects_registrar_Register.
  - unfold registrar_Deregister. follow.
  - unfold registrar_Heartbeat, heartbeat_failed. follow.
Qed.

Lemma respects_TenantQuota_Reconcile req : respects R (TenantQuota_Reconcile req).
Proof. unfold TenantQuota_Reconcile, write_usage. follow. Qed.

Lemma respects_validateSpec dry ad old : respects R (validateSpec dry ad old).
Proof.
  unfold validateSpec. follow. apply respects_step. intros w. unfold enforcer_AdmitAndReserve.
  destruct (AdmitAndReserve _ _ _ _ _ _ _ _). apply frame_set_enforcer.
Qed.
#[local] Hint Resolve respects_validateSpec : frame.

Lemma respects_webhooks dry old ad : respects R (ValidateCreate dry ad) ∧ respects R (ValidateUpdate dry old ad).
Proof. unfold ValidateCreate, ValidateUpdate. split; follow. Qed.

Lemma respects_enqueue tq : respects R (enqueueAgentDeploymentsForTenantQuota tq).
Proof. unfold enqueueAgentDeploymentsForTenantQuota. follow. Qed.

Lemma respects_ServeHTTP off lenient req : respects R (ServeHTTP off lenient req).
Proof.
  unfold ServeHTTP, serve, Handler, handleListAgents, handleRegister, handleGetAgent,
    handleDeregisterAgentPath. follow.
Qed.

Lemma respects_sweep_tick : respects R sweep_tick.
Proof. unfold sweep_tick, persistToConfigMap, persist_once. follow. Qed.
Lemma respects_Start : respects R Start.
Proof. unfold Start, loadFromConfigMap. follow. Qed.
Lemma respects_SetupWithManager r : respects R (SetupWithManager r).
Proof. unfold SetupWithManager, serviceMonitorCRDExists. follow. Qed.
End cells.
