(* ===== verification/Rbac.v ===== *)
(** The operator has the rights it uses: an audited client records every access a
    call may make of the API server and otherwise runs a client that is given;
    the handlers run on it as they are. *)
From S2P Require Import Prelude Types Objects Scaling GoFloat Json JsonProps GoTime Enforcer Cluster Http PromQL Metrics.
From S2P Require Import Registry RegistryJson McpClient Registrar RefWorld RegistryProps RegistryRest Mux Webhook.
From S2P Require Import Canary QuotaController AgentReconciler Roles Frames.

(** ** An audited client *)

Section audit.
Context {CT : CoreTypes} {U : Type} {KC : KubeClient U} {PR : Prometheus U} {MC : MCPClient U}
  {SE : SharedEnforcer U} {UG : UsageGauge U} {SR : SharedRegistry U} {SRr : SharedRegistrar U}.

Notation audited := (U * list Access)%type.

(** Run a call of the given client and record the accesses. *)
Definition record_call {A} (l : list Access) (m : Proc U A) : Proc audited A := λ w,
  let '(r, u) := m w.1 in (r, (u, w.2 ++ l)).

Definition read_accesses (k : Kind) : list Access := access "" k <$> read_verbs.

(** A read is served by the cache of the manager, which lists and watches the
    kind, or, through the API reader, by the API server. *)
#[export] Instance audited_KubeClient : KubeClient audited := {|
  store w := store w.1;
  kube_get k := record_call (read_accesses k.1) (kube_get k);
  kube_list kd ns := record_call (read_accesses kd) (kube_list kd ns);
  kube_create o := record_call [access "" (obj_kind o) VCreate] (kube_create o);
  kube_update o := record_call [access "" (obj_kind o) VUpdate] (kube_update o);
  kube_status_update o := record_call [access "/status" (obj_kind o) VUpdate] (kube_status_update o);
  kube_delete o := record_call [access "" (obj_kind o) VDelete] (kube_delete o);
  kube_create_or_update o f :=
    record_call (read_accesses (obj_kind o) ++ [access "" (obj_kind o) VCreate; access "" (obj_kind o) VUpdate])
      (kube_create_or_update o f);
  set_controller_reference := set_controller_reference;
  clock w := clock w.1;
|}.

(** Everything else makes no access. *)
#[export] Instance audited_Prometheus : Prometheus audited := {| QueryScalar q := record_call [] (QueryScalar q) |}.
#[export] Instance audited_MCPClient : MCPClient audited := {| Initialize ep := record_call [] (Initialize ep) |}.
#[export] Instance audited_Enforcer : SharedEnforcer audited :=
  {| enforcer w := enforcer w.1; set_enforcer e w := (set_enforcer e w.1, w.2) |}.
#[export] Instance audited_Gauge : UsageGauge audited :=
  {| gauge w := gauge w.1; set_gauge g w := (set_gauge g w.1, w.2) |}.
#[export] Instance audited_Registry : SharedRegistry audited :=
  {| registry w := registry w.1; set_registry r w := (set_registry r w.1, w.2) |}.
#[export] Instance audited_Registrar : SharedRegistrar audited :=
  {| registrar w := registrar w.1; set_registrar r w := (set_registrar r w.1, w.2) |}.

(** What is recorded grows by accesses the role allows. *)
Definition authorized (w w' : audited) : Prop :=
  ∃ l, w'.2 = w.2 ++ l ∧ Forall (λ a, allowed a = true) l.

(** A procedure makes only accesses the role allows. *)
Definition permitted {A} (m : Proc audited A) : Prop := respects authorized m.

#[export] Instance authorized_preorder : PreOrder authorized.
Proof.
  split.
  - intros w. exists []. by rewrite app_nil_r.
  - intros w1 w2 w3 (l1 & E1 & H1) (l2 & E2 & H2). exists (l1 ++ l2).
    rewrite E2, E1, app_assoc. split; [done|]. by apply Forall_app.
Qed.

Lemma permitted_record {A} l (m : Proc U A) :
  Forall (λ a, allowed a = true) l → permitted (record_call l m).
Proof. intros Hl w r w'. unfold record_call. destruct (m w.1). intros [= <- <-]. by exists l. Qed.

#[export] Instance audited_CallFrame : CallFrame authorized.
Proof.
  split; [apply _|..]; intros; apply permitted_record; try done;
    match goal with H : may ?sub ?k ?vs = true |- _ => exact (may_forall sub k vs H) end.
Qed.

#[export] Instance audited_CellFrame : CellFrame authorized.
Proof. split; intros; try (exists []; simpl; by rewrite app_nil_r). by apply permitted_record. Qed.
End audit.

(** ** The handlers *)
Section handlers.
Context {CT : CoreTypes} {CA : ConditionsAPI} {U : Type} {KC : KubeClient U} {PR : Prometheus U}
  {MC : MCPClient U} {SE : SharedEnforcer U} {UG : UsageGauge U} {SR : SharedRegistry U}
  {SRr : SharedRegistrar U} {RJ : RegistryJSON} {ST : StatusErrors} {JE : JSONErrors}.
Notation audited := (U * list Access)%type.
Notation permitted := (permitted (U := U)).

(** C23: the operator has the rights it uses, and no call of it is refused for a
    missing one.  Whatever client it runs on, every access of the API server
    that the two reconcilers, the webhooks, the mapping of quotas to agents, the
    registry with its HTTP server, its sweeper and its start, and the setup of
    the controllers may make is granted by the role their RBAC markers ask for;
    so are the list and watch of every kind the controllers are set up to watch;
    and the scheme of the client knows every kind. *)
Theorem operator_authorized :
  (∀ r req, permitted (Reconcile r req)) ∧
  (∀ req, permitted (TenantQuota_Reconcile req)) ∧
  (∀ dry ad, permitted (ValidateCreate dry ad)) ∧
  (∀ dry old ad, permitted (ValidateUpdate dry old ad)) ∧
  (∀ tq, permitted (enqueueAgentDeploymentsForTenantQuota tq)) ∧
  (∀ off lenient req, permitted (ServeHTTP off lenient req)) ∧
  permitted sweep_tick ∧ permitted Start ∧
  (∀ r, permitted (SetupWithManager r)) ∧
  (∀ r (w w' : audited) r' owned k, SetupWithManager r w = (inr (r', owned), w') →
    k ∈ agentdeployment_watches owned ++ tenantquota_watches → may "" k [VList; VWatch] = true) ∧
  (∀ k, (gvr k).1 ∈ scheme ∧
    match own_kind k with Some n => n ∈ SchemeBuilder ∧ n +:+ "List" ∈ SchemeBuilder | None => True end).
Proof.
  split_and!; intros.
  - apply respects_Reconcile.
  - apply respects_TenantQuota_Reconcile.
  - by apply (respects_webhooks dry ad ad).
  - by apply respects_webhooks.
  - apply respects_enqueue.
  - apply respects_ServeHTTP.
  - apply respects_sweep_tick.
  - apply respects_Start.
  - apply respects_SetupWithManager.
  - by destruct k.
  - by destruct k; apply (bool_decide_unpack _).
Qed.
End handlers.

(** The role is not a blanket one: agents cannot be given quota by the operator,
    nor pods be created. *)
Example denied :
  allowed (access "" KTenantQuota VUpdate) = false ∧ allowed (access "" KPod VCreate) = false ∧
  allowed (access "" KConfigMap VDelete) = false.
Proof. by vm_compute. Qed.
