(* ===== verification/Discovery.v ===== *)
(** Discovery during a rollout: the reconciler of
    [src/internal/controller/agentdeployment_controller.go] returns from the
    canary step before it reaches the registration, so no heartbeat is sent as
    long as a rollout is in progress, and the registry of
    [src/internal/registry/registry.go] lets the entry of the agent expire. *)
From S2P Require Import Prelude Types Objects Scaling GoFloat Json JsonProps GoTime Enforcer Cluster Http PromQL Metrics.
From S2P Require Import Registry RegistryJson McpClient Registrar RefWorld RegistryProps RegistryRest Mux Webhook.
From S2P Require Import Canary CanaryProps QuotaController AgentReconciler AgentReconcilerProps Roles Frames.

(** The API client and the metrics client do not write to the registry: as a
    frame, [CallFrame same_registry]. *)
Definition same_registry `{SharedRegistry W} (w w' : W) : Prop := registry w' = registry w.

#[export] Instance same_registry_preorder `{SharedRegistry W} : PreOrder same_registry.
Proof. split; [by intros w|]. unfold same_registry. intros w1 w2 w3. congruence. Qed.

Section discovery.
Context {CT : CoreTypes} {CA : ConditionsAPI} {W : Type} {KC : KubeClient W} {KL : KubeLaws}
  {PR : Prometheus W} {SR : SharedRegistry W} {AG : AgentRegistrar W} {CF : CallFrame same_registry}.
Implicit Types (w : W) (req : NamespacedName) (r : AgentDeploymentReconciler).

(** The agent of the request is in a rollout that has steps left. *)
Definition mid_rollout req w : Prop := ∃ ad,
  store w !! (KAgentDeployment, req) = Some (OAgentDeployment ad) ∧
  om_DeletionTimestamp (ad_Meta ad) = None ∧
  ContainsFinalizer (ad_Meta ad) AgentDeploymentFinalizer = true ∧
  st_Phase (ad_Status ad) = PhaseRolloutInProgress ∧
  st_CanaryStepIndex (ad_Status ad) < Z.of_nat (length (ro_Steps (spec_Rollout (ad_Spec ad)))).

(** A visit of the reconciler leaves the registry alone, whether it steps the
    rollout, rolls it back or fails. *)
Lemma visit_keeps_registry r c req w res w' :
  rc_CanaryController r = Some c → mid_rollout req w → Reconcile r req w = (res, w') →
  registry w' = registry w.
Proof.
  intros Hc (ad & Hs & Hdel & Hfin & Hph & Hidx). unfold Reconcile.
  destruct (get_opt (A := AgentDeployment) req "fetching AgentDeployment" w) as [[e|o] w1] eqn:E.
  - rewrite (bind_fail _ _ _ _ _ E). intros [= _ <-].
    exact (respects_get_opt (A := AgentDeployment) _ _ eq_refl _ _ _ E).
  - pose proof (respects_get_opt (A := AgentDeployment) _ _ eq_refl _ _ _ E : same_registry _ _) as H1.
    rewrite (bind_step _ _ _ _ _ E). apply get_opt_run in E as (Hw1 & Ho & _).
    change (store w !! (KAgentDeployment, req) = inj <$> o) in Ho. rewrite Hs in Ho.
    destruct o as [ad'|]; [|done]. injection Ho as <-. rewrite Hdel, Hfin. intros Hr.
    rewrite <- H1. revert Hr. unfold mbind at 1, Proc_bind at 1, mret, Proc_ret. unfold reconcile_live.
    rewrite Hc, Hph, str_eqb_refl. destruct (isAbortRequested ad) eqn:Ea.
    + apply (respects_bind (R := same_registry)); [apply respects_wrap, respects_Rollback|].
      intros; apply respects_ret.
    + apply (respects_wrap (R := same_registry)). by apply respects_Step_pending.
Qed.

(** What happens while the rollout goes on: visits of the reconciler to the
    agent, and anything that does not register it. *)
Inductive during r req : W → W → Prop :=
  | during_visit w res w' :
      mid_rollout req w → Reconcile r req w = (res, w') → during r req w w'
  | during_other w w' :
      (∀ e, rg_entries (registry w') !! key (nn_Namespace req) (nn_Name req) = Some e →
        rg_entries (registry w) !! key (nn_Namespace req) (nn_Name req) = Some e) →
      rg_defaultTTL (registry w') = rg_defaultTTL (registry w) → during r req w w'.

Lemma during_entry r c req w w' :
  rc_CanaryController r = Some c → rtc (during r req) w w' →
  rg_defaultTTL (registry w') = rg_defaultTTL (registry w) ∧
  ∀ e, rg_entries (registry w') !! key (nn_Namespace req) (nn_Name req) = Some e →
    rg_entries (registry w) !! key (nn_Namespace req) (nn_Name req) = Some e.
Proof.
  intros Hc Hr. induction Hr as [w|w w1 w2 Hd _ [IHt IHe]]; [done|].
  assert (Ht : rg_defaultTTL (registry w1) = rg_defaultTTL (registry w) ∧
    ∀ e, rg_entries (registry w1) !! key (nn_Namespace req) (nn_Name req) = Some e →
      rg_entries (registry w) !! key (nn_Namespace req) (nn_Name req) = Some e).
  { destruct Hd as [w res w1 Hroll Hv|]; [|done]. by rewrite (visit_keeps_registry r c req w res w1 Hc Hroll Hv). }
  destruct Ht as [Ht He]. split; [congruence|]. auto.
Qed.

(** C35: a rollout takes the agent out of discovery.  The registry entry of an
    agent that is in a rollout is not refreshed: whatever the reconciler does on
    its visits, and whatever else happens short of registering the agent, once
    the TTL has passed since the last heartbeat before the rollout, clients that
    look the agent up get nothing, although its stable version serves all
    along.  The default TTL is 90 seconds; a single pause may last fifteen
    minutes. *)
Theorem rollout_loses_registration r c req e w w' :
  rc_CanaryController r = Some c → rtc (during r req) w w' →
  rg_entries (registry w) !! key (nn_Namespace req) (nn_Name req) = Some e →
  effective_ttl (registry w) e < clock w' - en_HeartbeatAt e ≤ MaxInt64 →
  registry_Get (nn_Namespace req) (nn_Name req) (clock w') (registry w') = None.
Proof.
  intros Hc Hr He Ht. destruct (during_entry r c req w w' Hc Hr) as [Httl Hsub].
  unfold registry_Get. destruct (rg_entries (registry w') !! _) as [e'|] eqn:E; [|done].
  specialize (Hsub e' eq_refl). rewrite He in Hsub. injection Hsub as <-.
  replace (stale (registry w') (clock w') e) with true; [done|]. symmetry. apply Z.ltb_lt.
  unfold effective_ttl in *. rewrite Httl. unfold time_Sub. ints.
Qed.
End discovery.

(** ** A rollout with a long pause *)
Section witness.
#[local] Existing Instance Ref.core.
#[local] Existing Instance Ref.conditions.
#[local] Existing Instance Ref.conditions_laws.

#[local] Instance world_frame : CallFrame (W := world) same_registry.
Proof.
  split; [apply _|..]; intros; intros w r w'; unfold same_registry; cbn;
    unfold rw_get, rw_list, rw_create, rw_update, rw_status_update, rw_delete, rw_create_or_update;
    repeat case_match; intros [= <- <-]; done.
Qed.

(** The agent during the pause of its rollout, registered at time 0. *)
Definition paused_agent : AgentDeployment :=
  live_agent [AgentDeploymentFinalizer] None "img:v1" true
    {| st_Phase := PhaseRolloutInProgress; st_CurrentReplicas := 1; st_StableVersion := "img:v0";
       st_CanaryVersion := "img:v1"; st_CanaryWeight := 20; st_CanaryStepIndex := 1;
       st_PauseStartedAt := Some 0; st_PromUnreachableSince := None; st_Registered := true;
       st_Conditions := [] |}.

Definition its_entry : Entry :=
  {| en_Namespace := "ns"; en_Name := "agent"; en_Endpoint := "http://agent.ns.svc:8080"; en_Tools := [];
     en_RegisteredAt := 0; en_HeartbeatAt := 0; en_TTL := 0 |}.

Definition paused_world : world :=
  rw_set_registry (register_entry its_entry 0 (NewRegistry true "" 0)) (agent_world paused_agent).

Lemma rollout_loses_registration_witness :
  ∃ w', registry_Get "ns" "agent" 0 (registry paused_world) ≠ None ∧
    registry_Get "ns" "agent" (91 * Second) (registry w') = None.
Proof.
  destruct (Reconcile demo_reconciler (NN "ns" "agent") paused_world) as [res w1] eqn:E.
  exists (rw_set_clock (91 * Second) w1). split; [vm_compute; discriminate|].
  refine (rollout_loses_registration demo_reconciler demo_controller (NN "ns" "agent")
    {| en_Namespace := "ns"; en_Name := "agent"; en_Endpoint := "http://agent.ns.svc:8080"; en_Tools := [];
       en_RegisteredAt := 0; en_HeartbeatAt := 0; en_TTL := DefaultTTL |}
    paused_world (rw_set_clock (91 * Second) w1) eq_refl _ _ _).
  - eapply rtc_l; [eapply during_visit; [|exact E]|apply rtc_once, during_other; [done|reflexivity]].
    exists paused_agent. split; [|split; [reflexivity|split; [vm_compute; reflexivity|split; reflexivity]]].
    change (store (agent_world paused_agent) !! k_ad paused_agent = Some (OAgentDeployment paused_agent)).
    apply agent_world_stored; [discriminate|reflexivity].
  - vm_compute. reflexivity.
  - vm_compute. split; [reflexivity|discriminate].
Defined.
End witness.
