(* ===== verification/Requeue.v ===== *)
(** When the reconciler comes back: what the [Result] of a reconcile asks the
    work queue for ([src/internal/controller/agentdeployment_controller.go],
    [src/internal/rollout/canary.go]).  The bound of [CanaryLiveness] counts
    visits; here every visit that leaves work to do asks for the next one. *)
From S2P Require Import Prelude Types Objects Scaling GoFloat Json JsonProps GoTime Enforcer Cluster Http PromQL Metrics.
From S2P Require Import Registry RegistryJson McpClient Registrar RefWorld RegistryProps RegistrarProps RegistryRest Mux Webhook.
From S2P Require Import Canary CanaryProps CanaryLiveness QuotaController AgentReconciler AgentReconcilerProps Roles Frames Discovery.

(** The calls of the clients take time: as a frame, [CallFrame later]. *)
Definition later `{KubeClient W} (w w' : W) : Prop := clock w ≤ clock w'.

#[export] Instance later_preorder `{KubeClient W} : PreOrder later.
Proof. split; unfold later; [intros w; lia|intros w1 w2 w3; lia]. Qed.

(** The reconciler is asked back after a while of at most [d]. *)
Definition back_within (d : Z) (res : Result) : Prop := 0 < RequeueAfter res ≤ d.

Lemma back_weaken d d' res : d ≤ d' → back_within d res → back_within d' res.
Proof. unfold back_within. lia. Qed.

Lemma shorter_requeue_back d hr sres : back_within d sres → back_within d (shorter_requeue hr sres).
Proof.
  unfold back_within, shorter_requeue. intros [H1 H2].
  destruct (0 <? RequeueAfter hr) eqn:E1, (RequeueAfter sres =? 0) eqn:E2,
    (RequeueAfter hr <? RequeueAfter sres) eqn:E3, (0 <? RequeueAfter sres) eqn:E4; zbool; simpl; lia.
Qed.

(** ** Rollouts *)
Section rollout.
Context {CT : CoreTypes} {CA : ConditionsAPI} {CL : ConditionsLaws} {W : Type}
  {KC : KubeClient W} {KL : KubeLaws} {PR : Prometheus W} {PL : PrometheusLaws}
  {AR : AgentRegistrar W} {AL : AgentRegistrarLaws} {CF : CallFrame later}.
Implicit Types (ad x : AgentDeployment) (w : W) (c : Controller) (r : AgentDeploymentReconciler).

(** The longest a visit to the rollout waits: its longest pause, or the ten
    seconds between two attempts to reach Prometheus. *)
Definition longest_wait ad : Z :=
  foldr (λ s, Z.max (default 0 (cs_Pause s))) (10 * Second) (steps_of ad).

(** Pauses have a length.  The webhook lets a pause of zero through as well; such
    a visit asks for no other one, and [Schema.zero_pause_panics] is about it. *)
Definition pauses_positive ad : Prop :=
  Forall (λ s, ∀ d, cs_Pause s = Some d → 0 < d ≤ MaxInt64) (steps_of ad).

Lemma longest_wait_ge ad step d :
  step ∈ steps_of ad → cs_Pause step = Some d → d ≤ longest_wait ad.
Proof.
  unfold longest_wait. intros Hin Hd. induction (steps_of ad) as [|s l IH]; [by apply not_elem_of_nil in Hin|].
  cbn [foldr]. apply elem_of_cons in Hin as [<-|Hin]; [rewrite Hd; simpl|specialize (IH Hin)]; lia.
Qed.

Lemma longest_wait_10 ad : 10 * Second ≤ longest_wait ad.
Proof. unfold longest_wait. induction (steps_of ad); simpl; lia. Qed.

(** What is left of a pause, or of its current round. *)
Lemma rest_of_pause d elapsed :
  0 < d ≤ MaxInt64 → 0 ≤ elapsed →
  0 < int64 (d - go_rem elapsed d) ≤ d ∧ (elapsed < d → 0 < int64 (d - elapsed) ≤ d).
Proof.
  intros Hd He. pose proof (Z.rem_bound_pos elapsed d He ltac:(lia)). unfold go_rem.
  rewrite int64_id by ints. split; [lia|]. intros. rewrite int64_id by ints. lia.
Qed.

Lemma executePause_back c ad idx dur w res w' x :
  canary_deletable ad w → stored_ad ad w = Some ad → 0 < dur ≤ MaxInt64 →
  (∀ s, st_PauseStartedAt (ad_Status ad) = Some s → s ≤ clock w) →
  executePause c ad idx dur w = (inr res, w') →
  store w' !! k_ad ad = Some (OAgentDeployment x) → st_Phase (ad_Status x) = PhaseRolloutInProgress →
  back_within (Z.max (10 * Second) dur) res.
Proof.
  intros Hdel Hst Hd Hs Hr Hx Hph. apply executePause_run in Hr as (latest & Hl & Hv); [|done].
  rewrite Hst in Hl. injection Hl as <-. unfold back_within.
  destruct (st_PauseStartedAt (ad_Status ad)) as [s|] eqn:Hps; [|destruct Hv as [-> _]; simpl; lia].
  destruct Hv as (w1 & ev & w2 & _ & _ & Hv). unfold pause_verdict in Hv. rewrite Hps in Hv. simpl default in Hv.
  assert (He : 0 ≤ time_Sub (clock w) s) by (specialize (Hs s eq_refl); unfold time_Sub; ints).
  destruct (rest_of_pause dur _ Hd He) as [Hb1 Hb2].
  assert (Hno : ∀ reason, ¬ rolled_back ad reason w')
    by (intros reason; by eapply in_progress_not_rolled_back).
  assert (0 < Second) by done.
  repeat case_match; zbool; destruct Hv as [Hv1 Hv2]; try (by destruct (Hno _ Hv1)); subst res; cbn [RequeueAfter requeue_after]; lia.
Qed.

Lemma Step_back c ad w res w' x :
  canary_deletable ad w → stored_ad ad w = Some ad → in_rollout ad → pauses_positive ad →
  (∀ s, st_PauseStartedAt (ad_Status ad) = Some s → s ≤ clock w) →
  Step c ad w = (inr res, w') →
  store w' !! k_ad ad = Some (OAgentDeployment x) → st_Phase (ad_Status x) = PhaseRolloutInProgress →
  back_within (longest_wait ad) res.
Proof.
  intros Hdel Hst Hin Hpos Hs Hr Hx Hph. unfold Step in Hr.
  apply bind_inr in Hr as ([] & w1 & Hheal & Hr).
  pose proof (self_heal_deletable _ _ _ _ _ Hheal Hdel) as Hdel1.
  pose proof (respects_self_heal (R := later) _ _ _ _ _ Hheal) as Ht.
  assert (Hst1 : stored_ad ad w1 = Some ad).
  { rewrite <- Hst. apply stored_ad_frame. eapply self_heal_run; [exact Hheal|].
    rewrite !not_elem_of_cons. split_and!; try discriminate. apply not_elem_of_nil. }
  cbv zeta in Hr. destruct (Z.of_nat _ <=? _).
  { apply bind_inr in Hr as ([] & w2 & Hp & Hr). injection Hr as <- <-. destruct Hdel1 as (?&?&?).
    apply promote_run in Hp as (_ & _ & _ & latest & z & _ & Hz & _ & Hpr); [|done..].
    rewrite Hx in Hz. injection Hz as <-. destruct Hpr as [Hp _]. by rewrite Hph in Hp. }
  destruct (_ <? 0); [by run|].
  destruct (ro_Steps _ !! _) as [step|] eqn:Hstep; [|by run].
  apply list_elem_of_lookup_2 in Hstep. pose proof (longest_wait_10 ad) as H10.
  destruct (cs_SetWeight step) as [weight|]; [|destruct (cs_Pause step) as [dur|] eqn:Hdur].
  - apply executeSetWeight_run in Hr as (-> & _). unfold back_within, requeue_after, Second in *. simpl. lia.
  - eapply executePause_back in Hr; [|done..|apply (proj1 (list.Forall_forall _ _) Hpos _ Hstep _ Hdur)|
      intros s Es; specialize (Hs s Es); unfold later in Ht; lia|done|done].
    pose proof (longest_wait_ge ad step dur Hstep Hdur). eapply back_weaken; [|done]. lia.
  - apply bind_inr in Hr as ([] & w2 & Hrb & Hr). injection Hr as <- <-. exfalso.
    eapply in_progress_not_rolled_back; [done..|]. eapply Rollback_rolled_back; [reflexivity|done|exact Hrb].
Qed.

(** ** The reconciler *)

(** Putting the finalizer on takes time too. *)
Lemma Reconcile_live_later r ad w res w' :
  store w !! k_ad ad = Some (OAgentDeployment ad) → om_DeletionTimestamp (ad_Meta ad) = None →
  Reconcile r (nn ad) w = (inr res, w') →
  ∃ ad1 w1, settled ad w ad1 w1 ∧ later w w1 ∧ reconcile_live r ad1 w1 = (inr res, w').
Proof.
  intros Had Hdel. unfold Reconcile. intros (o & w1 & Hg & Hr)%bind_inr.
  pose proof (respects_get_opt (R := later) (A := AgentDeployment) _ _ eq_refl _ _ _ Hg) as H1.
  apply get_opt_run in Hg as (Hs1 & Ho & _).
  change (kind (A := AgentDeployment), nn ad) with (k_ad ad) in Ho. rewrite Had in Ho.
  destruct o as [ad'|]; [|done]. injection Ho as <-. rewrite Hdel in Hr.
  apply bind_inr in Hr as (ad1 & w2 & Hf & Hr). exists ad1, w2.
  apply add_finalizer_run in Hf as Hset; [|by rewrite Hs1|done].
  split; [unfold settled in *; by rewrite Hs1 in Hset|]. split; [|done].
  transitivity w1; [done|]. revert Hf. destruct (ContainsFinalizer _ _);
    match goal with |- ?m w1 = _ → _ => cut (respects later m) end; [eauto|follow|eauto|follow].
Qed.

(** A running agent that is exposed is visited again for its heartbeat. *)
Lemma registration_back r ad w x d w' :
  rc_has_registrar r = true → mcp_Expose (spec_MCP (ad_Spec ad)) = true →
  st_Phase (ad_Status ad) = PhaseRunning →
  reconcileMCPRegistration r ad w = (inr (x, d), w') → d = requeueInterval r.
Proof.
  intros Hreg He Hp. unfold reconcileMCPRegistration, mbind, Proc_bind, try, mret, Proc_ret.
  rewrite Hreg, He, Hp, str_eqb_refl. cbn [negb].
  destruct (st_Registered _); [destruct (Heartbeat ad w) as [[e|[]] w1]|destruct (Register ad w) as [[e|[]] w1]];
    by intros [= <- <- <-].
Qed.

(** The requeue of the status update is the one its phase calls for. *)
Lemma status_back r ad dep prev qs w sres w' x :
  status_outcome r ad dep prev qs w sres w' → stored_ad ad w' = Some x →
  st_Phase (ad_Status prev) ≠ PhaseRolloutInProgress →
  (st_Phase (ad_Status x) = PhasePending → back_within (5 * Second) sres) ∧
  (st_Phase (ad_Status x) = PhaseRunning → rc_has_registrar r = true →
    mcp_Expose (spec_MCP (ad_Spec prev)) = true → back_within (requeueInterval r) sres) ∧
  st_Phase (ad_Status x) ≠ PhaseRolloutInProgress.
Proof.
  intros (pull & w1 & l & d & w2 & y & _ & _ & (w3 & Hm) & (_ & _ & Hp & _) & Hy & _ & Hst & _ & Hres & _) Hx Hprev.
  rewrite Hx in Hy. injection Hy as <-.
  assert (Hph : st_Phase (ad_Status x) = st_Phase (ad_Status l)) by (by destruct Hst as [->| ->]).
  unfold back_within. rewrite Hph, Hres. split_and!.
  - intros ->. rewrite str_eqb_refl. unfold Second. lia.
  - intros Hrun Hreg He. rewrite Hrun. simpl str_eqb. pose proof (requeueInterval_pos r).
    eapply registration_back in Hm as ->; [|done| |by rewrite <- Hp]; [simpl; lia|].
    by rewrite (proj2 (observed_same _ _ _ _)).
  - rewrite Hp. unfold observed, apply_deployment_state. destruct pull; [done|].
    destruct (rolloutComplete dep); [|done]. destruct (dep_image dep), (_ && _); simpl; try done; by destruct qs.
Qed.

Lemma children_back r ad w res w' x :
  st_Phase (ad_Status ad) ≠ PhaseRolloutInProgress →
  store w !! k_ad ad = Some (OAgentDeployment ad) →
  reconcile_children r ad w = (inr res, w') → stored_ad ad w' = Some x →
  (st_Phase (ad_Status x) = PhasePending → back_within (5 * Second) res) ∧
  (st_Phase (ad_Status x) = PhaseRunning → rc_has_registrar r = true →
    mcp_Expose (spec_MCP (ad_Spec ad)) = true → back_within (requeueInterval r) res) ∧
  st_Phase (ad_Status x) ≠ PhaseRolloutInProgress.
Proof.
  intros Hp Had Hr Hx. unfold reconcile_children in Hr.
  apply write_children_run in Hr as (hr & qs & w4 & Hch & Hr); [|done].
  destruct Hch as (d & s & _ & _ & Hd4 & _ & _ & _ & _ & H4).
  apply bind_inr in Hr as (sres & w5 & Hst%wrap_err_inr & Hr). injection Hr as <- <-.
  assert (Had4 : store w4 !! k_ad ad = Some (OAgentDeployment ad)) by (rewrite H4; [done|other_kind]).
  pose proof (updateStatus_run _ _ _ _ _ _ _ _ Hd4 Had4 Hst) as Hout.
  destruct (status_back _ _ _ _ _ _ _ _ _ Hout Hx Hp) as (H1 & H2 & H3).
  split_and!; eauto using shorter_requeue_back.
Qed.

(** What a visit does to a rollout in progress, aborted or not. *)
Lemma rollout_back r c ad w res w' x :
  rc_CanaryController r = Some c → canary_deletable ad w →
  store w !! k_ad ad = Some (OAgentDeployment ad) → in_rollout ad → pauses_positive ad →
  (∀ s, st_PauseStartedAt (ad_Status ad) = Some s → s ≤ clock w) →
  reconcile_live r ad w = (inr res, w') → stored_ad ad w' = Some x →
  (st_Phase (ad_Status x) = PhaseRolloutInProgress → back_within (longest_wait ad) res) ∧
  st_Phase (ad_Status x) ≠ PhasePending.
Proof.
  intros Hc Hdel Had Hin Hpos Hs Hr Hx. pose proof Hin as [Hp _]. unfold reconcile_live in Hr. rewrite Hc in Hr.
  rewrite <- stored_ad_Some in Had. destruct (isAbortRequested ad).
  - apply bind_inr in Hr as ([] & w1 & Hrb%wrap_err_inr & Hr). injection Hr as <- <-.
    eapply Rollback_rolled_back in Hrb as (_ & _ & _ & y & cond & Hy & Hf & _); [|reflexivity|done].
    rewrite Hx in Hy. injection Hy as <-. by rewrite Hf.
  - rewrite Hp, str_eqb_refl in Hr. apply wrap_err_inr in Hr. split.
    + intros Hph. rewrite stored_ad_Some in Hx. by eapply Step_back.
    + destruct (Step_run _ _ _ _ _ Hdel Had Hin Hr) as (y & Hy & Ho). rewrite Hx in Hy. injection Hy as <-.
      destruct Ho as [[Hq _]|_ [Hq _]|Hq]; by rewrite Hq.
Qed.

(** A visit outside a rollout starts one, or sees to the children. *)
Lemma idle_back r c ad w res w' x :
  rc_CanaryController r = Some c → st_Phase (ad_Status ad) ≠ PhaseRolloutInProgress →
  store w !! k_ad ad = Some (OAgentDeployment ad) →
  reconcile_live r ad w = (inr res, w') → stored_ad ad w' = Some x →
  (st_Phase (ad_Status x) = PhaseRolloutInProgress → back_within (5 * Second) res) ∧
  (st_Phase (ad_Status x) = PhasePending → back_within (5 * Second) res) ∧
  (isCanaryTriggered ad = false → st_Phase (ad_Status x) = PhaseRunning → rc_has_registrar r = true →
    mcp_Expose (spec_MCP (ad_Spec ad)) = true → back_within (requeueInterval r) res).
Proof.
  intros Hc Hp Had Hr Hx. unfold reconcile_live in Hr. rewrite Hc in Hr.
  unfold isAbortRequested in Hr. pose proof (proj2 (str_eqb_false _ _) Hp) as Hpb. rewrite Hpb, andb_false_r in Hr.
  destruct (isCanaryTriggered ad).
  - apply bind_inr in Hr as ([] & w1 & _ & Hr). injection Hr as <- <-. by split_and!.
  - destruct (children_back _ _ _ _ _ _ Hp Had Hr Hx) as (H1 & H2 & H3). split_and!; [done|done|auto].
Qed.

(** The finalizer does not touch the rollout. *)
Lemma settled_rollout ad w ad1 w1 :
  settled ad w ad1 w1 →
  store w1 !! k_ad ad1 = Some (OAgentDeployment ad1) ∧ ad_Status ad1 = ad_Status ad ∧
  ad_Spec ad1 = ad_Spec ad ∧ (∀ w', stored_ad ad1 w' = stored_ad ad w') ∧
  (in_rollout ad → canary_deletable ad w → in_rollout ad1 ∧ canary_deletable ad1 w1).
Proof.
  intros Hset. destruct (settled_keys _ _ _ _ Hset) as (Ha & _ & _ & _ & Had1).
  destruct Hset as (Hn & Hsp & Hst & _ & _ & Hs). split_and!; try done.
  - intros w'. unfold stored_ad. by rewrite Ha.
  - intros Hin Hd. split; [unfold in_rollout; by rewrite Hsp, Hst|].
    unfold canary_deletable, k_canary_dep, k_canary_svc, k_route in *. rewrite Hn, (nn_canary _ _ Hn).
    destruct Hd as (H1 & H2 & H3). split_and!; (eapply deletable_frame; [|eassumption]);
      rewrite Hs, lookup_insert_ne by discriminate; done.
Qed.

End rollout.

(** ** A visit during a pause *)
Section witness.
#[local] Existing Instance Ref.core.
#[local] Existing Instance Ref.conditions.
#[local] Existing Instance Ref.conditions_laws.

#[local] Instance world_later : CallFrame (W := world) later.
Proof.
  split; [apply _|..]; intros; intros w r w'; unfold later; cbn;
    unfold rw_get, rw_list, rw_create, rw_update, rw_status_update, rw_delete, rw_create_or_update;
    repeat case_match; intros [= <- <-]; reflexivity.
Qed.

End witness.
